(* ===== verification/_CoqProject ===== *)
-Q . S2P
Prelude.v
Protowire.v
Proto.v
Utf8.v
GoStrings.v
VPath.v
Values.v
ValueCodec.v
Repr.v
CodecSpec.v
CodecRoundtrip.v
CodecSound.v
CodecTotal.v
ValueFacts.v
Frame.v
FrameQueue.v
Exceptions.v
Traceback.v
Events.v
EventFacts.v
Requests.v
MountPath.v
Utf8Facts.v
OverlayState.v
MountTable.v
HostFs.v
Direct.v
Overlay.v
OverlayRename.v
MountLogic.v
MountSafety.v
MountWriting.v
TreeHost.v
MountServe.v
OverlayEffects.v
Descriptors.v
MountEnds.v
MountErrors.v
PoolErrors.v
Monterr.v
Print.v
Stop.v
SessionLife.v
SessionSteps.v
SessionInv.v
SessionMoves.v
SessionStops.v
SessionClosing.v
SessionFacts.v
SessionErrors.v
Rotation.v
Answer.v
HostObjects.v
Budget.v
Lease.v
Pool.v
PoolFacts.v
Checkout.v
CheckoutFacts.v
CheckoutStream.v
CheckoutOps.v
CheckoutEnds.v
Dict.v
DictFacts.v
OsAccess.v
OsAccessFacts.v
