(* ===== verification/Prelude.v ===== *)
(** * A verification of montygo

    montygo is a Go client for Monty, a sandboxed Python interpreter that runs
    as a worker process, a WebAssembly module or a remote server. The host sends
    requests to a worker and receives events from it, in frames of protobuf
    messages; it keeps workers in a pool, gives each session a budget, and
    serves the sandbox's file-system calls from mounts. On top of the pool a
    session runs code, answers the calls it makes to host functions, is stopped,
    paused, moved to another connection and closed. This library models that
    core from the sources under src, src/internal, src/monterr and src/sandbox,
    and proves what makes it correct.

    ** The parts of the program and their files

    - The wire format (src/internal/wire).
      Protowire.v: the third-party module google.golang.org/protobuf/encoding/
      protowire is not part of the repository; the class [Protowire] lists the
      functions the code calls, [ProtowireLaws] their documented behaviour, and
      [pwref] is an instance for which every law is proved, so no theorem over
      the class is vacuous.
      Proto.v: proto.go. The [reader] with its sticky error is a record passed
      through every call; [field_loop] and [each_field] are the source's
      [for { num, typ, ok := r.next(); ... }] with the length of the input as
      fuel (every field consumes a byte, [field_loop] never runs out), [checked]
      is the test of [r.err] after the loop.
      Values.v: the value types of src/internal/value as one inductive type,
      with depth.go, filemode.go, file handles and timedeltas.
      Dict.v: dict.go and pytype.go, Python equality with dicts and sets; whether
      two Go pointers are the same is a parameter. DictFacts.v has the reference
      relation [py_eq].
      ValueCodec.v: value_codec.go, one definition per function; the recursion
      of [decodeValue] is bounded by the nesting limit, which is its fuel.
      Repr.v: repr.go, Python's and Rust's representations of values.
      Frame.v: frame.go over a stream that delivers bytes and then an error.
      Exceptions.v, Traceback.v: exception_codec.go and exception.go.
      Events.v, Requests.v: event.go, oscall.go and request.go.
    - Paths and mounts (src/internal/value/vpath.go, src/internal/mountfs).
      VPath.v: virtual paths, with a stack machine on segments as specification.
      MountPath.v: pathpolicy.go, mode.go and the error values of errors.go.
      Utf8.v: Go's UTF-8 decoding and utf8.go, which reproduces Rust's errors.
      OverlayState.v: overlay_state.go, the copy-on-write store of an overlay
      mount with its memory account in saturating uint64 arithmetic.
      MountTable.v: table.go over any executors ([execute], [handle]).
      HostFs.v: host.go and the classification of errors in errors.go. What the
      operating system answers to each call on an os.Root or os.File is the class
      [Host]; programs run in a monad over the mount, the state of the host and a
      log of the calls made. Direct.v: direct.go. Overlay.v: overlay.go, the whole
      copy-on-write executor, with the updates of a rename in OverlayRename.v.
      MountErrors.v: the Python exceptions of errors.go and Table.HandleOsCall.
      MountLogic.v is a program logic for these executors, MountSafety.v and
      MountWriting.v its instances for every function, MountServe.v,
      OverlayEffects.v, Descriptors.v and MountEnds.v the theorems; TreeHost.v is
      a host in a map on which everything can be run.
    - The pool (src/internal/pool).
      Budget.v: budget.go, the deadline of a turn and the account of a session.
      PoolErrors.v: errors.go and the exit status of src/internal/worker.
      Lease.v: lease.go and observer_lifecycle.go.
      Pool.v: pool.go and reservation.go; each definition is one section of code
      under the pool's mutex, returning [Stuck] where a channel send would block
      with the mutex held or panic. PoolFacts.v: the goroutines as a transition
      system whose steps are those sections in any order.
      Checkout.v: checkout.go, the turn engine, and the rest of reservation.go.
      The engine is a program in a state and error monad; the answers of the
      worker and the terminations by other goroutines are a script it consumes,
      what it does to the outside is a trace. CheckoutFacts.v has a calculus of
      weakest preconditions and the specification of one turn, CheckoutStream.v
      the turns that go through, CheckoutOps.v the abstract session machine and
      CheckoutEnds.v the account of the worker that is given back.
      FrameQueue.v: the queue of src/internal/worker/worker.go between the
      goroutine that reads frames and the callers of Recv.
    - The sandbox's own operating system (src/sandbox/osaccess).
      OsAccess.v: osaccess.go, file.go and the dispatch of ops.go; directories
      and files are objects in a store, as the code shares them by pointer.
      OsAccessFacts.v: the view of a store as a map from paths to nodes.

      Print.v: print.go, with the print target of src/session.go.
      HostObjects.v: policies, wrapped instances, the store of instances and the
      registry of src/sandbox/host (classinstance.go, host.go).
    - The public package (src, src/monterr).
      Monterr.v: monterr/errors.go, every error type as a constructor of one type,
      with [errors.Is] and [errors.As] on it.
      Stop.v: the stop policies of options.go and the stop requests of stop.go.
      SessionLife.v: the state of a session and every critical section of
      lifecycle.go, stop.go, session_control.go and snapshot.go, as programs of a
      monad that panics where Go does (closing a channel twice) and collects
      what is done after the mutex is released. SessionSteps.v: the goroutines of
      a session (runner, stop watcher, control operations, closers, the watcher
      of the worker) as a transition system whose steps are those sections in
      any order. SessionInv.v: its invariant, with a calculus of weakest
      preconditions; SessionMoves.v, SessionStops.v and SessionClosing.v: every
      section keeps it; SessionFacts.v: the theorems.
      SessionErrors.v: mapError of session.go, the errors of pool.go, slots, and
      the limits of runtime.go.
      Answer.v: answer.go and drive of session.go, over a world that answers for
      host code, the lifecycle and the checkout at every effect.
      Rotation.v: rotation.go, supervisor.go and serverinfo.go.

    Shared vocabulary is in this file (bytes, machine integers with their
    wrap-around, Go errors, the error monad, tactics) and in GoStrings.v (the
    functions of Go's strings, strconv and unicode packages that the code uses).

    ** What the theorems show

    - The value codec (contract in CodecSpec.v): encoding and decoding are inverse
      up to [canon], the documented loss ([value_roundtrip], [decode_reencode]);
      decoding is total ([decodeValue_recursion]) and sound on arbitrary, also
      hostile, bytes within its memory budget ([decode_sound]). The proofs are by
      induction on values and on the decoder's depth, with one lemma per field of
      each message.
    - The turn engine: every operation refines the session machine whatever the
      worker answers ([operation_refines]), a worker leaves its checkout once
      ([worker_given_back_once]), output is streamed in order ([turn_streams]), the
      suspension limit holds ([turn_over_limit]). [rejected_feed_marks_cwd] shows
      how a rejected feed loses the working directory.
    - Values (ValueFacts.v): the nesting check is sound for types without
      attributes ([depth_check_sound]) and can be evaded with them
      ([depth_check_skips_builtin_attrs]); timedeltas and file modes.
      [Equal] decides Python's equality ([equal_decides_python_equality]) and a dict
      is a map up to it ([dict_is_map]), except for named tuples and values that
      hold pointers ([equal_departs_from_python]).
    - Frames, exceptions, events, requests: round trips, exact classification of
      errors ([next_classifies], [request_encodes_iff]), soundness of the event
      decoder ([event_decode_sound]), tracebacks ([render_shows_all]).
    - Paths and text: normalisation refines a stack machine
      ([normalize_virtual_path]), mount paths are confined ([resolve_confined]),
      the UTF-8 checks agree with Go's own ([utf8_check_spec], [lossy_utf8]).
    - Mounts, whatever the host answers and when: limits and the store's account
      hold over any sequence of calls and nothing panics ([mounts_within_limits]);
      calls to the host stay below the mount and only read-write mounts change it
      ([host_calls_confined]); overlay calls are all or nothing with a definite
      update ([overlay_calls_all_or_nothing]), the store shadows the host
      ([store_shadows_host]) and reads see the last write
      ([overlay_reads_last_write]); descriptors are closed
      ([descriptors_closed]); calls end on hosts whose reads make progress
      ([mount_calls_end]). Routing is longest-prefix ([find_mount_longest]) and
      outcomes are exact ([table_outcomes]). The store by itself:
      [overlay_invariant], [overlay_insert], [prefix_keys_exact].
    - Budget, lease and observer: [observe_account], [deadline_tightens],
      [lease_single_winner], [observer_closed_once].
    - The pool over all interleavings: capacity ([pool_capacity]), progress of
      every mutex section ([pool_never_stuck]), no lost wake-up
      ([no_lost_wakeup]). [reservation_retry_unsafe] is about reservations that
      are retried: runs that exceed the capacity, deadlock, and panic.
    - The frame queue over all interleavings is a bounded first-in first-out
      channel ([queue_fifo_bounded]) that loses no wake-up
      ([queue_no_lost_wakeup]).
    - The in-memory file system refines updates of a map from paths to nodes
      ([os_operations_refine]) as long as no file is renamed;
      [unlink_removes_other_file] shows what unlinking a renamed file does.

    - Sessions over all interleavings of their goroutines: nothing panics
      ([session_never_panics]), no waiter is stranded
      ([open_channels_have_closers]), the worker has one owner
      ([worker_has_one_owner]), a session ends once ([session_ends_once]), every
      stop is settled by its watcher and the clock ([every_stop_settles]), a
      finished run reports what it should ([finish_reports]); failures end a
      session exactly when they took its worker ([failures_map]); stop policies
      only shorten ([stop_deadlines]).
    - Host calls: a suspension is settled once, with user code called at most
      once inside a callback ([suspension_settled_once]), and names with a leading
      underscore never reach host code ([private_names_hidden],
      [objects_confined]); the store keeps what an ID stands for
      ([store_identifies]); printed text arrives as its lines
      ([lines_are_the_text], [collector_bounded]); exceptions cross the boundary
      and back ([exceptions_cross]) and their classes form a hierarchy
      ([class_hierarchy]).
    - Rotation and recovery: a turn on a connection that is not due ends before
      the server's deadline ([rotation_protects_turns]), a rotation moves the
      state or says what became of it ([rotation_moves_state]), dialing is bounded
      ([recovery_bounded]) and a server is restarted once per incident
      ([one_restart_per_incident]).

    ** Bounds and fuel

    Loops that are not structural take fuel from a bound of the source: the
    length of the input for readers, UTF-8 and path scans, the nesting limit for
    [decodeValue], the component limit for [isOverlong], the number of decimal
    digits for durations, the number of directories for the walks over a tree
    that [contains] and [rebasePaths] make, the nesting of a value for [Equal], the length of the script for the
    loop of a turn, each round of which consumes an answer (a turn whose script
    is used up is waiting, an outcome of its own). [decodeValue_recursion],
    [next_classifies], [utf8_check_spec] and the lemmas [no_fuel], [calm] of
    Proto.v and [Equal_unfold] of DictFacts.v show that fuel is never spent. Lengths of Go slices are below 2^63,
    which appears as a hypothesis where an int is computed from a length.
    Memory limits below 2^64 - 1 are assumed where saturation would hide a total,
    and limits of at most 2^40 bytes for the mounts of a table, so that the sums a
    rename plans cannot saturate. Loops that go on for as long as the host gives
    them something (reading a file, listing a directory) have a fuel of their own
    and hang, an outcome of its own, when it is spent: safety theorems hold for
    every fuel, and [mount_calls_end] gives one that is enough for reads. [drive]
    takes the number of turns of a feed as fuel, since the worker decides how
    often it suspends.

    ** Not modelled

    Opening the directory of a mount; the entry points of the public package that
    only compose the operations above; host classes, the conversion of Go values
    and the calling of Go functions, which work by reflection; telemetry; the
    supervisors that start processes and containers; the I/O of worker transports
    (processes, wazero, WebSockets) and of HTTP requests; files whose content is a
    callback; the host clock; and the generated protobuf package. Tables of Go's
    library (printable runes, shortest float digits) are parameters. Floats are
    their bit patterns and modification times are opaque; goroutines are
    interleavings of mutex sections, and memory-model effects outside the mutexes
    are not considered. *)

From stdpp Require Export base tactics list gmap strings.
From Stdlib Require Export ZArith Lia Bool Strings.Byte.

(** ** Bytes, strings and slices *)

Abbreviation byte := Byte.byte.
Abbreviation bytes := (list Byte.byte).

#[export] Instance byte_eq_decision : EqDecision byte := Byte.byte_eq_dec.

#[export] Program Instance byte_countable : Countable byte :=
  {| encode b := encode (Byte.to_N b);
     decode p := n ← decode p; Byte.of_N n |}.
Next Obligation.
  intros b. cbn. rewrite decode_encode. cbn. apply Byte.of_to_N.
Qed.

Declare Scope go_scope.
Delimit Scope go_scope with go.
Open Scope Z_scope.

(** A Go string or []byte literal. *)
Definition go (s : string) : bytes := String.list_byte_of_string s.

(** Go's [len] of a slice or string, as an [int]. *)
Definition len {A} (l : list A) : Z := Z.of_nat (length l).

(** The numeric value of a byte and the truncating conversion [byte(z)]. *)
Definition byte_val (b : byte) : Z := Z.of_N (Byte.to_N b).

Definition byte_of (z : Z) : byte :=
  default Byte.x00 (Byte.of_N (Z.to_N (z mod 256))).

(** ** Machine integers: conversions wrap around at their width. *)

Definition uwrap (w z : Z) : Z := z mod 2 ^ w.
Definition swrap (w z : Z) : Z := (z + 2 ^ (w - 1)) mod 2 ^ w - 2 ^ (w - 1).

Definition uint8 (z : Z) : Z := uwrap 8 z.
Definition uint32 (z : Z) : Z := uwrap 32 z.
Definition uint64 (z : Z) : Z := uwrap 64 z.
Definition int32 (z : Z) : Z := swrap 32 z.
Definition int64 (z : Z) : Z := swrap 64 z.

Definition in_uint (w z : Z) : bool := (0 <=? z) && (z <? 2 ^ w).
Definition in_int (w z : Z) : bool := (- 2 ^ (w - 1) <=? z) && (z <? 2 ^ (w - 1)).

Definition MaxInt64 : Z := 2 ^ 63 - 1.
Definition MaxUint64 : Z := 2 ^ 64 - 1.

(** ** Byte order

    [le_bytes k v] are the [k] low bytes of [v], least significant first, and
    [le_val] reads them back (encoding/binary's little endian). [be_bytes] are
    the minimal big-endian bytes of a natural number (math/big's [Bytes]). *)
Fixpoint le_bytes (k : nat) (v : Z) : bytes :=
  match k with O => [] | S k => byte_of v :: le_bytes k (v / 256) end.

Fixpoint le_val (b : bytes) : Z :=
  match b with [] => 0 | x :: b => byte_val x + 256 * le_val b end.

Definition byte_count (v : Z) : nat :=
  if v <=? 0 then 0%nat else S (Z.to_nat (Z.log2 v / 8)).

Definition be_bytes (v : Z) : bytes := rev (le_bytes (byte_count v) v).
Definition be_val (b : bytes) : Z := le_val (rev b).

(** ** Errors and fallible results *)

(** An operand of a format string: a number, a string, or a rune. *)
Inductive farg := FInt (z : Z) | FStr (s : bytes) | FRune (r : Z).

(** A Go [error] value: [errors.New], [fmt.Errorf] with its operands,
    [protowire.ParseError] with its code, the typed errors of package wire, and
    a run-time panic. *)
Inductive goerror :=
| ErrNew (msg : string)
| Errorf (format : string) (args : list farg)
| ParseError (code : Z)
| ConversionError (msg : goerror)
| FrameTooLarge (flen fmax : Z)
| Panic (msg : string)
| ErrFuel.

#[export] Instance farg_eq_decision : EqDecision farg.
Proof. solve_decision. Defined.
#[export] Instance goerror_eq_decision : EqDecision goerror.
Proof. solve_decision. Defined.

Inductive result (A : Type) : Type :=
| Ok (a : A)
| Err (e : goerror).
Arguments Ok {A} a.
Arguments Err {A} e.

#[export] Instance result_mret : MRet result := fun _ a => Ok a.
#[export] Instance result_mbind : MBind result :=
  fun _ _ f m => match m with Ok a => f a | Err e => Err e end.

Lemma bind_Ok {A B} (m : result A) (f : A -> result B) b :
  (m ≫= f) = Ok b <-> exists a, m = Ok a /\ f a = Ok b.
Proof. destruct m as [a|e]; cbn; naive_solver. Qed.

(** ** Tactics *)

Ltac inv H := inversion H; subst; clear H.

(** Case analysis on every boolean test, match and pair of the hypothesis. *)
Ltac split_hyp H :=
  repeat (simpl in H;
    match type of H with
    | context [match ?x with _ => _ end] => destruct x eqn:?
    end; simplify_eq).

Ltac bool_lia :=
  unfold in_uint, in_int in *;
  repeat match goal with
  | H : (_ && _) = true |- _ => apply andb_true_iff in H; destruct H
  | H : (_ || _) = false |- _ => apply orb_false_iff in H; destruct H
  | H : negb _ = true |- _ => apply negb_true_iff in H
  | H : negb _ = false |- _ => apply negb_false_iff in H
  end;
  repeat rewrite ?andb_true_iff, ?orb_false_iff;
  lia.

(** ** Generic lemmas *)

Section lists.
Context {A : Type}.
Implicit Types l k : list A.

Lemma len_app l k : len (l ++ k) = len l + len k.
Proof. unfold len. rewrite length_app. lia. Qed.

Lemma len_nonneg l : 0 <= len l.
Proof. unfold len. lia. Qed.

Lemma len_cons x l : len (x :: l) = 1 + len l.
Proof. unfold len. simpl. lia. Qed.

Lemma len_nil : len (@nil A) = 0.
Proof. reflexivity. Qed.

Lemma drop_len_app l k : drop (Z.to_nat (len l)) (l ++ k) = k.
Proof. unfold len. rewrite Nat2Z.id. apply drop_app_length. Qed.

Lemma take_len_app l k : take (Z.to_nat (len l)) (l ++ k) = l.
Proof. unfold len. rewrite Nat2Z.id. apply take_app_length. Qed.
End lists.

Section integers.
Lemma uwrap_small w z : 0 <= z < 2 ^ w -> uwrap w z = z.
Proof. intros. unfold uwrap. by apply Z.mod_small. Qed.

Lemma uwrap_range w z : 0 <= w -> 0 <= uwrap w z < 2 ^ w.
Proof. intros. unfold uwrap. apply Z.mod_pos_bound. lia. Qed.

Lemma swrap_small w z :
  0 < w -> - 2 ^ (w - 1) <= z < 2 ^ (w - 1) -> swrap w z = z.
Proof.
  intros Hw Hz. unfold swrap.
  assert (2 ^ w = 2 * 2 ^ (w - 1)) as E.
  { rewrite <- Z.pow_succ_r by lia. f_equal. lia. }
  rewrite Z.mod_small by lia. lia.
Qed.

Lemma swrap_range w z :
  0 < w -> - 2 ^ (w - 1) <= swrap w z < 2 ^ (w - 1).
Proof.
  intros Hw. unfold swrap.
  assert (2 ^ w = 2 * 2 ^ (w - 1)) as E.
  { rewrite <- Z.pow_succ_r by lia. f_equal. lia. }
  pose proof (Z.mod_pos_bound (z + 2 ^ (w - 1)) (2 ^ w)). lia.
Qed.

(** Sign extension to 64 bits and truncation back is the identity:
    [int32(uint64(int64(x))) = x]. *)
Lemma swrap_uwrap w w' z :
  0 < w <= w' -> - 2 ^ (w - 1) <= z < 2 ^ (w - 1) ->
  swrap w (uwrap w' z) = z.
Proof.
  intros Hw Hz. unfold swrap, uwrap.
  assert ((2 ^ w | 2 ^ w')) as [q Hq].
  { exists (2 ^ (w' - w)). rewrite <- Z.pow_add_r by lia. f_equal. lia. }
  assert ((z mod 2 ^ w' + 2 ^ (w - 1)) mod 2 ^ w = (z + 2 ^ (w - 1)) mod 2 ^ w) as ->.
  { rewrite (Z.div_mod z (2 ^ w')) at 2 by lia.
    rewrite Hq at 2.
    replace (q * 2 ^ w * (z / 2 ^ w') + z mod 2 ^ w' + 2 ^ (w - 1))
      with (z mod 2 ^ w' + 2 ^ (w - 1) + (q * (z / 2 ^ w')) * 2 ^ w) by ring.
    by rewrite Z.mod_add by lia. }
  apply swrap_small; lia.
Qed.

Lemma int64_small z : - 2 ^ 63 <= z < 2 ^ 63 -> int64 z = z.
Proof. intros. by apply swrap_small. Qed.

Lemma int64_range z : - 2 ^ 63 <= int64 z < 2 ^ 63.
Proof. by apply (swrap_range 64). Qed.

Lemma int32_small z : - 2 ^ 31 <= z < 2 ^ 31 -> int32 z = z.
Proof. intros. by apply swrap_small. Qed.

Lemma int32_range z : - 2 ^ 31 <= int32 z < 2 ^ 31.
Proof. by apply (swrap_range 32). Qed.

Lemma int32_uint64 z : - 2 ^ 31 <= z < 2 ^ 31 -> int32 (uint64 z) = z.
Proof. intros. by apply swrap_uwrap. Qed.

Lemma uint64_range z : 0 <= uint64 z < 2 ^ 64.
Proof. by apply uwrap_range. Qed.

Lemma in_int64_spec z : in_int 64 z = true <-> - 2 ^ 63 <= z < 2 ^ 63.
Proof. unfold in_int. rewrite andb_true_iff, Z.leb_le, Z.ltb_lt. done. Qed.
End integers.

Section byte_lemmas.
Lemma byte_val_range b : 0 <= byte_val b < 256.
Proof. unfold byte_val. pose proof (Byte.to_N_bounded b). lia. Qed.

Lemma byte_of_val z : byte_val (byte_of z) = z mod 256.
Proof.
  unfold byte_of, byte_val.
  destruct (Byte.of_N (Z.to_N (z mod 256))) as [b|] eqn:E; cbn.
  - apply Byte.to_of_N in E. rewrite E.
    pose proof (Z.mod_pos_bound z 256). lia.
  - apply Byte.of_N_None_iff in E. pose proof (Z.mod_pos_bound z 256). lia.
Qed.

Lemma byte_val_inj a b : byte_val a = byte_val b -> a = b.
Proof.
  unfold byte_val. intros H%N2Z.inj.
  pose proof (Byte.of_to_N a) as Ha. pose proof (Byte.of_to_N b) as Hb.
  rewrite H in Ha. congruence.
Qed.

Lemma byte_of_byte_val b : byte_of (byte_val b) = b.
Proof.
  apply byte_val_inj. rewrite byte_of_val. apply Z.mod_small, byte_val_range.
Qed.
End byte_lemmas.

Section byte_order.
Lemma le_val_bytes k v : 0 <= v < 256 ^ Z.of_nat k -> le_val (le_bytes k v) = v.
Proof.
  revert v. induction k as [|k IH]; intros v Hv; [cbn in *; lia|]. cbn -[Z.mul].
  rewrite byte_of_val, IH.
  - pose proof (Z.div_mod v 256). lia.
  - rewrite Nat2Z.inj_succ, Z.pow_succ_r in Hv by lia.
    split; [apply Z.div_pos; lia | apply Z.div_lt_upper_bound; lia].
Qed.

Lemma length_le_bytes k v : length (le_bytes k v) = k.
Proof. revert v. induction k as [|k IH]; intros v; cbn; auto. Qed.

Lemma le_val_range b : 0 <= le_val b < 256 ^ len b.
Proof.
  induction b as [|x b IH]; [change (0 <= 0 < 1); lia|].
  rewrite len_cons, Z.pow_add_r by (pose proof (len_nonneg b); lia).
  change (le_val (x :: b)) with (byte_val x + 256 * le_val b).
  pose proof (byte_val_range x). lia.
Qed.

Lemma le_bytes_val b : le_bytes (length b) (le_val b) = b.
Proof.
  induction b as [|x b IH]; [done|]. cbn -[Z.mul]. pose proof (byte_val_range x). f_equal.
  - apply byte_val_inj. rewrite byte_of_val, Z.mul_comm, Z.mod_add by lia.
    by apply Z.mod_small.
  - rewrite Z.mul_comm, Z.div_add, Z.div_small by lia. exact IH.
Qed.

Lemma byte_count_bound v : 0 <= v -> v < 256 ^ Z.of_nat (byte_count v).
Proof.
  intros Hv. unfold byte_count. destruct (Z.leb_spec v 0); [change (v < 1); lia|].
  rewrite Nat2Z.inj_succ, Z2Nat.id by (apply Z.div_pos; [apply Z.log2_nonneg|lia]).
  pose proof (Z.log2_spec v ltac:(lia)) as [_ Hs].
  eapply Z.lt_le_trans; [exact Hs|]. change 256 with (2 ^ 8). rewrite <- Z.pow_mul_r.
  - apply Z.pow_le_mono_r; [lia|]. pose proof (Z.div_mod (Z.log2 v) 8 ltac:(lia)).
    pose proof (Z.mod_pos_bound (Z.log2 v) 8). lia.
  - lia.
  - pose proof (Z.log2_nonneg v). pose proof (Z.div_pos (Z.log2 v) 8). lia.
Qed.

Lemma be_val_bytes v : 0 <= v -> be_val (be_bytes v) = v.
Proof.
  intros Hv. unfold be_val, be_bytes. rewrite rev_involutive.
  apply le_val_bytes. split; [done|]. by apply byte_count_bound.
Qed.

Lemma be_val_nonneg b : 0 <= be_val b.
Proof. unfold be_val. apply le_val_range. Qed.
End byte_order.

Create HintDb monty discriminated.
#[export] Hint Resolve len_nonneg byte_val_range : monty.
#[export] Hint Rewrite @len_app @len_cons @len_nil : len.
