(* ===== verification/Protowire.v ===== *)
(** The interface of [google.golang.org/protobuf/encoding/protowire], the
    third-party package the codec of src/internal/wire is written on.  Its
    functions are the fields of the class [Protowire]; the documented behaviour
    the codec relies on is the class [ProtowireLaws].  [pwref] is one concrete
    instance that satisfies the laws: it shows they can hold together and lets
    the codec be evaluated. *)

From S2P Require Import Prelude.

(** Wire types, as the codec names them. *)
Definition VarintType : Z := 0.
Definition Fixed64Type : Z := 1.
Definition BytesType : Z := 2.

Class Protowire := {
  AppendTag : bytes -> Z -> Z -> bytes;
  AppendVarint : bytes -> Z -> bytes;
  AppendFixed64 : bytes -> Z -> bytes;
  AppendBytes : bytes -> bytes -> bytes;
  AppendString : bytes -> bytes -> bytes;
  ConsumeTag : bytes -> Z * Z * Z;
  ConsumeVarint : bytes -> Z * Z;
  ConsumeFixed64 : bytes -> Z * Z;
  ConsumeBytes : bytes -> bytes * Z;
  ConsumeFieldValue : Z -> Z -> bytes -> Z;
  EncodeZigZag : Z -> Z;
  DecodeZigZag : Z -> Z;
  EncodeBool : bool -> Z
}.

(** Field numbers and wire types a tag can carry. *)
Definition valid_tag (num typ : Z) : Prop :=
  1 <= num < 2 ^ 29 /\ (typ = VarintType \/ typ = Fixed64Type \/ typ = BytesType).

(** What the package documents: the append functions append, a consume
    function inverts the matching append and returns the length consumed, a
    negative length reports an error, a non-negative one stays inside the
    input. *)
Class ProtowireLaws (PW : Protowire) : Prop := {
  append_tag_app b num typ : AppendTag b num typ = b ++ AppendTag [] num typ;
  append_varint_app b v : AppendVarint b v = b ++ AppendVarint [] v;
  append_fixed64_app b v : AppendFixed64 b v = b ++ AppendFixed64 [] v;
  append_bytes_app b v : AppendBytes b v = b ++ AppendVarint [] (len v) ++ v;
  append_string_app b v : AppendString b v = b ++ AppendVarint [] (len v) ++ v;
  consume_tag_append num typ rest : valid_tag num typ ->
    ConsumeTag (AppendTag [] num typ ++ rest) = (num, typ, len (AppendTag [] num typ));
  consume_varint_append v rest : 0 <= v < 2 ^ 64 ->
    ConsumeVarint (AppendVarint [] v ++ rest) = (v, len (AppendVarint [] v));
  consume_fixed64_append v rest : 0 <= v < 2 ^ 64 ->
    ConsumeFixed64 (AppendFixed64 [] v ++ rest) = (v, len (AppendFixed64 [] v));
  consume_bytes_append v rest : len v < 2 ^ 63 ->
    ConsumeBytes (AppendVarint [] (len v) ++ v ++ rest)
      = (v, len (AppendVarint [] (len v)) + len v);
  consume_tag_bound b num typ n :
    ConsumeTag b = (num, typ, n) -> 0 <= n -> 1 <= n <= len b;
  consume_varint_bound b v n :
    ConsumeVarint b = (v, n) -> 0 <= n -> 1 <= n <= len b /\ 0 <= v < 2 ^ 64;
  consume_fixed64_bound b v n :
    ConsumeFixed64 b = (v, n) -> 0 <= n -> 1 <= n <= len b /\ 0 <= v < 2 ^ 64;
  consume_bytes_bound b v n :
    ConsumeBytes b = (v, n) -> 0 <= n -> n <= len b /\ len v < n;
  consume_field_bound num typ b :
    0 <= ConsumeFieldValue num typ b -> ConsumeFieldValue num typ b <= len b;
  zigzag_range x : - 2 ^ 63 <= x < 2 ^ 63 -> 0 <= EncodeZigZag x < 2 ^ 64;
  zigzag_roundtrip x : - 2 ^ 63 <= x < 2 ^ 63 -> DecodeZigZag (EncodeZigZag x) = x;
  unzigzag_range v : 0 <= v < 2 ^ 64 -> - 2 ^ 63 <= DecodeZigZag v < 2 ^ 63;
  encode_bool_eq b : EncodeBool b = if b then 1 else 0
}.

(** ** A reference instance *)

Module Ref.

(** Base-128 digits, least significant first; [fuel] 10 covers 64 bits. *)
Fixpoint put_varint (fuel : nat) (v : Z) : bytes :=
match fuel with
| O => []
| S fuel =>
  if v <? 128 then [byte_of v]
  else byte_of (v mod 128 + 128) :: put_varint fuel (v / 128)
end.

Fixpoint get_varint (fuel : nat) (b : bytes) : option (Z * Z) :=
match fuel, b with
| S fuel, x :: b =>
  if byte_val x <? 128 then Some (byte_val x, 1)
  else match get_varint fuel b with
       | Some (v, n) => Some (byte_val x - 128 + 128 * v, n + 1)
       | None => None
       end
| _, _ => None
end.

Definition consume_varint (b : bytes) : Z * Z :=
match get_varint 10 b with
| Some (v, n) => if v <? 2 ^ 64 then (v, n) else (0, -3)
| None => (0, -1)
end.

Definition consume_fixed64 (b : bytes) : Z * Z :=
if len b <? 8 then (0, -1) else (le_val (take 8 b), 8).

Definition consume_bytes (b : bytes) : bytes * Z :=
let '(v, n) := consume_varint b in
if n <? 0 then ([], n)
else if len b <? n + v then ([], -1)
else (take (Z.to_nat v) (drop (Z.to_nat n) b), n + v).

Definition consume_tag (b : bytes) : Z * Z * Z :=
let '(v, n) := consume_varint b in
if n <? 0 then (0, 0, n)
else if (v / 8 <? 1) || (2 ^ 29 <=? v / 8) then (0, 0, -2)
else (v / 8, v mod 8, n).

Definition consume_field (num typ : Z) (b : bytes) : Z :=
if typ =? 0 then snd (consume_varint b)
else if typ =? 1 then snd (consume_fixed64 b)
else if typ =? 2 then snd (consume_bytes b)
else if typ =? 5 then (if len b <? 4 then -1 else 4)
else -4.

Definition zigzag (x : Z) : Z := if x <? 0 then - 2 * x - 1 else 2 * x.
Definition unzigzag (v : Z) : Z :=
if v mod 2 =? 0 then v / 2 else - (v / 2) - 1.

End Ref.

Definition pwref : Protowire := {|
  AppendTag b num typ := b ++ Ref.put_varint 10 (num * 8 + typ);
  AppendVarint b v := b ++ Ref.put_varint 10 v;
  AppendFixed64 b v := b ++ le_bytes 8 v;
  AppendBytes b v := b ++ Ref.put_varint 10 (len v) ++ v;
  AppendString b v := b ++ Ref.put_varint 10 (len v) ++ v;
  ConsumeTag := Ref.consume_tag;
  ConsumeVarint := Ref.consume_varint;
  ConsumeFixed64 := Ref.consume_fixed64;
  ConsumeBytes := Ref.consume_bytes;
  ConsumeFieldValue := Ref.consume_field;
  EncodeZigZag := Ref.zigzag;
  DecodeZigZag := Ref.unzigzag;
  EncodeBool b := if b then 1 else 0
|}.

Section pwref_laws.
Import Ref.

Lemma put_get_varint fuel v rest :
  0 <= v < 128 ^ Z.of_nat fuel -> (0 < fuel)%nat ->
  get_varint fuel (put_varint fuel v ++ rest) = Some (v, len (put_varint fuel v)).
Proof.
  revert v. induction fuel as [|fuel IH]; intros v Hv Hf; [lia|]. cbn -[Z.pow].
  destruct (Z.ltb_spec v 128) as [Hlt|Hge].
  - cbn. rewrite byte_of_val, Z.mod_small by lia.
    destruct (Z.ltb_spec v 128); [done|lia].
  - assert (0 < fuel)%nat.
    { destruct fuel; [|lia]. change (128 ^ Z.of_nat 1) with 128 in Hv. lia. }
    pose proof (Z.mod_pos_bound v 128). cbn. rewrite byte_of_val, Z.mod_small by lia.
    destruct (Z.ltb_spec (v mod 128 + 128) 128); [lia|].
    rewrite IH; [|split; [apply Z.div_pos; lia|]|done].
    + rewrite len_cons. do 2 f_equal; [|lia]. pose proof (Z.div_mod v 128). lia.
    + apply Z.div_lt_upper_bound; [lia|].
      rewrite Nat2Z.inj_succ, Z.pow_succ_r in Hv by lia. lia.
Qed.

Lemma get_varint_bound fuel b v n :
  get_varint fuel b = Some (v, n) -> 1 <= n <= len b /\ 0 <= v.
Proof.
  revert b v n. induction fuel as [|fuel IH]; intros [|x b] v n; cbn; try done.
  pose proof (byte_val_range x). rewrite len_cons. pose proof (len_nonneg b).
  destruct (Z.ltb_spec (byte_val x) 128); [intros; simplify_eq; lia|].
  destruct (get_varint fuel b) as [[v' n']|] eqn:E; [|done].
  apply IH in E. intros; simplify_eq. lia.
Qed.

Lemma consume_varint_ref v rest : 0 <= v < 2 ^ 64 ->
  consume_varint (put_varint 10 v ++ rest) = (v, len (put_varint 10 v)).
Proof.
  intros Hv. unfold consume_varint. rewrite put_get_varint by lia.
  destruct (Z.ltb_spec v (2 ^ 64)); [done|lia].
Qed.

Lemma consume_varint_ref_bound b v n :
  consume_varint b = (v, n) -> 0 <= n -> 1 <= n <= len b /\ 0 <= v < 2 ^ 64.
Proof.
  unfold consume_varint. destruct (get_varint 10 b) as [[v' n']|] eqn:E.
  - apply get_varint_bound in E.
    destruct (Z.ltb_spec v' (2 ^ 64)); intros; simplify_eq; lia.
  - intros; simplify_eq; lia.
Qed.

Lemma consume_bytes_ref_bound b v n :
  consume_bytes b = (v, n) -> 0 <= n -> n <= len b /\ len v < n.
Proof.
  unfold consume_bytes. destruct (consume_varint b) as [w k] eqn:E.
  destruct (Z.ltb_spec k 0); [intros; simplify_eq; lia|].
  apply consume_varint_ref_bound in E; [|lia].
  destruct (Z.ltb_spec (len b) (k + w)); intros; simplify_eq; [lia|].
  split; [lia|]. unfold len in *. rewrite length_take, length_drop. lia.
Qed.

Lemma consume_tag_ref num typ rest : valid_tag num typ ->
  consume_tag (put_varint 10 (num * 8 + typ) ++ rest)
    = (num, typ, len (put_varint 10 (num * 8 + typ))).
Proof.
  unfold valid_tag, VarintType, Fixed64Type, BytesType. intros H.
  unfold consume_tag. rewrite consume_varint_ref by lia.
  pose proof (len_nonneg (put_varint 10 (num * 8 + typ))).
  destruct (Z.ltb_spec (len (put_varint 10 (num * 8 + typ))) 0); [lia|].
  replace ((num * 8 + typ) / 8) with num
    by (rewrite Z.div_add_l, Z.div_small; lia).
  replace ((num * 8 + typ) mod 8) with typ
    by (rewrite Z.add_comm, Z.mod_add, Z.mod_small; lia).
  destruct (Z.ltb_spec num 1); [lia|]. destruct (Z.leb_spec (2 ^ 29) num); [lia|].
  done.
Qed.

Lemma consume_field_ref_bound num typ b :
  0 <= consume_field num typ b -> consume_field num typ b <= len b.
Proof.
  unfold consume_field.
  destruct (typ =? 0); [|destruct (typ =? 1); [|destruct (typ =? 2)]].
  - destruct (consume_varint b) eqn:E. cbn. intros H.
    apply consume_varint_ref_bound in E; lia.
  - unfold consume_fixed64. destruct (Z.ltb_spec (len b) 8); cbn; lia.
  - destruct (consume_bytes b) eqn:E. cbn. intros H.
    apply consume_bytes_ref_bound in E; lia.
  - destruct (typ =? 5); [|lia]. destruct (Z.ltb_spec (len b) 4); lia.
Qed.

Lemma unzigzag_cases v : 0 <= v ->
  (v = 2 * (v / 2) /\ unzigzag v = v / 2) \/
  (v = 2 * (v / 2) + 1 /\ unzigzag v = - (v / 2) - 1).
Proof.
  intros. unfold unzigzag. pose proof (Z.div_mod v 2). pose proof (Z.mod_pos_bound v 2).
  destruct (Z.eqb_spec (v mod 2) 0); lia.
Qed.

#[export] Instance pwref_laws : ProtowireLaws pwref.
Proof.
  split; cbn [AppendTag AppendVarint AppendFixed64 AppendBytes AppendString ConsumeTag
    ConsumeVarint ConsumeFixed64 ConsumeBytes ConsumeFieldValue EncodeZigZag DecodeZigZag
    EncodeBool pwref app]; try done.
  - intros. by apply consume_tag_ref.
  - intros. by apply consume_varint_ref.
  - intros v rest Hv. unfold consume_fixed64, len. rewrite length_app, length_le_bytes.
    destruct (Z.ltb_spec (Z.of_nat (8 + length rest)) 8); [lia|]. rewrite take_app_length'.
    + rewrite le_val_bytes by lia. done.
    + symmetry; apply length_le_bytes.
  - intros v rest Hv. unfold consume_bytes. pose proof (len_nonneg v) as Hn.
    rewrite consume_varint_ref by lia. pose proof (len_nonneg (put_varint 10 (len v))).
    destruct (Z.ltb_spec (len (put_varint 10 (len v))) 0); [lia|].
    rewrite !len_app. pose proof (len_nonneg rest).
    destruct (Z.ltb_spec (len (put_varint 10 (len v)) + (len v + len rest))
                (len (put_varint 10 (len v)) + len v)); [lia|].
    by rewrite drop_len_app, take_len_app.
  - intros b num typ n. unfold consume_tag. destruct (consume_varint b) as [v k] eqn:E.
    destruct (Z.ltb_spec k 0); [intros; simplify_eq; lia|].
    apply consume_varint_ref_bound in E; [|lia].
    destruct (_ || _); intros; simplify_eq; lia.
  - apply consume_varint_ref_bound.
  - intros b v n. unfold consume_fixed64.
    destruct (Z.ltb_spec (len b) 8); intros; simplify_eq; [lia|]. split; [lia|].
    pose proof (le_val_range (take 8 b)) as G.
    replace (len (take 8 b)) with 8 in G; [exact G|].
    unfold len in *. rewrite length_take. lia.
  - apply consume_bytes_ref_bound.
  - apply consume_field_ref_bound.
  - intros x Hx. unfold zigzag. destruct (Z.ltb_spec x 0); lia.
  - intros x Hx. pose proof (unzigzag_cases (zigzag x)) as H.
    unfold zigzag in *. destruct (Z.ltb_spec x 0); lia.
  - intros v Hv. pose proof (unzigzag_cases v). lia.
Qed.
End pwref_laws.
