(* ===== verification/Proto.v ===== *)
(** The protobuf reader and field appenders of src/internal/wire/proto.go:
    the sticky-error [reader], the loop every decoder of the package runs over
    a message's fields, and uuid parsing and formatting. *)

From S2P Require Import Prelude Protowire.

(** ** The reader *)

Record reader := Reader { rb : bytes; rerr : option goerror }.

Definition new_reader (b : bytes) : reader := Reader b None.

Section reader.
Context `{PW : Protowire}.

Definition advance (r : reader) (n : Z) : reader :=
  Reader (drop (Z.to_nat n) (rb r)) (rerr r).

Definition set_err (r : reader) (e : goerror) : reader := Reader (rb r) (Some e).

(** [reader.next]: the next tag, or nothing at the end or after an error. *)
Definition next (r : reader) : option (Z * Z) * reader :=
  match rerr r with
  | Some _ => (None, r)
  | None =>
    if len (rb r) =? 0 then (None, r)
    else
      let '(num, typ, n) := ConsumeTag (rb r) in
      if n <? 0 then (None, set_err r (ParseError n))
      else (Some (num, typ), advance r n)
  end.

(** [reader.fail]: the first error sticks. *)
Definition fail (r : reader) (e : goerror) : reader :=
  match rerr r with None => set_err r e | Some _ => r end.

Definition wantType (num got want : Z) (r : reader) : bool * reader :=
  if negb (got =? want)
  then (false, fail r (Errorf "field %d: wire type %d, expected %d"
                             [FInt num; FInt got; FInt want]))
  else (true, r).

Definition r_bytes (num typ : Z) (r : reader) : bytes * reader :=
  let '(ok, r) := wantType num typ BytesType r in
  if negb ok then ([], r)
  else
    let '(v, n) := ConsumeBytes (rb r) in
    if n <? 0 then ([], set_err r (ParseError n)) else (v, advance r n).

Definition r_str (num typ : Z) (r : reader) : bytes * reader := r_bytes num typ r.

Definition r_varint (num typ : Z) (r : reader) : Z * reader :=
  let '(ok, r) := wantType num typ VarintType r in
  if negb ok then (0, r)
  else
    let '(v, n) := ConsumeVarint (rb r) in
    if n <? 0 then (0, set_err r (ParseError n)) else (v, advance r n).

Definition r_fixed64 (num typ : Z) (r : reader) : Z * reader :=
  let '(ok, r) := wantType num typ Fixed64Type r in
  if negb ok then (0, r)
  else
    let '(v, n) := ConsumeFixed64 (rb r) in
    if n <? 0 then (0, set_err r (ParseError n)) else (v, advance r n).

Definition r_skip (num typ : Z) (r : reader) : reader :=
  let n := ConsumeFieldValue num typ (rb r) in
  if n <? 0 then set_err r (ParseError n) else advance r n.

(** The packed loop of [reader.uint32s]; [fuel] bounds the remaining bytes. *)
Fixpoint packed_loop (fuel : nat) (packed : bytes) (r : reader) (dst : list Z)
    : list Z * reader :=
  match fuel with
  | O => (dst, r)
  | S fuel =>
    if len packed =? 0 then (dst, r)
    else
      let '(v, n) := ConsumeVarint packed in
      if n <? 0 then (dst, set_err r (ParseError n))
      else packed_loop fuel (drop (Z.to_nat n) packed) r (dst ++ [uint32 v])
  end.

Definition uint32s (num typ : Z) (dst : list Z) (r : reader) : list Z * reader :=
  if typ =? VarintType then
    let '(v, r) := r_varint num typ r in (dst ++ [uint32 v], r)
  else
    let '(packed, r) := r_bytes num typ r in
    packed_loop (S (length packed)) packed r dst.

(** ** The field loop

    Every decoder runs [for { num, typ, ok := r.next(); if !ok { break };
    switch num { ... } }]; [body] is the switch, [s] its accumulators, an
    [Err] its early return. *)

Fixpoint field_loop {S} (body : Z -> Z -> S -> reader -> result (S * reader))
    (fuel : nat) (s : S) (r : reader) : result (S * reader) :=
  match fuel with
  | O => Err ErrFuel
  | Datatypes.S fuel =>
    match next r with
    | (None, r) => Ok (s, r)
    | (Some (num, typ), r) =>
      '(s, r) ← body num typ s r;
      field_loop body fuel s r
    end
  end.

(** Each iteration consumes a tag, so one more iteration than bytes is enough. *)
Definition each_field {S} (body : Z -> Z -> S -> reader -> result (S * reader))
    (s : S) (r : reader) : result (S * reader) :=
  field_loop body (Datatypes.S (length (rb r))) s r.

(** The usual ending: [if r.err != nil { return r.err }]. *)
Definition checked {S} (m : result (S * reader)) : result S :=
  '(s, r) ← m;
  match rerr r with Some e => Err e | None => Ok s end.
End reader.

(** ** Field appenders *)

Section appenders.
Context `{PW : Protowire}.

Definition appendVarintField (b : bytes) (num v : Z) : bytes :=
  AppendVarint (AppendTag b num VarintType) v.

Definition appendBoolField (b : bytes) (num : Z) (v : bool) : bytes :=
  if negb v then b else appendVarintField b num 1.

Definition appendUintField (b : bytes) (num v : Z) : bytes :=
  if v =? 0 then b else appendVarintField b num v.

Definition appendInt32Field (b : bytes) (num v : Z) : bytes :=
  if v =? 0 then b else appendVarintField b num (uint64 v).

Definition appendStringAlways (b : bytes) (num : Z) (s : bytes) : bytes :=
  AppendString (AppendTag b num BytesType) s.

Definition appendStringField (b : bytes) (num : Z) (s : bytes) : bytes :=
  if bool_decide (s = []) then b else AppendString (AppendTag b num BytesType) s.

Definition appendBytesAlways (b : bytes) (num : Z) (v : bytes) : bytes :=
  AppendBytes (AppendTag b num BytesType) v.

Definition appendMessage (b : bytes) (num : Z) (msg : bytes) : bytes :=
  AppendBytes (AppendTag b num BytesType) msg.
End appenders.

(** ** Hexadecimal and uuids *)

Definition dash : byte := "-"%byte.

Definition hexdigits : bytes := go "0123456789abcdef".

(** [hex.EncodeToString]'s digit. *)
Definition hexdig (d : Z) : byte := default Byte.x00 (hexdigits !! Z.to_nat d).

Definition hexval (c : byte) : option Z :=
  let v := byte_val c in
  if (48 <=? v) && (v <=? 57) then Some (v - 48)
  else if (97 <=? v) && (v <=? 102) then Some (v - 87)
  else if (65 <=? v) && (v <=? 70) then Some (v - 55)
  else None.

Fixpoint hex_encode (b : bytes) : bytes :=
  match b with
  | [] => []
  | x :: b => hexdig (byte_val x / 16) :: hexdig (byte_val x mod 16) :: hex_encode b
  end.

(** [hex.DecodeString]; [None] is its error (a bad digit or an odd length). *)
Fixpoint hex_decode (s : bytes) : option bytes :=
  match s with
  | [] => Some []
  | [_] => None
  | a :: b :: s =>
    hi ← hexval a; lo ← hexval b; rest ← hex_decode s;
    Some (byte_of (16 * hi + lo) :: rest)
  end.

(** [strings.ReplaceAll(s, "-", "")]. *)
Definition strip_dashes (s : bytes) : bytes :=
  List.filter (fun c => negb (Byte.eqb c dash)) s.

Definition ParseUUID (s : bytes) : result bytes :=
  let invalid := Errorf "invalid uuid %q" [FStr s] in
  let dash_at i := bool_decide (s !! i = Some dash) in
  if negb (len s =? 36) || negb (dash_at 8%nat) || negb (dash_at 13%nat)
     || negb (dash_at 18%nat) || negb (dash_at 23%nat)
  then Err invalid
  else match hex_decode (strip_dashes s) with
       | None => Err invalid
       | Some raw => if negb (len raw =? 16) then Err invalid else Ok raw
       end.

(** Go's [h[i:j]] for [i <= j <= len h]. *)
Definition slice (i j : nat) (h : bytes) : bytes := take (j - i) (drop i h).

Definition FormatUUID (b : bytes) : result bytes :=
  if negb (len b =? 16) then Err (ErrNew "uuid must be exactly 16 bytes")
  else
    let h := hex_encode b in
    Ok (slice 0 8 h ++ [dash] ++ slice 8 12 h ++ [dash] ++ slice 12 16 h ++ [dash]
        ++ slice 16 20 h ++ [dash] ++ drop 20 h).

Section uuid_messages.
Context `{PW : Protowire}.

Definition decodeUUIDMessage (msg : bytes) : result bytes :=
  data ← checked (each_field
    (fun num typ (data : bytes) r =>
       if num =? 1 then let '(v, r) := r_bytes num typ r in Ok (v, r)
       else Ok (data, r_skip num typ r))
    [] (new_reader msg));
  FormatUUID data.

Definition appendUUIDMessage (b : bytes) (num : Z) (id : bytes) : result bytes :=
  raw ← ParseUUID id;
  Ok (appendMessage b num (appendBytesAlways [] 1 raw)).
End uuid_messages.

(** ** Facts about the reader *)

(** A switch body that never gives bytes back to the reader. *)
Definition shrinking {S} (body : Z -> Z -> S -> reader -> result (S * reader)) : Prop :=
  forall num typ s r s' r',
    body num typ s r = Ok (s', r') -> (length (rb r') <= length (rb r))%nat.

Section reader_facts.
Context `{PW : Protowire} `{!ProtowireLaws PW}.

Lemma next_shrink r p r' :
  next r = (Some p, r') -> (length (rb r') < length (rb r))%nat.
Proof.
  unfold next. destruct (rerr r); [done|].
  destruct (Z.eqb_spec (len (rb r)) 0) as [|_]; [done|].
  destruct (ConsumeTag (rb r)) as [[num typ] n] eqn:E.
  destruct (Z.ltb_spec n 0); [done|]. intros. simplify_eq.
  apply consume_tag_bound in E; [|lia]. cbn. rewrite length_drop. unfold len in *. lia.
Qed.

Lemma advance_shrink r n : (length (rb (advance r n)) <= length (rb r))%nat.
Proof. cbn. rewrite length_drop. lia. Qed.

Lemma wantType_rb num got want r ok r' :
  wantType num got want r = (ok, r') -> rb r' = rb r.
Proof.
  unfold wantType, fail. destruct (negb _); [|intros; by simplify_eq].
  destruct (rerr r); intros; by simplify_eq.
Qed.

Lemma r_bytes_shrink num typ r v r' :
  r_bytes num typ r = (v, r') -> (length (rb r') <= length (rb r))%nat.
Proof.
  unfold r_bytes. destruct (wantType _ _ _ _) as [ok r1] eqn:E.
  apply wantType_rb in E. rewrite <- E. destruct (negb ok); [intros; by simplify_eq|].
  destruct (ConsumeBytes _) as [w n]. destruct (n <? 0); intros; simplify_eq; [done|].
  apply advance_shrink.
Qed.

Lemma r_varint_shrink num typ r v r' :
  r_varint num typ r = (v, r') -> (length (rb r') <= length (rb r))%nat.
Proof.
  unfold r_varint. destruct (wantType _ _ _ _) as [ok r1] eqn:E.
  apply wantType_rb in E. rewrite <- E. destruct (negb ok); [intros; by simplify_eq|].
  destruct (ConsumeVarint _) as [w n]. destruct (n <? 0); intros; simplify_eq; [done|].
  apply advance_shrink.
Qed.

Lemma r_fixed64_shrink num typ r v r' :
  r_fixed64 num typ r = (v, r') -> (length (rb r') <= length (rb r))%nat.
Proof.
  unfold r_fixed64. destruct (wantType _ _ _ _) as [ok r1] eqn:E.
  apply wantType_rb in E. rewrite <- E. destruct (negb ok); [intros; by simplify_eq|].
  destruct (ConsumeFixed64 _) as [w n]. destruct (n <? 0); intros; simplify_eq; [done|].
  apply advance_shrink.
Qed.

Lemma r_skip_shrink num typ r : (length (rb (r_skip num typ r)) <= length (rb r))%nat.
Proof. unfold r_skip. destruct (_ <? 0); [done|]. apply advance_shrink. Qed.

Lemma packed_loop_rb fuel packed r dst ids r' :
  packed_loop fuel packed r dst = (ids, r') -> rb r' = rb r.
Proof.
  revert packed dst. induction fuel as [|fuel IH]; intros packed dst; cbn.
  - intros. by simplify_eq.
  - destruct (len packed =? 0); [intros; by simplify_eq|].
    destruct (ConsumeVarint packed) as [v n].
    destruct (n <? 0); [intros; by simplify_eq|]. apply IH.
Qed.

Lemma uint32s_shrink num typ dst r v r' :
  uint32s num typ dst r = (v, r') -> (length (rb r') <= length (rb r))%nat.
Proof.
  unfold uint32s. destruct (typ =? VarintType).
  - destruct (r_varint num typ r) eqn:E. apply r_varint_shrink in E.
    intros. by simplify_eq.
  - destruct (r_bytes num typ r) as [packed r1] eqn:E. apply r_bytes_shrink in E.
    intros H%packed_loop_rb. by rewrite H.
Qed.

(** Ranges of what the reader hands out. *)
Lemma r_varint_range num typ r v r' : r_varint num typ r = (v, r') -> 0 <= v < 2 ^ 64.
Proof.
  unfold r_varint. destruct (wantType _ _ _ _) as [ok r1].
  destruct (negb ok); [intros; simplify_eq; lia|].
  destruct (ConsumeVarint (rb r1)) as [w n] eqn:E.
  destruct (Z.ltb_spec n 0); intros; simplify_eq; [lia|].
  by apply consume_varint_bound in E as [_ E].
Qed.

Lemma r_fixed64_range num typ r v r' : r_fixed64 num typ r = (v, r') -> 0 <= v < 2 ^ 64.
Proof.
  unfold r_fixed64. destruct (wantType _ _ _ _) as [ok r1].
  destruct (negb ok); [intros; simplify_eq; lia|].
  destruct (ConsumeFixed64 (rb r1)) as [w n] eqn:E.
  destruct (Z.ltb_spec n 0); intros; simplify_eq; [lia|].
  by apply consume_fixed64_bound in E as [_ E].
Qed.

(** [r.bytes] returns a strict part of what the reader held. *)
Lemma r_bytes_len num typ r v r' :
  r_bytes num typ r = (v, r') -> len v <= len (rb r).
Proof.
  unfold r_bytes. destruct (wantType _ _ _ _) as [ok r1] eqn:Ew.
  apply wantType_rb in Ew. rewrite <- Ew.
  destruct (negb ok); [intros; simplify_eq; unfold len; simpl; lia|].
  destruct (ConsumeBytes (rb r1)) as [w n] eqn:E.
  destruct (Z.ltb_spec n 0); intros; simplify_eq; [unfold len; simpl; lia|].
  apply consume_bytes_bound in E; lia.
Qed.

(** ** The field loop: fuel never matters *)

Section loop.
Context {S : Type} (body : Z -> Z -> S -> reader -> result (S * reader)).
Context (Hshrink : shrinking body).

Lemma field_loop_fuel n m s r :
  (length (rb r) < n)%nat -> (length (rb r) < m)%nat ->
  field_loop body n s r = field_loop body m s r.
Proof using Hshrink ProtowireLaws0.
  revert m s r. induction n as [|n IH]; intros m s r Hn Hm; [lia|].
  destruct m as [|m]; [lia|]. cbn.
  destruct (next r) as [[[num typ]|] r1] eqn:E; [|done].
  apply next_shrink in E. destruct (body num typ s r1) as [[s2 r2]|] eqn:Eb; [|done].
  apply Hshrink in Eb. cbn. apply IH; lia.
Qed.

Lemma each_field_unfold s r :
  each_field body s r =
  match next r with
  | (None, r) => Ok (s, r)
  | (Some (num, typ), r) =>
    '(s, r) ← body num typ s r; each_field body s r
  end.
Proof using Hshrink ProtowireLaws0.
  unfold each_field at 1. cbn [field_loop].
  destruct (next r) as [[[num typ]|] r1] eqn:E; [|done].
  apply next_shrink in E. destruct (body num typ s r1) as [[s2 r2]|] eqn:Eb; [|done].
  apply Hshrink in Eb. cbn [mbind result_mbind]. unfold each_field.
  apply field_loop_fuel; lia.
Qed.

Lemma each_field_nil s : each_field body s (new_reader []) = Ok (s, new_reader []).
Proof using Type. reflexivity. Qed.

(** Invariant rule for a decoder's loop. *)
Lemma each_field_inv (P : S -> Prop) s r s' r' :
  (forall num typ s r s' r', P s -> body num typ s r = Ok (s', r') -> P s') ->
  P s -> each_field body s r = Ok (s', r') -> P s'.
Proof using Type.
  intros Hstep. unfold each_field. generalize (Datatypes.S (length (rb r))) as n.
  intros n. revert s r. induction n as [|n IH]; intros s r Hs; cbn; [done|].
  destruct (next r) as [[[num typ]|] r1]; [|intros; by simplify_eq].
  destruct (body num typ s r1) as [[s2 r2]|] eqn:Eb; [|done]. cbn. eauto.
Qed.

(** The loop never runs out of fuel: only the body's own errors come out. *)
Lemma each_field_total s r e :
  (forall num typ s r, body num typ s r <> Err ErrFuel) ->
  each_field body s r = Err e -> e <> ErrFuel.
Proof using Hshrink ProtowireLaws0.
  intros Hb. unfold each_field.
  assert (length (rb r) < Datatypes.S (length (rb r)))%nat as Hn by lia. revert Hn.
  generalize (Datatypes.S (length (rb r))) as n.
  intros n. revert s r. induction n as [|n IH]; intros s r Hn; [lia|]. cbn.
  destruct (next r) as [[[num typ]|] r1] eqn:E; [|done]. apply next_shrink in E.
  destruct (body num typ s r1) as [[s2 r2]|e2] eqn:Eb; cbn.
  - apply Hshrink in Eb. apply IH. lia.
  - intros He ->. simplify_eq. by eapply Hb.
Qed.
End loop.

(** *** No decoder reports a spent fuel *)

Definition no_fuel {A} (m : result A) : Prop := m <> Err ErrFuel.
Definition calm (r : reader) : Prop := rerr r <> Some ErrFuel.

Lemma no_fuel_bind {A B} (m : result A) (f : A -> result B) :
  no_fuel m -> (forall a, m = Ok a -> no_fuel (f a)) -> no_fuel (m ≫= f).
Proof using Type. destruct m; unfold no_fuel; cbn; naive_solver. Qed.

Lemma next_calm r p r' : next r = (p, r') -> calm r -> calm r'.
Proof using Type.
  unfold next, calm. destruct (rerr r) eqn:E; [intros; simplify_eq; congruence|].
  destruct (len (rb r) =? 0); [intros; simplify_eq; congruence|].
  destruct (ConsumeTag (rb r)) as [[num typ] n].
  destruct (n <? 0); intros; simplify_eq/=; congruence.
Qed.

Lemma wantType_calm num got want r ok r' :
  wantType num got want r = (ok, r') -> calm r -> calm r'.
Proof using Type.
  unfold wantType, fail, calm. destruct (negb _); [|intros; by simplify_eq].
  destruct (rerr r) eqn:E; intros; simplify_eq/=; congruence.
Qed.

Lemma r_bytes_calm num typ r v r' : r_bytes num typ r = (v, r') -> calm r -> calm r'.
Proof using Type.
  unfold r_bytes. destruct (wantType _ _ _ _) as [ok r1] eqn:E. intros H Hc.
  apply wantType_calm in E; [|done]. destruct (negb ok); [by simplify_eq|].
  destruct (ConsumeBytes _) as [w n]. by destruct (n <? 0); simplify_eq.
Qed.

Lemma r_varint_calm num typ r v r' : r_varint num typ r = (v, r') -> calm r -> calm r'.
Proof using Type.
  unfold r_varint. destruct (wantType _ _ _ _) as [ok r1] eqn:E. intros H Hc.
  apply wantType_calm in E; [|done]. destruct (negb ok); [by simplify_eq|].
  destruct (ConsumeVarint _) as [w n]. by destruct (n <? 0); simplify_eq.
Qed.

Lemma r_fixed64_calm num typ r v r' : r_fixed64 num typ r = (v, r') -> calm r -> calm r'.
Proof using Type.
  unfold r_fixed64. destruct (wantType _ _ _ _) as [ok r1] eqn:E. intros H Hc.
  apply wantType_calm in E; [|done]. destruct (negb ok); [by simplify_eq|].
  destruct (ConsumeFixed64 _) as [w n]. by destruct (n <? 0); simplify_eq.
Qed.

Lemma r_skip_calm num typ r : calm r -> calm (r_skip num typ r).
Proof using Type. unfold r_skip. by destruct (_ <? 0). Qed.

(** A switch body that neither returns nor records a spent fuel. *)
Definition calm_body {S} (body : Z -> Z -> S -> reader -> result (S * reader)) : Prop :=
  forall num typ s r, calm r ->
    no_fuel (body num typ s r)
    /\ forall s' r', body num typ s r = Ok (s', r') -> calm r'.

Lemma checked_no_fuel {S} (body : Z -> Z -> S -> reader -> result (S * reader)) s b :
  shrinking body -> calm_body body ->
  no_fuel (checked (each_field body s (new_reader b))).
Proof.
  intros Hsh Hb. unfold each_field.
  assert (calm (new_reader b)) as Hc by done. revert Hc.
  assert (length (rb (new_reader b)) < Datatypes.S (length (rb (new_reader b))))%nat as Hn by lia.
  revert Hn. generalize (Datatypes.S (length (rb (new_reader b)))) as n.
  generalize (new_reader b) as r. intros r n. revert s r.
  induction n as [|n IH]; intros s r Hn Hc; [lia|]. cbn.
  destruct (next r) as [[[num typ]|] r1] eqn:E; pose proof (next_calm _ _ _ E Hc) as Hc1.
  - apply next_shrink in E. destruct (Hb num typ s r1 Hc1) as [Hnf Hok].
    destruct (body num typ s r1) as [[s2 r2]|e2] eqn:Eb; cbn;
      [|intros He; apply Hnf; congruence].
    apply Hsh in Eb as Hl. apply IH; [lia|by eapply Hok].
  - unfold no_fuel, calm in *. cbn. destruct (rerr r1); congruence.
Qed.

(** The loop only sees the values of its body. *)
Lemma each_field_ext {S} (f g : Z -> Z -> S -> reader -> result (S * reader)) s r :
  (forall num typ s r, f num typ s r = g num typ s r) ->
  each_field f s r = each_field g s r.
Proof using Type.
  intros He. unfold each_field. generalize (Datatypes.S (length (rb r))) as n.
  intros n. revert s r. induction n as [|n IH]; intros s r; [done|]. cbn.
  destruct (next r) as [[[num typ]|] r1]; [|done]. rewrite He.
  by destruct (g num typ s r1) as [[s2 r2]|]; cbn.
Qed.
End reader_facts.

Create HintDb shrink discriminated.
#[export] Hint Resolve r_bytes_shrink r_varint_shrink r_fixed64_shrink r_skip_shrink
  uint32s_shrink advance_shrink Nat.le_refl : shrink.

(** Proves [shrinking body] by running through the switch. *)
Ltac solve_shrinking :=
  let num := fresh in let typ := fresh in let s := fresh in let r := fresh in
  let s' := fresh in let r' := fresh in let H := fresh in
  unfold shrinking; intros num typ s r s' r' H;
  repeat match type of H with
  | context [if ?c then _ else _] => destruct c
  | context [let '(_, _) := ?x in _] => destruct x eqn:?
  | (?m ≫= _) = Ok _ => destruct m eqn:?; cbn in H
  | context [match ?x with _ => _ end] => destruct x eqn:?
  end; simplify_eq/=; unfold r_str in *; eauto with shrink.

(** ** What the appenders write, and how the loop reads it back *)

(** One varint field and one length-delimited field on the wire. *)
Definition fvar `{PW : Protowire} (num v : Z) : bytes :=
  AppendTag [] num VarintType ++ AppendVarint [] v.
Definition fbytes `{PW : Protowire} (num : Z) (v : bytes) : bytes :=
  AppendTag [] num BytesType ++ AppendVarint [] (len v) ++ v.

Section encoding_facts.
Context `{PW : Protowire} `{!ProtowireLaws PW}.

Lemma appendVarintField_eq b num v : appendVarintField b num v = b ++ fvar num v.
Proof. unfold appendVarintField, fvar. by rewrite append_varint_app, append_tag_app, app_assoc. Qed.

Lemma appendBoolField_eq b num v :
  appendBoolField b num v = b ++ (if negb v then [] else fvar num 1).
Proof.
  unfold appendBoolField. destruct v; cbn; [apply appendVarintField_eq | by rewrite app_nil_r].
Qed.

Lemma appendUintField_eq b num v :
  appendUintField b num v = b ++ (if v =? 0 then [] else fvar num v).
Proof.
  unfold appendUintField. destruct (v =? 0); [by rewrite app_nil_r | apply appendVarintField_eq].
Qed.

Lemma appendInt32Field_eq b num v :
  appendInt32Field b num v = b ++ (if v =? 0 then [] else fvar num (uint64 v)).
Proof.
  unfold appendInt32Field. destruct (v =? 0); [by rewrite app_nil_r | apply appendVarintField_eq].
Qed.

Lemma appendStringAlways_eq b num s : appendStringAlways b num s = b ++ fbytes num s.
Proof. unfold appendStringAlways, fbytes. by rewrite append_string_app, append_tag_app, !app_assoc. Qed.

Lemma appendStringField_eq b num s :
  appendStringField b num s = b ++ (if bool_decide (s = []) then [] else fbytes num s).
Proof.
  unfold appendStringField. case_bool_decide; [by rewrite app_nil_r|apply appendStringAlways_eq].
Qed.

Lemma appendBytesAlways_eq b num v : appendBytesAlways b num v = b ++ fbytes num v.
Proof. unfold appendBytesAlways, fbytes. by rewrite append_bytes_app, append_tag_app, !app_assoc. Qed.

Lemma appendMessage_eq b num v : appendMessage b num v = b ++ fbytes num v.
Proof. apply appendBytesAlways_eq. Qed.

(** The payload of a field is shorter than the field. *)
Lemma len_fbytes num v : len v <= len (fbytes num v).
Proof. unfold fbytes. rewrite !len_app. pose proof (len_nonneg (AppendTag [] num BytesType)).
  pose proof (len_nonneg (AppendVarint [] (len v))). lia. Qed.

Lemma next_tag num typ rest : valid_tag num typ ->
  next (new_reader (AppendTag [] num typ ++ rest)) = (Some (num, typ), new_reader rest).
Proof.
  intros Hv. pose proof (consume_tag_append num typ rest Hv) as Ht.
  unfold next, new_reader. cbn [rb rerr].
  pose proof (consume_tag_bound _ _ _ _ Ht (len_nonneg _)) as Hb.
  destruct (Z.eqb_spec (len (AppendTag [] num typ ++ rest)) 0); [lia|].
  rewrite Ht. destruct (Z.ltb_spec (len (AppendTag [] num typ)) 0); [lia|].
  unfold advance. cbn [rb rerr]. by rewrite drop_len_app.
Qed.

Lemma r_bytes_app num v rest : len v < 2 ^ 63 ->
  r_bytes num BytesType (new_reader (AppendVarint [] (len v) ++ v ++ rest))
    = (v, new_reader rest).
Proof.
  intros Hv. unfold r_bytes, wantType. rewrite Z.eqb_refl. cbn [negb new_reader rb].
  rewrite consume_bytes_append by done.
  pose proof (len_nonneg (AppendVarint [] (len v))). pose proof (len_nonneg v).
  destruct (Z.ltb_spec (len (AppendVarint [] (len v)) + len v) 0); [lia|].
  unfold advance, new_reader. cbn [rb rerr]. rewrite app_assoc, <- len_app.
  by rewrite drop_len_app.
Qed.

Lemma r_varint_app num v rest : 0 <= v < 2 ^ 64 ->
  r_varint num VarintType (new_reader (AppendVarint [] v ++ rest)) = (v, new_reader rest).
Proof.
  intros Hv. unfold r_varint, wantType. rewrite Z.eqb_refl. cbn [negb new_reader rb].
  rewrite consume_varint_append by done.
  destruct (Z.ltb_spec (len (AppendVarint [] v)) 0) as [H|];
    [pose proof (len_nonneg (AppendVarint [] v)); lia|].
  unfold advance, new_reader. cbn [rb rerr]. by rewrite drop_len_app.
Qed.

Lemma r_fixed64_app num v rest : 0 <= v < 2 ^ 64 ->
  r_fixed64 num Fixed64Type (new_reader (AppendFixed64 [] v ++ rest)) = (v, new_reader rest).
Proof.
  intros Hv. unfold r_fixed64, wantType. rewrite Z.eqb_refl. cbn [negb new_reader rb].
  rewrite consume_fixed64_append by done.
  destruct (Z.ltb_spec (len (AppendFixed64 [] v)) 0) as [H|];
    [pose proof (len_nonneg (AppendFixed64 [] v)); lia|].
  unfold advance, new_reader. cbn [rb rerr]. by rewrite drop_len_app.
Qed.

Section steps.
Context {S : Type} (body : Z -> Z -> S -> reader -> result (S * reader)).
Context (Hshrink : shrinking body).

Lemma each_field_tag num typ s rest : valid_tag num typ ->
  each_field body s (new_reader (AppendTag [] num typ ++ rest)) =
  ('(s, r) ← body num typ s (new_reader rest); each_field body s r).
Proof using Hshrink ProtowireLaws0.
  intros. rewrite each_field_unfold by done. by rewrite next_tag.
Qed.

(** One length-delimited field whose handler stores the payload. *)
Lemma each_field_fbytes num v s rest : 1 <= num < 2 ^ 29 ->
  each_field body s (new_reader (fbytes num v ++ rest)) =
  ('(s, r) ← body num BytesType s (new_reader (AppendVarint [] (len v) ++ v ++ rest));
   each_field body s r).
Proof using Hshrink ProtowireLaws0.
  intros. unfold fbytes. rewrite <- !app_assoc.
  apply each_field_tag. unfold valid_tag. auto.
Qed.

Lemma each_field_fvar num v s rest : 1 <= num < 2 ^ 29 ->
  each_field body s (new_reader (fvar num v ++ rest)) =
  ('(s, r) ← body num VarintType s (new_reader (AppendVarint [] v ++ rest));
   each_field body s r).
Proof using Hshrink ProtowireLaws0.
  intros. unfold fvar. rewrite <- !app_assoc.
  apply each_field_tag. unfold valid_tag. auto.
Qed.

(** A field that is written only when it differs from its zero value. *)
Lemma each_field_opt num c v s s' rest : 1 <= num < 2 ^ 29 ->
  body num VarintType s (new_reader (AppendVarint [] v ++ rest)) = Ok (s', new_reader rest) ->
  (c = true -> s' = s) ->
  each_field body s (new_reader ((if c then [] else fvar num v) ++ rest))
    = each_field body s' (new_reader rest).
Proof using Hshrink ProtowireLaws0.
  intros Hn Hb Hz. destruct c; [by rewrite Hz by done|].
  rewrite each_field_fvar by done. by rewrite Hb.
Qed.

Lemma each_field_optb num c v s s' rest : 1 <= num < 2 ^ 29 ->
  body num BytesType s (new_reader (AppendVarint [] (len v) ++ v ++ rest))
    = Ok (s', new_reader rest) ->
  (c = true -> s' = s) ->
  each_field body s (new_reader ((if c then [] else fbytes num v) ++ rest))
    = each_field body s' (new_reader rest).
Proof using Hshrink ProtowireLaws0.
  intros Hn Hb Hz. destruct c; [by rewrite Hz by done|].
  rewrite each_field_fbytes by done. by rewrite Hb.
Qed.
End steps.

Lemma len_opt_fbytes (c : bool) num v :
  (c = true -> v = []) -> len v <= len (if c then [] else fbytes num v).
Proof.
  intros Hc. destruct c; [by rewrite Hc|]. apply len_fbytes.
Qed.
End encoding_facts.

#[export] Hint Rewrite @appendVarintField_eq @appendBoolField_eq @appendUintField_eq
  @appendInt32Field_eq @appendStringAlways_eq @appendStringField_eq @appendBytesAlways_eq
  @appendMessage_eq using typeclasses eauto : enc.

(** ** Uuids round trip *)

Section uuid_facts.
Lemma hexdig_cases d : 0 <= d < 16 ->
  hexval (hexdig d) = Some d /\ Byte.eqb (hexdig d) dash = false.
Proof.
  intros Hd. assert (In d (map Z.of_nat (seq 0 16))) as H.
  { apply in_map_iff. exists (Z.to_nat d). split; [lia|]. apply in_seq. lia. }
  cbn in H. repeat destruct H as [<-|H]; [..|done]; by vm_compute.
Qed.

Lemma hexval_range c d : hexval c = Some d -> 0 <= d < 16.
Proof.
  unfold hexval. intros H.
  destruct (_ && _) eqn:E1 in H; [simplify_eq; bool_lia|].
  destruct (_ && _) eqn:E2 in H; [simplify_eq; bool_lia|].
  destruct (_ && _) eqn:E3 in H; [simplify_eq; bool_lia|]. done.
Qed.

Lemma byte_nibbles b : 0 <= byte_val b / 16 < 16 /\ 0 <= byte_val b mod 16 < 16.
Proof. pose proof (byte_val_range b). split; [|apply Z.mod_pos_bound; lia].
  split; [apply Z.div_pos; lia | apply Z.div_lt_upper_bound; lia]. Qed.

Lemma hex_decode_encode b : hex_decode (hex_encode b) = Some b.
Proof.
  induction b as [|x b IH]; [done|]. cbn. destruct (byte_nibbles x) as [Hh Hl].
  destruct (hexdig_cases _ Hh) as [-> _], (hexdig_cases _ Hl) as [-> _]. cbn.
  rewrite IH. cbn. do 2 f_equal.
  rewrite <- (byte_of_byte_val x) at 3. f_equal. symmetry. apply Z.div_mod. lia.
Qed.

Lemma strip_hex_encode b : strip_dashes (hex_encode b) = hex_encode b.
Proof.
  induction b as [|x b IH]; [done|]. cbn. destruct (byte_nibbles x) as [Hh Hl].
  destruct (hexdig_cases _ Hh) as [_ ->], (hexdig_cases _ Hl) as [_ ->]. cbn.
  unfold strip_dashes in IH. by rewrite IH.
Qed.

Lemma length_hex_encode b : length (hex_encode b) = (2 * length b)%nat.
Proof. induction b as [|x b IH]; cbn; [done|]. rewrite IH. lia. Qed.

Lemma strip_dashes_app a b : strip_dashes (a ++ b) = strip_dashes a ++ strip_dashes b.
Proof. apply List.filter_app. Qed.

Lemma slice_drop i j (h : bytes) : (i <= j)%nat -> slice i j h ++ drop j h = drop i h.
Proof.
  intros Hij. unfold slice. replace j with (i + (j - i))%nat at 2 by lia.
  rewrite <- drop_drop. apply take_drop.
Qed.

Lemma strip_FormatUUID h :
  strip_dashes (slice 0 8 h ++ [dash] ++ slice 8 12 h ++ [dash] ++ slice 12 16 h ++ [dash]
    ++ slice 16 20 h ++ [dash] ++ drop 20 h) = strip_dashes h.
Proof.
  rewrite !strip_dashes_app. change (strip_dashes [dash]) with (@nil byte).
  rewrite !app_nil_l, <- !strip_dashes_app. f_equal.
  rewrite !slice_drop by lia. apply drop_0.
Qed.

Lemma ParseUUID_FormatUUID b s : FormatUUID b = Ok s -> ParseUUID s = Ok b.
Proof.
  unfold FormatUUID. destruct (Z.eqb_spec (len b) 16) as [Hb|]; [|done].
  cbn [negb]. intros [= <-].
  assert (length (hex_encode b) = 32%nat) as Hl.
  { rewrite length_hex_encode. unfold len in Hb. lia. }
  unfold ParseUUID. rewrite strip_FormatUUID, strip_hex_encode, hex_decode_encode.
  assert (len b =? 16 = true) as -> by lia. cbn [negb].
  revert Hl. generalize (hex_encode b) as h. intros h Hl.
  do 32 (destruct h as [|? h]; [discriminate|]). by destruct h.
Qed.

Lemma ParseUUID_len s b : ParseUUID s = Ok b -> len b = 16.
Proof.
  unfold ParseUUID. destruct (_ || _); [done|]. destruct (hex_decode _); [|done].
  destruct (Z.eqb_spec (len l) 16); [|done]. cbn. intros. by simplify_eq.
Qed.

Lemma FormatUUID_len b : len b = 16 -> exists s, FormatUUID b = Ok s.
Proof. intros H. unfold FormatUUID. rewrite H. eauto. Qed.
End uuid_facts.

Section uuid_message_facts.
Context `{PW : Protowire} `{!ProtowireLaws PW}.

Lemma decodeUUIDMessage_enc raw : len raw < 2 ^ 63 ->
  decodeUUIDMessage (fbytes 1 raw) = FormatUUID raw.
Proof.
  intros Hr. unfold decodeUUIDMessage. rewrite <- (app_nil_r (fbytes 1 raw)).
  rewrite each_field_fbytes; [|solve_shrinking|lia].
  cbn [Z.eqb Pos.eqb]. rewrite r_bytes_app by done. reflexivity.
Qed.

Lemma appendUUIDMessage_eq b num id m :
  appendUUIDMessage b num id = Ok m ->
  exists raw, ParseUUID id = Ok raw /\ m = b ++ fbytes num (fbytes 1 raw).
Proof.
  unfold appendUUIDMessage. destruct (ParseUUID id) as [raw|]; [|done]. cbn.
  autorewrite with enc. intros. simplify_eq. eauto.
Qed.
End uuid_message_facts.
