(* ===== verification/Utf8.v ===== *)
(** UTF-8: Go's rune decoding (the language's [for _, r := range s]) and the
    validator of src/internal/mountfs/utf8.go, which reproduces Rust's
    [Utf8Error]; the two agree on what is valid. *)

From S2P Require Import Prelude.

(** ** Runes *)

Definition RuneError : Z := 65533.

Definition cont (b : byte) : bool := Z.land (byte_val b) 192 =? 128.

Definition between (lo hi : Z) (b : byte) : bool :=
  (lo <=? byte_val b) && (byte_val b <=? hi).

(** [utf8.DecodeRune] of a non-empty string: the rune and its width. *)
Definition decode_rune (b0 : byte) (rest : bytes) : Z * nat :=
  let x0 := byte_val b0 in
  let bad := (RuneError, 1%nat) in
  if x0 <? 128 then (x0, 1%nat)
  else if between 194 223 b0 then
    match rest with
    | b1 :: _ => if between 128 191 b1
                 then (x0 mod 32 * 64 + byte_val b1 mod 64, 2%nat) else bad
    | [] => bad
    end
  else if between 224 239 b0 then
    match rest with
    | b1 :: b2 :: _ =>
      let lo := if x0 =? 224 then 160 else 128 in
      let hi := if x0 =? 237 then 159 else 191 in
      if between lo hi b1 && between 128 191 b2
      then (x0 mod 16 * 4096 + byte_val b1 mod 64 * 64 + byte_val b2 mod 64, 3%nat) else bad
    | _ => bad
    end
  else if between 240 244 b0 then
    match rest with
    | b1 :: b2 :: b3 :: _ =>
      let lo := if x0 =? 240 then 144 else 128 in
      let hi := if x0 =? 244 then 143 else 191 in
      if between lo hi b1 && between 128 191 b2 && between 128 191 b3
      then (x0 mod 8 * 262144 + byte_val b1 mod 64 * 4096 + byte_val b2 mod 64 * 64
            + byte_val b3 mod 64, 4%nat) else bad
    | _ => bad
    end
  else bad.

(** The runes of a string; [fuel] is its length, each rune takes a byte. *)
Fixpoint runes_fuel (fuel : nat) (s : bytes) : list Z :=
  match fuel, s with
  | S fuel, b0 :: rest =>
    let '(r, w) := decode_rune b0 rest in r :: runes_fuel fuel (drop (w - 1) rest)
  | _, _ => []
  end.

Definition runes (s : bytes) : list Z := runes_fuel (length s) s.

(** ** The validator (mountfs/utf8.go) *)

Definition utf8CharWidth (b : byte) : Z :=
  let v := byte_val b in
  if v <? 128 then 1
  else if v <? 194 then 0
  else if v <? 224 then 2
  else if v <? 240 then 3
  else if v <? 245 then 4
  else 0.

(** The second-byte tests of a 3- and a 4-byte sequence. *)
Definition valid3 (first s : byte) : bool :=
  let f := byte_val first in
  ((f =? 224) && (160 <=? byte_val s) && (byte_val s <=? 191))
  || ((225 <=? f) && (f <=? 236) && cont s)
  || ((f =? 237) && (128 <=? byte_val s) && (byte_val s <=? 159))
  || ((238 <=? f) && (f <=? 239) && cont s).

Definition valid4 (first s : byte) : bool :=
  let f := byte_val first in
  ((f =? 240) && (144 <=? byte_val s) && (byte_val s <=? 191))
  || ((241 <=? f) && (f <=? 243) && cont s)
  || ((f =? 244) && (128 <=? byte_val s) && (byte_val s <=? 143)).

(** One iteration of [utf8Check] at a byte [first] followed by [rest]:
    [inl width] to go on, [inr errorLen] to stop. *)
Definition utf8_step (first : byte) (rest : bytes) : Z + Z :=
  if byte_val first <? 128 then inl 1
  else
    let width := utf8CharWidth first in
    if width =? 2 then
      match rest with
      | [] => inr 0
      | b1 :: _ => if negb (cont b1) then inr 1 else inl 2
      end
    else if width =? 3 then
      match rest with
      | [] => inr 0
      | s :: rest =>
        if negb (valid3 first s) then inr 1
        else match rest with
             | [] => inr 0
             | b2 :: _ => if negb (cont b2) then inr 2 else inl 3
             end
      end
    else if width =? 4 then
      match rest with
      | [] => inr 0
      | s :: rest =>
        if negb (valid4 first s) then inr 1
        else match rest with
             | [] => inr 0
             | b2 :: rest =>
               if negb (cont b2) then inr 2
               else match rest with
                    | [] => inr 0
                    | b3 :: _ => if negb (cont b3) then inr 3 else inl 4
                    end
             end
      end
    else inr 1.

(** [utf8Check v] from index [i], where [v] is the suffix at [i]: the result is
    (validUpTo, errorLen, ok). *)
Fixpoint utf8_loop (fuel : nat) (i : Z) (v : bytes) : Z * Z * bool :=
  match fuel, v with
  | S fuel, first :: rest =>
    match utf8_step first rest with
    | inl w => utf8_loop fuel (i + w) (drop (Z.to_nat w - 1) rest)
    | inr e => (i, e, false)
    end
  | _, _ => (i, 0, true)
  end.

Definition utf8Check (v : bytes) : Z * Z * bool := utf8_loop (length v) 0 v.

Definition utf8ErrorReason (firstBad : byte) (errorLen : Z) : string :=
  if errorLen =? 0 then "unexpected end of data"
  else if (194 <=? byte_val firstBad) && (byte_val firstBad <=? 244)
  then "invalid continuation byte"
  else "invalid start byte".

(** U+FFFD in UTF-8. *)
Definition replacement_char : bytes := [Byte.xef; Byte.xbf; Byte.xbd].

Fixpoint lossy_loop (fuel : nat) (b : bytes) : bytes :=
  match fuel with
  | O => []
  | S fuel =>
    if len b =? 0 then []
    else
      let '(valid, errLen, ok) := utf8Check b in
      let out := take (Z.to_nat valid) b in
      if ok : bool then out
      else if errLen =? 0 then out ++ replacement_char
      else out ++ replacement_char ++ lossy_loop fuel (drop (Z.to_nat (valid + errLen)) b)
  end.

(** [lossyUTF8]: one U+FFFD per invalid sequence. *)
Definition lossyUTF8 (s : bytes) : bytes :=
  let '(_, _, ok) := utf8Check s in
  if ok : bool then s else lossy_loop (length s) s.
