(* ===== verification/GoStrings.v ===== *)
(** The operations of Go's strings, strconv and unicode packages the code
    uses, on byte strings. *)

From Stdlib Require Import DecimalString.
From S2P Require Import Prelude Utf8.

(** [strings.Split(s, sep)] for a one-byte separator: at least one part. *)
Fixpoint split_byte (sep : byte) (s : bytes) : list bytes :=
  match s with
  | [] => [[]]
  | c :: s =>
    if Byte.eqb c sep then [] :: split_byte sep s
    else match split_byte sep s with
         | [] => [[c]]
         | p :: ps => (c :: p) :: ps
         end
  end.

(** [strings.Join(parts, sep)] *)
Fixpoint join_byte (sep : byte) (parts : list bytes) : bytes :=
  match parts with
  | [] => []
  | [p] => p
  | p :: ps => p ++ sep :: join_byte sep ps
  end.

Definition HasPrefix (s p : bytes) : bool := bool_decide (take (length p) s = p).
Definition HasSuffix (s p : bytes) : bool :=
  bool_decide (drop (length s - length p) s = p).
Definition TrimSuffix (s p : bytes) : bytes :=
  if HasSuffix s p then take (length s - length p) s else s.
Definition TrimPrefix (s p : bytes) : bytes :=
  if HasPrefix s p then drop (length p) s else s.

(** [strings.TrimRight(s, string(c))] *)
Fixpoint trim_left_byte (c : byte) (s : bytes) : bytes :=
  match s with
  | x :: s' => if Byte.eqb x c then trim_left_byte c s' else s
  | [] => []
  end.
Definition TrimRight (s : bytes) (c : byte) : bytes := rev (trim_left_byte c (rev s)).

(** [strings.LastIndexByte] *)
Fixpoint last_index (s : bytes) (c : byte) (i : Z) (found : Z) : Z :=
  match s with
  | [] => found
  | x :: s => last_index s c (i + 1) (if Byte.eqb x c then i else found)
  end.
Definition LastIndexByte (s : bytes) (c : byte) : Z := last_index s c 0 (-1).

Definition Repeat (s : bytes) (n : Z) : bytes := concat (replicate (Z.to_nat n) s).

(** [strconv.Itoa] and [FormatUint(_, 10)] *)
Definition dec_digits (n : N) : bytes := String.list_byte_of_string (NilZero.string_of_uint (N.to_uint n)).
Definition itoa (z : Z) : bytes :=
  if z <? 0 then "-"%byte :: dec_digits (Z.to_N (- z)) else dec_digits (Z.to_N z).

(** [unicode.IsSpace] *)
Definition IsSpace (r : Z) : bool :=
  ((9 <=? r) && (r <=? 13)) || (r =? 32) || (r =? 133) || (r =? 160) || (r =? 5760)
  || ((8192 <=? r) && (r <=? 8202)) || (r =? 8232) || (r =? 8233) || (r =? 8239)
  || (r =? 8287) || (r =? 12288).

(** [strings.TrimLeftFunc(s, f)]: drops leading runes; one byte of fuel each. *)
Fixpoint trim_left_fuel (fuel : nat) (f : Z -> bool) (s : bytes) : bytes :=
  match fuel, s with
  | S fuel, b0 :: rest =>
    let '(r, w) := decode_rune b0 rest in
    if f r then trim_left_fuel fuel f (drop (w - 1) rest) else s
  | _, _ => s
  end.
Definition TrimLeftFunc (s : bytes) (f : Z -> bool) : bytes := trim_left_fuel (length s) f s.

(** The runes of a string with the bytes they are read from. *)
Fixpoint segments_fuel (fuel : nat) (s : bytes) : list (Z * bytes) :=
  match fuel, s with
  | S fuel, b0 :: rest =>
    let '(r, w) := decode_rune b0 rest in
    (r, take w s) :: segments_fuel fuel (drop (w - 1) rest)
  | _, _ => []
  end.

Fixpoint drop_spaces (l : list (Z * bytes)) : list (Z * bytes) :=
  match l with
  | [] => []
  | x :: l' => if IsSpace x.1 then drop_spaces l' else l
  end.

(** [strings.TrimSpace] *)
Definition TrimSpace (s : bytes) : bytes :=
  concat (map snd (rev (drop_spaces (rev (drop_spaces (segments_fuel (length s) s)))))).

(** [a < b] on strings: byte-wise order. *)
Fixpoint bytes_lt (a b : bytes) : bool :=
  match a, b with
  | _, [] => false
  | [], _ :: _ => true
  | x :: a, y :: b =>
    if byte_val x <? byte_val y then true
    else if byte_val y <? byte_val x then false
    else bytes_lt a b
  end.

(** [sort.Strings], by insertion. *)
Fixpoint insert_sorted {A} (k : bytes) (v : A) (l : list (bytes * A)) : list (bytes * A) :=
  match l with
  | [] => [(k, v)]
  | (k', v') :: l' => if bytes_lt k' k then (k', v') :: insert_sorted k v l' else (k, v) :: l
  end.
Definition sort_keys {A} (l : list (bytes * A)) : list (bytes * A) :=
  fold_right (fun kv l => insert_sorted kv.1 kv.2 l) [] l.

(** ** Facts *)

Section split.
Variable sep : byte.

Lemma split_byte_nonempty s : split_byte sep s <> [].
Proof. destruct s; cbn; [done|]. destruct (Byte.eqb _ _); [done|]. by destruct (split_byte sep s). Qed.

Lemma join_split s : join_byte sep (split_byte sep s) = s.
Proof.
  induction s as [|c s IH]; [done|]. cbn.
  destruct (Byte.eqb c sep) eqn:E.
  - apply Byte.byte_dec_bl in E as ->. destruct (split_byte sep s) eqn:Es.
    + by apply split_byte_nonempty in Es.
    + by rewrite <- IH.
  - destruct (split_byte sep s) as [|p ps] eqn:Es; [by apply split_byte_nonempty in Es|].
    destruct ps; cbn in *; by rewrite <- IH.
Qed.

(** No part contains the separator. *)
Lemma split_byte_parts s : Forall (fun p => sep ∉ p) (split_byte sep s).
Proof.
  induction s as [|c s IH]; cbn; [constructor; [set_solver|constructor]|].
  destruct (Byte.eqb c sep) eqn:E; [constructor; [set_solver|done]|].
  assert (c <> sep) as Hne by (intros ->; by rewrite Byte.byte_dec_lb in E).
  destruct (split_byte sep s) as [|p ps].
  - constructor; [set_solver|constructor].
  - inv IH. constructor; [set_solver|done].
Qed.

Lemma split_no_sep p : sep ∉ p -> split_byte sep p = [p].
Proof.
  induction p as [|c p IH]; intros Hp; [done|]. cbn.
  destruct (Byte.eqb c sep) eqn:E.
  - apply Byte.byte_dec_bl in E as ->. set_solver.
  - by rewrite IH by set_solver.
Qed.

Lemma split_app p s : sep ∉ p -> split_byte sep (p ++ sep :: s) = p :: split_byte sep s.
Proof.
  induction p as [|c p IH]; intros Hp; cbn.
  - by rewrite Byte.byte_dec_lb.
  - destruct (Byte.eqb c sep) eqn:E.
    + apply Byte.byte_dec_bl in E as ->. set_solver.
    + by rewrite IH by set_solver.
Qed.

Lemma split_join ps : ps <> [] -> Forall (fun p => sep ∉ p) ps ->
  split_byte sep (join_byte sep ps) = ps.
Proof.
  induction ps as [|p ps IH]; intros Hne HF; [done|]. inv HF.
  destruct ps as [|q ps]; [by apply split_no_sep|].
  change (join_byte sep (p :: q :: ps)) with (p ++ sep :: join_byte sep (q :: ps)).
  rewrite split_app by done. by rewrite IH.
Qed.
End split.

(** ** The order on strings *)

Lemma bytes_lt_irrefl a : bytes_lt a a = false.
Proof. induction a as [|x a IH]; [done|]. cbn. by rewrite Z.ltb_irrefl. Qed.

Lemma bytes_lt_trans a b c : bytes_lt a b = true -> bytes_lt b c = true -> bytes_lt a c = true.
Proof.
  revert b c. induction a as [|x a IH]; intros [|y b] [|z c]; cbn; try done.
  destruct (Z.ltb_spec (byte_val x) (byte_val y)), (Z.ltb_spec (byte_val y) (byte_val x)),
    (Z.ltb_spec (byte_val y) (byte_val z)), (Z.ltb_spec (byte_val z) (byte_val y)),
    (Z.ltb_spec (byte_val x) (byte_val z)), (Z.ltb_spec (byte_val z) (byte_val x));
    try done; try lia. apply IH.
Qed.

Lemma bytes_lt_total a b : bytes_lt a b = false -> bytes_lt b a = false -> a = b.
Proof.
  revert b. induction a as [|x a IH]; intros [|y b]; cbn; try done.
  destruct (Z.ltb_spec (byte_val x) (byte_val y)), (Z.ltb_spec (byte_val y) (byte_val x)); try done.
  intros. f_equal; [apply byte_val_inj; lia|by apply IH].
Qed.

Lemma bytes_lt_app p a b : bytes_lt (p ++ a) (p ++ b) = bytes_lt a b.
Proof. induction p as [|x p IH]; [done|]. cbn. by rewrite Z.ltb_irrefl. Qed.
