(* ===== verification/VPath.v ===== *)
(** Virtual POSIX paths (src/internal/value/vpath.go): lexical normalisation
    against its specification as a stack of segments, and the sandbox's
    working directory. *)

From S2P Require Import Prelude Utf8 GoStrings.

Definition slash : byte := Byte.x2f.
Definition dot_seg : bytes := go ".".
Definition dotdot_seg : bytes := go "..".

Definition isNormalizedVirtualPath (path : bytes) : bool :=
  if bool_decide (path = [slash]) then true
  else if negb (HasPrefix path [slash]) || HasSuffix path [slash] then false
  else forallb (fun seg => negb (bool_decide (seg = []) || bool_decide (seg = dot_seg)
                                 || bool_decide (seg = dotdot_seg)))
         (split_byte slash (drop 1 path)).

(** The loop body: [out] is the builder's content. *)
Definition normalize_step (out : bytes) (seg : bytes) : bytes :=
  if bool_decide (seg = []) || bool_decide (seg = dot_seg) then out
  else if bool_decide (seg = dotdot_seg) then
    let i := LastIndexByte out slash in
    let i := if i <? 0 then 0 else i in
    take (Z.to_nat i) out
  else out ++ [slash] ++ seg.

Definition NormalizeVirtualPath (path : bytes) : bytes :=
  if isNormalizedVirtualPath path then path
  else
    let out := fold_left normalize_step (split_byte slash path) [] in
    if len out =? 0 then [slash] else out.

Definition ValidateCwd (cwd : bytes) : result bytes :=
  if existsb (Byte.eqb Byte.x00) cwd
  then Err (Errorf "cwd must not contain NUL bytes: %s" [FStr cwd])
  else if negb (HasPrefix cwd [slash])
  then Err (Errorf "cwd must be an absolute POSIX path: %s" [FStr cwd])
  else
    let trimmed := TrimRight cwd slash in
    if bool_decide (trimmed = []) then Ok [slash] else Ok trimmed.

(** ** Specification: a path denotes the stack of its segments *)

Definition ordinary (seg : bytes) : bool :=
  negb (bool_decide (seg = []) || bool_decide (seg = dot_seg) || bool_decide (seg = dotdot_seg)).

(** [.] and empty segments stay, [..] pops, and the root has no parent. *)
Definition push_seg (st : list bytes) (seg : bytes) : list bytes :=
  if bool_decide (seg = []) || bool_decide (seg = dot_seg) then st
  else if bool_decide (seg = dotdot_seg) then removelast st
  else st ++ [seg].

Definition resolve_segs (segs : list bytes) : list bytes := fold_left push_seg segs [].

(** The absolute spelling of a stack. *)
Definition unparse (st : list bytes) : bytes := concat (map (cons slash) st).
Definition path_of (st : list bytes) : bytes :=
  match st with [] => [slash] | _ => unparse st end.

Definition resolve (path : bytes) : list bytes := resolve_segs (split_byte slash path).

(** A segment a normalised path may have. *)
Definition seg_ok (seg : bytes) : Prop := ordinary seg = true /\ slash ∉ seg.

Section facts.
Lemma last_index_app s c i f x :
  last_index (s ++ x) c i f = last_index x c (i + len s) (last_index s c i f).
Proof.
  revert i f. induction s as [|y s IH]; intros i f; cbn [app last_index].
  - f_equal. rewrite len_nil. lia.
  - rewrite IH, len_cons. f_equal. lia.
Qed.

Lemma last_index_none s c i f : c ∉ s -> last_index s c i f = f.
Proof.
  revert i f. induction s as [|y s IH]; intros i f Hc; [done|]. cbn.
  destruct (Byte.eqb y c) eqn:E; [apply Byte.byte_dec_bl in E; set_solver|].
  apply IH. set_solver.
Qed.

Lemma LastIndexByte_app s seg : slash ∉ seg -> LastIndexByte (s ++ slash :: seg) slash = len s.
Proof.
  intros Hs. unfold LastIndexByte. rewrite last_index_app. cbn [last_index].
  rewrite Byte.byte_dec_lb by done. rewrite last_index_none by done. lia.
Qed.

Lemma unparse_snoc st seg : unparse (st ++ [seg]) = unparse st ++ slash :: seg.
Proof. unfold unparse. rewrite map_app, concat_app. cbn. by rewrite app_nil_r. Qed.

Lemma unparse_nil st : unparse st = [] <-> st = [].
Proof. destruct st; cbn; [done|]. by split. Qed.

Lemma ordinary_spec seg : ordinary seg = true <-> seg <> [] /\ seg <> dot_seg /\ seg <> dotdot_seg.
Proof.
  unfold ordinary. rewrite negb_true_iff, !orb_false_iff, !bool_decide_eq_false. tauto.
Qed.

(** One step of the builder is one step of the stack. *)
Lemma normalize_step_push st seg : Forall seg_ok st ->
  normalize_step (unparse st) seg = unparse (push_seg st seg).
Proof.
  intros HF. unfold normalize_step, push_seg. destruct (_ || _); [done|].
  destruct (bool_decide (seg = dotdot_seg)); [|by rewrite unparse_snoc].
  destruct st as [|s0 st0] using rev_ind; [done|]. clear IHst0.
  rewrite removelast_last, unparse_snoc. apply Forall_app in HF as [_ HF].
  inv HF. destruct H1 as [_ Hs]. rewrite LastIndexByte_app by done.
  pose proof (len_nonneg (unparse st0)). rewrite (proj2 (Z.ltb_ge _ _)) by lia.
  apply take_len_app.
Qed.

Lemma push_seg_ok st seg : Forall seg_ok st -> slash ∉ seg -> Forall seg_ok (push_seg st seg).
Proof.
  intros HF Hs. unfold push_seg. destruct (_ || _) eqn:E1; [done|].
  destruct (bool_decide (seg = dotdot_seg)) eqn:E2.
  - destruct st as [|s0 st0] using rev_ind; [done|]. rewrite removelast_last.
    by apply Forall_app in HF as [? _].
  - apply Forall_app. split; [done|]. apply Forall_singleton. split; [|done].
    unfold ordinary. by rewrite E1, E2.
Qed.

Lemma fold_normalize segs st : Forall seg_ok st -> Forall (fun s => slash ∉ s) segs ->
  fold_left normalize_step segs (unparse st) = unparse (fold_left push_seg segs st)
  /\ Forall seg_ok (fold_left push_seg segs st).
Proof.
  revert st. induction segs as [|seg segs IH]; intros st Hst Hsegs; [done|]. inv Hsegs.
  cbn [fold_left]. rewrite normalize_step_push by done. apply IH; [by apply push_seg_ok|done].
Qed.

(** Ordinary segments push themselves. *)
Lemma resolve_ordinary segs st : Forall (fun s => ordinary s = true) segs ->
  fold_left push_seg segs st = st ++ segs.
Proof.
  revert st. induction segs as [|seg segs IH]; intros st HF; [by rewrite app_nil_r|]. inv HF.
  cbn [fold_left]. unfold push_seg at 2. apply ordinary_spec in H1 as (? & ? & ?).
  rewrite !bool_decide_eq_false_2 by done. cbn. rewrite IH by done. by rewrite <- app_assoc.
Qed.

Lemma unparse_join seg segs : unparse (seg :: segs) = slash :: join_byte slash (seg :: segs).
Proof.
  revert seg. induction segs as [|s segs IH]; intros seg; [cbn; by rewrite app_nil_r|].
  change (unparse (seg :: s :: segs)) with (slash :: seg ++ unparse (s :: segs)).
  by rewrite IH.
Qed.

Lemma split_unparse seg segs : Forall (fun s => slash ∉ s) (seg :: segs) ->
  split_byte slash (drop 1 (unparse (seg :: segs))) = seg :: segs.
Proof. intros HF. rewrite unparse_join. cbn [drop]. by apply split_join. Qed.

Lemma HasPrefix_slash p : HasPrefix p [slash] = true <-> exists q, p = slash :: q.
Proof.
  unfold HasPrefix. rewrite bool_decide_eq_true. cbn [length]. destruct p as [|c p]; cbn.
  - split; [done|]. by intros [q Hq].
  - rewrite take_0. split; [intros [= ->]; by exists p|]. by intros [q [= -> _]].
Qed.

Lemma HasSuffix_snoc p c d : HasSuffix (p ++ [c]) [d] = bool_decide (c = d).
Proof.
  unfold HasSuffix. rewrite length_app. cbn [length].
  replace (length p + 1 - 1)%nat with (length p) by lia. rewrite drop_app_length.
  apply bool_decide_ext. split; [by intros [= ->]|by intros ->].
Qed.

(** A normalised path is the spelling of its own stack. *)
Lemma isNormalized_spec p : isNormalizedVirtualPath p = true <->
  exists st, Forall seg_ok st /\ p = path_of st.
Proof.
  unfold isNormalizedVirtualPath.
  destruct (bool_decide (p = [slash])) eqn:E0.
  { apply bool_decide_eq_true in E0 as ->. split; [|done]. intros _. by exists []. }
  apply bool_decide_eq_false in E0. split.
  - destruct (negb _ || _) eqn:E; [done|]. apply orb_false_iff in E as [Hp Hs].
    apply negb_false_iff, HasPrefix_slash in Hp as [q ->]. cbn [drop]. intros Hall.
    pose proof (split_byte_parts slash q) as Hparts. pose proof (join_split slash q) as Hj.
    destruct (split_byte slash q) as [|s segs] eqn:Eq; [by apply split_byte_nonempty in Eq|].
    exists (s :: segs). split; [|cbn [path_of]; by rewrite unparse_join, Hj].
    apply Forall_and. split; [|done]. apply Forall_forall. intros x Hx.
    rewrite forallb_forall in Hall. apply Hall. rewrite drop_0, Eq. by apply list_elem_of_In.
  - intros (st & HF & ->). destruct st as [|s st]; [done|]. cbn [path_of].
    apply Forall_and in HF as [Ho Hs].
    assert (HasPrefix (unparse (s :: st)) [slash] = true) as ->
      by (apply HasPrefix_slash; rewrite unparse_join; eauto).
    assert (HasSuffix (unparse (s :: st)) [slash] = false) as ->.
    { assert (exists l x, s :: st = l ++ [x]) as (l & x & E).
      { exists (removelast (s :: st)), (List.last (s :: st) []). by apply app_removelast_last. }
      rewrite E in Ho, Hs |- *. rewrite unparse_snoc. apply Forall_app in Ho as [_ Ho], Hs as [_ Hs].
      inv Ho. inv Hs. apply ordinary_spec in H1 as (Hx & _).
      destruct x as [|c x] using rev_ind; [done|].
      rewrite app_comm_cons, app_assoc, HasSuffix_snoc. apply bool_decide_eq_false_2. set_solver. }
    cbn [negb orb]. rewrite split_unparse by done. apply forallb_forall. intros x Hx.
    rewrite Forall_forall in Ho. by apply Ho, list_elem_of_In.
Qed.

Lemma resolve_path_of st : Forall seg_ok st -> resolve (path_of st) = st.
Proof.
  intros HF. destruct st as [|s st]; [done|]. apply Forall_and in HF as [Ho Hs].
  unfold resolve. cbn [path_of]. rewrite unparse_join.
  change (slash :: join_byte slash (s :: st)) with ([] ++ slash :: join_byte slash (s :: st)).
  rewrite split_app, split_join by (done || set_solver).
  unfold resolve_segs. cbn [fold_left]. by apply (resolve_ordinary (s :: st) []).
Qed.

Lemma Normalize_spec p :
  NormalizeVirtualPath p = path_of (resolve p) /\ Forall seg_ok (resolve p).
Proof.
  destruct (fold_normalize (split_byte slash p) []) as [He Hok];
    [constructor|apply split_byte_parts|]. split; [|done].
  unfold NormalizeVirtualPath. destruct (isNormalizedVirtualPath p) eqn:En.
  - apply isNormalized_spec in En as (st & HF & ->). by rewrite resolve_path_of.
  - change (unparse []) with (@nil byte) in He. rewrite He.
    change (fold_left push_seg (split_byte slash p) []) with (resolve p).
    destruct (resolve p) as [|s st]; [done|]. cbn [path_of].
    rewrite (proj2 (Z.eqb_neq _ _)); [done|]. cbn. rewrite len_cons.
    pose proof (len_nonneg (s ++ concat (map (cons slash) st))). lia.
Qed.
End facts.

(** C27. Lexical normalisation is the stack machine: the result spells the
    segments left after dropping empty and [.] segments and popping on [..]
    (never above the root), so it is absolute and normalised, and normalising
    again changes nothing; the fast path for normalised input agrees. *)
Theorem normalize_virtual_path (p : bytes) :
  NormalizeVirtualPath p = path_of (resolve p)
  /\ isNormalizedVirtualPath (NormalizeVirtualPath p) = true
  /\ HasPrefix (NormalizeVirtualPath p) [slash] = true
  /\ NormalizeVirtualPath (NormalizeVirtualPath p) = NormalizeVirtualPath p.
Proof.
  destruct (Normalize_spec p) as [E Hok].
  assert (isNormalizedVirtualPath (NormalizeVirtualPath p) = true) as Hn.
  { rewrite E. apply isNormalized_spec. by exists (resolve p). }
  split_and!; [done|done| |].
  - rewrite E. apply HasPrefix_slash. destruct (resolve p); cbn [path_of]; [eauto|].
    rewrite unparse_join. eauto.
  - unfold NormalizeVirtualPath at 1. by rewrite Hn.
Qed.

Example normalize_examples :
  NormalizeVirtualPath (go "/a/./b//../c/") = go "/a/c"
  /\ NormalizeVirtualPath (go "../../x") = go "/x" /\ NormalizeVirtualPath (go "") = go "/".
Proof. repeat split; vm_compute; reflexivity. Qed.

(** ** The working directory *)

Section cwd.
Lemma trim_left_byte_spec c s : exists k, s = replicate k c ++ trim_left_byte c s
  /\ (forall x r, trim_left_byte c s = x :: r -> x <> c).
Proof.
  induction s as [|x s (k & Hs & Hh)]; [by exists 0%nat|]. cbn.
  destruct (Byte.eqb x c) eqn:E.
  - apply Byte.byte_dec_bl in E as ->. exists (S k). split; [cbn; by rewrite <- Hs|done].
  - exists 0%nat. split; [done|]. intros y r [= <- _] ->. by rewrite Byte.byte_dec_lb in E.
Qed.

Lemma rev_replicate {A} k (c : A) : rev (replicate k c) = replicate k c.
Proof.
  induction k as [|k IH]; [done|]. cbn. rewrite IH.
  change [c] with (replicate 1 c). rewrite <- replicate_add. by rewrite Nat.add_comm.
Qed.

Lemma TrimRight_spec s c : exists k, s = TrimRight s c ++ replicate k c
  /\ (forall p, TrimRight s c <> p ++ [c]).
Proof.
  unfold TrimRight. destruct (trim_left_byte_spec c (rev s)) as (k & Hs & Hh).
  exists k. split.
  - apply (f_equal (@rev byte)) in Hs. rewrite rev_involutive, rev_app_distr, rev_replicate in Hs.
    exact Hs.
  - intros p Hp. apply (f_equal (@rev byte)) in Hp.
    rewrite rev_involutive, rev_app_distr in Hp. by apply Hh in Hp.
Qed.
End cwd.

(** A working directory [ValidateCwd] accepts is absolute and free of NUL
    bytes, is the input less trailing slashes only, ends in no slash unless it
    is the root, and is a fixed point; and exactly the relative paths and those
    with a NUL are refused. *)
Theorem validate_cwd (cwd : bytes) :
  match ValidateCwd cwd with
  | Ok c => HasPrefix c [slash] = true /\ Byte.x00 ∉ c
            /\ (exists k, (cwd = c ++ replicate k slash \/ c = [slash] /\ cwd = replicate k slash))
            /\ (c = [slash] \/ forall p, c <> p ++ [slash])
            /\ ValidateCwd c = Ok c
  | Err _ => Byte.x00 ∈ cwd \/ HasPrefix cwd [slash] = false
  end.
Proof.
  assert (forall s, existsb (Byte.eqb Byte.x00) s = true <-> Byte.x00 ∈ s) as Hnul.
  { intros s. rewrite existsb_exists. setoid_rewrite <- list_elem_of_In. split.
    - by intros (x & Hx & ->%Byte.byte_dec_bl).
    - intros Hx. exists Byte.x00. by split; [|apply Byte.byte_dec_lb]. }
  unfold ValidateCwd at 1. destruct (existsb _ cwd) eqn:E0; [left; by apply Hnul|].
  destruct (HasPrefix cwd [slash]) eqn:E1; cbn [negb]; [|by right].
  destruct (TrimRight_spec cwd slash) as (k & Hk & Ht).
  destruct (bool_decide (TrimRight cwd slash = [])) eqn:E2.
  - apply bool_decide_eq_true in E2. rewrite E2 in Hk.
    split_and!; [done|set_solver|exists k; by right|by left|done].
  - apply bool_decide_eq_false in E2. set (c := TrimRight cwd slash) in *.
    assert (HasPrefix c [slash] = true) as Hp.
    { apply HasPrefix_slash in E1 as [q Hq]. apply HasPrefix_slash.
      destruct c as [|x c]; [done|]. rewrite Hq in Hk. injection Hk as <- _. eauto. }
    assert (existsb (Byte.eqb Byte.x00) c = false) as Hc.
    { apply not_true_iff_false. intros Hin%Hnul. apply not_true_iff_false in E0. apply E0, Hnul.
      rewrite Hk. set_solver. }
    split_and!; [done| |exists k; by left|by right|].
    + intros Hin%Hnul. congruence.
    + unfold ValidateCwd. rewrite Hc, Hp. cbn [negb].
      destruct (TrimRight_spec c slash) as (j & Hj & _).
      assert (TrimRight c slash = c) as ->.
      { destruct j as [|j]; [by rewrite app_nil_r in Hj|]. exfalso.
        rewrite replicate_S_end, app_assoc in Hj. by apply Ht in Hj. }
      by rewrite bool_decide_eq_false_2.
Qed.
