(* ===== verification/Values.v ===== *)
(** The Go representation of Python values crossing the sandbox boundary
    (src/internal/value): the value type itself, the wire nesting budget of
    depth.go, file modes, time deltas and the container accessors. *)

From S2P Require Import Prelude Utf8.

(** ** Data (value.go) *)

(** The Go integer types a host value may have. *)
Inductive int_kind :=
| KInt | KInt8 | KInt16 | KInt32 | KInt64
| KUint | KUint8 | KUint16 | KUint32 | KUint64.

Record date := Date { d_year : Z; d_month : Z; d_day : Z }.

Record datetime := DateTime {
  dt_year : Z; dt_month : Z; dt_day : Z;
  dt_hour : Z; dt_minute : Z; dt_second : Z; dt_micro : Z;
  dt_offset : option Z; dt_tzname : option bytes }.

Record time := Time {
  t_hour : Z; t_minute : Z; t_second : Z; t_micro : Z;
  t_offset : option Z; t_tzname : option bytes; t_fold : Z }.

Record timedelta := TimeDelta { td_days : Z; td_seconds : Z; td_micros : Z }.

Record timezone := TimeZone { tz_offset : Z; tz_name : option bytes }.

Record exception := Exception { exc_type : bytes; exc_message : bytes }.

Record function := Function { fn_name : bytes; fn_doc : option bytes }.

Record filehandle := FileHandle { fh_path : bytes; fh_mode : bytes; fh_position : Z }.

Record cycle := Cycle { cy_identity : Z; cy_placeholder : bytes }.

(** TypeOrigin *)
Definition OriginUnspecified : Z := 0.
Definition OriginBuiltin : Z := 1.
Definition OriginSandbox : Z := 2.
Definition OriginHost : Z := 3.

(** A Go [any] as the codec sees it. Pointers to containers may be nil
    ([None]); floats are their IEEE bit patterns; [VOther] is any other Go
    type, by name. *)
Inductive value : Type :=
| VNil
| VEllipsis
| VNotImplemented
| VBool (b : bool)
| VInt (k : int_kind) (z : Z)
| VBig (p : option Z)
| VFloat32 (bits : Z)
| VFloat64 (bits : Z)
| VStr (s : bytes)
| VBytes (s : bytes)
| VList (items : list value)
| VTuple (items : list value)
| VNamedTuple (tname : bytes) (fields : list bytes) (vals : list value)
| VDict (d : option (list (value * value)))
| VSet (s : option (list value))
| VFrozenSet (s : option (list value))
| VDate (d : date)
| VTime (t : time)
| VDateTime (d : datetime)
| VTimeDelta (t : timedelta)
| VTimeZone (t : timezone)
| VException (e : exception)
| VType (t : pytype)
| VInstance (i : instance)
| VInstancePtr (i : instance)
| VFunction (f : function)
| VBuiltinFunction (s : bytes)
| VPath (s : bytes)
| VFileHandlePtr (h : filehandle)
| VFileHandle (h : filehandle)
| VCycle (c : cycle)
| VOther (gotype : bytes)
with pytype : Type :=
| PyType (name id : bytes) (origin : Z) (is_dataclass : bool)
    (attrs : option (list (value * value)))
with instance : Type :=
| Instance_ (ty : pytype) (id : bytes) (attrs : option (list (value * value))).

Definition ty_origin (t : pytype) : Z := let 'PyType _ _ o _ _ := t in o.
Definition ty_attrs (t : pytype) : option (list (value * value)) :=
  let 'PyType _ _ _ _ a := t in a.

(** [Dict.Pairs] and [Set.Items]: a nil pointer has no entries. *)
Definition Pairs (d : option (list (value * value))) : list (value * value) := default [] d.
Definition Items (s : option (list value)) : list value := default [] s.

(** [Dict.Len] *)
Definition Len (d : option (list (value * value))) : Z := len (Pairs d).

(** [value.IntValue]: int64 when it fits, else *big.Int. *)
Definition IntValue (z : Z) : value :=
  if in_int 64 z then VInt KInt64 z else VBig (Some z).

(** ** Nesting budget (depth.go) *)

Definition ProstRecursionLimit : Z := 100.
Definition FrameWrapperDepth : Z := 3.
Definition MaxProtoValueDepth : Z := ProstRecursionLimit - FrameWrapperDepth.
Definition MaxValueDepth : Z := (MaxProtoValueDepth - 1) / 2.
Definition listCost : Z := 2.
Definition dictCost : Z := 3.
Definition classInstanceCost : Z := 4.
Definition typeCost : Z := 2.
Definition classInstanceTypeCost : Z := 3.
Definition typeAttrsCost : Z := 2.

Section exceed.
Variable depthExceeds : value -> Z -> bool.

Definition seqExceeds (items : list value) (budget cost : Z) : bool :=
  if budget <? cost then true
  else existsb (fun it => depthExceeds it (budget - cost)) items.

Definition pairsExceed (pairs : list (value * value)) (budget cost : Z) : bool :=
  if budget <? cost then true
  else existsb (fun p => depthExceeds (fst p) (budget - cost)
                         || depthExceeds (snd p) (budget - cost)) pairs.
End exceed.

Fixpoint depthExceeds (v : value) (budget : Z) {struct v} : bool :=
  match v with
  | VList items | VTuple items => seqExceeds depthExceeds items budget listCost
  | VSet s | VFrozenSet s =>
    match s with
    | Some items => seqExceeds depthExceeds items budget listCost
    | None => seqExceeds depthExceeds [] budget listCost
    end
  | VNamedTuple _ _ vals => seqExceeds depthExceeds vals budget listCost
  | VDict d =>
    match d with
    | Some pairs => pairsExceed depthExceeds pairs budget dictCost
    | None => pairsExceed depthExceeds [] budget dictCost
    end
  | VInstance i | VInstancePtr i => instanceExceeds i budget
  | VType t =>
    if ty_origin t =? OriginBuiltin then budget <? typeCost
    else (budget <? typeCost) || classTypeExceeds t (budget - typeCost)
  | _ => budget =? 0
  end
with classTypeExceeds (t : pytype) (budget : Z) {struct t} : bool :=
  match t with
  | PyType _ _ _ _ (Some pairs) =>
    (0 <? len pairs) && pairsExceed depthExceeds pairs budget typeAttrsCost
  | PyType _ _ _ _ None => false
  end
with instanceExceeds (i : instance) (budget : Z) {struct i} : bool :=
  match i with
  | Instance_ ty _ attrs =>
    (budget <? classInstanceTypeCost)
    || classTypeExceeds ty (budget - classInstanceTypeCost)
    || match attrs with
       | Some pairs => pairsExceed depthExceeds pairs budget classInstanceCost
       | None => pairsExceed depthExceeds [] budget classInstanceCost
       end
  end.

Definition ExceedsMaxDepth (v : value) : bool := depthExceeds v MaxProtoValueDepth.

(** ** Named tuples *)

(** [NamedTuple.Get]: the first field of that name that has a value. *)
Fixpoint nt_get (fields : list bytes) (vals : list value) (i : nat) (field : bytes)
    : option value :=
  match fields with
  | [] => None
  | f :: fields =>
    if bool_decide (f = field) && (Z.of_nat i <? len vals)
    then vals !! i
    else nt_get fields vals (S i) field
  end.

Definition NamedTuple_Get (fields : list bytes) (vals : list value) (field : bytes)
    : option value := nt_get fields vals 0 field.

(** ** Open modes (filemode.go) *)

(** The state of [CanonicalFileMode]'s loop over the runes of the mode. *)
Record modescan := ModeScan { ms_action : option Z; ms_binary : bool; ms_text : bool }.

Definition is_rune (c : byte) (r : Z) : bool := r =? byte_val c.

Fixpoint scan_mode (mode : list Z) (s : modescan) : result modescan :=
  match mode with
  | [] => Ok s
  | ch :: rest =>
    if is_rune "r" ch || is_rune "w" ch || is_rune "a" ch then
      match ms_action s with
      | Some _ => Err (ErrNew "must have exactly one of create/read/write/append mode")
      | None => scan_mode rest (ModeScan (Some ch) (ms_binary s) (ms_text s))
      end
    else if is_rune "x" ch then Err (ErrNew "exclusive creation mode is not supported")
    else if is_rune "b" ch then
      if ms_binary s then Err (ErrNew "invalid mode: binary mode specified twice")
      else scan_mode rest (ModeScan (ms_action s) true (ms_text s))
    else if is_rune "t" ch then
      if ms_text s then Err (ErrNew "invalid mode: text mode specified twice")
      else scan_mode rest (ModeScan (ms_action s) (ms_binary s) true)
    else if is_rune "+" ch then Err (ErrNew "update modes ('+') are not yet supported")
    else Err (Errorf "invalid mode: %s" [FRune ch])
  end.

Definition CanonicalFileMode (mode : bytes) : result bytes :=
  s ← scan_mode (runes mode) (ModeScan None false false);
  if ms_binary s && ms_text s then Err (ErrNew "can't have text and binary mode at once")
  else match ms_action s with
       | None => Err (ErrNew "Must have exactly one of create/read/write/append mode and at most one plus")
       | Some a => if ms_binary s then Ok [byte_of a; "b"%byte] else Ok [byte_of a]
       end.

(** [ModeCreates]: w and a create the file. *)
Definition ModeCreates (mode : bytes) : bool :=
  match mode with
  | c :: _ => bool_decide (c = "w"%byte) || bool_decide (c = "a"%byte)
  | [] => false
  end.

Definition MaxSafeInteger : Z := 2 ^ 53 - 1.

Definition NewFileHandle (path mode : bytes) (position : Z) : result filehandle :=
  canonical ← CanonicalFileMode mode;
  if MaxSafeInteger <? position
  then Err (ErrNew "MontyFileHandle position must be a non-negative safe integer")
  else Ok (FileHandle path canonical position).

Definition Binary (h : filehandle) : bool := existsb (Byte.eqb "b"%byte) (fh_mode h).
Definition mode_prefix (c : byte) (h : filehandle) : bool :=
  match fh_mode h with x :: _ => Byte.eqb x c | [] => false end.
Definition mode_plus (h : filehandle) : bool := existsb (Byte.eqb "+"%byte) (fh_mode h).
Definition Readable (h : filehandle) : bool := mode_prefix "r"%byte h || mode_plus h.
Definition Writable (h : filehandle) : bool :=
  mode_prefix "w"%byte h || mode_prefix "a"%byte h || mode_plus h.

(** ** Time deltas *)

(** Go's [/] and [%] truncate toward zero. *)
Definition floorDiv (a b : Z) : Z :=
  let q := Z.quot a b in
  if negb (Z.rem a b =? 0) && negb (Bool.eqb (a <? 0) (b <? 0)) then int64 (q - 1) else q.

Definition dayMicros : Z := 86400 * 1000000.

Definition NormalizeTimeDelta (days seconds micros : Z) : timedelta :=
  let total := int64 (int64 (int64 (int64 (days * 86400) * 1000000) + int64 (seconds * 1000000)) + micros) in
  let d := floorDiv total dayMicros in
  let rem := int64 (total - int64 (int64 (d * 86400) * 1000000)) in
  TimeDelta (int32 d) (int32 (Z.quot rem 1000000)) (int32 (Z.rem rem 1000000)).

(** A [time.Duration] is a number of nanoseconds; [Microseconds] divides. *)
Definition TimeDeltaFromDuration (d : Z) : timedelta :=
  NormalizeTimeDelta 0 0 (Z.quot d 1000).

Definition hour_ns : Z := 3600 * 10 ^ 9.

Definition Duration (t : timedelta) : Z :=
  int64 (int64 (int64 (int64 (td_days t * 24) * hour_ns) + int64 (td_seconds t * 10 ^ 9))
         + int64 (td_micros t * 1000)).

(** ** Induction over the nested value type *)

Definition leaf (v : value) : Prop :=
  match v with
  | VList _ | VTuple _ | VNamedTuple _ _ _ | VDict _ | VSet _ | VFrozenSet _
  | VType _ | VInstance _ | VInstancePtr _ => False
  | _ => True
  end.

Section value_induction.
Variables (P : value -> Prop) (Pt : pytype -> Prop) (Pi : instance -> Prop).
Let Ppair (p : value * value) : Prop := P p.1 /\ P p.2.

Hypothesis Hleaf : forall v, leaf v -> P v.
Hypothesis Hlist : forall l, Forall P l -> P (VList l).
Hypothesis Htuple : forall l, Forall P l -> P (VTuple l).
Hypothesis Hnt : forall n fs l, Forall P l -> P (VNamedTuple n fs l).
Hypothesis Hdict : forall d, Forall Ppair (Pairs d) -> P (VDict d).
Hypothesis Hset : forall s, Forall P (Items s) -> P (VSet s).
Hypothesis Hfset : forall s, Forall P (Items s) -> P (VFrozenSet s).
Hypothesis Htype : forall t, Pt t -> P (VType t).
Hypothesis Hinst : forall i, Pi i -> P (VInstance i).
Hypothesis Hinstp : forall i, Pi i -> P (VInstancePtr i).
Hypothesis Hpt : forall n id o dc a, Forall Ppair (Pairs a) -> Pt (PyType n id o dc a).
Hypothesis Hpi : forall t id a, Pt t -> Forall Ppair (Pairs a) -> Pi (Instance_ t id a).

Definition list_all (f : forall v, P v) : forall l, Forall P l :=
  fix go l := match l with
              | [] => Forall_nil_2 P
              | x :: l => Forall_cons_2 P x l (f x) (go l)
              end.

Definition pairs_all (f : forall v, P v) : forall l, Forall Ppair l :=
  fix go l := match l with
              | [] => Forall_nil_2 Ppair
              | (a, b) :: l => Forall_cons_2 Ppair (a, b) l (conj (f a) (f b)) (go l)
              end.

Fixpoint value_ind' (v : value) : P v :=
  match v with
  | VList l => Hlist l (list_all value_ind' l)
  | VTuple l => Htuple l (list_all value_ind' l)
  | VNamedTuple n fs l => Hnt n fs l (list_all value_ind' l)
  | VDict None => Hdict None (Forall_nil_2 _)
  | VDict (Some l) => Hdict (Some l) (pairs_all value_ind' l)
  | VSet None => Hset None (Forall_nil_2 _)
  | VSet (Some l) => Hset (Some l) (list_all value_ind' l)
  | VFrozenSet None => Hfset None (Forall_nil_2 _)
  | VFrozenSet (Some l) => Hfset (Some l) (list_all value_ind' l)
  | VType t => Htype t (pytype_ind' t)
  | VInstance i => Hinst i (instance_ind' i)
  | VInstancePtr i => Hinstp i (instance_ind' i)
  | v => Hleaf v I
  end
with pytype_ind' (t : pytype) : Pt t :=
  match t with
  | PyType n id o dc None => Hpt n id o dc None (Forall_nil_2 _)
  | PyType n id o dc (Some l) => Hpt n id o dc (Some l) (pairs_all value_ind' l)
  end
with instance_ind' (i : instance) : Pi i :=
  match i with
  | Instance_ t id None => Hpi t id None (pytype_ind' t) (Forall_nil_2 _)
  | Instance_ t id (Some l) =>
    Hpi t id (Some l) (pytype_ind' t) (pairs_all value_ind' l)
  end.
End value_induction.
