(* ===== verification/ValueCodec.v ===== *)
(** The MontyObject codec of src/internal/wire/value_codec.go: [AppendValue]
    and its helpers, [decodeValue] and the per-shape decoders it calls, with
    the decode budget charged as the code charges it. *)

From S2P Require Import Prelude Protowire Proto Values.

(** ** Budget *)

Definition nodeHostSize : Z := 88.
Definition maxDecodeNesting : Z := 100.

Definition MaxFrameLen : Z := 256 * 2 ^ 20.
Definition DefaultMaxDecodeBytes : Z := 4 * MaxFrameLen.
Definition ErrDecodeBudget : goerror := ErrNew "decoded frame exceeds the host memory budget".

(** A [*Budget]: nil, or the bytes remaining. *)
Definition budget : Type := option Z.

Definition NewBudget (n : Z) : budget := Some n.

Definition charge (b : budget) (n : Z) : result budget :=
  match b with
  | None => Ok None
  | Some remaining =>
    let remaining := int64 (remaining - n) in
    if remaining <? 0 then Err ErrDecodeBudget else Ok (Some remaining)
  end.

(** ** Encoding *)

(** [math.Float64bits(float64(x))] of a float32 given by its bits. *)
Definition f32_to_f64 (b : Z) : Z :=
  let s := b / 2 ^ 31 mod 2 in
  let e := b / 2 ^ 23 mod 256 in
  let m := b mod 2 ^ 23 in
  let sign := s * 2 ^ 63 in
  if e =? 255 then
    sign + 2047 * 2 ^ 52 + (if m =? 0 then 0 else 2 ^ 51 + (m mod 2 ^ 22) * 2 ^ 29)
  else if e =? 0 then
    if m =? 0 then sign
    else let k := Z.log2 m in sign + (k + 874) * 2 ^ 52 + (m - 2 ^ k) * 2 ^ (52 - k)
  else sign + (e + 896) * 2 ^ 52 + m * 2 ^ 29.

Section encode.
Context `{PW : Protowire}.

Definition appendInt (b : bytes) (x : Z) : bytes :=
  AppendVarint (AppendTag b 5 VarintType) (EncodeZigZag x).

Definition appendBig (b : bytes) (x : Z) : bytes :=
  if in_int 64 x then appendInt b x
  else
    let body := appendBoolField [] 1 (x <? 0) in
    let body := appendBytesAlways body 2 (be_bytes (Z.abs x)) in
    appendMessage b 6 body.

Definition appendUint (b : bytes) (x : Z) : bytes :=
  if x <=? MaxInt64 then appendInt b x else appendBig b x.

Definition appendTimeZoneBody (b : bytes) (tz : timezone) : bytes :=
  let b := appendInt32Field b 1 (tz_offset tz) in
  match tz_name tz with None => b | Some n => appendStringAlways b 2 n end.

Definition appendFileHandle (b : bytes) (h : filehandle) : bytes :=
  let body := appendStringField [] 1 (fh_path h) in
  let body := appendStringField body 2 (fh_mode h) in
  let body := appendUintField body 3 (fh_position h) in
  appendMessage b 28 body.

(** [if p != nil { body = appendVarintField(body, num, uint64(int64( *p))) }] *)
Definition appendOffset (b : bytes) (num : Z) (o : option Z) : bytes :=
  match o with None => b | Some o => appendVarintField b num (uint64 o) end.

Definition appendOptString (b : bytes) (num : Z) (s : option bytes) : bytes :=
  match s with None => b | Some s => appendStringAlways b num s end.

Section containers.
(** [av v] is [AppendValue(nil, v)]. *)
Variable av : value -> result bytes.

Definition appendValueField (b : bytes) (num : Z) (v : value) : result bytes :=
  body ← av v; Ok (appendMessage b num body).

Definition appendValues (num : Z) : list value -> bytes -> result bytes :=
  fix go items body :=
    match items with
    | [] => Ok body
    | item :: items => body ← appendValueField body num item; go items body
    end.

Definition appendObjectList (b : bytes) (num : Z) (items : list value) : result bytes :=
  body ← appendValues 1 items [];
  Ok (appendMessage b num body).

Definition appendPairBody (b : bytes) (k v : value) : result bytes :=
  b ← appendValueField b 1 k; appendValueField b 2 v.

Definition appendDictBody : list (value * value) -> bytes -> result bytes :=
  fix go pairs b :=
    match pairs with
    | [] => Ok b
    | (k, v) :: pairs =>
      pair ← appendPairBody [] k v;
      go pairs (appendMessage b 1 pair)
    end.

Definition appendNames (num : Z) (names : list bytes) (b : bytes) : bytes :=
  fold_left (fun b f => appendStringAlways b num f) names b.
End containers.

(** [AppendValue]: the type switch of the source, one arm per case. *)
Fixpoint AppendValue (b : bytes) (v : value) {struct v} : result bytes :=
  let av := AppendValue [] in
  match v with
  | VList items => appendObjectList av b 11 items
  | VTuple items => appendObjectList av b 12 items
  | VNamedTuple tname fields vals =>
    let body := appendStringField [] 1 tname in
    let body := appendNames 2 fields body in
    body ← appendValues av 3 vals body;
    Ok (appendMessage b 13 body)
  | VDict None => Ok (appendMessage b 14 [])
  | VDict (Some pairs) =>
    body ← appendDictBody av pairs [];
    Ok (appendMessage b 14 body)
  | VSet None => appendObjectList av b 15 []
  | VSet (Some items) => appendObjectList av b 15 items
  | VFrozenSet None => appendObjectList av b 16 []
  | VFrozenSet (Some items) => appendObjectList av b 16 items
  | VType t =>
    body ← appendTypeBody [] t;
    Ok (appendMessage b 23 body)
  | VInstance i | VInstancePtr i => appendInstance b i
  | VNil => Ok (appendMessage b 2 [])
  | VEllipsis => Ok (appendMessage b 1 [])
  | VNotImplemented => Ok (appendMessage b 3 [])
  | VBool x => Ok (AppendVarint (AppendTag b 4 VarintType) (EncodeBool x))
  | VInt KUint x | VInt KUint64 x => Ok (appendUint b x)
  | VInt _ x => Ok (appendInt b x)
  | VBig None => Ok (appendMessage b 2 [])
  | VBig (Some x) => Ok (appendBig b x)
  | VFloat32 x => Ok (AppendFixed64 (AppendTag b 7 Fixed64Type) (f32_to_f64 x))
  | VFloat64 x => Ok (AppendFixed64 (AppendTag b 7 Fixed64Type) x)
  | VStr s => Ok (appendStringAlways b 8 s)
  | VBytes s => Ok (appendBytesAlways b 9 s)
  | VDate d =>
    let body := appendInt32Field [] 1 (d_year d) in
    let body := appendUintField body 2 (d_month d) in
    let body := appendUintField body 3 (d_day d) in
    Ok (appendMessage b 17 body)
  | VTime t =>
    let body := appendUintField [] 1 (t_hour t) in
    let body := appendUintField body 2 (t_minute t) in
    let body := appendUintField body 3 (t_second t) in
    let body := appendUintField body 4 (t_micro t) in
    let body := appendOffset body 5 (t_offset t) in
    let body := appendOptString body 6 (t_tzname t) in
    let body := appendUintField body 7 (t_fold t) in
    Ok (appendMessage b 18 body)
  | VDateTime d =>
    let body := appendInt32Field [] 1 (dt_year d) in
    let body := appendUintField body 2 (dt_month d) in
    let body := appendUintField body 3 (dt_day d) in
    let body := appendUintField body 4 (dt_hour d) in
    let body := appendUintField body 5 (dt_minute d) in
    let body := appendUintField body 6 (dt_second d) in
    let body := appendUintField body 7 (dt_micro d) in
    let body := appendOffset body 8 (dt_offset d) in
    let body := appendOptString body 9 (dt_tzname d) in
    Ok (appendMessage b 19 body)
  | VTimeDelta t =>
    let body := appendInt32Field [] 1 (td_days t) in
    let body := appendInt32Field body 2 (td_seconds t) in
    let body := appendInt32Field body 3 (td_micros t) in
    Ok (appendMessage b 20 body)
  | VTimeZone tz => Ok (appendMessage b 21 (appendTimeZoneBody [] tz))
  | VException e =>
    let body := appendStringField [] 1 (exc_type e) in
    let body := if bool_decide (exc_message e = []) then body
                else appendStringAlways body 2 (exc_message e) in
    Ok (appendMessage b 22 body)
  | VFunction f =>
    let body := appendStringField [] 1 (fn_name f) in
    let body := appendOptString body 2 (fn_doc f) in
    Ok (appendMessage b 25 body)
  | VBuiltinFunction s => Ok (appendStringAlways b 26 s)
  | VPath s => Ok (appendStringAlways b 27 s)
  | VFileHandlePtr h | VFileHandle h => Ok (appendFileHandle b h)
  | VCycle _ => Err (ConversionError (ErrNew "Cannot convert cycle marker to Monty value"))
  | VOther t => Err (ConversionError (Errorf "Cannot convert Go %T to Monty value" [FStr t]))
  end
with appendTypeBody (b : bytes) (t : pytype) {struct t} : result bytes :=
  match t with
  | PyType name id origin dc attrs =>
    let b := appendStringField b 1 name in
    b ← (if bool_decide (id = []) then Ok b
         else match appendUUIDMessage b 2 id with
              | Ok b => Ok b
              | Err e => Err (ConversionError e)
              end);
    let b := appendUintField b 3 origin in
    let b := appendBoolField b 4 dc in
    match attrs with
    | Some ((_ :: _) as pairs) =>
      attrs ← appendDictBody (AppendValue []) pairs [];
      Ok (appendMessage b 5 attrs)
    | _ => Ok b
    end
  end
with appendInstance (b : bytes) (i : instance) {struct i} : result bytes :=
  match i with
  | Instance_ ty id attrs =>
    typ ← appendTypeBody [] ty;
    let body := appendMessage [] 1 typ in
    body ← match appendUUIDMessage body 2 id with
           | Ok b => Ok b
           | Err e => Err (ConversionError e)
           end;
    attrs ← match attrs with
            | None => Ok []
            | Some pairs => appendDictBody (AppendValue []) pairs []
            end;
    Ok (appendMessage b 24 (appendMessage body 3 attrs))
  end.
End encode.

(** ** Validation *)

(** [uint8(clampU32(v))] keeps an out-of-range component out of range. *)
Definition clampU32 (v : Z) : Z := if 255 <? v then 255 else v.

Definition month_days (month : Z) : Z :=
  default 0 ([31; 28; 31; 30; 31; 30; 31; 31; 30; 31; 30; 31] !! Z.to_nat (month - 1)).

Definition validateDate (year month day : Z) : result () :=
  if (year <? 1) || (9999 <? year) then Err (Errorf "year %d is out of range" [FInt year])
  else if (month <? 1) || (12 <? month) then Err (Errorf "month %d is out of range" [FInt month])
  else
    let days := month_days month in
    let days := if (month =? 2) && ((Z.rem year 4 =? 0)
                   && (negb (Z.rem year 100 =? 0) || (Z.rem year 400 =? 0)))
                then 29 else days in
    if (day <? 1) || (days <? day)
    then Err (Errorf "day %d is out of range for month" [FInt day])
    else Ok ().

Definition validateClock (hour minute second micro : Z) (offset : option Z)
    (name : option bytes) : result () :=
  if (23 <? hour) || (59 <? minute) || (59 <? second) || (999999 <? micro)
  then Err (ErrNew "time component out of range")
  else if match offset with Some o => (o <=? -86400) || (86400 <=? o) | None => false end
  then Err (ErrNew "utc offset out of range")
  else if match name, offset with Some _, None => true | _, _ => false end
  then Err (ErrNew "timezone name requires an offset")
  else Ok ().

Definition validHandleMode (mode : bytes) : bool :=
  existsb (fun m => bool_decide (mode = go m))
    ["r"; "rb"; "r+"; "rb+"; "w"; "wb"; "w+"; "wb+"; "a"; "ab"; "a+"; "ab+"]%string.

(** ** Decoding *)

Section decode.
Context `{PW : Protowire}.

Definition decodeBig (msg : bytes) (bg : budget) : result (value * budget) :=
  '(neg, mag) ← checked (each_field
    (fun num typ '(neg, mag) r =>
       if num =? 1 then let '(v, r) := r_varint num typ r in Ok ((negb (v =? 0), mag), r)
       else if num =? 2 then let '(v, r) := r_bytes num typ r in Ok ((neg, v), r)
       else Ok ((neg, mag), r_skip num typ r))
    (false, []) (new_reader msg));
  bg ← charge bg (len mag);
  let x := be_val mag in
  Ok (IntValue (if neg : bool then - x else x), bg).

Definition decodeDate (msg : bytes) : result value :=
  d ← checked (each_field
    (fun num typ '(Date y m d) r =>
       if num =? 1 then let '(v, r) := r_varint num typ r in Ok (Date (int32 v) m d, r)
       else if num =? 2 then
         let '(v, r) := r_varint num typ r in Ok (Date y (uint8 (clampU32 v)) d, r)
       else if num =? 3 then
         let '(v, r) := r_varint num typ r in Ok (Date y m (uint8 (clampU32 v)), r)
       else Ok (Date y m d, r_skip num typ r))
    (Date 0 0 0) (new_reader msg));
  _ ← validateDate (d_year d) (d_month d) (d_day d);
  Ok (VDate d).

Definition decodeTime (msg : bytes) : result value :=
  t ← checked (each_field
    (fun num typ '(Time h mi s us off nm fold) r =>
       if num =? 1 then
         let '(v, r) := r_varint num typ r in Ok (Time (uint8 (clampU32 v)) mi s us off nm fold, r)
       else if num =? 2 then
         let '(v, r) := r_varint num typ r in Ok (Time h (uint8 (clampU32 v)) s us off nm fold, r)
       else if num =? 3 then
         let '(v, r) := r_varint num typ r in Ok (Time h mi (uint8 (clampU32 v)) us off nm fold, r)
       else if num =? 4 then
         let '(v, r) := r_varint num typ r in Ok (Time h mi s (uint32 v) off nm fold, r)
       else if num =? 5 then
         let '(v, r) := r_varint num typ r in Ok (Time h mi s us (Some (int32 v)) nm fold, r)
       else if num =? 6 then
         let '(v, r) := r_str num typ r in Ok (Time h mi s us off (Some v) fold, r)
       else if num =? 7 then
         let '(v, r) := r_varint num typ r in Ok (Time h mi s us off nm (uint8 (clampU32 v)), r)
       else Ok (Time h mi s us off nm fold, r_skip num typ r))
    (Time 0 0 0 0 None None 0) (new_reader msg));
  _ ← validateClock (t_hour t) (t_minute t) (t_second t) (t_micro t) (t_offset t) (t_tzname t);
  if 1 <? t_fold t then Err (ErrNew "fold must be 0 or 1") else Ok (VTime t).

Definition decodeDateTime (msg : bytes) : result value :=
  d ← checked (each_field
    (fun num typ '(DateTime y mo d h mi s us off nm) r =>
       if num =? 1 then
         let '(v, r) := r_varint num typ r in Ok (DateTime (int32 v) mo d h mi s us off nm, r)
       else if num =? 2 then
         let '(v, r) := r_varint num typ r in Ok (DateTime y (uint8 (clampU32 v)) d h mi s us off nm, r)
       else if num =? 3 then
         let '(v, r) := r_varint num typ r in Ok (DateTime y mo (uint8 (clampU32 v)) h mi s us off nm, r)
       else if num =? 4 then
         let '(v, r) := r_varint num typ r in Ok (DateTime y mo d (uint8 (clampU32 v)) mi s us off nm, r)
       else if num =? 5 then
         let '(v, r) := r_varint num typ r in Ok (DateTime y mo d h (uint8 (clampU32 v)) s us off nm, r)
       else if num =? 6 then
         let '(v, r) := r_varint num typ r in Ok (DateTime y mo d h mi (uint8 (clampU32 v)) us off nm, r)
       else if num =? 7 then
         let '(v, r) := r_varint num typ r in Ok (DateTime y mo d h mi s (uint32 v) off nm, r)
       else if num =? 8 then
         let '(v, r) := r_varint num typ r in Ok (DateTime y mo d h mi s us (Some (int32 v)) nm, r)
       else if num =? 9 then
         let '(v, r) := r_str num typ r in Ok (DateTime y mo d h mi s us off (Some v), r)
       else Ok (DateTime y mo d h mi s us off nm, r_skip num typ r))
    (DateTime 0 0 0 0 0 0 0 None None) (new_reader msg));
  _ ← validateDate (dt_year d) (dt_month d) (dt_day d);
  _ ← validateClock (dt_hour d) (dt_minute d) (dt_second d) (dt_micro d) (dt_offset d) (dt_tzname d);
  Ok (VDateTime d).

Definition timedelta_normalized (t : timedelta) : bool :=
  negb ((td_seconds t <? 0) || (86400 <=? td_seconds t) || (td_micros t <? 0)
        || (1000000 <=? td_micros t) || (td_days t <? -999999999) || (999999999 <? td_days t)).

Definition decodeTimeDelta (msg : bytes) : result value :=
  t ← checked (each_field
    (fun num typ '(TimeDelta d s us) r =>
       if num =? 1 then let '(v, r) := r_varint num typ r in Ok (TimeDelta (int32 v) s us, r)
       else if num =? 2 then let '(v, r) := r_varint num typ r in Ok (TimeDelta d (int32 v) us, r)
       else if num =? 3 then let '(v, r) := r_varint num typ r in Ok (TimeDelta d s (int32 v), r)
       else Ok (TimeDelta d s us, r_skip num typ r))
    (TimeDelta 0 0 0) (new_reader msg));
  if timedelta_normalized t then Ok (VTimeDelta t)
  else Err (ErrNew "timedelta is not normalized").

Definition decodeTimeZone (msg : bytes) : result timezone :=
  tz ← checked (each_field
    (fun num typ '(TimeZone off nm) r =>
       if num =? 1 then let '(v, r) := r_varint num typ r in Ok (TimeZone (int32 v) nm, r)
       else if num =? 2 then let '(v, r) := r_str num typ r in Ok (TimeZone off (Some v), r)
       else Ok (TimeZone off nm, r_skip num typ r))
    (TimeZone 0 None) (new_reader msg));
  if (tz_offset tz <=? -86400) || (86400 <=? tz_offset tz)
  then Err (ErrNew "timezone offset out of range") else Ok tz.

Definition decodeExceptionValue (msg : bytes) : result value :=
  e ← checked (each_field
    (fun num typ '(Exception et m) r =>
       if num =? 1 then let '(v, r) := r_str num typ r in Ok (Exception v m, r)
       else if num =? 2 then let '(v, r) := r_str num typ r in Ok (Exception et v, r)
       else Ok (Exception et m, r_skip num typ r))
    (Exception [] []) (new_reader msg));
  Ok (VException e).

Definition decodeFunction (msg : bytes) : result value :=
  f ← checked (each_field
    (fun num typ '(Function n d) r =>
       if num =? 1 then let '(v, r) := r_str num typ r in Ok (Function v d, r)
       else if num =? 2 then let '(v, r) := r_str num typ r in Ok (Function n (Some v), r)
       else Ok (Function n d, r_skip num typ r))
    (Function [] None) (new_reader msg));
  Ok (VFunction f).

Definition decodeFileHandle (msg : bytes) : result value :=
  h ← checked (each_field
    (fun num typ '(FileHandle p m pos) r =>
       if num =? 1 then let '(v, r) := r_str num typ r in Ok (FileHandle v m pos, r)
       else if num =? 2 then let '(v, r) := r_str num typ r in Ok (FileHandle p v pos, r)
       else if num =? 3 then let '(v, r) := r_varint num typ r in Ok (FileHandle p m v, r)
       else Ok (FileHandle p m pos, r_skip num typ r))
    (FileHandle [] [] 0) (new_reader msg));
  if negb (validHandleMode (fh_mode h))
  then Err (Errorf "invalid file handle mode %q" [FStr (fh_mode h)])
  else Ok (VFileHandlePtr h).

Definition decodeCycle (msg : bytes) : result value :=
  c ← checked (each_field
    (fun num typ '(Cycle i p) r =>
       if num =? 1 then let '(v, r) := r_varint num typ r in Ok (Cycle v p, r)
       else if num =? 2 then let '(v, r) := r_str num typ r in Ok (Cycle i v, r)
       else Ok (Cycle i p, r_skip num typ r))
    (Cycle 0 []) (new_reader msg));
  Ok (VCycle c).

Section containers.
Variable dv : bytes -> budget -> Z -> result (value * budget).

Definition list_field (depth num typ : Z) (s : list value * budget) (r : reader)
    : result (list value * budget * reader) :=
  let '(items, bg) := s in
  if negb (num =? 1) then Ok ((items, bg), r_skip num typ r)
  else
    let '(m, r) := r_bytes num typ r in
    '(v, bg) ← dv m bg (depth + 1);
    Ok ((items ++ [v], bg), r).

Definition decodeObjectList (msg : bytes) (bg : budget) (depth : Z)
    : result (list value * budget) :=
  checked (each_field (list_field depth) ([], bg) (new_reader msg)).

Definition namedtuple_field (depth num typ : Z)
    (s : bytes * list bytes * list value * budget) (r : reader)
    : result (bytes * list bytes * list value * budget * reader) :=
  let '(n, fs, vs, bg) := s in
  if num =? 1 then let '(v, r) := r_str num typ r in Ok ((v, fs, vs, bg), r)
  else if num =? 2 then
    let '(v, r) := r_str num typ r in Ok ((n, fs ++ [v], vs, bg), r)
  else if num =? 3 then
    let '(m, r) := r_bytes num typ r in
    '(v, bg) ← dv m bg (depth + 1);
    Ok ((n, fs, vs ++ [v], bg), r)
  else Ok ((n, fs, vs, bg), r_skip num typ r).

Definition decodeNamedTuple (msg : bytes) (bg : budget) (depth : Z)
    : result (value * budget) :=
  '(n, fs, vs, bg) ← checked (each_field (namedtuple_field depth)
    ([], [], [], bg) (new_reader msg));
  Ok (VNamedTuple n fs vs, bg).

(** The key and value of a pair are present once decoded ([hasKey], [hasVal]). *)
Definition pair_field (depth num typ : Z)
    (s : option value * option value * budget) (r : reader)
    : result (option value * option value * budget * reader) :=
  let '(key, val, bg) := s in
  if num =? 1 then
    let '(m, r) := r_bytes num typ r in
    '(v, bg) ← dv m bg (depth + 1);
    Ok ((Some v, val, bg), r)
  else if num =? 2 then
    let '(m, r) := r_bytes num typ r in
    '(v, bg) ← dv m bg (depth + 1);
    Ok ((key, Some v, bg), r)
  else Ok ((key, val, bg), r_skip num typ r).

Definition decodePair (msg : bytes) (bg : budget) (depth : Z)
    : result (value * value * budget) :=
  '(key, val, bg) ← checked (each_field (pair_field depth)
    (None, None, bg) (new_reader msg));
  match key, val with
  | Some key, Some val => Ok (key, val, bg)
  | _, _ => Err (ErrNew "dict pair is missing its key or value")
  end.

Definition dict_field (depth num typ : Z) (s : list (value * value) * budget) (r : reader)
    : result (list (value * value) * budget * reader) :=
  let '(d, bg) := s in
  if negb (num =? 1) then Ok ((d, bg), r_skip num typ r)
  else
    let '(m, r) := r_bytes num typ r in
    '(k, v, bg) ← decodePair m bg depth;
    Ok ((d ++ [(k, v)], bg), r).

Definition decodeDict (msg : bytes) (bg : budget) (depth : Z)
    : result (list (value * value) * budget) :=
  checked (each_field (dict_field depth) ([], bg) (new_reader msg)).

(** [if attrs.Len() > 0 { t.Attrs = attrs }] *)
Definition keep_attrs (old : option (list (value * value))) (attrs : list (value * value))
    : option (list (value * value)) :=
  if 0 <? len attrs then Some attrs else old.

Definition type_field (depth num typ : Z) (s : pytype * bool * budget) (r : reader)
    : result (pytype * bool * budget * reader) :=
  let '(PyType n id o dc a, hasID, bg) := s in
  if num =? 1 then
    let '(v, r) := r_str num typ r in Ok ((PyType v id o dc a, hasID, bg), r)
  else if num =? 2 then
    let '(m, r) := r_bytes num typ r in
    id ← decodeUUIDMessage m;
    Ok ((PyType n id o dc a, true, bg), r)
  else if num =? 3 then
    let '(v, r) := r_varint num typ r in
    Ok ((PyType n id (uint8 v) dc a, hasID, bg), r)
  else if num =? 4 then
    let '(v, r) := r_varint num typ r in
    Ok ((PyType n id o (negb (v =? 0)) a, hasID, bg), r)
  else if num =? 5 then
    let '(m, r) := r_bytes num typ r in
    '(attrs, bg) ← decodeDict m bg depth;
    Ok ((PyType n id o dc (keep_attrs a attrs), hasID, bg), r)
  else Ok ((PyType n id o dc a, hasID, bg), r_skip num typ r).

Definition decodeType (msg : bytes) (bg : budget) (depth : Z)
    : result (pytype * budget) :=
  '(t, hasID, bg) ← checked (each_field (type_field depth)
    (PyType [] [] 0 false None, false, bg) (new_reader msg));
  if ty_origin t =? OriginBuiltin then
    if (hasID : bool) then Err (ErrNew "builtin type must not carry an id") else Ok (t, bg)
  else if (ty_origin t =? OriginSandbox) || (ty_origin t =? OriginHost) then
    if negb hasID then Err (ErrNew "class type is missing its id") else Ok (t, bg)
  else Err (ErrNew "type origin is unspecified").

Definition instance_field (depth num typ : Z)
    (s : option pytype * option bytes * option (list (value * value)) * budget) (r : reader)
    : result (option pytype * option bytes * option (list (value * value)) * budget * reader) :=
  let '(ty, id, attrs, bg) := s in
  if num =? 1 then
    let '(m, r) := r_bytes num typ r in
    '(t, bg) ← decodeType m bg (depth + 1);
    Ok ((Some t, id, attrs, bg), r)
  else if num =? 2 then
    let '(m, r) := r_bytes num typ r in
    i ← decodeUUIDMessage m;
    Ok ((ty, Some i, attrs, bg), r)
  else if num =? 3 then
    let '(m, r) := r_bytes num typ r in
    '(a, bg) ← decodeDict m bg depth;
    Ok ((ty, id, keep_attrs attrs a, bg), r)
  else Ok ((ty, id, attrs, bg), r_skip num typ r).

Definition decodeInstance (msg : bytes) (bg : budget) (depth : Z)
    : result (value * budget) :=
  '(ty, id, attrs, bg) ← checked (each_field (instance_field depth)
    (None, None, None, bg) (new_reader msg));
  match ty, id with
  | Some ty, Some id =>
    if ty_origin ty =? OriginBuiltin
    then Err (ErrNew "class instance type must not be builtin")
    else Ok (VInstance (Instance_ ty id attrs), bg)
  | _, _ => Err (ErrNew "class instance is missing its type or id")
  end.

(** The switch of [decodeValue]: field [num] of a MontyObject. The result
    is the new [out], whether a kind was [seen], the budget and the reader. *)
Definition value_field (depth : Z) (num typ : Z)
    (s : value * bool * budget) (r : reader) : result (value * bool * budget * reader) :=
  let '(out, seen, bg) := s in
  let sub := r_bytes num typ r in
  let pure (m : result value) :=
    v ← m; Ok ((v, true, bg), sub.2) in
  let budgeted (m : result (value * budget)) :=
    '(v, bg) ← m; Ok ((v, true, bg), sub.2) in
  let listed (k : list value -> value) :=
    '(items, bg) ← decodeObjectList sub.1 bg depth; Ok ((k items, true, bg), sub.2) in
  let text (k : bytes -> value) :=
    bg ← charge bg (len sub.1); Ok ((k sub.1, true, bg), sub.2) in
  if num =? 1 then Ok ((VEllipsis, true, bg), sub.2)
  else if num =? 2 then Ok ((VNil, true, bg), sub.2)
  else if num =? 3 then Ok ((VNotImplemented, true, bg), sub.2)
  else if num =? 4 then
    let '(v, r) := r_varint num typ r in Ok ((VBool (negb (v =? 0)), true, bg), r)
  else if num =? 5 then
    let '(v, r) := r_varint num typ r in Ok ((VInt KInt64 (DecodeZigZag v), true, bg), r)
  else if num =? 6 then budgeted (decodeBig sub.1 bg)
  else if num =? 7 then
    let '(v, r) := r_fixed64 num typ r in Ok ((VFloat64 v, true, bg), r)
  else if num =? 8 then text VStr
  else if num =? 9 then text VBytes
  else if num =? 10 then Err (ErrNew "uuid values are not supported")
  else if num =? 11 then listed VList
  else if num =? 12 then listed VTuple
  else if num =? 13 then budgeted (decodeNamedTuple sub.1 bg depth)
  else if num =? 14 then
    '(d, bg) ← decodeDict sub.1 bg depth; Ok ((VDict (Some d), true, bg), sub.2)
  else if num =? 15 then listed (fun l => VSet (Some l))
  else if num =? 16 then listed (fun l => VFrozenSet (Some l))
  else if num =? 17 then pure (decodeDate sub.1)
  else if num =? 18 then pure (decodeTime sub.1)
  else if num =? 19 then pure (decodeDateTime sub.1)
  else if num =? 20 then pure (decodeTimeDelta sub.1)
  else if num =? 21 then pure (tz ← decodeTimeZone sub.1; Ok (VTimeZone tz))
  else if num =? 22 then pure (decodeExceptionValue sub.1)
  else if num =? 23 then
    '(t, bg) ← decodeType sub.1 bg depth; Ok ((VType t, true, bg), sub.2)
  else if num =? 24 then budgeted (decodeInstance sub.1 bg depth)
  else if num =? 25 then pure (decodeFunction sub.1)
  else if num =? 26 then Ok ((VBuiltinFunction sub.1, true, bg), sub.2)
  else if num =? 27 then Ok ((VPath sub.1, true, bg), sub.2)
  else if num =? 28 then pure (decodeFileHandle sub.1)
  else if num =? 29 then text VStr
  else if num =? 30 then pure (decodeCycle sub.1)
  else Ok ((out, false, bg), r_skip num typ r).
End containers.

Definition ErrNesting : goerror := ErrNew "value nesting exceeds the recursion limit".

(** [decodeValue]; a nested value is one level deeper, and the depth check
    bounds the recursion, so [fuel] runs out only where the check fails. *)
Fixpoint decodeValue_fuel (fuel : nat) (msg : bytes) (bg : budget) (depth : Z)
    : result (value * budget) :=
  match fuel with
  | O => Err ErrNesting
  | S fuel =>
    if maxDecodeNesting <? depth then Err ErrNesting
    else
      bg ← charge bg nodeHostSize;
      '(out, seen, bg) ← checked (each_field
        (value_field (decodeValue_fuel fuel) depth)
        (VNil, false, bg) (new_reader msg));
      if negb seen then Err (ErrNew "MontyObject carried no kind") else Ok (out, bg)
  end.

Definition decodeValue (msg : bytes) (bg : budget) (depth : Z) : result (value * budget) :=
  decodeValue_fuel (Z.to_nat (maxDecodeNesting + 1 - depth)) msg bg depth.

Definition DecodeValue (msg : bytes) (bg : budget) : result (value * budget) :=
  decodeValue msg bg 0.
End decode.

(** ** The field handlers never give bytes back *)

Section handlers.
Context `{PW : Protowire} `{!ProtowireLaws PW}.
Variable dv : bytes -> budget -> Z -> result (value * budget).
Variable depth : Z.

Lemma list_field_shrinking : shrinking (list_field dv depth).
Proof using Type. unfold list_field. solve_shrinking. Qed.
Lemma namedtuple_field_shrinking : shrinking (namedtuple_field dv depth).
Proof using Type. unfold namedtuple_field. solve_shrinking. Qed.
Lemma pair_field_shrinking : shrinking (pair_field dv depth).
Proof using Type. unfold pair_field. solve_shrinking. Qed.
Lemma dict_field_shrinking : shrinking (dict_field dv depth).
Proof using Type. unfold dict_field. solve_shrinking. Qed.
Lemma type_field_shrinking : shrinking (type_field dv depth).
Proof using Type. unfold type_field. solve_shrinking. Qed.
Lemma instance_field_shrinking : shrinking (instance_field dv depth).
Proof using Type. unfold instance_field. solve_shrinking. Qed.

Lemma value_field_shrinking : shrinking (value_field dv depth).
Proof using Type.
  intros num typ [[out seen] bg] r s' r' H. unfold value_field in H.
  destruct (r_bytes num typ r) as [m r1] eqn:Eb.
  apply r_bytes_shrink in Eb. cbn [fst snd] in H.
  repeat match type of H with (if ?c then _ else _) = _ => destruct c end;
    repeat match type of H with
    | (let '(_, _) := ?x in _) = _ => destruct x eqn:?
    | (?m ≫= _) = Ok _ => destruct m eqn:?; cbn in H
    | (let '(_, _) := ?p in _) = _ => destruct p
    end; simplify_eq/=; eauto with shrink.
Qed.
End handlers.
#[export] Hint Resolve list_field_shrinking namedtuple_field_shrinking pair_field_shrinking
  dict_field_shrinking type_field_shrinking instance_field_shrinking
  value_field_shrinking : shrink.
