(* ===== verification/Repr.v ===== *)
(** Text for humans: src/internal/value/repr.go, and the text of Go errors
    ([fmt.Errorf] with the verbs the program uses).

    Which runes are printable is a table of Go's unicode package, and the
    shortest decimal form of a float is strconv's: both are parameters. The
    theorem is about [BytesRepr], whose output is a Python literal. *)

From S2P Require Import Prelude Utf8 GoStrings Protowire Proto Values ValueCodec.

(** ** Runes and hexadecimal digits *)

(** [utf8.EncodeRune], which writes U+FFFD for what is no rune. *)
Definition string_of_rune (r : Z) : bytes :=
  let r := if (r <? 0) || (1114111 <? r) || ((55296 <=? r) && (r <=? 57343)) then RuneError else r in
  if r <? 128 then [byte_of r]
  else if r <? 2048 then [byte_of (192 + r / 64); byte_of (128 + r mod 64)]
  else if r <? 65536 then
    [byte_of (224 + r / 4096); byte_of (128 + r / 64 mod 64); byte_of (128 + r mod 64)]
  else [byte_of (240 + r / 262144); byte_of (128 + r / 4096 mod 64);
        byte_of (128 + r / 64 mod 64); byte_of (128 + r mod 64)].

(** [%0nx] *)
Fixpoint hex_pad (n : nat) (r : Z) : bytes :=
  match n with O => [] | S n => hex_pad n (r / 16) ++ [hexdig (r mod 16)] end.

(** [%x]: the digits without leading zeros. *)
Definition hex_width (r : Z) : nat := if r <=? 0 then 1%nat else S (Z.to_nat (Z.log2 r / 4)).
Definition hex_plain (r : Z) : bytes := hex_pad (hex_width r) r.

Definition squote : byte := "'"%byte.
Definition dquote : byte := Byte.x22.
Definition backslash_ : byte := Byte.x5c.

Definition has_byte (c : byte) (s : bytes) : bool := existsb (Byte.eqb c) s.

(** The single quote, or the double one when only the single one occurs. *)
Definition pick_quote (s : bytes) : byte :=
  if has_byte squote s && negb (has_byte dquote s) then dquote else squote.

(** ** bytes *)

Definition byte_escape (quote c : byte) : bytes :=
  if Byte.eqb c backslash_ then [backslash_; backslash_]
  else if Byte.eqb c Byte.x0a then [backslash_; "n"%byte]
  else if Byte.eqb c Byte.x0d then [backslash_; "r"%byte]
  else if Byte.eqb c Byte.x09 then [backslash_; "t"%byte]
  else if Byte.eqb c quote then [backslash_; quote]
  else if (byte_val c <? 32) || (127 <=? byte_val c) then backslash_ :: "x"%byte :: hex_pad 2 (byte_val c)
  else [c].

Definition BytesRepr (data : bytes) : bytes :=
  let quote := pick_quote data in
  "b"%byte :: quote :: concat (map (byte_escape quote) data) ++ [quote].

(** ** str, Rust's debug format and errors *)

Section text.
Variable IsPrint : Z -> bool.

Definition utf8Invalid : Z := -1.

Definition rune_repr (quote : byte) (r : Z) : bytes :=
  if r =? 92 then [backslash_; backslash_]
  else if r =? 10 then [backslash_; "n"%byte]
  else if r =? 13 then [backslash_; "r"%byte]
  else if r =? 9 then [backslash_; "t"%byte]
  else if r =? byte_val quote then [backslash_; quote]
  else if r =? utf8Invalid then string_of_rune RuneError
  else if IsPrint r then string_of_rune r
  else if r <=? 255 then backslash_ :: "x"%byte :: hex_pad 2 r
  else if r <=? 65535 then backslash_ :: "u"%byte :: hex_pad 4 r
  else backslash_ :: "U"%byte :: hex_pad 8 r.

Definition StringRepr (s : bytes) : bytes :=
  let quote := pick_quote s in
  quote :: concat (map (rune_repr quote) (runes s)) ++ [quote].

Definition rustEscape (r : Z) (quote : byte) : bytes :=
  if r =? 0 then [backslash_; "0"%byte]
  else if r =? 9 then [backslash_; "t"%byte]
  else if r =? 10 then [backslash_; "n"%byte]
  else if r =? 13 then [backslash_; "r"%byte]
  else if r =? 92 then [backslash_; backslash_]
  else if r =? byte_val quote then [backslash_; quote]
  else if IsPrint r || (r =? 32) then string_of_rune r
  else backslash_ :: "u"%byte :: "{"%byte :: hex_plain r ++ ["}"%byte].

Definition RustDebugString (s : bytes) : bytes :=
  dquote :: concat (map (fun r => rustEscape r dquote) (runes s)) ++ [dquote].

Definition RustDebugChar (r : Z) : bytes := squote :: rustEscape r squote ++ [squote].

(** [strconv.Quote], the [%q] of a string: bytes that are not UTF-8 are [\x]. *)
Definition quote_rune (r : Z) (w : nat) (b0 : byte) : bytes :=
  if (r =? RuneError) && (w =? 1)%nat then backslash_ :: "x"%byte :: hex_pad 2 (byte_val b0)
  else if r =? 34 then [backslash_; dquote]
  else if r =? 92 then [backslash_; backslash_]
  else if IsPrint r then string_of_rune r
  else if r =? 7 then [backslash_; "a"%byte]
  else if r =? 8 then [backslash_; "b"%byte]
  else if r =? 12 then [backslash_; "f"%byte]
  else if r =? 10 then [backslash_; "n"%byte]
  else if r =? 13 then [backslash_; "r"%byte]
  else if r =? 9 then [backslash_; "t"%byte]
  else if r =? 11 then [backslash_; "v"%byte]
  else if (r <? 32) || (r =? 127) then backslash_ :: "x"%byte :: hex_pad 2 r
  else if r <? 65536 then backslash_ :: "u"%byte :: hex_pad 4 r
  else backslash_ :: "U"%byte :: hex_pad 8 r.

Fixpoint quote_fuel (fuel : nat) (s : bytes) : bytes :=
  match fuel, s with
  | S fuel, b0 :: rest =>
    let '(r, w) := decode_rune b0 rest in
    quote_rune r w b0 ++ quote_fuel fuel (drop (w - 1) rest)
  | _, _ => []
  end.
Definition Quote (s : bytes) : bytes := dquote :: quote_fuel (length s) s ++ [dquote].

(** One verb: [%d], [%q], and [%s], [%T], [%v], which print the text itself. *)
Definition format_arg (verb : byte) (a : farg) : bytes :=
  match a with
  | FInt z => itoa z
  | FStr s => if Byte.eqb verb "q"%byte then Quote s else s
  | FRune r => RustDebugChar r
  end.

Fixpoint sprintf (format : bytes) (args : list farg) : bytes :=
  match format with
  | "%"%byte :: verb :: rest =>
    match args with
    | a :: args => format_arg verb a ++ sprintf rest args
    | [] => "%"%byte :: verb :: sprintf rest []
    end
  | c :: rest => c :: sprintf rest args
  | [] => []
  end.

(** The text of protowire's parse errors is that package's. *)
Variable parse_error_text : Z -> bytes.

(** [err.Error()] *)
Fixpoint err_text (e : goerror) : bytes :=
  match e with
  | ErrNew msg => go msg
  | Errorf format args => sprintf (go format) args
  | ParseError code => parse_error_text code
  | ConversionError e => err_text e
  | FrameTooLarge n m =>
    sprintf (go "frame of %d bytes exceeds maximum of %d bytes") [FInt n; FInt m]
  | Panic msg => go msg
  | ErrFuel => []
  end.
End text.

Example err_text_example :
  err_text (fun _ => true) (fun _ => []) (Errorf "field %d: wire type %d, expected %d" [FInt 7; FInt 2; FInt 0])
  = go "field 7: wire type 2, expected 0".
Proof. vm_compute. reflexivity. Qed.

(** ** float and the other values *)

Section repr.
Variable IsPrint : Z -> bool.
(** [strconv.FormatFloat(f, 'e', -1, 64)] of a finite float, as its sign, its
    digits and its exponent. *)
Variable FormatFloat_e : Z -> bool * bytes * Z.
(** fmt's [%v] of a value that has no representation of its own. *)
Variable fmt_v : value -> bytes.

Definition f64_exponent (bits : Z) : Z := bits / 2 ^ 52 mod 2048.
Definition f64_mantissa (bits : Z) : Z := bits mod 2 ^ 52.
Definition f64_sign (bits : Z) : bool := 2 ^ 63 <=? bits.

(** [%+03d] *)
Definition exp_text (e : Z) : bytes :=
  (if e <? 0 then "-"%byte else "+"%byte)
  :: (if Z.abs e <? 10 then "0"%byte :: itoa (Z.abs e) else itoa (Z.abs e)).

Definition FloatRepr (f : Z) : bytes :=
  if (f64_exponent f =? 2047) && (f64_mantissa f =? 0)
  then if f64_sign f then go "-inf" else go "inf"
  else if f64_exponent f =? 2047 then go "nan"
  else
    let '(neg, digits, exp) := FormatFloat_e f in
    let sign := if neg then go "-" else [] in
    if (exp <? -4) || (16 <=? exp) then
      sign ++ take 1 digits ++ (if 1 <? len digits then go "." ++ drop 1 digits else [])
      ++ go "e" ++ exp_text exp
    else if 0 <=? exp then
      if len digits <=? exp + 1
      then sign ++ digits ++ Repeat (go "0") (exp + 1 - len digits) ++ go ".0"
      else sign ++ take (Z.to_nat (exp + 1)) digits ++ go "." ++ drop (Z.to_nat (exp + 1)) digits
    else sign ++ go "0." ++ Repeat (go "0") (- exp - 1) ++ digits.

(** The texts of a sequence, separated by a comma and a space. *)
Definition commas (l : list bytes) : bytes :=
  match l with [] => [] | x :: l => x ++ concat (map (fun y => go ", " ++ y) l) end.

Fixpoint Repr (v : value) : bytes :=
  let repr_pair p := Repr p.1 ++ go ": " ++ Repr p.2 in
  match v with
  | VNil => go "None"
  | VBool b => if b then go "True" else go "False"
  | VInt (KInt | KInt64 | KInt32 | KUint64) z => itoa z
  | VBig (Some z) => itoa z
  | VBig None => go "<nil>"
  | VFloat64 f => FloatRepr f
  | VFloat32 f => FloatRepr (f32_to_f64 f)
  | VStr s => StringRepr IsPrint s
  | VBytes s => BytesRepr s
  | VList l => go "[" ++ commas (map Repr l) ++ go "]"
  | VTuple l => go "(" ++ commas (map Repr l) ++ (if len l =? 1 then go "," else []) ++ go ")"
  | VDict (Some d) => go "{" ++ commas (map repr_pair d) ++ go "}"
  | VDict None => go "{}"
  | VSet (Some ((_ :: _) as l)) => go "{" ++ commas (map Repr l) ++ go "}"
  | VSet _ => go "set()"
  | VFrozenSet (Some ((_ :: _) as l)) => go "frozenset({" ++ commas (map Repr l) ++ go "})"
  | VFrozenSet _ => go "frozenset()"
  | VEllipsis => go "Ellipsis"
  | VNotImplemented => go "NotImplemented"
  | VPath s => go "PosixPath(" ++ StringRepr IsPrint s ++ go ")"
  | VNamedTuple n fields vals =>
    n ++ go "(" ++ commas (zip_with (fun i t => match fields !! i with
                                              | Some f => f ++ go "=" ++ t
                                              | None => t
                                              end) (seq 0 (length vals)) (map Repr vals)) ++ go ")"
  | VException e =>
    exc_type e ++ go "(" ++ (if bool_decide (exc_message e = []) then [] else StringRepr IsPrint (exc_message e))
    ++ go ")"
  | v => fmt_v v
  end.
End repr.

(** ** Reading a Python bytes literal *)

(** The escapes of a bytes literal, up to the closing quote. *)
Fixpoint read_escapes (fuel : nat) (quote : byte) (s : bytes) : option (bytes * bytes) :=
  match fuel with
  | O => None
  | S fuel =>
    match s with
    | [] => None
    | c :: s =>
      if Byte.eqb c quote then Some ([], s)
      else if Byte.eqb c backslash_ then
        match s with
        | "n"%byte :: s => '(d, r) ← read_escapes fuel quote s; Some (Byte.x0a :: d, r)
        | "r"%byte :: s => '(d, r) ← read_escapes fuel quote s; Some (Byte.x0d :: d, r)
        | "t"%byte :: s => '(d, r) ← read_escapes fuel quote s; Some (Byte.x09 :: d, r)
        | "x"%byte :: a :: b :: s =>
          hi ← hexval a; lo ← hexval b;
          '(d, r) ← read_escapes fuel quote s; Some (byte_of (16 * hi + lo) :: d, r)
        | c :: s =>
          if Byte.eqb c backslash_ || Byte.eqb c squote || Byte.eqb c dquote
          then '(d, r) ← read_escapes fuel quote s; Some (c :: d, r) else None
        | [] => None
        end
      else '(d, r) ← read_escapes fuel quote s; Some (c :: d, r)
    end
  end.

Definition read_bytes_literal (s : bytes) : option bytes :=
  match s with
  | "b"%byte :: quote :: s =>
    if Byte.eqb quote squote || Byte.eqb quote dquote then
      match read_escapes (S (length s)) quote s with Some (d, []) => Some d | _ => None end
    else None
  | _ => None
  end.

Definition is_quote (q : byte) : bool := Byte.eqb q squote || Byte.eqb q dquote.
Definition one_escape (q c : byte) : Prop :=
  forall fuel rest, read_escapes (S fuel) q (byte_escape q c ++ rest)
                    = ('(d, r) ← read_escapes fuel q rest; Some (c :: d, r)).

Section bytes_repr.
(** Each byte's escape reads back, by evaluation over all 256 bytes. *)
Lemma byte_escape_reads q c : is_quote q = true -> one_escape q c.
Proof.
  intros Hq fuel rest. assert (q = squote \/ q = dquote) as [-> | ->].
  { unfold is_quote in Hq. apply orb_true_iff in Hq as [H%byte_dec_bl|H%byte_dec_bl]; auto. }
  - destruct c; reflexivity.
  - destruct c; reflexivity.
Qed.

Lemma escapes_read q data fuel : is_quote q = true -> (length data < fuel)%nat ->
  read_escapes fuel q (concat (map (byte_escape q) data) ++ [q]) = Some (data, []).
Proof.
  intros Hq. revert fuel. induction data as [|c data IH]; intros [|fuel] Hf; cbn [length] in Hf; try lia.
  - cbn. by rewrite byte_dec_lb.
  - cbn [map concat]. rewrite <- app_assoc, byte_escape_reads by done. rewrite IH by lia. done.
Qed.

Lemma pick_quote_quote data : is_quote (pick_quote data) = true.
Proof. unfold pick_quote. by destruct (has_byte squote data && _). Qed.

Lemma escapes_length q data : (length data <= length (concat (map (byte_escape q) data)))%nat.
Proof.
  induction data as [|c data IH]; cbn [map concat length]; [lia|]. rewrite length_app.
  assert (1 <= length (byte_escape q c))%nat; [|lia]. unfold byte_escape.
  repeat match goal with |- context [if ?b then _ else _] => destruct b end; cbn; lia.
Qed.

(** Printable ASCII: the escapes never leave a control or non-ASCII byte. *)
Definition printable (c : byte) : bool := (32 <=? byte_val c) && (byte_val c <? 127).

Lemma byte_escape_printable q c : is_quote q = true -> forallb printable (byte_escape q c) = true.
Proof.
  intros Hq. assert (q = squote \/ q = dquote) as [-> | ->].
  { unfold is_quote in Hq. apply orb_true_iff in Hq as [H%byte_dec_bl|H%byte_dec_bl]; auto. }
  - by destruct c.
  - by destruct c.
Qed.
End bytes_repr.

(** [BytesRepr] writes a Python bytes literal: reading the literal gives the
    data back, whatever bytes it holds, and the text is printable ASCII. *)
Theorem bytes_repr_literal (data : bytes) :
  read_bytes_literal (BytesRepr data) = Some data /\ forallb printable (BytesRepr data) = true.
Proof.
  pose proof (pick_quote_quote data) as Hq. unfold BytesRepr. split.
  - unfold read_bytes_literal. cbv zeta. fold (is_quote (pick_quote data)). rewrite Hq, escapes_read; [done|done|].
    pose proof (escapes_length (pick_quote data) data). rewrite length_app. cbn. lia.
  - assert (printable (pick_quote data) = true) as Hp
      by (unfold pick_quote; by destruct (has_byte squote data && _)).
    cbn [forallb]. rewrite forallb_app. cbn [forallb]. rewrite Hp.
    rewrite (proj2 (forallb_forall printable _)); [done|]. intros c Hc.
    apply in_concat in Hc as (l & (x & <- & _)%in_map_iff & Hl).
    pose proof (byte_escape_printable (pick_quote data) x Hq) as Hx.
    rewrite forallb_forall in Hx. by apply Hx.
Qed.
