(* ===== verification/CodecSpec.v ===== *)
(** What the value codec promises: which values the wire can carry
    ([wf_value]), what comes back ([canon]), how deep a value nests ([nest])
    and what decoding it charges ([cost]). *)

From S2P Require Import Prelude Protowire Proto Values ValueCodec.

(** ** The specification functions *)

Definition is_ok {A} (r : result A) : bool := match r with Ok _ => true | Err _ => false end.

Definition int_kind_ok (k : int_kind) (z : Z) : bool :=
  match k with
  | KInt | KInt64 => in_int 64 z
  | KInt8 => in_int 8 z
  | KInt16 => in_int 16 z
  | KInt32 => in_int 32 z
  | KUint | KUint64 => in_uint 64 z
  | KUint8 => in_uint 8 z
  | KUint16 => in_uint 16 z
  | KUint32 => in_uint 32 z
  end.

Definition pair_all (f : value -> bool) (p : value * value) : bool := f p.1 && f p.2.

(** Values inside the ranges of their Go types and accepted by the wire's own
    validation. *)
Fixpoint wf_value (v : value) : bool :=
  match v with
  | VInt k z => int_kind_ok k z
  | VFloat32 b => in_uint 32 b
  | VFloat64 b => in_uint 64 b
  | VList l | VTuple l | VNamedTuple _ _ l => forallb wf_value l
  | VDict (Some d) => forallb (pair_all wf_value) d
  | VSet (Some l) | VFrozenSet (Some l) => forallb wf_value l
  | VDate d => is_ok (validateDate (d_year d) (d_month d) (d_day d))
  | VTime t =>
    (0 <=? t_hour t) && (0 <=? t_minute t) && (0 <=? t_second t) && (0 <=? t_micro t)
    && is_ok (validateClock (t_hour t) (t_minute t) (t_second t) (t_micro t)
                (t_offset t) (t_tzname t))
    && (0 <=? t_fold t) && (t_fold t <=? 1)
  | VDateTime d =>
    is_ok (validateDate (dt_year d) (dt_month d) (dt_day d))
    && (0 <=? dt_hour d) && (0 <=? dt_minute d) && (0 <=? dt_second d) && (0 <=? dt_micro d)
    && is_ok (validateClock (dt_hour d) (dt_minute d) (dt_second d) (dt_micro d)
                (dt_offset d) (dt_tzname d))
  | VTimeDelta t => timedelta_normalized t
  | VTimeZone tz => (-86400 <? tz_offset tz) && (tz_offset tz <? 86400)
  | VType t => wf_type t
  | VInstance i | VInstancePtr i => wf_instance i
  | VFileHandlePtr h | VFileHandle h => validHandleMode (fh_mode h) && in_uint 64 (fh_position h)
  | VCycle c => in_uint 64 (cy_identity c)
  | VOther _ => false
  | _ => true
  end
with wf_type (t : pytype) : bool :=
  match t with
  | PyType _ id o _ a =>
    ((o =? OriginBuiltin) && bool_decide (id = [])
     || ((o =? OriginSandbox) || (o =? OriginHost)) && negb (bool_decide (id = [])))
    && match a with Some d => forallb (pair_all wf_value) d | None => true end
  end
with wf_instance (i : instance) : bool :=
  match i with
  | Instance_ t _ a =>
    wf_type t && negb (ty_origin t =? OriginBuiltin)
    && match a with Some d => forallb (pair_all wf_value) d | None => true end
  end.

(** The canonical spelling of a uuid: lowercase. *)
Definition canon_uuid (id : bytes) : bytes :=
  match (raw ← ParseUUID id; FormatUUID raw) with Ok s => s | Err _ => id end.

(** What a value becomes after a trip over the wire: integers are int64 or
    *big.Int, nil containers are empty ones, pointers and values of the same
    struct coincide, uuids are lowercase. *)
Fixpoint canon (v : value) : value :=
  match v with
  | VInt _ z => IntValue z
  | VBig None => VNil
  | VBig (Some z) => IntValue z
  | VFloat32 b => VFloat64 (f32_to_f64 b)
  | VList l => VList (map canon l)
  | VTuple l => VTuple (map canon l)
  | VNamedTuple n fs l => VNamedTuple n fs (map canon l)
  | VDict None => VDict (Some [])
  | VDict (Some d) => VDict (Some (map (fun p => (canon p.1, canon p.2)) d))
  | VSet None => VSet (Some [])
  | VSet (Some l) => VSet (Some (map canon l))
  | VFrozenSet None => VFrozenSet (Some [])
  | VFrozenSet (Some l) => VFrozenSet (Some (map canon l))
  | VType t => VType (canon_type t)
  | VInstance i | VInstancePtr i => VInstance (canon_instance i)
  | VFileHandle h => VFileHandlePtr h
  | v => v
  end
with canon_type (t : pytype) : pytype :=
  match t with
  | PyType n id o dc a =>
    PyType n (if bool_decide (id = []) then [] else canon_uuid id) o dc
      (match a with
       | Some ((_ :: _) as d) => Some (map (fun p => (canon p.1, canon p.2)) d)
       | _ => None
       end)
  end
with canon_instance (i : instance) : instance :=
  match i with
  | Instance_ t id a =>
    Instance_ (canon_type t) (canon_uuid id)
      (match a with
       | Some ((_ :: _) as d) => Some (map (fun p => (canon p.1, canon p.2)) d)
       | _ => None
       end)
  end.

Definition zmax (l : list Z) : Z := fold_right Z.max 0 l.
Definition zsum (l : list Z) : Z := fold_right Z.add 0 l.

(** A type inside an instance sits one level deeper than the instance, which
    only its attributes notice. *)
Definition deeper (n : Z) : Z := if n =? 0 then 0 else 1 + n.

(** How many levels of [decodeValue] a value needs below its own. *)
Fixpoint nest (v : value) : Z :=
  let seq l := zmax (map (fun x => 1 + nest x) l) in
  let dict d := zmax (map (fun p => 1 + Z.max (nest p.1) (nest p.2)) d) in
  match v with
  | VList l | VTuple l | VNamedTuple _ _ l | VSet (Some l) | VFrozenSet (Some l) => seq l
  | VDict (Some d) => dict d
  | VType t => nest_type t
  | VInstance i | VInstancePtr i => nest_instance i
  | _ => 0
  end
with nest_type (t : pytype) : Z :=
  match t with
  | PyType _ _ _ _ (Some d) => zmax (map (fun p => 1 + Z.max (nest p.1) (nest p.2)) d)
  | PyType _ _ _ _ None => 0
  end
with nest_instance (i : instance) : Z :=
  match i with
  | Instance_ t _ a =>
    Z.max (deeper (nest_type t))
      (match a with
       | Some d => zmax (map (fun p => 1 + Z.max (nest p.1) (nest p.2)) d)
       | None => 0
       end)
  end.

(** The host memory decoding charges: a node each, plus text and magnitudes. *)
Definition int_cost (z : Z) : Z := if in_int 64 z then 0 else len (be_bytes (Z.abs z)).

Fixpoint cost (v : value) : Z :=
  nodeHostSize +
  match v with
  | VInt _ z | VBig (Some z) => int_cost z
  | VStr s | VBytes s => len s
  | VList l | VTuple l | VNamedTuple _ _ l | VSet (Some l) | VFrozenSet (Some l) =>
    zsum (map cost l)
  | VDict (Some d) => zsum (map (fun p => cost p.1 + cost p.2) d)
  | VType t => cost_type t
  | VInstance i | VInstancePtr i => cost_instance i
  | _ => 0
  end
with cost_type (t : pytype) : Z :=
  match t with
  | PyType _ _ _ _ (Some d) => zsum (map (fun p => cost p.1 + cost p.2) d)
  | PyType _ _ _ _ None => 0
  end
with cost_instance (i : instance) : Z :=
  match i with
  | Instance_ t _ a =>
    cost_type t + match a with
                  | Some d => zsum (map (fun p => cost p.1 + cost p.2) d)
                  | None => 0
                  end
  end.

(** A budget that covers [n] more bytes, and what it is after spending them. *)
Definition affords (bg : budget) (n : Z) : Prop :=
  match bg with None => True | Some r => n <= r < 2 ^ 63 end.
Definition spend (bg : budget) (n : Z) : budget := (fun r => r - n) <$> bg.

(** ** Facts about the specification functions *)

Lemma charge_spend bg n : 0 <= n -> affords bg n -> charge bg n = Ok (spend bg n).
Proof.
  destruct bg as [r|]; [|done]. cbn. intros Hn Hr.
  rewrite int64_small by lia. destruct (Z.ltb_spec (r - n) 0); [lia|done].
Qed.

Lemma spend_add bg n m : spend (spend bg n) m = spend bg (n + m).
Proof. destruct bg; cbn; [f_equal; lia|done]. Qed.

Lemma spend_0 bg : spend bg 0 = bg.
Proof. destruct bg; cbn; [f_equal; lia|done]. Qed.

Lemma affords_spend bg n m : 0 <= n -> affords bg (n + m) -> affords (spend bg n) m.
Proof. destruct bg; cbn; [lia|done]. Qed.

Lemma affords_le bg n m : n <= m -> affords bg m -> affords bg n.
Proof. destruct bg; cbn; [lia|done]. Qed.

Lemma zsum_cons x l : zsum (x :: l) = x + zsum l.
Proof. done. Qed.

Lemma zsum_nonneg {A} (f : A -> Z) l : Forall (fun x => 0 <= f x) l -> 0 <= zsum (map f l).
Proof. induction 1; [done|]. rewrite map_cons, zsum_cons. lia. Qed.

Lemma zmax_cons x l : zmax (x :: l) = Z.max x (zmax l).
Proof. done. Qed.

Lemma zmax_nonneg l : 0 <= zmax l.
Proof. induction l; [done|]. rewrite zmax_cons. lia. Qed.

Lemma deeper_nonneg n : 0 <= n -> 0 <= deeper n.
Proof. unfold deeper. destruct (n =? 0); lia. Qed.

Lemma nest_nonneg v : 0 <= nest v.
Proof.
  assert (forall t, 0 <= nest_type t) as Ht.
  { intros [? ? ? ? [d|]]; cbn [nest_type]; [apply zmax_nonneg|lia]. }
  assert (forall i, 0 <= nest_instance i) as Hi.
  { intros [t ? a]. cbn [nest_instance]. pose proof (deeper_nonneg _ (Ht t)). lia. }
  destruct v as [| | | | | | | | | | | | |[|]|[|]|[|]| | | | | | | | | | | | | | | |];
    cbn [nest]; auto using zmax_nonneg; lia.
Qed.

Lemma int_cost_nonneg z : 0 <= int_cost z.
Proof. unfold int_cost. destruct (in_int 64 z); [lia|apply len_nonneg]. Qed.

Lemma cost_nonneg v : nodeHostSize <= cost v.
Proof.
  revert v.
  refine (value_ind' (fun v => nodeHostSize <= cost v) (fun t => 0 <= cost_type t)
    (fun i => 0 <= cost_instance i) _ _ _ _ _ _ _ _ _ _ _ _); unfold nodeHostSize in *;
    assert (forall l, Forall (fun v => 88 <= cost v) l -> 0 <= zsum (map cost l)) as HL
      by (intros l Hl; apply zsum_nonneg; eapply Forall_impl; [done|]; intros; cbn in *; lia);
    assert (forall l, Forall (fun p => 88 <= cost p.1 /\ 88 <= cost p.2) l ->
              0 <= zsum (map (fun p => cost p.1 + cost p.2) l)) as HD
      by (intros l Hl; apply zsum_nonneg; eapply Forall_impl; [done|]; intros; cbn in *; lia).
  - intros v Hv. destruct v as [| | | | |[]| | | | | | | | | | | | | | | | | | | | | | | | | |];
      cbn -[Z.add]; unfold nodeHostSize; try done; try lia;
      repeat match goal with
      | |- context [int_cost ?z] => pose proof (int_cost_nonneg z); generalize dependent (int_cost z); intros
      | |- context [len ?s] => pose proof (len_nonneg s); generalize dependent (len s); intros
      end; lia.
  - intros l Hl. cbn -[Z.add]. specialize (HL _ Hl). unfold nodeHostSize. lia.
  - intros l Hl. cbn -[Z.add]. specialize (HL _ Hl). unfold nodeHostSize. lia.
  - intros n fs l Hl. cbn -[Z.add]. specialize (HL _ Hl). unfold nodeHostSize. lia.
  - intros [d|] Hd; cbn -[Z.add]; unfold nodeHostSize; [specialize (HD d Hd)|]; lia.
  - intros [d|] Hd; cbn -[Z.add]; unfold nodeHostSize; [specialize (HL d Hd)|]; lia.
  - intros [d|] Hd; cbn -[Z.add]; unfold nodeHostSize; [specialize (HL d Hd)|]; lia.
  - intros t Ht. cbn -[Z.add]. unfold nodeHostSize. lia.
  - intros t Ht. cbn -[Z.add]. unfold nodeHostSize. lia.
  - intros t Ht. cbn -[Z.add]. unfold nodeHostSize. lia.
  - intros n id o dc [d|] Hd; cbn; [by apply HD|lia].
  - intros t id [d|] Ht Hd; cbn; [specialize (HD d Hd)|]; lia.
Qed.

Lemma zsum_cost_nonneg l : 0 <= zsum (map cost l).
Proof.
  apply zsum_nonneg, Forall_true. intros v. pose proof (cost_nonneg v).
  unfold nodeHostSize in *. lia.
Qed.
