(* ===== verification/CodecRoundtrip.v ===== *)
(** Round trip of the value codec: every well-formed value that encodes is
    decoded back to its canonical form, at exactly its cost. *)

From S2P Require Import Prelude Protowire Proto Values ValueCodec CodecSpec.

(** Read one field: the four shapes the appenders write. *)
Ltac side := first [ lia | solve [eauto with shrink] | solve_shrinking ].
(** A hook: files that name their switch bodies unfold them here. *)
Ltac unfold_body := idtac.
Ltac payload :=
  unfold_body; cbn [Z.eqb Pos.eqb negb]; unfold r_str;
  first [ rewrite r_varint_app by (first [apply uint64_range | lia])
        | rewrite r_bytes_app by lia ]; reflexivity.
Ltac zeroed := let H := fresh in
  intros H; first [ apply Z.eqb_eq in H | apply bool_decide_eq_true in H
                  | apply negb_true_iff in H ]; rewrite H; reflexivity.
Ltac read_opt :=
  first [ erewrite each_field_opt; [|side|side|payload|zeroed]
        | erewrite each_field_optb; [|side|side|payload|zeroed] ].
Ltac read_var := rewrite each_field_fvar; [|side|side];
  unfold_body; cbn [Z.eqb Pos.eqb negb]; rewrite r_varint_app by (first [apply uint64_range | lia]);
  cbn [mbind result_mbind].
Ltac read_bytes := rewrite each_field_fbytes; [|side|side];
  unfold_body; cbn [Z.eqb Pos.eqb negb]; unfold r_str; rewrite r_bytes_app by lia;
  cbn [mbind result_mbind].
Ltac read_field := first [ read_opt | read_var | read_bytes ].
Ltac enc_norm := autorewrite with enc; rewrite ?app_nil_l, <- ?app_assoc.
Ltac end_of_message :=
  match goal with |- context [new_reader ?b] =>
    lazymatch b with [] => idtac | _ => rewrite <- (app_nil_r b) end end.

Ltac finish_message :=
  rewrite each_field_nil; cbn [checked mbind result_mbind rerr new_reader].

Section scalars.
Context `{PW : Protowire} `{!ProtowireLaws PW}.

Lemma appendOffset_eq b num o :
  appendOffset b num o = b ++ match o with None => [] | Some o => fvar num (uint64 o) end.
Proof. destruct o; cbn; [apply appendVarintField_eq|by rewrite app_nil_r]. Qed.

Lemma appendOptString_eq b num o :
  appendOptString b num o = b ++ match o with None => [] | Some s => fbytes num s end.
Proof. destruct o; cbn; [apply appendStringAlways_eq|by rewrite app_nil_r]. Qed.

Lemma clamp_small v : 0 <= v <= 255 -> uint8 (clampU32 v) = v.
Proof.
  intros. unfold uint8, clampU32. destruct (Z.ltb_spec 255 v); [lia|].
  apply uwrap_small. lia.
Qed.

Lemma month_days_bound m : month_days m <= 31.
Proof.
  unfold month_days. destruct (_ !! _) as [n|] eqn:E; [|done]. cbn.
  apply (Forall_lookup_1 (fun z => z <= 31)) in E; [done|].
  repeat (apply Forall_cons; split; [lia|]). apply Forall_nil_2.
Qed.

Lemma validateDate_ok y m d : is_ok (validateDate y m d) = true ->
  validateDate y m d = Ok () /\ 1 <= y <= 9999 /\ 1 <= m <= 12 /\ 1 <= d <= 31.
Proof.
  unfold validateDate. pose proof (month_days_bound m).
  destruct ((y <? 1) || _) eqn:E1; [done|]. destruct ((m <? 1) || _) eqn:E2; [done|].
  set (days := if (m =? 2) && _ then 29 else month_days m).
  assert (days <= 31) by (subst days; destruct (_ && _); lia).
  destruct ((d <? 1) || _) eqn:E3; [done|]. intros _. split; [done|]. bool_lia.
Qed.

Lemma validateClock_ok h mi s us off nm : is_ok (validateClock h mi s us off nm) = true ->
  validateClock h mi s us off nm = Ok () /\ h <= 23 /\ mi <= 59 /\ s <= 59 /\ us <= 999999
  /\ match off with Some o => -86400 < o < 86400 | None => nm = None end.
Proof.
  unfold validateClock. destruct (_ || _) eqn:E1; [done|].
  destruct (match off with Some o => _ | None => false end) eqn:E2; [done|].
  destruct (match nm with Some _ => _ | None => _ end) eqn:E3; [done|].
  intros _. split; [done|]. destruct off, nm; cbn in *; try done;
  repeat split; try done; bool_lia.
Qed.

Lemma decodeDate_enc y m d :
  is_ok (validateDate y m d) = true ->
  decodeDate (appendUintField (appendUintField (appendInt32Field [] 1 y) 2 m) 3 d)
    = Ok (VDate (Date y m d)).
Proof.
  intros Hv. apply validateDate_ok in Hv as (Hv & Hy & Hm & Hd).
  unfold decodeDate. enc_norm. end_of_message. enc_norm.
  do 3 read_field. rewrite each_field_nil. cbn [checked mbind result_mbind rerr new_reader].
  rewrite int32_uint64, !clamp_small by lia. cbn. by rewrite Hv.
Qed.

(** A string written only when non-empty, or after a presence test. *)
Lemma len_opt_str num (s : bytes) :
  len s <= len (if bool_decide (s = []) then [] else fbytes num s).
Proof. apply len_opt_fbytes. apply bool_decide_eq_true. Qed.

Lemma decodeTime_enc t body :
  wf_value (VTime t) = true ->
  body = appendUintField (appendOptString (appendOffset (appendUintField (appendUintField
    (appendUintField (appendUintField [] 1 (t_hour t)) 2 (t_minute t)) 3 (t_second t))
    4 (t_micro t)) 5 (t_offset t)) 6 (t_tzname t)) 7 (t_fold t) ->
  len body < 2 ^ 63 -> decodeTime body = Ok (VTime t).
Proof.
  destruct t as [h mi s us off nm fold]. cbn [wf_value t_hour t_minute t_second t_micro
    t_offset t_tzname t_fold]. intros Hwf -> Hlen.
  rewrite !andb_true_iff, !Z.leb_le in Hwf.
  destruct Hwf as [[[[[[? ?] ?] ?] Hc] ?] ?].
  apply validateClock_ok in Hc as (Hc & ? & ? & ? & ? & Hoff).
  autorewrite with enc in Hlen. rewrite appendOptString_eq, appendOffset_eq in Hlen.
  autorewrite with enc in Hlen. rewrite !len_app in Hlen.
  assert (match nm with Some n => len n < 2 ^ 63 | None => True end) as Hnm.
  { destruct nm as [n|]; [|done]. pose proof (len_fbytes 6 n).
    repeat match type of Hlen with context [len ?x] =>
      pose proof (len_nonneg x); generalize dependent (len x); intros end. lia. }
  clear Hlen. unfold decodeTime. end_of_message.
  rewrite appendUintField_eq, appendOptString_eq, appendOffset_eq. enc_norm.
  do 4 read_field.
  destruct off as [o|]; [|subst nm]; [read_var; destruct nm as [n|]; [read_bytes|]|];
    cbn [app]; read_field; finish_message; rewrite ?int32_uint64, !clamp_small by lia;
    unfold uint32; rewrite uwrap_small by lia; cbn [t_hour t_minute t_second t_micro
    t_offset t_tzname t_fold]; rewrite Hc; cbn; destruct (Z.ltb_spec 1 fold); done || lia.
Qed.

Lemma decodeDateTime_enc d body :
  wf_value (VDateTime d) = true ->
  body = appendOptString (appendOffset (appendUintField (appendUintField (appendUintField
    (appendUintField (appendUintField (appendUintField (appendInt32Field [] 1 (dt_year d))
    2 (dt_month d)) 3 (dt_day d)) 4 (dt_hour d)) 5 (dt_minute d)) 6 (dt_second d))
    7 (dt_micro d)) 8 (dt_offset d)) 9 (dt_tzname d) ->
  len body < 2 ^ 63 -> decodeDateTime body = Ok (VDateTime d).
Proof.
  destruct d as [y mo dd h mi s us off nm]. cbn [wf_value dt_year dt_month dt_day dt_hour
    dt_minute dt_second dt_micro dt_offset dt_tzname]. intros Hwf -> Hlen.
  rewrite !andb_true_iff, !Z.leb_le in Hwf.
  destruct Hwf as [[[[[Hd ?] ?] ?] ?] Hc].
  apply validateDate_ok in Hd as (Hd & ? & ? & ?).
  apply validateClock_ok in Hc as (Hc & ? & ? & ? & ? & Hoff).
  rewrite appendOptString_eq, len_app in Hlen.
  assert (match nm with Some n => len n < 2 ^ 63 | None => True end) as Hnm.
  { destruct nm as [n|]; [|done]. pose proof (len_fbytes 9 n).
    match type of Hlen with len ?x + _ < _ => pose proof (len_nonneg x) end. lia. }
  clear Hlen. unfold decodeDateTime. end_of_message.
  rewrite appendOptString_eq, appendOffset_eq. enc_norm.
  do 7 read_field.
  destruct off as [o|]; [|subst nm]; [read_var; destruct nm as [n|]; [read_bytes|]|];
    cbn [app]; finish_message; rewrite ?int32_uint64, !clamp_small by lia;
    unfold uint32; rewrite uwrap_small by lia; cbn [dt_year dt_month dt_day dt_hour
    dt_minute dt_second dt_micro dt_offset dt_tzname]; rewrite Hd; cbn; rewrite Hc; done.
Qed.

Lemma decodeTimeDelta_enc t :
  timedelta_normalized t = true ->
  decodeTimeDelta (appendInt32Field (appendInt32Field (appendInt32Field [] 1 (td_days t))
    2 (td_seconds t)) 3 (td_micros t)) = Ok (VTimeDelta t).
Proof.
  destruct t as [d s us]. cbn [td_days td_seconds td_micros]. intros Hn.
  assert (-999999999 <= d <= 999999999 /\ 0 <= s < 86400 /\ 0 <= us < 1000000) as (? & ? & ?).
  { unfold timedelta_normalized in Hn. cbn in Hn. bool_lia. }
  unfold decodeTimeDelta. end_of_message. enc_norm. do 3 read_field. finish_message.
  rewrite !int32_uint64 by lia. by rewrite Hn.
Qed.

Lemma decodeTimeZone_enc tz :
  -86400 < tz_offset tz < 86400 -> len (appendTimeZoneBody [] tz) < 2 ^ 63 ->
  decodeTimeZone (appendTimeZoneBody [] tz) = Ok tz.
Proof.
  destruct tz as [o nm]. unfold appendTimeZoneBody. cbn [tz_offset tz_name]. intros Ho Hlen.
  change (match nm with None => _ | Some n => appendStringAlways _ 2 n end)
    with (appendOptString (appendInt32Field [] 1 o) 2 nm) in *.
  rewrite appendOptString_eq in *. rewrite len_app in Hlen.
  assert (match nm with Some n => len n < 2 ^ 63 | None => True end) as Hnm.
  { destruct nm as [n|]; [|done]. pose proof (len_fbytes 2 n).
    pose proof (len_nonneg (appendInt32Field [] 1 o)). lia. }
  unfold decodeTimeZone. end_of_message. enc_norm. read_field.
  destruct nm as [n|]; [read_bytes|cbn [app]]; finish_message; cbn [tz_offset];
    rewrite int32_uint64 by lia;
    (destruct (Z.leb_spec o (-86400)); [lia|]); (destruct (Z.leb_spec 86400 o); [lia|]); done.
Qed.

Lemma decodeExceptionValue_enc e body :
  body = (let b := appendStringField [] 1 (exc_type e) in
    if bool_decide (exc_message e = []) then b else appendStringAlways b 2 (exc_message e)) ->
  len body < 2 ^ 63 -> decodeExceptionValue body = Ok (VException e).
Proof.
  destruct e as [et m]. cbn [exc_type exc_message]. intros -> Hlen.
  change (if bool_decide (m = []) then _ else _)
    with (appendStringField (appendStringField [] 1 et) 2 m) in *.
  revert Hlen. enc_norm. rewrite len_app. intros Hlen.
  pose proof (len_opt_str 1 et). pose proof (len_opt_str 2 m).
  pose proof (len_nonneg et). pose proof (len_nonneg m).
  unfold decodeExceptionValue. end_of_message. rewrite <- app_assoc.
  do 2 read_field. by finish_message.
Qed.

Lemma decodeFunction_enc f body :
  body = appendOptString (appendStringField [] 1 (fn_name f)) 2 (fn_doc f) ->
  len body < 2 ^ 63 -> decodeFunction body = Ok (VFunction f).
Proof.
  destruct f as [n doc]. cbn [fn_name fn_doc]. intros -> Hlen.
  rewrite appendOptString_eq in *. revert Hlen. enc_norm. rewrite len_app. intros Hlen.
  pose proof (len_opt_str 1 n). pose proof (len_nonneg n).
  match type of Hlen with _ + len ?x < _ => pose proof (len_nonneg x) end.
  unfold decodeFunction. end_of_message. rewrite <- app_assoc.
  destruct doc as [d|].
  - pose proof (len_fbytes 2 d). pose proof (len_nonneg d). do 2 read_field. by finish_message.
  - read_opt. cbn [app]. by finish_message.
Qed.

Lemma decodeFileHandle_enc h body :
  validHandleMode (fh_mode h) = true -> in_uint 64 (fh_position h) = true ->
  body = appendUintField (appendStringField (appendStringField [] 1 (fh_path h)) 2 (fh_mode h))
    3 (fh_position h) ->
  len body < 2 ^ 63 -> decodeFileHandle body = Ok (VFileHandlePtr h).
Proof.
  destruct h as [p m pos]. cbn [fh_path fh_mode fh_position]. intros Hm Hp -> Hlen.
  assert (0 <= pos < 2 ^ 64) by bool_lia.
  revert Hlen. enc_norm. rewrite !len_app. intros Hlen.
  pose proof (len_opt_str 1 p). pose proof (len_opt_str 2 m).
  pose proof (len_nonneg (if pos =? 0 then [] else fvar 3 pos)).
  pose proof (len_nonneg p). pose proof (len_nonneg m).
  unfold decodeFileHandle. end_of_message. rewrite <- !app_assoc.
  do 3 read_field. finish_message. cbn [fh_mode]. by rewrite Hm.
Qed.

Lemma decodeBig_enc z body bg :
  in_int 64 z = false ->
  body = appendBytesAlways (appendBoolField [] 1 (z <? 0)) 2 (be_bytes (Z.abs z)) ->
  len body < 2 ^ 63 -> affords bg (len (be_bytes (Z.abs z))) ->
  decodeBig body bg = Ok (VBig (Some z), spend bg (len (be_bytes (Z.abs z)))).
Proof.
  intros Hz -> Hlen Hbg. revert Hlen. enc_norm. rewrite len_app. intros Hlen.
  pose proof (len_fbytes 2 (be_bytes (Z.abs z))).
  match type of Hlen with len ?x + _ < _ => pose proof (len_nonneg x) end.
  unfold decodeBig. end_of_message. rewrite <- app_assoc.
  destruct (Z.ltb_spec z 0); cbn [negb app]; [read_var|]; read_bytes; finish_message;
    rewrite charge_spend by (done || apply len_nonneg); cbn [mbind result_mbind];
    rewrite be_val_bytes by lia; unfold IntValue.
  - replace (- Z.abs z) with z by lia. by rewrite Hz.
  - replace (Z.abs z) with z by lia. by rewrite Hz.
Qed.
End scalars.

(** ** Containers *)

(** [m] is decoded by [dv] as the canonical form of [v], at its cost. *)
Definition decodes (dv : bytes -> budget -> Z -> result (value * budget)) (depth : Z)
    (v : value) (m : bytes) : Prop :=
  len m < 2 ^ 63 /\
  forall bg, affords bg (cost v) -> dv m bg depth = Ok (canon v, spend bg (cost v)).

Definition canon_pair (p : value * value) : value * value := (canon p.1, canon p.2).
Definition cost_pair (p : value * value) : Z := cost p.1 + cost p.2.

Section containers.
Context `{PW : Protowire} `{!ProtowireLaws PW}.

Lemma appendValues_spec av num items body body' :
  appendValues av num items body = Ok body' ->
  exists ms, Forall2 (fun v m => av v = Ok m) items ms
             /\ body' = body ++ concat (map (fbytes num) ms).
Proof.
  revert body. induction items as [|x items IH]; intros body; cbn.
  - intros [= <-]. exists []. split; [constructor|]. by rewrite app_nil_r.
  - unfold appendValueField. destruct (av x) as [m|] eqn:E; cbn; [|done].
    rewrite appendMessage_eq. intros (ms & Hms & ->)%IH.
    exists (m :: ms). split; [by constructor|]. cbn. by rewrite app_assoc.
Qed.

Lemma appendDictBody_spec av pairs b b' :
  appendDictBody av pairs b = Ok b' ->
  exists ms, Forall2 (fun p m => av p.1 = Ok m.1 /\ av p.2 = Ok m.2) pairs ms
    /\ b' = b ++ concat (map (fun m => fbytes 1 (fbytes 1 m.1 ++ fbytes 2 m.2)) ms).
Proof.
  revert b. induction pairs as [|[k v] pairs IH]; intros b; cbn.
  - intros [= <-]. exists []. split; [constructor|]. by rewrite app_nil_r.
  - unfold appendPairBody, appendValueField.
    destruct (av k) as [mk|] eqn:Ek; cbn; [|done].
    destruct (av v) as [mv|] eqn:Ev; cbn; [|done].
    rewrite !appendMessage_eq. intros (ms & Hms & ->)%IH.
    exists ((mk, mv) :: ms). split; [by constructor|]. cbn. by rewrite app_assoc.
Qed.

Section loops.
Variable dv : bytes -> budget -> Z -> result (value * budget).
Variable depth : Z.

Lemma list_loop items ms acc bg :
  Forall2 (decodes dv (depth + 1)) items ms ->
  affords bg (zsum (map cost items)) ->
  each_field (list_field dv depth) (acc, bg) (new_reader (concat (map (fbytes 1) ms)))
    = Ok ((acc ++ map canon items, spend bg (zsum (map cost items))), new_reader []).
Proof using ProtowireLaws0.
  intros H. revert acc bg. induction H as [|x m items ms [Hlen Hd] HF IH]; intros acc bg Hbg.
  - cbn [map concat]. change (zsum []) with 0. by rewrite each_field_nil, spend_0, app_nil_r.
  - rewrite map_cons, zsum_cons in Hbg. pose proof (cost_nonneg x) as Hc.
    unfold nodeHostSize in Hc.
    assert (0 <= zsum (map cost items)).
    { apply zsum_nonneg, Forall_true. intros y. pose proof (cost_nonneg y).
      unfold nodeHostSize in *. lia. }
    cbn [map concat]. rewrite each_field_fbytes; [|side|side].
    cbn [list_field Z.eqb Pos.eqb negb]. rewrite r_bytes_app by done.
    rewrite Hd by (eapply affords_le; [|done]; lia). cbn [mbind result_mbind].
    rewrite IH by (apply affords_spend; [lia|done]).
    by rewrite <- app_assoc, spend_add.
Qed.

Lemma decodeObjectList_enc items ms bg :
  Forall2 (decodes dv (depth + 1)) items ms ->
  affords bg (zsum (map cost items)) ->
  decodeObjectList dv (concat (map (fbytes 1) ms)) bg depth
    = Ok (map canon items, spend bg (zsum (map cost items))).
Proof using ProtowireLaws0.
  intros HF Hbg. unfold decodeObjectList. rewrite list_loop with (items := items) by done.
  done.
Qed.

Lemma decodePair_enc p m bg :
  decodes dv (depth + 1) p.1 m.1 -> decodes dv (depth + 1) p.2 m.2 ->
  affords bg (cost_pair p) ->
  decodePair dv (fbytes 1 m.1 ++ fbytes 2 m.2) bg depth
    = Ok (canon p.1, canon p.2, spend bg (cost_pair p)).
Proof using ProtowireLaws0.
  unfold cost_pair. intros [Hl1 Hd1] [Hl2 Hd2] Hbg.
  pose proof (cost_nonneg p.1) as Hc1. pose proof (cost_nonneg p.2) as Hc2.
  unfold nodeHostSize in *. unfold decodePair. end_of_message. rewrite <- app_assoc.
  rewrite each_field_fbytes; [|side|side].
  cbn [pair_field Z.eqb Pos.eqb negb]. rewrite r_bytes_app by done.
  rewrite Hd1 by (eapply affords_le; [|done]; lia). cbn [mbind result_mbind].
  rewrite each_field_fbytes; [|side|side].
  cbn [pair_field Z.eqb Pos.eqb negb]. rewrite r_bytes_app by done.
  rewrite Hd2 by (apply affords_spend; [lia|done]). cbn [mbind result_mbind].
  finish_message. by rewrite spend_add.
Qed.

Definition decodes_pair (p : value * value) (m : bytes * bytes) : Prop :=
  len (fbytes 1 m.1 ++ fbytes 2 m.2) < 2 ^ 63
  /\ decodes dv (depth + 1) p.1 m.1 /\ decodes dv (depth + 1) p.2 m.2.

Lemma cost_pairs_nonneg d : 0 <= zsum (map cost_pair d).
Proof using Type.
  apply zsum_nonneg, Forall_true. intros p. unfold cost_pair.
  pose proof (cost_nonneg p.1). pose proof (cost_nonneg p.2). unfold nodeHostSize in *. lia.
Qed.

Lemma dict_loop d ms acc bg :
  Forall2 decodes_pair d ms -> affords bg (zsum (map cost_pair d)) ->
  each_field (dict_field dv depth) (acc, bg)
    (new_reader (concat (map (fun m => fbytes 1 (fbytes 1 m.1 ++ fbytes 2 m.2)) ms)))
    = Ok ((acc ++ map canon_pair d, spend bg (zsum (map cost_pair d))), new_reader []).
Proof using ProtowireLaws0.
  intros H. revert acc bg.
  induction H as [|p m d ms (Hlen & H1 & H2) HF IH]; intros acc bg Hbg.
  - cbn [map concat]. change (zsum []) with 0. by rewrite each_field_nil, spend_0, app_nil_r.
  - rewrite map_cons, zsum_cons in Hbg. pose proof (cost_pairs_nonneg d).
    assert (0 <= cost_pair p) by (pose proof (cost_pairs_nonneg [p]); cbn in *; lia).
    cbn [map concat]. rewrite each_field_fbytes; [|side|side].
    cbn [dict_field Z.eqb Pos.eqb negb]. rewrite r_bytes_app by done.
    rewrite (decodePair_enc p m) by (done || (eapply affords_le; [|done]; lia)).
    cbn [mbind result_mbind].
    rewrite IH by (apply affords_spend; [lia|done]).
    by rewrite <- app_assoc, spend_add.
Qed.

Lemma decodeDict_enc d ms bg :
  Forall2 decodes_pair d ms -> affords bg (zsum (map cost_pair d)) ->
  decodeDict dv (concat (map (fun m => fbytes 1 (fbytes 1 m.1 ++ fbytes 2 m.2)) ms)) bg depth
    = Ok (map canon_pair d, spend bg (zsum (map cost_pair d))).
Proof using ProtowireLaws0.
  intros HF Hbg. unfold decodeDict. rewrite dict_loop with (d := d) by done. done.
Qed.
End loops.
End containers.

(** ** The round trip *)

Section roundtrip.
Context `{PW : Protowire} `{!ProtowireLaws PW}.

(** A message with one field is decoded by that field's arm of the switch. *)
Lemma decode_one fuel num typ payload bg depth v bg' :
  valid_tag num typ -> depth <= 100 -> affords bg nodeHostSize ->
  value_field (decodeValue_fuel fuel) depth num typ (VNil, false, spend bg nodeHostSize)
    (new_reader payload) = Ok ((v, true, bg'), new_reader []) ->
  decodeValue_fuel (S fuel) (AppendTag [] num typ ++ payload) bg depth = Ok (v, bg').
Proof.
  intros Ht Hd Hbg Hf. cbn [decodeValue_fuel]. unfold maxDecodeNesting.
  destruct (Z.ltb_spec 100 depth); [lia|].
  rewrite charge_spend by (done || unfold nodeHostSize; lia). cbn [mbind result_mbind].
  rewrite each_field_tag; [|side|done]. rewrite Hf. cbn [mbind result_mbind].
  by finish_message.
Qed.

Lemma decode_bytes fuel num body bg depth v bg' :
  1 <= num < 2 ^ 29 -> len body < 2 ^ 63 -> depth <= 100 -> affords bg nodeHostSize ->
  value_field (decodeValue_fuel fuel) depth num BytesType (VNil, false, spend bg nodeHostSize)
    (new_reader (AppendVarint [] (len body) ++ body ++ [])) = Ok ((v, true, bg'), new_reader []) ->
  decodeValue_fuel (S fuel) (fbytes num body) bg depth = Ok (v, bg').
Proof.
  intros Hn Hl Hd Hbg Hf. unfold fbytes. rewrite app_nil_r in Hf.
  apply decode_one; [|done..]. unfold valid_tag. auto.
Qed.

Lemma decode_varint fuel num x bg depth v bg' :
  1 <= num < 2 ^ 29 -> depth <= 100 -> affords bg nodeHostSize ->
  value_field (decodeValue_fuel fuel) depth num VarintType (VNil, false, spend bg nodeHostSize)
    (new_reader (AppendVarint [] x ++ [])) = Ok ((v, true, bg'), new_reader []) ->
  decodeValue_fuel (S fuel) (fvar num x) bg depth = Ok (v, bg').
Proof.
  intros Hn Hd Hbg Hf. unfold fvar. rewrite app_nil_r in Hf.
  apply decode_one; [|done..]. unfold valid_tag. auto.
Qed.

Lemma len_concat_fbytes num ms m :
  m ∈ ms -> len m <= len (concat (map (fbytes num) ms)).
Proof.
  induction ms as [|x ms IH]; intros Hm; [by apply not_elem_of_nil in Hm|].
  cbn. rewrite len_app. pose proof (len_nonneg (concat (map (fbytes num) ms))).
  pose proof (len_nonneg (fbytes num x)).
  apply elem_of_cons in Hm as [->|Hm]; [pose proof (len_fbytes num x)|specialize (IH Hm)]; lia.
Qed.

Lemma len_concat_pairs ms (m : bytes * bytes) :
  m ∈ ms -> len (fbytes 1 m.1 ++ fbytes 2 m.2)
    <= len (concat (map (fun m => fbytes 1 (fbytes 1 m.1 ++ fbytes 2 m.2)) ms)).
Proof.
  induction ms as [|x ms IH]; intros Hm; [by apply not_elem_of_nil in Hm|].
  cbn [map concat]. rewrite (len_app (fbytes 1 (_ ++ _))).
  set (rest := concat _) in *. pose proof (len_nonneg rest).
  pose proof (len_fbytes 1 (fbytes 1 x.1 ++ fbytes 2 x.2)).
  pose proof (len_nonneg (fbytes 1 (fbytes 1 x.1 ++ fbytes 2 x.2))).
  apply elem_of_cons in Hm as [->|Hm]; [|specialize (IH Hm)]; lia.
Qed.

(** What the induction establishes of a value, a type and an instance. *)
Definition RTv (v : value) : Prop :=
  forall m, AppendValue [] v = Ok m -> wf_value v = true -> len m < 2 ^ 63 ->
  forall fuel depth bg, nest v < Z.of_nat fuel -> depth + nest v <= 100 ->
  affords bg (cost v) ->
  decodeValue_fuel fuel m bg depth = Ok (canon v, spend bg (cost v)).

Definition RTt (t : pytype) : Prop :=
  forall m, appendTypeBody [] t = Ok m -> wf_type t = true -> len m < 2 ^ 63 ->
  forall fuel depth bg, nest_type t <= Z.of_nat fuel ->
  nest_type t = 0 \/ depth + nest_type t <= 100 ->
  affords bg (cost_type t) ->
  decodeType (decodeValue_fuel fuel) m bg depth = Ok (canon_type t, spend bg (cost_type t)).

Definition RTi (i : instance) : Prop :=
  forall m, appendInstance [] i = Ok m -> wf_instance i = true -> len m < 2 ^ 63 ->
  exists body, m = fbytes 24 body /\ len body < 2 ^ 63 /\
  forall fuel depth bg, nest_instance i <= Z.of_nat fuel -> depth + nest_instance i <= 100 ->
  affords bg (cost_instance i) ->
  decodeInstance (decodeValue_fuel fuel) body bg depth
    = Ok (VInstance (canon_instance i), spend bg (cost_instance i)).

Definition RTp (p : value * value) : Prop := RTv p.1 /\ RTv p.2.

(** The children of a container, ready for the container's loop. *)
Lemma children_decode l ms fuel depth :
  Forall RTv l -> Forall2 (fun v m => AppendValue [] v = Ok m) l ms ->
  forallb wf_value l = true -> Forall (fun m => len m < 2 ^ 63) ms ->
  zmax (map (fun x => 1 + nest x) l) <= Z.of_nat fuel ->
  depth + zmax (map (fun x => 1 + nest x) l) <= 100 ->
  Forall2 (decodes (decodeValue_fuel fuel) (depth + 1)) l ms.
Proof.
  intros HF HE. revert HF. induction HE as [|x m l ms Hx HE IH]; intros HF Hwf Hlen Hn Hd.
  - constructor.
  - inv HF. inv Hlen. cbn [forallb map] in *. rewrite zmax_cons in *.
    apply andb_true_iff in Hwf as [Hw1 Hw2]. constructor; [|apply IH; try done; lia].
    split; [done|]. intros bg Hbg. apply H1; try done; lia.
Qed.

Lemma pairs_decode d ms fuel depth :
  Forall RTp d ->
  Forall2 (fun p m => AppendValue [] p.1 = Ok m.1 /\ AppendValue [] p.2 = Ok m.2) d ms ->
  forallb (pair_all wf_value) d = true ->
  Forall (fun m => len (fbytes 1 m.1 ++ fbytes 2 m.2) < 2 ^ 63) ms ->
  zmax (map (fun p => 1 + Z.max (nest p.1) (nest p.2)) d) <= Z.of_nat fuel ->
  depth + zmax (map (fun p => 1 + Z.max (nest p.1) (nest p.2)) d) <= 100 ->
  Forall2 (decodes_pair (decodeValue_fuel fuel) depth) d ms.
Proof.
  intros HF HE. revert HF.
  induction HE as [|p m d ms [Hk Hv] HE IH]; intros HF Hwf Hlen Hn Hd; [constructor|].
  inv HF. inv Hlen. cbn [forallb map] in *. rewrite zmax_cons in *.
  destruct H1 as [Rk Rv]. unfold pair_all in Hwf at 1.
  rewrite !andb_true_iff in Hwf. destruct Hwf as [[Hw1 Hw2] Hw3].
  constructor; [|apply IH; try done; lia]. unfold decodes_pair.
  split; [done|]. rewrite len_app in H3. pose proof (len_fbytes 1 m.1).
  pose proof (len_fbytes 2 m.2). pose proof (len_nonneg (fbytes 1 m.1)).
  pose proof (len_nonneg (fbytes 2 m.2)).
  split; (split; [lia|]; intros bg Hbg).
  - apply Rk; try done; lia.
  - apply Rv; try done; lia.
Qed.

Ltac arm := unfold value_field; cbn [Z.eqb Pos.eqb]; rewrite ?r_bytes_app by done; cbn [fst snd].

(** Every integer, whatever its Go type, decodes to [IntValue]. *)
Lemma decode_int z bg fuel depth :
  len (appendBig [] z) < 2 ^ 63 -> depth <= 100 ->
  affords bg (nodeHostSize + int_cost z) ->
  decodeValue_fuel (S fuel) (appendBig [] z) bg depth
    = Ok (IntValue z, spend bg (nodeHostSize + int_cost z)).
Proof.
  unfold appendBig, int_cost, nodeHostSize. destruct (in_int 64 z) eqn:Hz; intros Hlen Hd Hbg.
  - unfold appendInt. rewrite append_varint_app, append_tag_app, app_nil_l.
    apply in_int64_spec in Hz. apply decode_varint; [lia|done|by eapply affords_le; [|done]|].
    unfold value_field. cbn [Z.eqb Pos.eqb].
    rewrite r_varint_app by (by apply zigzag_range). rewrite zigzag_roundtrip by done.
    unfold IntValue. apply in_int64_spec in Hz. rewrite Hz. by rewrite Z.add_0_r.
  - revert Hlen. rewrite appendMessage_eq, app_nil_l. intros Hlen.
    set (body := appendBytesAlways _ _ _) in *. pose proof (len_fbytes 6 body).
    pose proof (len_nonneg (be_bytes (Z.abs z))).
    apply decode_bytes; [lia|lia|done|eapply affords_le; [|done]; unfold nodeHostSize; lia|].
    unfold value_field. cbn [Z.eqb Pos.eqb]. rewrite r_bytes_app by lia. cbn [fst snd].
    rewrite (decodeBig_enc z body) by (done || lia || (apply affords_spend; [done|done])).
    cbn [mbind result_mbind]. unfold IntValue. rewrite Hz. by rewrite spend_add.
Qed.

Lemma appendInt_big z : in_int 64 z = true -> appendInt [] z = appendBig [] z.
Proof. unfold appendBig. by intros ->. Qed.

Lemma appendUint_big z : 0 <= z -> appendUint [] z = appendBig [] z.
Proof.
  intros. unfold appendUint, MaxInt64. destruct (Z.leb_spec z (2 ^ 63 - 1)); [|done].
  apply appendInt_big, in_int64_spec. lia.
Qed.

Lemma AppendValue_int k z m :
  int_kind_ok k z = true -> AppendValue [] (VInt k z) = Ok m -> m = appendBig [] z.
Proof.
  intros Hk. assert (AppendValue [] (VInt k z)
    = Ok (match k with KUint | KUint64 => appendUint [] z | _ => appendInt [] z end)) as ->.
  { by destruct k. }
  intros [= <-]. destruct k; cbn in Hk;
    first [ apply appendUint_big; bool_lia | apply appendInt_big ]; bool_lia.
Qed.

Lemma f32_to_f64_range b : in_uint 32 b = true -> 0 <= f32_to_f64 b < 2 ^ 64.
Proof.
  intros Hb. assert (0 <= b < 2 ^ 32) by bool_lia. unfold f32_to_f64.
  pose proof (Z.mod_pos_bound (b / 2 ^ 31) 2 ltac:(lia)) as Hs.
  pose proof (Z.mod_pos_bound (b / 2 ^ 23) 256 ltac:(lia)) as He.
  pose proof (Z.mod_pos_bound b (2 ^ 23) ltac:(lia)) as Hm.
  set (s := _ mod 2) in *. set (e := _ mod 256) in *. set (m := b mod 2 ^ 23) in *.
  destruct (Z.eqb_spec e 255).
  { pose proof (Z.mod_pos_bound m (2 ^ 22) ltac:(lia)). destruct (m =? 0); lia. }
  destruct (Z.eqb_spec e 0); [|lia].
  destruct (Z.eqb_spec m 0); [lia|].
  pose proof (Z.log2_spec m ltac:(lia)) as [Hl Hu]. pose proof (Z.log2_nonneg m).
  assert (Z.log2 m < 23) by (apply Z.log2_lt_pow2; lia).
  assert (0 <= (m - 2 ^ Z.log2 m) * 2 ^ (52 - Z.log2 m) < 2 ^ 52).
  { rewrite Z.pow_succ_r in Hu by done.
    assert (2 ^ 52 = 2 ^ Z.log2 m * 2 ^ (52 - Z.log2 m)) as ->.
    { rewrite <- Z.pow_add_r by lia. f_equal. lia. }
    assert (0 < 2 ^ (52 - Z.log2 m)) by lia. nia. }
  lia.
Qed.

Lemma decode_float x bg fuel depth :
  0 <= x < 2 ^ 64 -> depth <= 100 -> affords bg nodeHostSize ->
  decodeValue_fuel (S fuel) (AppendTag [] 7 Fixed64Type ++ AppendFixed64 [] x) bg depth
    = Ok (VFloat64 x, spend bg nodeHostSize).
Proof.
  intros Hx Hd Hbg. apply decode_one; [unfold valid_tag; auto with lia|done|done|].
  rewrite <- (app_nil_r (AppendFixed64 [] x)). unfold value_field. cbn [Z.eqb Pos.eqb].
  by rewrite r_fixed64_app.
Qed.

(** A text arm charges the text. *)
Lemma decode_text num k s bg fuel depth :
  (num = 8 /\ k = VStr) \/ (num = 9 /\ k = VBytes) ->
  len (fbytes num s) < 2 ^ 63 -> depth <= 100 -> affords bg (nodeHostSize + len s) ->
  decodeValue_fuel (S fuel) (fbytes num s) bg depth
    = Ok (k s, spend bg (nodeHostSize + len s)).
Proof.
  intros Hk Hlen Hd Hbg. pose proof (len_fbytes num s). pose proof (len_nonneg s).
  apply decode_bytes; [destruct Hk as [[-> _]|[-> _]]; lia|lia|done|
    eapply affords_le; [|done]; lia|].
  unfold value_field. destruct Hk as [[-> ->]|[-> ->]]; cbn [Z.eqb Pos.eqb];
    rewrite r_bytes_app by lia; cbn [fst snd];
    rewrite charge_spend by (lia || (apply affords_spend; done));
    cbn [mbind result_mbind]; by rewrite spend_add.
Qed.

(** A struct-valued arm: [decode_bytes] with the arm's own decoder. *)
Ltac struct_arm lem :=
  match goal with H : len (fbytes ?n ?body) < _ |- _ =>
    pose proof (len_fbytes n body); apply decode_bytes;
    [lia|lia|lia|done|unfold value_field; cbn [Z.eqb Pos.eqb];
      rewrite r_bytes_app by lia; cbn [fst snd]; rewrite lem by (done || lia); done]
  end.

Ltac plain_arm :=
  match goal with H : len (fbytes ?n ?body) < _ |- _ =>
    pose proof (len_fbytes n body); apply decode_bytes;
    [lia|lia|lia|done|unfold value_field; cbn [Z.eqb Pos.eqb];
      rewrite r_bytes_app by lia; cbn [fst snd]; done]
  end.

Lemma RT_leaf v : leaf v -> RTv v.
Proof.
  intros Hv m Hm Hwf Hlen fuel depth bg Hf Hd Hbg.
  destruct fuel as [|fuel]; [assert (0 <= nest v) by (destruct v; done); lia|].
  assert (depth <= 100) by (assert (0 <= nest v) by (destruct v; done); lia).
  pose proof (cost_nonneg v) as Hc.
  destruct v; try done; cbn [nest cost canon] in *; rewrite ?Z.add_0_r in *.
  all: try (cbn [AppendValue] in Hm; injection Hm as <-; unfold appendFileHandle in *;
    first [ rewrite appendMessage_eq in * | rewrite appendStringAlways_eq in *
          | rewrite appendBytesAlways_eq in * | idtac ]; rewrite ?app_nil_l in *).
  - plain_arm.
  - plain_arm.
  - plain_arm.
  - rewrite append_varint_app, append_tag_app, app_nil_l in *.
    apply decode_varint; [lia|done|done|]. unfold value_field. cbn [Z.eqb Pos.eqb].
    rewrite r_varint_app by (rewrite encode_bool_eq; destruct b; lia).
    rewrite encode_bool_eq. by destruct b.
  - apply AppendValue_int in Hm as ->; [|done]. by apply decode_int.
  - destruct p as [z|]; cbn [AppendValue] in Hm; injection Hm as <-.
    + by apply decode_int.
    + rewrite appendMessage_eq, app_nil_l, ?Z.add_0_r in *. plain_arm.
  - rewrite append_fixed64_app, append_tag_app, app_nil_l in *. apply decode_float; try done.
    by apply f32_to_f64_range.
  - rewrite append_fixed64_app, append_tag_app, app_nil_l in *. apply decode_float; try done.
    cbn in Hwf. bool_lia.
  - apply decode_text; auto.
  - apply decode_text; auto.
  - destruct d as [y mo dd]. struct_arm decodeDate_enc.
  - struct_arm (decodeTime_enc t).
  - struct_arm (decodeDateTime_enc d).
  - struct_arm decodeTimeDelta_enc.
  - assert (-86400 < tz_offset t < 86400) by (cbn in Hwf; bool_lia).
    struct_arm decodeTimeZone_enc.
  - struct_arm (decodeExceptionValue_enc e).
  - struct_arm (decodeFunction_enc f).
  - plain_arm.
  - plain_arm.
  - cbn [wf_value] in Hwf. apply andb_true_iff in Hwf as [? ?].
    struct_arm (decodeFileHandle_enc h).
  - cbn [wf_value] in Hwf. apply andb_true_iff in Hwf as [? ?].
    struct_arm (decodeFileHandle_enc h).
Qed.

Lemma children_short num ms : len (concat (map (fbytes num) ms)) < 2 ^ 63 ->
  Forall (fun m => len m < 2 ^ 63) ms.
Proof.
  intros H. apply Forall_forall. intros m Hm. pose proof (len_concat_fbytes num ms m Hm). lia.
Qed.

Lemma pairs_short ms :
  len (concat (map (fun m => fbytes 1 (fbytes 1 m.1 ++ fbytes 2 m.2)) ms)) < 2 ^ 63 ->
  Forall (fun m => len (fbytes 1 m.1 ++ fbytes 2 m.2) < 2 ^ 63) ms.
Proof.
  intros H. apply Forall_forall. intros m Hm. pose proof (len_concat_pairs ms m Hm). lia.
Qed.

Definition seq_arm (num : Z) (k : list value -> value) : Prop :=
  (num = 11 /\ k = VList) \/ (num = 12 /\ k = VTuple)
  \/ (num = 15 /\ k = fun l => VSet (Some l)) \/ (num = 16 /\ k = fun l => VFrozenSet (Some l)).

Lemma RT_seq num k l m fuel depth bg :
  seq_arm num k -> Forall RTv l ->
  appendObjectList (AppendValue []) [] num l = Ok m ->
  forallb wf_value l = true -> len m < 2 ^ 63 ->
  zmax (map (fun x => 1 + nest x) l) < Z.of_nat fuel ->
  depth + zmax (map (fun x => 1 + nest x) l) <= 100 ->
  affords bg (nodeHostSize + zsum (map cost l)) ->
  decodeValue_fuel fuel m bg depth
    = Ok (k (map canon l), spend bg (nodeHostSize + zsum (map cost l))).
Proof.
  intros Hk HF Hm Hwf Hlen Hf Hd Hbg. unfold appendObjectList in Hm.
  destruct (appendValues _ 1 l []) as [body|] eqn:E; cbn in Hm; [|done]. injection Hm as <-.
  apply appendValues_spec in E as (ms & HE & ->). rewrite app_nil_l in *.
  rewrite appendMessage_eq, app_nil_l in *. pose proof (zsum_cost_nonneg l).
  pose proof (zmax_nonneg (map (fun x => 1 + nest x) l)). pose proof (len_fbytes num (concat (map (fbytes 1) ms))).
  destruct fuel as [|fuel]; [lia|].
  assert (Forall2 (decodes (decodeValue_fuel fuel) (depth + 1)) l ms) as HD.
  { apply children_decode; try done; [apply (children_short 1)|..]; lia. }
  assert (affords (spend bg nodeHostSize) (zsum (map cost l)))
    by (apply affords_spend; [done|done]).
  apply decode_bytes; [destruct Hk as [[-> _]|[[-> _]|[[-> _]|[-> _]]]]; lia|lia|lia|
    eapply affords_le; [|done]; lia|].
  unfold value_field. destruct Hk as [[-> ->]|[[-> ->]|[[-> ->]|[-> ->]]]];
    cbn [Z.eqb Pos.eqb]; rewrite r_bytes_app by lia; cbn [fst snd];
    rewrite (decodeObjectList_enc _ _ l) by done; cbn [mbind result_mbind];
    by rewrite spend_add.
Qed.

Lemma RT_dict d m fuel depth bg :
  Forall RTp d ->
  (body ← appendDictBody (AppendValue []) d []; Ok (appendMessage [] 14 body)) = Ok m ->
  forallb (pair_all wf_value) d = true -> len m < 2 ^ 63 ->
  zmax (map (fun p => 1 + Z.max (nest p.1) (nest p.2)) d) < Z.of_nat fuel ->
  depth + zmax (map (fun p => 1 + Z.max (nest p.1) (nest p.2)) d) <= 100 ->
  affords bg (nodeHostSize + zsum (map cost_pair d)) ->
  decodeValue_fuel fuel m bg depth
    = Ok (VDict (Some (map canon_pair d)), spend bg (nodeHostSize + zsum (map cost_pair d))).
Proof.
  intros HF Hm Hwf Hlen Hf Hd Hbg.
  destruct (appendDictBody _ d []) as [body|] eqn:E; cbn in Hm; [|done]. injection Hm as <-.
  apply appendDictBody_spec in E as (ms & HE & ->). rewrite app_nil_l in *.
  rewrite appendMessage_eq, app_nil_l in *. pose proof (cost_pairs_nonneg d).
  set (body := concat _) in *. pose proof (len_fbytes 14 body).
  pose proof (zmax_nonneg (map (fun p => 1 + Z.max (nest p.1) (nest p.2)) d)).
  destruct fuel as [|fuel]; [lia|].
  assert (Forall2 (decodes_pair (decodeValue_fuel fuel) depth) d ms) as HD.
  { apply pairs_decode; try done; [apply pairs_short; subst body|..]; lia. }
  apply decode_bytes; [lia|lia|lia|eapply affords_le; [|done]; lia|].
  unfold value_field. cbn [Z.eqb Pos.eqb]. rewrite r_bytes_app by lia. cbn [fst snd].
  subst body. rewrite (decodeDict_enc _ _ d) by (done || (apply affords_spend; done)).
  cbn [mbind result_mbind]. by rewrite spend_add.
Qed.

Lemma appendNames_eq num names b :
  appendNames num names b = b ++ concat (map (fbytes num) names).
Proof.
  unfold appendNames. revert b. induction names as [|n names IH]; intros b; cbn.
  - by rewrite app_nil_r.
  - rewrite IH, appendStringAlways_eq. by rewrite app_assoc.
Qed.

Lemma names_loop dv depth n fs names vs bg rest :
  Forall (fun m => len m < 2 ^ 63) names ->
  each_field (namedtuple_field dv depth) (n, fs, vs, bg)
    (new_reader (concat (map (fbytes 2) names) ++ rest))
  = each_field (namedtuple_field dv depth) (n, fs ++ names, vs, bg) (new_reader rest).
Proof.
  intros H. revert fs. induction H as [|x names Hx HF IH]; intros fs; cbn [map concat].
  - by rewrite app_nil_r.
  - rewrite <- app_assoc, each_field_fbytes; [|side|side].
    cbn [namedtuple_field Z.eqb Pos.eqb]. unfold r_str. rewrite r_bytes_app by done.
    cbn [mbind result_mbind]. rewrite IH. by rewrite <- app_assoc.
Qed.

Lemma nt_vals_loop dv depth n fs items ms vs bg :
  Forall2 (decodes dv (depth + 1)) items ms -> affords bg (zsum (map cost items)) ->
  each_field (namedtuple_field dv depth) (n, fs, vs, bg)
    (new_reader (concat (map (fbytes 3) ms)))
  = Ok ((n, fs, vs ++ map canon items, spend bg (zsum (map cost items))), new_reader []).
Proof.
  intros H. revert vs bg. induction H as [|x m items ms [Hlen Hd] HF IH]; intros vs bg Hbg.
  - cbn [map concat]. change (zsum []) with 0. by rewrite each_field_nil, spend_0, app_nil_r.
  - rewrite map_cons, zsum_cons in Hbg. pose proof (cost_nonneg x) as Hc.
    unfold nodeHostSize in Hc. pose proof (zsum_cost_nonneg items).
    cbn [map concat]. rewrite each_field_fbytes; [|side|side].
    cbn [namedtuple_field Z.eqb Pos.eqb]. rewrite r_bytes_app by done.
    rewrite Hd by (eapply affords_le; [|done]; lia). cbn [mbind result_mbind].
    rewrite IH by (apply affords_spend; [lia|done]).
    by rewrite <- app_assoc, spend_add.
Qed.

Lemma RT_namedtuple n fs l : Forall RTv l -> RTv (VNamedTuple n fs l).
Proof.
  intros HF m Hm Hwf Hlen fuel depth bg Hf Hd Hbg.
  cbn [AppendValue] in Hm. destruct (appendValues _ 3 l _) as [body|] eqn:E; cbn in Hm; [|done].
  injection Hm as <-. apply appendValues_spec in E as (ms & HE & ->).
  rewrite appendNames_eq, appendStringField_eq, app_nil_l, <- app_assoc in *.
  rewrite appendMessage_eq, app_nil_l in *. cbn [nest cost canon wf_value] in *.
  set (opt := if bool_decide _ then _ else _) in *.
  set (body := opt ++ _) in *. pose proof (len_fbytes 13 body) as Hb.
  assert (len body = len opt + (len (concat (map (fbytes 2) fs)) + len (concat (map (fbytes 3) ms)))) as Hl.
  { subst body. by rewrite !len_app. }
  pose proof (len_nonneg opt). pose proof (len_nonneg (concat (map (fbytes 2) fs))).
  pose proof (len_nonneg (concat (map (fbytes 3) ms))). pose proof (zsum_cost_nonneg l).
  pose proof (zmax_nonneg (map (fun x => 1 + nest x) l)).
  destruct fuel as [|fuel]; [lia|].
  assert (Forall2 (decodes (decodeValue_fuel fuel) (depth + 1)) l ms) as HD.
  { apply children_decode; try done; [apply (children_short 3)|..]; lia. }
  apply decode_bytes; [lia|lia|lia|eapply affords_le; [|done]; lia|].
  unfold value_field. cbn [Z.eqb Pos.eqb]. rewrite r_bytes_app by lia. cbn [fst snd].
  unfold decodeNamedTuple. subst body opt. pose proof (len_opt_str 1 n).
  erewrite each_field_optb; [|side|lia|cbn [namedtuple_field Z.eqb Pos.eqb]; unfold r_str;
    rewrite r_bytes_app by lia; reflexivity|zeroed].
  rewrite names_loop by (apply (children_short 2); lia).
  rewrite (nt_vals_loop _ _ _ _ l) by (done || (apply affords_spend; done)).
  cbn [checked mbind result_mbind rerr new_reader app]. by rewrite spend_add.
Qed.

Lemma canon_uuid_eq id raw s : ParseUUID id = Ok raw -> FormatUUID raw = Ok s -> canon_uuid id = s.
Proof. unfold canon_uuid. intros -> Hs. cbn. by rewrite Hs. Qed.

(** The bytes of a type body, field by field. *)
Lemma appendTypeBody_spec n id o dc a m :
  appendTypeBody [] (PyType n id o dc a) = Ok m ->
  exists idp ap,
    m = (if bool_decide (n = []) then [] else fbytes 1 n) ++ idp
        ++ (if o =? 0 then [] else fvar 3 o) ++ (if negb dc then [] else fvar 4 1) ++ ap
    /\ (if bool_decide (id = []) then idp = []
        else exists raw, ParseUUID id = Ok raw /\ idp = fbytes 2 (fbytes 1 raw))
    /\ (match Pairs a with
        | [] => ap = []
        | d => exists ms, ap = fbytes 5 (concat (map (fun m => fbytes 1 (fbytes 1 m.1 ++ fbytes 2 m.2)) ms))
            /\ Forall2 (fun p m => AppendValue [] p.1 = Ok m.1 /\ AppendValue [] p.2 = Ok m.2) d ms
        end).
Proof.
  intros Hm. cbn [appendTypeBody] in Hm.
  rewrite appendStringField_eq, app_nil_l in Hm. set (np := if bool_decide (n = []) then _ else _) in *.
  assert (exists idp, (if bool_decide (id = []) then Ok np
    else match appendUUIDMessage np 2 id with Ok b => Ok b | Err e => Err (ConversionError e) end)
    = Ok (np ++ idp)
    /\ (if bool_decide (id = []) then idp = []
        else exists raw, ParseUUID id = Ok raw /\ idp = fbytes 2 (fbytes 1 raw)))
    as (idp & Hid & Hidp).
  { destruct (bool_decide (id = [])); [exists []; by rewrite app_nil_r|].
    destruct (appendUUIDMessage np 2 id) as [b|] eqn:E; [|done].
    apply appendUUIDMessage_eq in E as (raw & Hr & ->). eauto. }
  rewrite Hid in Hm. cbn [mbind result_mbind] in Hm.
  rewrite appendBoolField_eq, appendUintField_eq in Hm.
  destruct a as [[|p ps]|]; cbn [Pairs from_option Datatypes.id] in *.
  - injection Hm as <-. exists idp, []. rewrite app_nil_r, <- !app_assoc. done.
  - destruct (appendDictBody _ (p :: ps) []) as [body|] eqn:E; cbn in Hm; [|done].
    injection Hm as <-. apply appendDictBody_spec in E as (ms & HE & ->).
    eexists idp, _. rewrite appendMessage_eq, <- !app_assoc. split; [reflexivity|].
    split; [done|]. by exists ms.
  - injection Hm as <-. exists idp, []. rewrite app_nil_r, <- !app_assoc. done.
Qed.

(** One lemma per part of the body: the id, the dataclass flag, the attributes. *)
Lemma type_id_loop dv depth n id idp bg rest :
  len idp < 2 ^ 63 ->
  (if bool_decide (id = []) then idp = []
   else exists raw, ParseUUID id = Ok raw /\ idp = fbytes 2 (fbytes 1 raw)) ->
  each_field (type_field dv depth) (PyType n [] 0 false None, false, bg) (new_reader (idp ++ rest))
  = each_field (type_field dv depth)
      (PyType n (if bool_decide (id = []) then [] else canon_uuid id) 0 false None,
       negb (bool_decide (id = [])), bg) (new_reader rest).
Proof.
  intros Hlen Hid. destruct (bool_decide (id = [])); [by subst idp|].
  destruct Hid as (raw & Hr & ->). pose proof (ParseUUID_len _ _ Hr) as Hrl.
  destruct (FormatUUID_len raw Hrl) as [s Hs]. rewrite (canon_uuid_eq _ _ _ Hr Hs).
  rewrite each_field_fbytes; [|side|lia]. cbn [type_field Z.eqb Pos.eqb].
  pose proof (len_fbytes 2 (fbytes 1 raw)). rewrite r_bytes_app by lia.
  rewrite decodeUUIDMessage_enc by lia. by rewrite Hs.
Qed.

Lemma type_flag_loop dv depth n id o dc hasID bg rest :
  each_field (type_field dv depth) (PyType n id o false None, hasID, bg)
    (new_reader ((if negb dc then [] else fvar 4 1) ++ rest))
  = each_field (type_field dv depth) (PyType n id o dc None, hasID, bg) (new_reader rest).
Proof.
  destruct dc; cbn [negb app]; [|done].
  rewrite each_field_fvar; [|side|lia]. cbn [type_field Z.eqb Pos.eqb].
  rewrite r_varint_app by lia. done.
Qed.

Lemma type_attrs_loop fuel depth n id o dc a ap hasID bg :
  Forall RTp (Pairs a) -> len ap < 2 ^ 63 ->
  match a with Some d => forallb (pair_all wf_value) d | None => true end = true ->
  match Pairs a with
  | [] => ap = []
  | d => exists ms, ap = fbytes 5 (concat (map (fun m => fbytes 1 (fbytes 1 m.1 ++ fbytes 2 m.2)) ms))
      /\ Forall2 (fun p m => AppendValue [] p.1 = Ok m.1 /\ AppendValue [] p.2 = Ok m.2) d ms
  end ->
  nest_type (PyType n id o dc a) <= Z.of_nat fuel ->
  nest_type (PyType n id o dc a) = 0 \/ depth + nest_type (PyType n id o dc a) <= 100 ->
  affords bg (cost_type (PyType n id o dc a)) ->
  each_field (type_field (decodeValue_fuel fuel) depth)
    (PyType n (if bool_decide (id = []) then [] else canon_uuid id) o dc None, hasID, bg)
    (new_reader (ap ++ []))
  = Ok ((canon_type (PyType n id o dc a), hasID, spend bg (cost_type (PyType n id o dc a))),
        new_reader []).
Proof.
  intros HF Hlen Hwa Ha Hf Hd Hbg. cbn [canon_type].
  destruct a as [[|p ps]|]; cbn [Pairs from_option Datatypes.id] in *;
    [subst ap; cbn; by rewrite spend_0| |subst ap; cbn; by rewrite spend_0].
  destruct Ha as (ms & -> & HE).
  change (map (fun p => cost p.1 + cost p.2)) with (map cost_pair) in *.
  set (body := concat _) in *. pose proof (len_fbytes 5 body).
  rewrite each_field_fbytes; [|side|lia]. cbn [type_field Z.eqb Pos.eqb].
  rewrite r_bytes_app by lia. subst body.
  rewrite (decodeDict_enc _ _ (p :: ps)).
  - cbn [mbind result_mbind]. by rewrite each_field_nil.
  - cbn [nest_type map] in *. rewrite zmax_cons in *. pose proof (nest_nonneg p.1).
    apply pairs_decode; try done; [apply pairs_short|..]; cbn [map]; rewrite ?zmax_cons; lia.
  - exact Hbg.
Qed.

Lemma RT_type n id o dc a : Forall RTp (Pairs a) -> RTt (PyType n id o dc a).
Proof.
  intros HF m Hm Hwf Hlen fuel depth bg Hf Hd Hbg.
  apply appendTypeBody_spec in Hm as (idp & ap & -> & Hid & Ha).
  cbn [wf_type] in Hwf. apply andb_true_iff in Hwf as [Ho Hwa].
  rewrite !len_app in Hlen. pose proof (len_opt_str 1 n).
  match type of Hlen with ?a + (?b + (?c + (?d + ?e))) < _ =>
    assert (0 <= a /\ 0 <= b /\ 0 <= c /\ 0 <= d /\ 0 <= e) by (repeat split; apply len_nonneg) end.
  assert (1 <= o <= 3) as Ho3 by (unfold OriginBuiltin, OriginSandbox, OriginHost in Ho; lia).
  unfold decodeType. end_of_message. rewrite <- !app_assoc.
  erewrite each_field_optb; [|side|lia|cbn [type_field Z.eqb Pos.eqb]; unfold r_str;
    rewrite r_bytes_app by lia; reflexivity|zeroed].
  rewrite (type_id_loop _ _ _ id) by (done || lia).
  destruct (Z.eqb_spec o 0); [lia|].
  rewrite each_field_fvar; [|side|lia]. cbn [type_field Z.eqb Pos.eqb].
  rewrite r_varint_app by lia. cbn [mbind result_mbind].
  assert (uint8 o = o) as -> by (unfold uint8; apply uwrap_small; lia).
  rewrite type_flag_loop, (type_attrs_loop _ _ _ _ _ _ a) by (done || lia).
  cbn [checked mbind result_mbind rerr new_reader canon_type ty_origin].
  unfold OriginBuiltin, OriginSandbox, OriginHost in *.
  destruct (bool_decide (id = [])); cbn [negb] in Ho |- *; destruct (Z.eqb_spec o 1); try done;
    try lia. destruct ((o =? 2) || (o =? 3)); done.
Qed.

Lemma instance_attrs_loop fuel depth t id a am m2 bg :
  Forall RTp (Pairs a) -> len m2 < 2 ^ 63 ->
  match a with Some d => forallb (pair_all wf_value) d | None => true end = true ->
  match a with None => Ok [] | Some pairs => appendDictBody (AppendValue []) pairs [] end = Ok am ->
  m2 = fbytes 3 am ->
  zmax (map (fun p => 1 + Z.max (nest p.1) (nest p.2)) (Pairs a)) <= Z.of_nat fuel ->
  depth + zmax (map (fun p => 1 + Z.max (nest p.1) (nest p.2)) (Pairs a)) <= 100 ->
  affords bg (zsum (map cost_pair (Pairs a))) ->
  each_field (instance_field (decodeValue_fuel fuel) depth)
    (Some t, Some id, None, bg) (new_reader (m2 ++ []))
  = Ok ((Some t, Some id, match Pairs a with [] => None | d => Some (map canon_pair d) end,
         spend bg (zsum (map cost_pair (Pairs a)))), new_reader []).
Proof.
  intros HF Hlen Hwa Hm -> Hf Hd Hbg. pose proof (len_fbytes 3 am).
  assert (exists ms, am = concat (map (fun m => fbytes 1 (fbytes 1 m.1 ++ fbytes 2 m.2)) ms)
    /\ Forall2 (fun p m => AppendValue [] p.1 = Ok m.1 /\ AppendValue [] p.2 = Ok m.2) (Pairs a) ms)
    as (ms & -> & HE).
  { destruct a as [d|]; cbn [Pairs from_option Datatypes.id].
    - apply appendDictBody_spec in Hm as (ms & HE & ->). by exists ms.
    - injection Hm as <-. exists []. done. }
  assert (forallb (pair_all wf_value) (Pairs a) = true) by (by destruct a).
  rewrite each_field_fbytes; [|side|lia]. cbn [instance_field Z.eqb Pos.eqb].
  rewrite r_bytes_app by lia. rewrite (decodeDict_enc _ _ (Pairs a)).
  - cbn [mbind result_mbind]. rewrite each_field_nil. by destruct (Pairs a).
  - apply pairs_decode; try done; apply pairs_short; lia.
  - exact Hbg.
Qed.

Lemma RT_instance t id a : RTt t -> Forall RTp (Pairs a) -> RTi (Instance_ t id a).
Proof.
  intros Ht HF m Hm Hwf Hlen. cbn [appendInstance] in Hm.
  destruct (appendTypeBody [] t) as [tm|] eqn:Et; cbn [mbind result_mbind] in Hm; [|done].
  rewrite appendMessage_eq, app_nil_l in Hm.
  destruct (appendUUIDMessage _ 2 id) as [b|] eqn:Eu; cbn [mbind result_mbind] in Hm; [|done].
  apply appendUUIDMessage_eq in Eu as (raw & Hr & ->).
  destruct (match a with None => _ | Some _ => _ end) as [am|] eqn:Ea; cbn in Hm; [|done].
  injection Hm as <-. rewrite !appendMessage_eq, app_nil_l, <- app_assoc in *.
  set (body := fbytes 1 tm ++ _) in *. exists body. split; [done|].
  pose proof (len_fbytes 24 body). split; [lia|]. intros fuel depth bg Hf Hd Hbg.
  assert (len body = len (fbytes 1 tm) + (len (fbytes 2 (fbytes 1 raw)) + len (fbytes 3 am))) as Hl
    by (subst body; by rewrite !len_app).
  pose proof (len_fbytes 1 tm). pose proof (len_fbytes 2 (fbytes 1 raw)).
  pose proof (len_nonneg (fbytes 1 tm)). pose proof (len_nonneg (fbytes 2 (fbytes 1 raw))).
  pose proof (len_nonneg (fbytes 3 am)).
  cbn [wf_instance] in Hwf. rewrite !andb_true_iff in Hwf. destruct Hwf as [[Hwt Hnb] Hwa].
  replace (cost_instance (Instance_ t id a)) with (cost_type t + zsum (map cost_pair (Pairs a))) in *
    by (destruct a; done).
  assert (nest_instance (Instance_ t id a) = Z.max (deeper (nest_type t))
    (zmax (map (fun p => 1 + Z.max (nest p.1) (nest p.2)) (Pairs a)))) as Hn by (destruct a; done).
  rewrite Hn in *. pose proof (cost_pairs_nonneg (Pairs a)) as Hcp.
  assert (0 <= cost_type t) as Hct.
  { pose proof (cost_nonneg (VType t)) as H6. cbn [cost] in H6. lia. }
  unfold decodeInstance. subst body. end_of_message. rewrite <- !app_assoc.
  rewrite each_field_fbytes; [|side|lia]. cbn [instance_field Z.eqb Pos.eqb].
  rewrite r_bytes_app by lia.
  rewrite (Ht tm) by (done || (unfold deeper in *; destruct (Z.eqb_spec (nest_type t) 0); lia)
    || lia || (eapply affords_le; [|done]; lia)).
  cbn [mbind result_mbind]. rewrite each_field_fbytes; [|side|lia].
  cbn [instance_field Z.eqb Pos.eqb]. rewrite r_bytes_app by lia.
  pose proof (ParseUUID_len _ _ Hr) as Hrl. destruct (FormatUUID_len raw Hrl) as [s Hs].
  rewrite decodeUUIDMessage_enc, Hs by lia. cbn [mbind result_mbind].
  rewrite (instance_attrs_loop _ _ _ _ a am) by (done || lia || (apply affords_spend; done)).
  cbn [checked mbind result_mbind rerr new_reader]. rewrite spend_add.
  assert (ty_origin (canon_type t) = ty_origin t) as -> by (by destruct t).
  apply negb_true_iff in Hnb. rewrite Hnb. cbn [canon_instance].
  rewrite (canon_uuid_eq _ _ _ Hr Hs). by destruct a as [[|]|].
Qed.

Lemma RT_vtype t : RTt t -> RTv (VType t).
Proof.
  intros Ht m Hm Hwf Hlen fuel depth bg Hf Hd Hbg. cbn [AppendValue] in Hm.
  destruct (appendTypeBody [] t) as [tm|] eqn:E; cbn in Hm; [|done]. injection Hm as <-.
  rewrite appendMessage_eq, app_nil_l in *. pose proof (len_fbytes 23 tm).
  cbn [nest cost canon wf_value] in *.
  assert (0 <= cost_type t /\ 0 <= nest_type t) as [? ?].
  { pose proof (cost_nonneg (VType t)) as H6. cbn [cost] in H6. split; [lia|].
    apply (nest_nonneg (VType t)). }
  destruct fuel as [|fuel]; [lia|].
  apply decode_bytes; [lia|lia|lia|eapply affords_le; [|done]; lia|].
  unfold value_field. cbn [Z.eqb Pos.eqb]. rewrite r_bytes_app by lia. cbn [fst snd].
  rewrite (Ht tm) by (done || lia || (apply affords_spend; done)).
  cbn [mbind result_mbind]. by rewrite spend_add.
Qed.

Lemma RT_vinstance i v : RTi i -> v = VInstance i \/ v = VInstancePtr i -> RTv v.
Proof.
  intros Hi Hv m Hm Hwf Hlen fuel depth bg Hf Hd Hbg.
  assert (appendInstance [] i = Ok m /\ wf_instance i = true /\ nest v = nest_instance i
    /\ cost v = nodeHostSize + cost_instance i /\ canon v = VInstance (canon_instance i))
    as (Hm' & Hwf' & Hn & Hc & ->) by (by destruct Hv as [-> | ->]).
  rewrite Hn, Hc in *. destruct (Hi m Hm' Hwf' Hlen) as (body & -> & Hl & Hdec).
  assert (0 <= cost_instance i /\ 0 <= nest_instance i) as [? ?].
  { pose proof (cost_nonneg (VInstance i)) as H6. cbn [cost] in H6. split; [lia|].
    apply (nest_nonneg (VInstance i)). }
  destruct fuel as [|fuel]; [lia|].
  apply decode_bytes; [lia|lia|lia|eapply affords_le; [|done]; lia|].
  unfold value_field. cbn [Z.eqb Pos.eqb]. rewrite r_bytes_app by lia. cbn [fst snd].
  rewrite Hdec by (done || lia || (apply affords_spend; done)).
  cbn [mbind result_mbind]. by rewrite spend_add.
Qed.

Lemma RT_all v : RTv v.
Proof.
  revert v. apply (value_ind' RTv RTt RTi).
  - apply RT_leaf.
  - intros l HF m Hm. intros. eapply (RT_seq 11 VList); eauto; by left.
  - intros l HF m Hm. intros. eapply (RT_seq 12 VTuple); eauto; right; by left.
  - apply RT_namedtuple.
  - intros [d|] HF m Hm; intros; [by eapply RT_dict|by eapply (RT_dict [])].
  - intros [l|] HF m Hm; intros;
      [eapply (RT_seq 15 (fun l => VSet (Some l)))|eapply (RT_seq 15 (fun l => VSet (Some l)) [])];
      eauto; right; right; by left.
  - intros [l|] HF m Hm; intros;
      [eapply (RT_seq 16 (fun l => VFrozenSet (Some l)))
      |eapply (RT_seq 16 (fun l => VFrozenSet (Some l)) [])]; eauto; right; right; by right.
  - apply RT_vtype.
  - intros i Hi. eapply RT_vinstance; eauto.
  - intros i Hi. eapply RT_vinstance; eauto.
  - apply RT_type.
  - apply RT_instance.
Qed.
End roundtrip.

(** C1. Round trip of the value codec: a well-formed Go value that
    [AppendValue] encodes, and that nests no deeper than the decoder allows, is
    decoded by [DecodeValue] to its canonical form, and the decode budget is
    charged exactly the value's cost: one node per value plus its text. *)
Theorem value_roundtrip `{PW : Protowire} `{!ProtowireLaws PW} (v : value) (m : bytes) (bg : budget) :
  AppendValue [] v = Ok m -> wf_value v = true -> len m < 2 ^ 63 ->
  nest v <= maxDecodeNesting -> affords bg (cost v) ->
  DecodeValue m bg = Ok (canon v, spend bg (cost v)).
Proof.
  intros Hm Hwf Hlen Hn Hbg. unfold maxDecodeNesting in *. unfold DecodeValue, decodeValue.
  apply RT_all; try done; change (maxDecodeNesting + 1 - 0) with 101; lia.
Qed.

(** A value that exercises nesting, a big integer, a class instance with an
    uppercase uuid, and a nil dict. *)
Definition sample_value : value :=
  VList [VInt KUint64 (2 ^ 63 + 5); VStr (go "hi");
         VDict (Some [(VInt KInt8 (-3), VTuple [VNil; VBool true; VFloat32 1065353216])]);
         VDict None; VSet (Some [VBytes (go "x")]);
         VDate (Date 2024 2 29);
         VInstance (Instance_
           (PyType (go "P") (go "01234567-89AB-cdef-0123-456789abcdef") 3 true None)
           (go "00000000-0000-0000-0000-0000000000FF") (Some [(VStr (go "x"), VInt KInt 7)]))].

Lemma value_roundtrip_witness :
  exists m, AppendValue (PW := pwref) [] sample_value = Ok m
    /\ DecodeValue (PW := pwref) m (NewBudget 10000)
       = Ok (canon sample_value, spend (NewBudget 10000) (cost sample_value)).
Proof.
  eexists. split; [vm_compute; reflexivity|].
  apply (value_roundtrip (PW := pwref) sample_value).
  - vm_compute. reflexivity.
  - vm_compute. reflexivity.
  - vm_compute. reflexivity.
  - vm_compute. discriminate.
  - vm_compute. split; [discriminate|reflexivity].
Defined.
