(* ===== verification/CodecSound.v ===== *)
(** Soundness of [DecodeValue] on arbitrary, possibly hostile, input: whatever
    decodes is a well-formed value in canonical form, nested no deeper than the
    limit, and paid for out of the decode budget. *)

From S2P Require Import Prelude Protowire Proto Values ValueCodec CodecSpec CodecRoundtrip.

(** A value a decoder may hand out. *)
Definition good (v : value) : Prop := wf_value v = true /\ canon v = v.

(** [bg'] is [bg] after at least [n] bytes were charged. *)
Definition paid (bg : budget) (n : Z) (bg' : budget) : Prop :=
  affords bg' 0 /\
  match bg, bg' with
  | Some r, Some r' => r' + n <= r
  | None, None => True
  | _, _ => False
  end.

Section paid.
Lemma charge_paid bg n bg' :
  affords bg 0 -> 0 <= n < 2 ^ 63 -> charge bg n = Ok bg' -> paid bg n bg'.
Proof.
  destruct bg as [r|]; cbn; [|by intros _ _ [= <-]]. intros Hr Hn.
  rewrite int64_small by lia. destruct (Z.ltb_spec (r - n) 0); [done|].
  intros [= <-]. split; cbn; lia.
Qed.

Lemma paid_refl bg : affords bg 0 -> paid bg 0 bg.
Proof. intros H. split; [done|]. destruct bg; [lia|done]. Qed.

Lemma paid_trans b1 b2 b3 n m : paid b1 n b2 -> paid b2 m b3 -> paid b1 (n + m) b3.
Proof. unfold paid. destruct b1, b2, b3; intuition lia. Qed.

Lemma paid_le b1 b2 n m : m <= n -> paid b1 n b2 -> paid b1 m b2.
Proof. unfold paid. destruct b1, b2; intuition lia. Qed.

Lemma paid_affords b1 b2 n : paid b1 n b2 -> affords b2 0.
Proof. by intros [? _]. Qed.
End paid.

Section good_lemmas.
Lemma good_list l : Forall good l -> forallb wf_value l = true /\ map canon l = l.
Proof. induction 1 as [|v l [Hw Hc] _ [IH1 IH2]]; [done|]. cbn. by rewrite Hw, IH1, Hc, IH2. Qed.

Lemma good_pairs d : Forall (fun p => good p.1 /\ good p.2) d ->
  forallb (pair_all wf_value) d = true /\ map (fun p => (canon p.1, canon p.2)) d = d.
Proof.
  induction 1 as [|[k v] d [[Hk Hk'] [Hv Hv']] _ [IH1 IH2]]; [done|].
  cbn in *. unfold pair_all at 1. cbn. by rewrite Hk, Hv, IH1, Hk', Hv', IH2.
Qed.

Lemma good_int z : good (IntValue z).
Proof.
  unfold IntValue, good. destruct (in_int 64 z) eqn:E; cbn; unfold IntValue; by rewrite E.
Qed.

Lemma cost_IntValue z : cost (IntValue z) = nodeHostSize + int_cost z.
Proof. unfold IntValue. by destruct (in_int 64 z). Qed.

Lemma canon_uuid_format raw s : FormatUUID raw = Ok s -> canon_uuid s = s.
Proof.
  intros H. unfold canon_uuid. rewrite (ParseUUID_FormatUUID _ _ H). cbn. by rewrite H.
Qed.

Lemma FormatUUID_nonempty raw s : FormatUUID raw = Ok s -> s <> [].
Proof. intros H ->. apply ParseUUID_FormatUUID in H. done. Qed.
End good_lemmas.

Section loops.
Context `{PW : Protowire} `{!ProtowireLaws PW}.

(** Invariant rule for a whole decoder: the loop over [msg] ends without a
    reader error, and every switch body ran on at most [len msg] bytes. *)
Lemma decoder_inv {S} (body : Z -> Z -> S -> reader -> result (S * reader)) (P : S -> Prop)
    s msg s' :
  shrinking body ->
  (forall num typ s r s' r', len (rb r) <= len msg -> P s ->
     body num typ s r = Ok (s', r') -> P s') ->
  P s -> checked (each_field body s (new_reader msg)) = Ok s' -> P s'.
Proof.
  intros Hsh Hstep Hs. unfold checked.
  destruct (each_field body s (new_reader msg)) as [[s2 r2]|] eqn:E; cbn; [|done].
  destruct (rerr r2); [done|]. intros [= <-]. revert E. unfold each_field.
  assert (len (rb (new_reader msg)) <= len msg) as Hl by done. revert Hl.
  generalize (Datatypes.S (length (rb (new_reader msg)))) as n.
  generalize (new_reader msg) as r. intros r n. revert s r Hs.
  induction n as [|n IH]; intros s r Hs Hl; cbn; [done|].
  destruct (next r) as [[[num typ]|] r1] eqn:En; [|intros; by simplify_eq].
  apply next_shrink in En.
  destruct (body num typ s r1) as [[s3 r3]|] eqn:Eb; [|done]. cbn.
  pose proof (Hsh _ _ _ _ _ _ Eb). unfold len in *.
  apply IH; [|lia]. eapply Hstep; [|done|exact Eb]. lia.
Qed.

(** A decoder without children: its loop keeps [P], and [P] is all the rest
    of the decoder needs. *)
Ltac field_cases H :=
  repeat match type of H with
  | context [if ?c then _ else _] => destruct c
  | context [let '(_, _) := ?x in _] => destruct x eqn:?
  end; simplify_eq/=;
  repeat match goal with
  | H : r_varint _ _ _ = _ |- _ => apply r_varint_range in H
  end.

Lemma clamp_nonneg v : 0 <= uint8 (clampU32 v).
Proof. apply uwrap_range. lia. Qed.

Lemma uint32_nonneg v : 0 <= uint32 v.
Proof. apply uwrap_range. lia. Qed.

Hint Resolve clamp_nonneg uint32_nonneg : core.

Ltac run_decoder H P :=
  match type of H with
  | context [checked ?m] =>
    let x := fresh "x" in let Hx := fresh "Hx" in
    destruct (checked m) as [x|] eqn:Hx; cbn [mbind result_mbind] in H; [|done];
    apply (decoder_inv _ P) in Hx;
      [ cbn in Hx
      | solve_shrinking
      | let num := fresh in let typ := fresh in let s := fresh in let r := fresh in
        let Hs := fresh "Hs" in let E := fresh "E" in
        intros num typ s r ? ? _ Hs E; destruct s; cbn in Hs; field_cases E; cbn;
        intuition (done || lia)
      | cbn; intuition (done || lia) ]
  end.

(** A value without children, at the price of its node. *)
Definition plain (v : value) : Prop := good v /\ nest v = 0 /\ cost v = nodeHostSize.

Lemma decodeDate_plain msg v : decodeDate msg = Ok v -> plain v.
Proof using Type.
  unfold decodeDate. intros H. destruct (checked _) as [d|]; cbn in H; [|done].
  destruct (validateDate _ _ _) as [[]|] eqn:E; cbn in H; [|done]. simplify_eq.
  unfold plain, good. cbn. by rewrite E.
Qed.

Lemma decodeTime_plain msg v : decodeTime msg = Ok v -> plain v.
Proof.
  unfold decodeTime. intros H.
  run_decoder H (fun t => 0 <= t_hour t /\ 0 <= t_minute t /\ 0 <= t_second t
    /\ 0 <= t_micro t /\ 0 <= t_fold t).
  destruct (validateClock _ _ _ _ _ _) as [[]|] eqn:E; cbn in H; [|done].
  destruct (Z.ltb_spec 1 (t_fold x)); simplify_eq. unfold plain, good. cbn. rewrite E. cbn.
  rewrite !(proj2 (Z.leb_le _ _)) by lia. done.
Qed.

Lemma decodeDateTime_plain msg v : decodeDateTime msg = Ok v -> plain v.
Proof.
  unfold decodeDateTime. intros H.
  run_decoder H (fun t => 0 <= dt_hour t /\ 0 <= dt_minute t /\ 0 <= dt_second t
    /\ 0 <= dt_micro t).
  destruct (validateDate _ _ _) as [[]|] eqn:Ed; cbn in H; [|done].
  destruct (validateClock _ _ _ _ _ _) as [[]|] eqn:E; cbn in H; [|done].
  simplify_eq. unfold plain, good. cbn. rewrite E, Ed. cbn.
  rewrite !(proj2 (Z.leb_le _ _)) by lia. done.
Qed.

Lemma decodeTimeDelta_plain msg v : decodeTimeDelta msg = Ok v -> plain v.
Proof using Type.
  unfold decodeTimeDelta. intros H. destruct (checked _) as [d|]; cbn in H; [|done].
  destruct (timedelta_normalized d) eqn:E; simplify_eq. by unfold plain, good.
Qed.

Lemma decodeTimeZone_plain msg tz : decodeTimeZone msg = Ok tz -> plain (VTimeZone tz).
Proof using Type.
  unfold decodeTimeZone. intros H. destruct (checked _) as [d|]; cbn in H; [|done].
  destruct (_ || _) eqn:E; simplify_eq. unfold plain, good. cbn. repeat split. bool_lia.
Qed.

Lemma decodeExceptionValue_plain msg v : decodeExceptionValue msg = Ok v -> plain v.
Proof using Type.
  unfold decodeExceptionValue. intros H. destruct (checked _) as [d|]; cbn in H; [|done].
  by simplify_eq.
Qed.

Lemma decodeFunction_plain msg v : decodeFunction msg = Ok v -> plain v.
Proof using Type.
  unfold decodeFunction. intros H. destruct (checked _) as [d|]; cbn in H; [|done].
  by simplify_eq.
Qed.

Lemma decodeFileHandle_plain msg v : decodeFileHandle msg = Ok v -> plain v.
Proof.
  unfold decodeFileHandle. intros H.
  run_decoder H (fun h => 0 <= fh_position h < 2 ^ 64).
  destruct (validHandleMode (fh_mode x)) eqn:E; simplify_eq/=.
  unfold plain, good. cbn [wf_value]. rewrite E. repeat split. bool_lia.
Qed.

Lemma decodeCycle_plain msg v : decodeCycle msg = Ok v -> plain v.
Proof.
  unfold decodeCycle. intros H.
  run_decoder H (fun c => 0 <= cy_identity c < 2 ^ 64). simplify_eq.
  unfold plain, good. cbn [wf_value]. repeat split. bool_lia.
Qed.
End loops.

(** ** Integers *)

Section big.
Lemma byte_count_le v k : 0 <= v < 256 ^ Z.of_nat k -> (byte_count v <= k)%nat.
Proof.
  intros Hv. unfold byte_count. destruct (Z.leb_spec v 0); [lia|].
  assert (Z.log2 v < 8 * Z.of_nat k).
  { apply Z.log2_lt_pow2; [lia|]. rewrite Z.pow_mul_r by lia. apply Hv. }
  assert (Z.log2 v / 8 < Z.of_nat k) by (apply Z.div_lt_upper_bound; lia).
  pose proof (Z.div_pos (Z.log2 v) 8 ltac:(apply Z.log2_nonneg) ltac:(lia)). lia.
Qed.

(** math/big's [Bytes] is no longer than any other spelling of the number. *)
Lemma be_bytes_minimal b : len (be_bytes (be_val b)) <= len b.
Proof.
  unfold be_bytes, be_val, len. rewrite length_rev, length_le_bytes.
  pose proof (le_val_range (rev b)) as Hr. unfold len in Hr. rewrite length_rev in Hr.
  apply byte_count_le in Hr. lia.
Qed.

Lemma int_cost_be b (neg : bool) :
  int_cost (if neg then - be_val b else be_val b) <= len b.
Proof.
  unfold int_cost. destruct (in_int 64 _); [apply len_nonneg|].
  replace (Z.abs _) with (be_val b) by (pose proof (be_val_nonneg b); destruct neg; lia).
  apply be_bytes_minimal.
Qed.
End big.

(** ** Containers *)

Section containers.
Context `{PW : Protowire} `{!ProtowireLaws PW}.

(** What a decoder of values promises its callers. *)
Definition sound_at (depth : Z) (bg : budget) (v : value) (bg' : budget) : Prop :=
  good v /\ depth + nest v <= 100 /\ paid bg (cost v) bg'.

Definition sound_decoder (dv : bytes -> budget -> Z -> result (value * budget)) : Prop :=
  forall m bg depth v bg', len m < 2 ^ 63 -> affords bg 0 ->
    dv m bg depth = Ok (v, bg') -> sound_at depth bg v bg'.

(** The contents of a list or dict decoded so far, below [depth]. *)
Definition seq_sound (depth : Z) (bg : budget) (l : list value) (bg' : budget) : Prop :=
  Forall good l /\ Forall (fun v => depth + 1 + nest v <= 100) l
  /\ paid bg (zsum (map cost l)) bg'.

Definition dcost (d : list (value * value)) : Z := zsum (map (fun p => cost p.1 + cost p.2) d).

Definition dict_ok (depth : Z) (d : list (value * value)) : Prop :=
  Forall (fun p => good p.1 /\ good p.2) d
  /\ Forall (fun p => depth + 1 + Z.max (nest p.1) (nest p.2) <= 100) d.

Definition dict_sound (depth : Z) (bg : budget) (d : list (value * value)) (bg' : budget) : Prop :=
  dict_ok depth d /\ paid bg (dcost d) bg'.

Lemma zsum_snoc {A} (f : A -> Z) l x : zsum (map f (l ++ [x])) = zsum (map f l) + f x.
Proof. induction l as [|y l IH]; cbn; [lia|]. unfold zsum in *. lia. Qed.

Lemma seq_sound_snoc depth bg l b1 v b2 :
  seq_sound depth bg l b1 -> sound_at (depth + 1) b1 v b2 -> seq_sound depth bg (l ++ [v]) b2.
Proof.
  intros (Hg & Hn & Hp) (Hg' & Hn' & Hp'). split; [|split].
  - by apply Forall_app_2, Forall_singleton.
  - by apply Forall_app_2, Forall_singleton.
  - rewrite zsum_snoc. apply (paid_trans _ _ _ _ _ Hp Hp').
Qed.

Lemma dict_sound_snoc depth bg d b1 k v b2 :
  dict_sound depth bg d b1 -> good k -> good v ->
  depth + 1 + Z.max (nest k) (nest v) <= 100 -> paid b1 (cost k + cost v) b2 ->
  dict_sound depth bg (d ++ [(k, v)]) b2.
Proof.
  intros ((Hg & Hn) & Hp) Hk Hv Hd Hp'. split; [split|].
  - by apply Forall_app_2, Forall_singleton.
  - by apply Forall_app_2, Forall_singleton.
  - unfold dcost. rewrite zsum_snoc. apply (paid_trans _ _ _ _ _ Hp Hp').
Qed.

Lemma dcost_nonneg d : 0 <= dcost d.
Proof. apply cost_pairs_nonneg. Qed.

Lemma seq_nest depth bg l b : seq_sound depth bg l b -> depth <= 100 ->
  depth + zmax (map (fun x => 1 + nest x) l) <= 100.
Proof.
  intros (_ & Hn & _) Hd. induction Hn; [cbn; lia|]. cbn [map]. rewrite zmax_cons. lia.
Qed.

Lemma dict_nest depth d : dict_ok depth d ->
  d = [] \/ depth + zmax (map (fun p => 1 + Z.max (nest p.1) (nest p.2)) d) <= 100.
Proof.
  intros (_ & Hn). induction Hn as [|[k v] d Hk Hn IH]; [by left|right].
  cbn [map fst snd] in *. rewrite zmax_cons. pose proof (nest_nonneg k).
  destruct IH as [->|IH]; cbn; lia.
Qed.

(** Attributes of a type or an instance: absent, or a non-empty dict. *)
Definition attrs_ok (depth : Z) (a : option (list (value * value))) : Prop :=
  match a with None => True | Some d => d <> [] /\ dict_ok depth d end.
Definition acost (a : option (list (value * value))) : Z :=
  match a with None => 0 | Some d => dcost d end.

Lemma acost_nonneg a : 0 <= acost a.
Proof. destruct a; [apply dcost_nonneg|done]. Qed.

Lemma keep_attrs_ok depth a d : attrs_ok depth a -> dict_ok depth d ->
  attrs_ok depth (keep_attrs a d) /\ acost (keep_attrs a d) <= acost a + dcost d.
Proof.
  intros Ha Hd. unfold keep_attrs. pose proof (acost_nonneg a). pose proof (dcost_nonneg d).
  destruct d as [|p d]; [split; [exact Ha|change (acost a <= acost a + dcost []); lia]|].
  rewrite (proj2 (Z.ltb_lt _ _)) by (unfold len; cbn; lia).
  split; [by split|]. cbn [acost]. lia.
Qed.

(** A type as a decoder may hand it out. *)
Definition good_type (depth : Z) (t : pytype) : Prop :=
  wf_type t = true /\ canon_type t = t
  /\ (nest_type t = 0 \/ depth + nest_type t <= 100).

Lemma good_type_intro depth n id o dc a :
  attrs_ok depth a ->
  (o = OriginBuiltin /\ id = []) \/
  ((o = OriginSandbox \/ o = OriginHost) /\ id <> [] /\ canon_uuid id = id) ->
  good_type depth (PyType n id o dc a) /\ cost_type (PyType n id o dc a) = acost a.
Proof.
  intros Ha Ho. split; [|by destruct a]. unfold good_type. cbn [wf_type canon_type nest_type].
  assert (match a with Some d => forallb (pair_all wf_value) d | None => true end = true
    /\ match a with
       | Some ((_ :: _) as d) => Some (map (fun p => (canon p.1, canon p.2)) d)
       | _ => None
       end = a) as [-> ->].
  { destruct a as [d|]; [|done]. destruct Ha as [Hne [Hg _]].
    apply good_pairs in Hg as [-> Hg]. by destruct d; [|rewrite Hg]. }
  assert (nest_type (PyType n id o dc a) = 0 \/ depth + nest_type (PyType n id o dc a) <= 100) as Hn.
  { destruct a as [d|]; [|by left]. destruct Ha as [Hne [Hg Hn]]. right.
    destruct (dict_nest depth d) as [->|]; [by split|done|done]. }
  split; [|split; [|exact Hn]].
  - destruct Ho as [[-> ->]|[[-> | ->] [Hid _]]]; [done|..]; by rewrite bool_decide_eq_false_2.
  - destruct Ho as [[_ ->]|[_ [Hid Hc]]]; [done|]. by rewrite bool_decide_eq_false_2, Hc.
Qed.

Section with_dv.
Variable dv : bytes -> budget -> Z -> result (value * budget).
Hypothesis Hdv : sound_decoder dv.

Lemma decodeObjectList_sound msg bg depth l bg' :
  len msg < 2 ^ 63 -> affords bg 0 ->
  decodeObjectList dv msg bg depth = Ok (l, bg') -> seq_sound depth bg l bg'.
Proof.
  intros Hlen Hbg H. unfold decodeObjectList in H.
  apply (decoder_inv _ (fun s => seq_sound depth bg s.1 s.2)) in H; [done|auto with shrink|..].
  - intros num typ [items b] r s' r' Hr Hs E. unfold list_field in E. cbn in Hs.
    destruct (negb _); [by simplify_eq|].
    destruct (r_bytes num typ r) as [m r1] eqn:Em. apply r_bytes_len in Em.
    destruct (dv m b (depth + 1)) as [[v b']|] eqn:Ev; cbn in E; [|done]. simplify_eq. cbn.
    eapply seq_sound_snoc; [done|]. apply Hdv in Ev; [done|lia|apply Hs].
  - split; [constructor|split; [constructor|by apply paid_refl]].
Qed.

Lemma decodeNamedTuple_sound msg bg depth v bg' :
  len msg < 2 ^ 63 -> affords bg 0 ->
  decodeNamedTuple dv msg bg depth = Ok (v, bg') ->
  exists n fs l, v = VNamedTuple n fs l /\ seq_sound depth bg l bg'.
Proof.
  intros Hlen Hbg H. unfold decodeNamedTuple in H.
  destruct (checked _) as [[[[n fs] l] b]|] eqn:Ec; cbn in H; [|done]. simplify_eq.
  exists n, fs, l. split; [done|].
  apply (decoder_inv _ (fun s => seq_sound depth bg s.1.2 s.2)) in Ec; [done|auto with shrink|..].
  - intros num typ [[[n' fs'] l'] b] r s' r' Hr Hs E. unfold namedtuple_field in E. cbn in Hs.
    destruct (num =? 1); [destruct (r_str num typ r); by simplify_eq|].
    destruct (num =? 2); [destruct (r_str num typ r); by simplify_eq|].
    destruct (num =? 3); [|by simplify_eq].
    destruct (r_bytes num typ r) as [m r1] eqn:Em. apply r_bytes_len in Em.
    destruct (dv m b (depth + 1)) as [[v b']|] eqn:Ev; cbn in E; [|done]. simplify_eq. cbn.
    eapply seq_sound_snoc; [done|]. apply Hdv in Ev; [done|lia|apply Hs].
  - split; [constructor|split; [constructor|by apply paid_refl]].
Qed.

Definition opt_ok (depth : Z) (v : option value) : Prop :=
  match v with None => True | Some v => good v /\ depth + 1 + nest v <= 100 end.
Definition opt_cost (v : option value) : Z := match v with None => 0 | Some v => cost v end.

Lemma opt_cost_nonneg v : 0 <= opt_cost v.
Proof using Type.
  destruct v as [v|]; [|done]. pose proof (cost_nonneg v). cbn. unfold nodeHostSize in *. lia.
Qed.

Lemma decodePair_sound msg bg depth k v bg' :
  len msg < 2 ^ 63 -> affords bg 0 ->
  decodePair dv msg bg depth = Ok (k, v, bg') ->
  good k /\ good v /\ depth + 1 + Z.max (nest k) (nest v) <= 100
  /\ paid bg (cost k + cost v) bg'.
Proof.
  intros Hlen Hbg H. unfold decodePair in H.
  destruct (checked _) as [[[ok ov] b]|] eqn:Ec; cbn in H; [|done].
  apply (decoder_inv _ (fun s => opt_ok depth s.1.1 /\ opt_ok depth s.1.2
    /\ paid bg (opt_cost s.1.1 + opt_cost s.1.2) s.2)) in Ec; [|auto with shrink|..].
  - destruct ok as [k'|], ov as [v'|]; simplify_eq. destruct Ec as ([] & [] & Hp).
    cbn in *. split_and!; try done; try lia.
  - intros num typ [[k' v'] b'] r s' r' Hr (Hk & Hv & Hp) E. unfold pair_field in E. cbn in *.
    pose proof (opt_cost_nonneg k'). pose proof (opt_cost_nonneg v').
    assert (forall m r1 x b2, r_bytes num typ r = (m, r1) -> dv m b' (depth + 1) = Ok (x, b2) ->
      sound_at (depth + 1) b' x b2) as Hsub.
    { intros m r1 x b2 Em Ev. apply r_bytes_len in Em. apply Hdv in Ev; [done|lia|apply Hp]. }
    destruct (r_bytes num typ r) as [m r1] eqn:Em.
    destruct (num =? 1); [|destruct (num =? 2); [|by simplify_eq]];
      (destruct (dv m b' (depth + 1)) as [[x b2]|] eqn:Ev; cbn in E; [|done]);
      simplify_eq; cbn; destruct (Hsub _ _ _ _ eq_refl Ev) as (Hg & Hn & Hp');
      (split; [by (done || split)|split; [by (done || split)|]]);
      (eapply paid_le; [|apply (paid_trans _ _ _ _ _ Hp Hp')]); lia.
  - cbn. split; [done|split; [done|by apply paid_refl]].
Qed.

Lemma decodeDict_sound msg bg depth d bg' :
  len msg < 2 ^ 63 -> affords bg 0 ->
  decodeDict dv msg bg depth = Ok (d, bg') -> dict_sound depth bg d bg'.
Proof.
  intros Hlen Hbg H. unfold decodeDict in H.
  apply (decoder_inv _ (fun s => dict_sound depth bg s.1 s.2)) in H; [done|auto with shrink|..].
  - intros num typ [d' b] r s' r' Hr Hs E. unfold dict_field in E. cbn in Hs.
    destruct (negb _); [by simplify_eq|].
    destruct (r_bytes num typ r) as [m r1] eqn:Em. apply r_bytes_len in Em.
    destruct (decodePair dv m b depth) as [[[k v] b']|] eqn:Ev; cbn in E; [|done].
    simplify_eq. cbn. apply decodePair_sound in Ev as (? & ? & ? & ?); [|lia|apply Hs].
    by eapply dict_sound_snoc.
  - split; [by split; constructor|by apply paid_refl].
Qed.

Lemma decodeUUID_canon m id : decodeUUIDMessage m = Ok id -> id <> [] /\ canon_uuid id = id.
Proof using Type.
  unfold decodeUUIDMessage. destruct (checked _) as [raw|]; cbn; [|done]. intros H.
  split; [by eapply FormatUUID_nonempty|by eapply canon_uuid_format].
Qed.

Definition id_ok (hasID : bool) (id : bytes) : Prop :=
  if hasID then id <> [] /\ canon_uuid id = id else id = [].

Lemma type_field_sound depth bg (msg : bytes) num typ s r s' r' :
  len msg < 2 ^ 63 -> len (rb r) <= len msg ->
  let inv s := match s with (PyType n id o dc a, hasID, b) =>
    id_ok hasID id /\ attrs_ok depth a /\ paid bg (acost a) b end in
  inv s -> type_field dv depth num typ s r = Ok (s', r') -> inv s'.
Proof.
  intros Hlen Hr inv Hs E. destruct s as [[[n id o dc a] hasID] b]. destruct Hs as (Hid & Ha & Hp).
  unfold type_field in E. destruct (r_bytes num typ r) as [m r1] eqn:Em.
  apply r_bytes_len in Em. unfold r_str in E.
  repeat match type of E with (if ?c then _ else _) = _ => destruct c end;
    repeat match type of E with (let '(_, _) := ?x in _) = _ => destruct x end;
    simplify_eq; try (by split_and!).
  - destruct (decodeUUIDMessage m) as [u|] eqn:Eu; cbn in E; [|done]. simplify_eq.
    apply decodeUUID_canon in Eu. by split_and!.
  - destruct (decodeDict dv m b depth) as [[d b']|] eqn:Ed; cbn in E; [|done]. simplify_eq.
    apply decodeDict_sound in Ed as [Hd Hp']; [|lia|apply Hp].
    destruct (keep_attrs_ok depth a d Ha Hd) as [Hk Hc]. split_and!; [done|done|].
    eapply paid_le; [exact Hc|]. apply (paid_trans _ _ _ _ _ Hp Hp').
Qed.

Lemma decodeType_sound msg bg depth t bg' :
  len msg < 2 ^ 63 -> affords bg 0 -> decodeType dv msg bg depth = Ok (t, bg') ->
  good_type depth t /\ paid bg (cost_type t) bg'.
Proof.
  intros Hlen Hbg H. unfold decodeType in H.
  destruct (checked _) as [[[t' hasID] b]|] eqn:Ec; cbn in H; [|done].
  eapply (decoder_inv _ (fun s => match s with (PyType n id o dc a, hasID, b) =>
    id_ok hasID id /\ attrs_ok depth a /\ paid bg (acost a) b end)) in Ec;
    [|auto with shrink|intros; by eapply type_field_sound|
     split_and!; [done|done|by apply paid_refl]].
  destruct t' as [n id o dc a]. destruct Ec as (Hid & Ha & Hp). cbn [ty_origin] in H.
  unfold OriginBuiltin, OriginSandbox, OriginHost in *.
  assert (t = PyType n id o dc a /\ b = bg' /\
    ((o = OriginBuiltin /\ id = []) \/
     ((o = OriginSandbox \/ o = OriginHost) /\ id <> [] /\ canon_uuid id = id))) as (-> & -> & Ho).
  { unfold OriginBuiltin, OriginSandbox, OriginHost in *.
    unfold id_ok in Hid. destruct hasID, (Z.eqb_spec o 1), (Z.eqb_spec o 2), (Z.eqb_spec o 3);
      cbn in H; simplify_eq; naive_solver. }
  destruct (good_type_intro depth n id o dc a Ha Ho) as [Hg ->]. by split.
Qed.

Definition itype_ok (depth : Z) (ty : option pytype) : Prop :=
  match ty with None => True | Some t => good_type (depth + 1) t end.
Definition itype_cost (ty : option pytype) : Z :=
  match ty with None => 0 | Some t => cost_type t end.

Lemma itype_cost_nonneg ty : 0 <= itype_cost ty.
Proof using Type.
  destruct ty as [t|]; [|done]. pose proof (cost_nonneg (VType t)) as H. cbn in *. lia.
Qed.

Lemma instance_field_sound depth bg (msg : bytes) num typ s r s' r' :
  len msg < 2 ^ 63 -> len (rb r) <= len msg ->
  let inv s := match s with (ty, id, a, b) =>
    itype_ok depth ty /\ match id with Some i => canon_uuid i = i | None => True end
    /\ attrs_ok depth a /\ paid bg (itype_cost ty + acost a) b end in
  inv s -> instance_field dv depth num typ s r = Ok (s', r') -> inv s'.
Proof.
  intros Hlen Hr inv Hs E. destruct s as [[[ty id] a] b]. destruct Hs as (Ht & Hid & Ha & Hp).
  pose proof (itype_cost_nonneg ty). pose proof (acost_nonneg a).
  unfold instance_field in E. destruct (r_bytes num typ r) as [m r1] eqn:Em.
  apply r_bytes_len in Em.
  repeat match type of E with (if ?c then _ else _) = _ => destruct c end; simplify_eq;
    try (by split_and!).
  - destruct (decodeType dv m b (depth + 1)) as [[t b']|] eqn:Et; cbn in E; [|done]. simplify_eq.
    apply decodeType_sound in Et as [Hg Hp']; [|lia|apply Hp]. split_and!; try done.
    eapply paid_le; [|apply (paid_trans _ _ _ _ _ Hp Hp')]. cbn. lia.
  - destruct (decodeUUIDMessage m) as [u|] eqn:Eu; cbn in E; [|done]. simplify_eq.
    apply decodeUUID_canon in Eu as [_ Eu]. by split_and!.
  - destruct (decodeDict dv m b depth) as [[d b']|] eqn:Ed; cbn in E; [|done]. simplify_eq.
    apply decodeDict_sound in Ed as [Hd Hp']; [|lia|apply Hp].
    destruct (keep_attrs_ok depth a d Ha Hd) as [Hk Hc]. split_and!; try done.
    eapply paid_le; [|apply (paid_trans _ _ _ _ _ Hp Hp')]. lia.
Qed.

Lemma decodeInstance_sound msg bg depth v bg' :
  len msg < 2 ^ 63 -> affords bg 0 -> depth <= 100 ->
  decodeInstance dv msg bg depth = Ok (v, bg') ->
  good v /\ depth + nest v <= 100 /\ paid bg (cost v - nodeHostSize) bg'.
Proof.
  intros Hlen Hbg Hd H. unfold decodeInstance in H.
  destruct (checked _) as [[[[ty id] a] b]|] eqn:Ec; cbn in H; [|done].
  eapply (decoder_inv _ (fun s => match s with (ty, id, a, b) =>
    itype_ok depth ty /\ match id with Some i => canon_uuid i = i | None => True end
    /\ attrs_ok depth a /\ paid bg (itype_cost ty + acost a) b end)) in Ec;
    [|auto with shrink|intros; by eapply instance_field_sound|
     split_and!; try done; by apply paid_refl].
  destruct ty as [t|], id as [i|]; try done.
  destruct Ec as ((Hw & Hc & Hn) & Hi & Ha & Hp).
  destruct (Z.eqb_spec (ty_origin t) OriginBuiltin) as [|Ho]; simplify_eq.
  assert (match a with Some d => forallb (pair_all wf_value) d | None => true end = true
    /\ match a with
       | Some ((_ :: _) as d) => Some (map (fun p => (canon p.1, canon p.2)) d)
       | _ => None
       end = a) as [Ha1 Ha2].
  { destruct a as [d|]; [|done]. destruct Ha as [Hne [Hg _]].
    apply good_pairs in Hg as [-> Hg]. by destruct d; [|rewrite Hg]. }
  split; [split|split].
  - cbn [wf_value wf_instance]. rewrite Hw, Ha1. by rewrite (proj2 (Z.eqb_neq _ _) Ho).
  - cbn [canon canon_instance]. by rewrite Hc, Hi, Ha2.
  - cbn [nest nest_instance]. unfold deeper.
    assert (match a with Some d => zmax (map (fun p => 1 + Z.max (nest p.1) (nest p.2)) d)
      | None => 0 end <= 100 - depth).
    { destruct a as [d|]; [|lia]. destruct Ha as [Hne Hok].
      destruct (dict_nest depth d Hok); [done|lia]. }
    destruct (Z.eqb_spec (nest_type t) 0); lia.
  - eapply paid_le; [|exact Hp]. cbn [cost cost_instance itype_cost acost].
    destruct a; cbn [acost]; unfold dcost; lia.
Qed.

(** One arm of the switch of [decodeValue]: the node itself is charged
    before the loop, so an arm pays for the rest. *)
Definition arm_sound (depth : Z) (bg : budget) (v : value) (bg' : budget) : Prop :=
  good v /\ depth + nest v <= 100 /\ paid bg (cost v - nodeHostSize) bg'.

Lemma plain_arm depth b v : depth <= 100 -> affords b 0 -> plain v -> arm_sound depth b v b.
Proof using Type.
  intros Hd Hb (Hg & Hn & Hc). split_and!; [done|lia|]. rewrite Hc.
  replace (nodeHostSize - nodeHostSize) with 0 by lia. by apply paid_refl.
Qed.

Lemma seq_arm depth b l b' v :
  depth <= 100 -> seq_sound depth b l b' ->
  v ∈ [VList l; VTuple l; VSet (Some l); VFrozenSet (Some l)] \/
    (exists n fs, v = VNamedTuple n fs l) ->
  arm_sound depth b v b'.
Proof using Type.
  intros Hd Hs Hv. pose proof (seq_nest _ _ _ _ Hs Hd) as Hn. destruct Hs as (Hg & _ & Hp).
  apply good_list in Hg as [Hw Hc]. unfold arm_sound.
  assert (nest v = zmax (map (fun x => 1 + nest x) l) /\ good v
    /\ cost v = nodeHostSize + zsum (map cost l)) as (-> & Hv' & ->).
  { rewrite !elem_of_cons in Hv. unfold good.
    destruct Hv as [[-> | [-> | [-> | [-> | []%not_elem_of_nil]]]] | (n & fs & ->)];
      cbn; by rewrite ?Hw, ?Hc. }
  split_and!; [done|done|].
  by replace (nodeHostSize + zsum (map cost l) - nodeHostSize) with (zsum (map cost l)) by lia.
Qed.

Lemma dict_arm depth b d b' :
  depth <= 100 -> dict_sound depth b d b' -> arm_sound depth b (VDict (Some d)) b'.
Proof using Type.
  intros Hd [Hok Hp]. destruct (good_pairs d (proj1 Hok)) as [Hw Hc].
  split_and!; [|cbn [nest]; destruct (dict_nest depth d Hok) as [-> |]; cbn in *; lia|].
  - unfold good. cbn. by rewrite Hw, Hc.
  - cbn [cost]. fold (dcost d).
    by replace (nodeHostSize + dcost d - nodeHostSize) with (dcost d) by lia.
Qed.

Lemma type_arm depth b t b' :
  depth <= 100 -> good_type depth t -> paid b (cost_type t) b' -> arm_sound depth b (VType t) b'.
Proof using Type.
  intros Hd (Hw & Hc & Hn) Hp. split_and!; [|cbn [nest]; lia|].
  - unfold good. cbn. by rewrite Hw, Hc.
  - cbn [cost]. by replace (nodeHostSize + cost_type t - nodeHostSize) with (cost_type t) by lia.
Qed.

Lemma big_arm depth m b v b' : depth <= 100 -> len m < 2 ^ 63 -> affords b 0 ->
  decodeBig m b = Ok (v, b') -> arm_sound depth b v b'.
Proof using ProtowireLaws0.
  intros Hd Hm Hb H. unfold decodeBig in H.
  destruct (checked _) as [[neg mag]|] eqn:Ec; cbn [mbind result_mbind] in H; [|done].
  apply (decoder_inv _ (fun s => len s.2 <= len m)) in Ec; [|solve_shrinking|..].
  - cbn in Ec. pose proof (len_nonneg mag).
    destruct (charge b (len mag)) as [b2|] eqn:Eb; cbn in H; [|done]. simplify_eq.
    apply charge_paid in Eb; [|done|lia]. split_and!; [apply good_int|..].
    + unfold IntValue. destruct (in_int 64 _); cbn; lia.
    + rewrite cost_IntValue. eapply paid_le; [|exact Eb].
      pose proof (int_cost_be mag neg). lia.
  - intros num typ [n2 m2] r s' r' Hr Hs E. cbn in Hs.
    destruct (r_bytes num typ r) as [v' r1] eqn:Em. apply r_bytes_len in Em.
    destruct (num =? 1); [destruct (r_varint num typ r); by simplify_eq|].
    destruct (num =? 2); simplify_eq; cbn; lia.
  - cbn. pose proof (len_nonneg m). unfold len at 1. cbn. lia.
Qed.

Lemma text_arm depth b s b' v : depth <= 100 -> affords b 0 -> len s < 2 ^ 63 ->
  charge b (len s) = Ok b' -> v = VStr s \/ v = VBytes s -> arm_sound depth b v b'.
Proof using Type.
  intros Hd Hb Hs Hc Hv. unfold arm_sound. apply charge_paid in Hc; [|done|pose proof (len_nonneg s); lia].
  assert (good v /\ nest v = 0 /\ cost v = nodeHostSize + len s) as (Hg & Hn & ->)
    by (by destruct Hv as [-> | ->]).
  split_and!; [done|lia|].
  by replace (nodeHostSize + len s - nodeHostSize) with (len s) by lia.
Qed.

Lemma plain_int z : 0 <= z < 2 ^ 64 -> plain (VInt KInt64 (DecodeZigZag z)).
Proof using ProtowireLaws0.
  intros Hz. apply unzigzag_range, in_int64_spec in Hz. unfold plain, good. cbn.
  unfold IntValue, int_cost. by rewrite Hz.
Qed.

Lemma plain_float z : 0 <= z < 2 ^ 64 -> plain (VFloat64 z).
Proof using Type. intros Hz. unfold plain, good. cbn [wf_value]. repeat split. bool_lia. Qed.

Lemma timezone_plain m v : (tz ← decodeTimeZone m; Ok (VTimeZone tz)) = Ok v -> plain v.
Proof using Type.
  destruct (decodeTimeZone m) eqn:E; cbn; [|done]. intros [= <-].
  by eapply decodeTimeZone_plain.
Qed.

(** The loop invariant of [decodeValue]. *)
Definition value_inv (depth : Z) (bg : budget) (s : value * bool * budget) : Prop :=
  let '(out, seen, b) := s in
  paid bg 0 b /\ (seen = true -> arm_sound depth bg out b).

Lemma value_inv_arm depth bg b out b' :
  paid bg 0 b -> arm_sound depth b out b' -> value_inv depth bg (out, true, b').
Proof using Type.
  intros Hp (Hg & Hn & Hp'). pose proof (paid_trans _ _ _ _ _ Hp Hp') as Hp2.
  pose proof (cost_nonneg out). split; [eapply paid_le; [|done]; lia|].
  intros _. split_and!; [done|done|]. eapply paid_le; [|done]. lia.
Qed.

Lemma value_field_sound depth bg (msg : bytes) num typ s r s' r' :
  depth <= 100 -> len msg < 2 ^ 63 -> len (rb r) <= len msg ->
  value_inv depth bg s -> value_field dv depth num typ s r = Ok (s', r') ->
  value_inv depth bg s'.
Proof.
  intros Hd Hlen Hr Hs E. destruct s as [[out seen] b]. destruct Hs as [Hp _].
  assert (affords b 0) as Hb by apply Hp.
  unfold value_field in E. destruct (r_bytes num typ r) as [m r1] eqn:Em.
  apply r_bytes_len in Em. assert (len m < 2 ^ 63) as Hm by lia. cbn [fst snd] in E.
  repeat match type of E with (if ?c then _ else _) = _ => destruct c end;
  repeat match type of E with
  | (let '(_, _) := r_varint ?n ?t ?r in _) = _ =>
    destruct (r_varint n t r) eqn:Ev; apply r_varint_range in Ev
  | (let '(_, _) := r_fixed64 ?n ?t ?r in _) = _ =>
    destruct (r_fixed64 n t r) eqn:Ev; apply r_fixed64_range in Ev
  | (?m ≫= _) = Ok _ => destruct m eqn:?; cbn [mbind result_mbind] in E; [|done]
  | (let '(_, _) := ?p in _) = _ => destruct p
  end; simplify_eq/=;
  try (eapply value_inv_arm; [exact Hp|]);
  eauto using seq_arm, dict_arm, type_arm, big_arm, text_arm.
  all: try (apply plain_arm; [done|done|];
    eauto using plain_int, plain_float, timezone_plain, decodeDate_plain, decodeTime_plain,
      decodeDateTime_plain, decodeTimeDelta_plain, decodeExceptionValue_plain,
      decodeFunction_plain, decodeFileHandle_plain, decodeCycle_plain; by unfold plain, good).
  all: try match goal with
  | H : decodeObjectList _ _ _ _ = _ |- _ =>
    eapply seq_arm; [done|by eapply decodeObjectList_sound|left; set_solver]
  | H : decodeDict _ _ _ _ = _ |- _ => apply dict_arm; [done|]; by eapply decodeDict_sound
  | H : decodeInstance _ _ _ _ = _ |- _ => by eapply decodeInstance_sound
  | H : decodeType _ _ _ _ = _ |- _ =>
    apply decodeType_sound in H as [? ?]; [by apply type_arm|done|done]
  | H : decodeNamedTuple _ _ _ _ = _ |- _ =>
    apply decodeNamedTuple_sound in H as (? & ? & ? & -> & ?);
      [eapply seq_arm; eauto|done|done]
  end.
  by split.
Qed.
End with_dv.
End containers.

Section decode_value.
Context `{PW : Protowire} `{!ProtowireLaws PW}.

Lemma decodeValue_fuel_sound fuel : sound_decoder (decodeValue_fuel fuel).
Proof.
  induction fuel as [|fuel IH]; intros m bg depth v bg' Hm Hbg H;
    cbn [decodeValue_fuel] in H; [done|].
  unfold maxDecodeNesting in H. destruct (Z.ltb_spec 100 depth) as [|Hd]; [done|].
  destruct (charge bg nodeHostSize) as [b|] eqn:Eb; cbn [mbind result_mbind] in H; [|done].
  apply charge_paid in Eb; [|done|unfold nodeHostSize; lia].
  destruct (checked _) as [[[out seen] b2]|] eqn:Ec; cbn [mbind result_mbind] in H; [|done].
  eapply (decoder_inv _ (value_inv depth b)) in Ec; [|auto with shrink| |].
  - destruct seen; cbn in H; [|done]. simplify_eq. destruct Ec as [_ Ec].
    destruct (Ec eq_refl) as (Hg & Hn & Hp). split_and!; [done|done|].
    eapply paid_le; [|apply (paid_trans _ _ _ _ _ Eb Hp)]. lia.
  - intros. by eapply value_field_sound.
  - split; [apply paid_refl, Eb|done].
Qed.
End decode_value.

(** C2. Soundness of decoding on any input, hostile or not: whatever
    [DecodeValue] accepts is well-formed (dates, clocks, uuids, file modes and
    integers in range), is already in canonical form, nests at most
    [maxDecodeNesting] levels, and has been paid for: the budget never goes
    negative, and falls by at least the value's host cost. *)
Theorem decode_sound `{PW : Protowire} `{!ProtowireLaws PW} (m : bytes) (r : Z) (v : value) (bg' : budget) :
  len m < 2 ^ 63 -> 0 <= r < 2 ^ 63 ->
  DecodeValue m (NewBudget r) = Ok (v, bg') ->
  wf_value v = true /\ canon v = v /\ nest v <= maxDecodeNesting
  /\ exists r', bg' = Some r' /\ 0 <= r' /\ r' + cost v <= r.
Proof.
  intros Hm Hr H. unfold DecodeValue, decodeValue in H.
  apply decodeValue_fuel_sound in H as ((Hw & Hc) & Hn & Hp & Hb); [|done|done].
  destruct bg' as [r'|]; cbn in *; [|done].
  split_and!; try done. exists r'. split_and!; [done|lia|done].
Qed.

(** The wire form of [sample_value]. *)
Definition sample_message : bytes :=
  match AppendValue (PW := pwref) [] sample_value with Ok m => m | Err _ => [] end.

Lemma decode_sound_witness :
  exists v r', DecodeValue (PW := pwref) sample_message (NewBudget 5000) = Ok (v, Some r')
    /\ wf_value v = true /\ r' + cost v <= 5000.
Proof.
  destruct (DecodeValue (PW := pwref) sample_message (NewBudget 5000)) as [[v b]|] eqn:E;
    [|vm_compute in E; discriminate].
  destruct (decode_sound (PW := pwref) sample_message 5000 v b) as (Hw & _ & _ & r' & -> & _ & Hc).
  - vm_compute. reflexivity.
  - lia.
  - exact E.
  - exists v, r'. auto.
Defined.
