(* ===== verification/CodecTotal.v ===== *)
(** The fuel of the decoder model never shows: [decodeValue] solves the
    recursion of the source exactly, and no decoder returns a spent fuel. *)

From S2P Require Import Prelude Protowire Proto Values ValueCodec CodecSpec CodecRoundtrip CodecSound.

(** ** The decoders only use [dv] below their own depth *)

Section extensionality.
Context `{PW : Protowire}.
Variables dv dv' : bytes -> budget -> Z -> result (value * budget).

(** Below a value at [depth], nested values sit one or two levels deeper. *)
Definition agree_from (depth : Z) : Prop :=
  forall m bg d, depth < d -> dv m bg d = dv' m bg d.

Ltac ext_body := apply each_field_ext; let num := fresh in let typ := fresh in
  let s := fresh in let r := fresh in intros num typ s r.

Variable depth : Z.
Hypothesis Hag : agree_from depth.

Lemma decodeObjectList_ext m bg d : depth <= d ->
  decodeObjectList dv m bg d = decodeObjectList dv' m bg d.
Proof using Hag.
  intros Hd. unfold decodeObjectList. f_equal. apply each_field_ext.
  intros num typ [l b] r. unfold list_field. destruct (negb _); [done|].
  destruct (r_bytes num typ r). by rewrite Hag by lia.
Qed.

Lemma decodeNamedTuple_ext m bg d : depth <= d ->
  decodeNamedTuple dv m bg d = decodeNamedTuple dv' m bg d.
Proof using Hag.
  intros Hd. unfold decodeNamedTuple. f_equal. f_equal. apply each_field_ext.
  intros num typ [[[n fs] l] b] r. unfold namedtuple_field.
  destruct (num =? 1); [done|]. destruct (num =? 2); [done|]. destruct (num =? 3); [|done].
  destruct (r_bytes num typ r). by rewrite Hag by lia.
Qed.

Lemma decodePair_ext m bg d : depth <= d -> decodePair dv m bg d = decodePair dv' m bg d.
Proof using Hag.
  intros Hd. unfold decodePair. f_equal. f_equal. apply each_field_ext.
  intros num typ [[k v] b] r. unfold pair_field. destruct (r_bytes num typ r).
  by rewrite Hag by lia.
Qed.

Lemma decodeDict_ext m bg d : depth <= d -> decodeDict dv m bg d = decodeDict dv' m bg d.
Proof using Hag.
  intros Hd. unfold decodeDict. f_equal. apply each_field_ext.
  intros num typ [l b] r. unfold dict_field. destruct (negb _); [done|].
  destruct (r_bytes num typ r). by rewrite decodePair_ext by lia.
Qed.

Lemma decodeType_ext m bg d : depth <= d -> decodeType dv m bg d = decodeType dv' m bg d.
Proof using Hag.
  intros Hd. unfold decodeType. f_equal. f_equal. apply each_field_ext.
  intros num typ [[[n id o dc a] h] b] r. unfold type_field.
  destruct (r_bytes num typ r). by rewrite decodeDict_ext by lia.
Qed.

Lemma decodeInstance_ext m bg d : depth <= d ->
  decodeInstance dv m bg d = decodeInstance dv' m bg d.
Proof using Hag.
  intros Hd. unfold decodeInstance. f_equal. f_equal. apply each_field_ext.
  intros num typ [[[ty id] a] b] r. unfold instance_field.
  destruct (r_bytes num typ r). by rewrite decodeDict_ext, decodeType_ext by lia.
Qed.

Lemma value_field_ext num typ s r :
  value_field dv depth num typ s r = value_field dv' depth num typ s r.
Proof using Hag.
  destruct s as [[out seen] b]. unfold value_field.
  by rewrite decodeObjectList_ext, decodeNamedTuple_ext, decodeDict_ext, decodeType_ext,
    decodeInstance_ext by lia.
Qed.
End extensionality.

Section recursion.
Context `{PW : Protowire}.

Lemma decodeValue_fuel_enough f g m bg depth :
  101 - depth <= Z.of_nat f -> 101 - depth <= Z.of_nat g ->
  decodeValue_fuel f m bg depth = decodeValue_fuel g m bg depth.
Proof.
  revert g m bg depth. induction f as [|f IH]; intros g m bg depth Hf Hg.
  - destruct g; [done|]. cbn [decodeValue_fuel]. unfold maxDecodeNesting.
    by rewrite (proj2 (Z.ltb_lt _ _)) by lia.
  - destruct g as [|g]; cbn [decodeValue_fuel]; unfold maxDecodeNesting.
    { by rewrite (proj2 (Z.ltb_lt _ _)) by lia. }
    destruct (100 <? depth); [done|].
    destruct (charge bg nodeHostSize) as [b|]; cbn [mbind result_mbind]; [|done].
    erewrite each_field_ext; [reflexivity|]. intros. apply value_field_ext.
    intros m' b' d Hd. apply IH; lia.
Qed.
End recursion.

(** ** Only real errors come out *)

Section no_fuel.
Context `{PW : Protowire} `{!ProtowireLaws PW}.

Lemma charge_no_fuel bg n : no_fuel (charge bg n).
Proof using Type. unfold charge. destruct bg; [|done]. by destruct (_ <? 0). Qed.

Lemma FormatUUID_no_fuel b : no_fuel (FormatUUID b).
Proof using Type. unfold FormatUUID. by destruct (negb _). Qed.

Lemma validateDate_no_fuel y m d : no_fuel (validateDate y m d).
Proof using Type. unfold validateDate, no_fuel. repeat case_match; done. Qed.

Lemma validateClock_no_fuel h m s u o n : no_fuel (validateClock h m s u o n).
Proof using Type. unfold validateClock, no_fuel. repeat case_match; done. Qed.

Hint Resolve charge_no_fuel FormatUUID_no_fuel validateDate_no_fuel validateClock_no_fuel
  r_bytes_calm r_varint_calm r_fixed64_calm r_skip_calm : core.

(** Walks a decoder or a switch body down to its returns. *)
Ltac calm_walk :=
  repeat match goal with
  | |- no_fuel (Ok _) => done
  | |- no_fuel (Err _) => done
  | |- no_fuel (if ?c then _ else _) => destruct c
  | |- no_fuel (let '(_, _) := ?x in _) => destruct x eqn:?
  | |- no_fuel (match ?x with _ => _ end) => destruct x eqn:?
  | |- no_fuel (?m ≫= _) => apply no_fuel_bind; [|intros]
  end; eauto.

Ltac calm_ok :=
  let s' := fresh in let r' := fresh in let H := fresh in intros s' r' H;
  repeat match type of H with
  | context [if ?c then _ else _] => destruct c
  | (let '(_, _) := ?x in _) = _ => destruct x eqn:?
  | (?m ≫= _) = Ok _ => destruct m; cbn [mbind result_mbind] in H; [|done]
  | context [match ?x with _ => _ end] => destruct x eqn:?
  end; simplify_eq/=; unfold r_str in *; eauto.

Ltac solve_calm :=
  let num := fresh in let typ := fresh in let s := fresh in let r := fresh in
  intros num typ s r ?; destruct_and?; repeat (match goal with p : _ * _ |- _ => destruct p end);
  try (destruct s; []); (split; [calm_walk|calm_ok]).

Lemma decodeUUIDMessage_no_fuel m : no_fuel (decodeUUIDMessage m).
Proof.
  unfold decodeUUIDMessage. apply no_fuel_bind; [|by intros].
  apply checked_no_fuel; [solve_shrinking|]. solve_calm.
Qed.

Ltac leaf_decoder :=
  apply no_fuel_bind; [apply checked_no_fuel; [solve_shrinking|solve_calm]|intros; calm_walk].

Lemma decodeBig_no_fuel m b : no_fuel (decodeBig m b).
Proof. unfold decodeBig. leaf_decoder. Qed.
Lemma decodeDate_no_fuel m : no_fuel (decodeDate m).
Proof. unfold decodeDate. leaf_decoder. Qed.
Lemma decodeTime_no_fuel m : no_fuel (decodeTime m).
Proof. unfold decodeTime. leaf_decoder. Qed.
Lemma decodeDateTime_no_fuel m : no_fuel (decodeDateTime m).
Proof. unfold decodeDateTime. leaf_decoder. Qed.
Lemma decodeTimeDelta_no_fuel m : no_fuel (decodeTimeDelta m).
Proof. unfold decodeTimeDelta. leaf_decoder. Qed.
Lemma decodeTimeZone_no_fuel m : no_fuel (decodeTimeZone m).
Proof. unfold decodeTimeZone. leaf_decoder. Qed.
Lemma decodeExceptionValue_no_fuel m : no_fuel (decodeExceptionValue m).
Proof. unfold decodeExceptionValue. leaf_decoder. Qed.
Lemma decodeFunction_no_fuel m : no_fuel (decodeFunction m).
Proof. unfold decodeFunction. leaf_decoder. Qed.
Lemma decodeFileHandle_no_fuel m : no_fuel (decodeFileHandle m).
Proof. unfold decodeFileHandle. leaf_decoder. Qed.
Lemma decodeCycle_no_fuel m : no_fuel (decodeCycle m).
Proof. unfold decodeCycle. leaf_decoder. Qed.

Section with_dv.
Variable dv : bytes -> budget -> Z -> result (value * budget).
Hypothesis Hdv : forall m bg d, no_fuel (dv m bg d).

Hint Resolve Hdv decodeUUIDMessage_no_fuel : core.

Ltac container_calm def :=
  intros num typ s r Hr; destruct_and?;
  repeat (match goal with p : _ * _ |- _ => destruct p | p : pytype |- _ => destruct p end);
  unfold def; (split; [calm_walk|calm_ok]).

Lemma decodeObjectList_no_fuel m bg d : no_fuel (decodeObjectList dv m bg d).
Proof. apply checked_no_fuel; [auto with shrink|]. container_calm @list_field. Qed.

Lemma decodeNamedTuple_no_fuel m bg d : no_fuel (decodeNamedTuple dv m bg d).
Proof.
  apply no_fuel_bind; [apply checked_no_fuel; [auto with shrink|]|intros; calm_walk].
  container_calm @namedtuple_field.
Qed.

Lemma decodePair_no_fuel m bg d : no_fuel (decodePair dv m bg d).
Proof.
  apply no_fuel_bind; [apply checked_no_fuel; [auto with shrink|]|intros; calm_walk].
  container_calm @pair_field.
Qed.
Hint Resolve decodePair_no_fuel : core.

Lemma decodeDict_no_fuel m bg d : no_fuel (decodeDict dv m bg d).
Proof. apply checked_no_fuel; [auto with shrink|]. container_calm @dict_field. Qed.
Hint Resolve decodeDict_no_fuel : core.

Lemma decodeType_no_fuel m bg d : no_fuel (decodeType dv m bg d).
Proof.
  apply no_fuel_bind; [apply checked_no_fuel; [auto with shrink|]|intros; calm_walk].
  container_calm @type_field.
Qed.
Hint Resolve decodeType_no_fuel : core.

Lemma decodeInstance_no_fuel m bg d : no_fuel (decodeInstance dv m bg d).
Proof.
  apply no_fuel_bind; [apply checked_no_fuel; [auto with shrink|]|intros; calm_walk].
  container_calm @instance_field.
Qed.

Hint Resolve decodeObjectList_no_fuel decodeNamedTuple_no_fuel decodeInstance_no_fuel
  decodeBig_no_fuel decodeDate_no_fuel decodeTime_no_fuel decodeDateTime_no_fuel
  decodeTimeDelta_no_fuel decodeTimeZone_no_fuel decodeExceptionValue_no_fuel
  decodeFunction_no_fuel decodeFileHandle_no_fuel decodeCycle_no_fuel : core.

Lemma value_field_calm depth : calm_body (value_field dv depth).
Proof.
  intros num typ [[out seen] b] r Hr. unfold value_field.
  destruct (r_bytes num typ r) as [m r1] eqn:Em. cbn [fst snd].
  pose proof (r_bytes_calm _ _ _ _ _ Em Hr). split; [calm_walk|].
  intros s' r' H'.
  repeat match type of H' with (if ?c then _ else _) = _ => destruct c end;
  repeat match type of H' with
  | (let '(_, _) := ?x in _) = _ => destruct x eqn:?
  | (?m ≫= _) = Ok _ => destruct m; cbn [mbind result_mbind] in H'; [|done]
  end; simplify_eq/=; eauto.
Qed.
End with_dv.

Lemma decodeValue_fuel_no_fuel fuel m bg depth : no_fuel (decodeValue_fuel fuel m bg depth).
Proof.
  revert m bg depth. induction fuel as [|fuel IH]; intros m bg depth; [done|].
  cbn [decodeValue_fuel]. destruct (maxDecodeNesting <? depth); [done|].
  apply no_fuel_bind; [auto|]. intros b _.
  apply no_fuel_bind; [|intros [[out seen] b2] _; by destruct (negb seen)].
  apply checked_no_fuel; [auto with shrink|by apply value_field_calm].
Qed.
End no_fuel.



(** Decoding normalises once: a decoded value that is encoded again and
    decoded again (with a budget that covers it) is the same value. *)
Theorem decode_reencode `{PW : Protowire} `{!ProtowireLaws PW}
    (m m' : bytes) (r : Z) (v : value) (bg' bg2 : budget) :
  len m < 2 ^ 63 -> 0 <= r < 2 ^ 63 -> DecodeValue m (NewBudget r) = Ok (v, bg') ->
  AppendValue [] v = Ok m' -> len m' < 2 ^ 63 -> affords bg2 (cost v) ->
  DecodeValue m' bg2 = Ok (v, spend bg2 (cost v)).
Proof.
  intros Hm Hr H Hm' Hlen Hbg. unfold DecodeValue, decodeValue in *.
  apply decodeValue_fuel_sound in H as ((Hw & Hc) & Hn & _); [|done|done].
  rewrite (RT_all v m' Hm' Hw Hlen _ 0 bg2) by
    (done || (unfold maxDecodeNesting; pose proof (nest_nonneg v); lia)).
  by rewrite Hc.
Qed.

Lemma decode_reencode_witness :
  exists v m', DecodeValue (PW := pwref) sample_message (NewBudget 5000)
      = Ok (v, Some (5000 - cost v))
    /\ AppendValue (PW := pwref) [] v = Ok m'
    /\ DecodeValue (PW := pwref) m' (NewBudget 6000) = Ok (v, Some (6000 - cost v)).
Proof.
  exists (canon sample_value).
  eexists. split; [vm_compute; reflexivity|]. split; [vm_compute; reflexivity|].
  apply (decode_reencode (PW := pwref) sample_message _ 5000 (canon sample_value)
    (Some (5000 - cost (canon sample_value))) (NewBudget 6000)).
  - vm_compute. reflexivity.
  - lia.
  - vm_compute. reflexivity.
  - vm_compute. reflexivity.
  - vm_compute. reflexivity.
  - vm_compute. split; [discriminate|reflexivity].
Defined.
