(* ===== verification/ValueFacts.v ===== *)
(** Properties of the value package: the nesting check of depth.go against
    what the decoder accepts, time delta normalisation, and open modes. *)

From S2P Require Import Prelude Protowire Proto Utf8 Values ValueCodec CodecSpec.

(** ** The nesting check *)

(** Builtin types carry no attributes (the host never attaches any). *)
Fixpoint bare_builtins (v : value) : bool :=
  let pairs := forallb (fun p => bare_builtins p.1 && bare_builtins p.2) in
  match v with
  | VList l | VTuple l | VNamedTuple _ _ l | VSet (Some l) | VFrozenSet (Some l) =>
    forallb bare_builtins l
  | VDict (Some d) => pairs d
  | VType t => bare_type t && (negb (ty_origin t =? OriginBuiltin) || (len (Pairs (ty_attrs t)) =? 0))
  | VInstance i | VInstancePtr i => bare_instance i
  | _ => true
  end
with bare_type (t : pytype) : bool :=
  match t with
  | PyType _ _ _ _ (Some d) => forallb (fun p => bare_builtins p.1 && bare_builtins p.2) d
  | PyType _ _ _ _ None => true
  end
with bare_instance (i : instance) : bool :=
  match i with
  | Instance_ t _ a =>
    bare_type t &&
    match a with
    | Some d => forallb (fun p => bare_builtins p.1 && bare_builtins p.2) d
    | None => true
    end
  end.

Section depth.
Definition shallow (v : value) : Prop :=
  forall b, 0 <= b -> bare_builtins v = true -> depthExceeds v b = false -> 2 * nest v + 1 <= b.
Definition shallow_type (t : pytype) : Prop :=
  forall b, bare_type t = true -> classTypeExceeds t b = false ->
    nest_type t = 0 \/ 2 * nest_type t + 1 <= b.
Definition shallow_instance (i : instance) : Prop :=
  forall b, 0 <= b -> bare_instance i = true -> instanceExceeds i b = false ->
    2 * nest_instance i + 1 <= b.

Lemma existsb_false {A} (f : A -> bool) l : existsb f l = false <-> Forall (fun x => f x = false) l.
Proof.
  induction l as [|x l IH]; cbn; [done|]. rewrite orb_false_iff, IH, Forall_cons. done.
Qed.

Lemma seq_shallow l b c : 2 <= c -> Forall shallow l -> forallb bare_builtins l = true ->
  seqExceeds depthExceeds l b c = false ->
  2 * zmax (map (fun x => 1 + nest x) l) + 1 <= b.
Proof.
  intros Hc HF Hb. unfold seqExceeds. destruct (Z.ltb_spec b c); [done|].
  rewrite existsb_false. intros HE. revert Hb HE.
  induction HF as [|x l Hx HF IH]; intros Hb HE; [cbn; lia|].
  cbn [forallb] in Hb. apply andb_true_iff in Hb as [Hb1 Hb2]. inv HE.
  cbn [map]. rewrite zmax_cons. specialize (IH Hb2 H3).
  specialize (Hx (b - c) ltac:(lia) Hb1 H2). lia.
Qed.

Lemma pairs_shallow d b c : 2 <= c -> Forall (fun p => shallow p.1 /\ shallow p.2) d ->
  forallb (fun p => bare_builtins p.1 && bare_builtins p.2) d = true ->
  pairsExceed depthExceeds d b c = false ->
  2 * zmax (map (fun p => 1 + Z.max (nest p.1) (nest p.2)) d) + c - 1 <= b.
Proof.
  intros Hc HF Hb. unfold pairsExceed. destruct (Z.ltb_spec b c); [done|].
  rewrite existsb_false. intros HE. revert Hb HE.
  induction HF as [|x l [Hk Hv] HF IH]; intros Hb HE; [cbn; lia|].
  cbn [forallb] in Hb. rewrite !andb_true_iff in Hb. destruct Hb as [[Hb1 Hb2] Hb3]. inv HE.
  cbn [map]. rewrite zmax_cons. specialize (IH Hb3 H3).
  apply orb_false_iff in H2 as [E1 E2].
  specialize (Hk (b - c) ltac:(lia) Hb1 E1). specialize (Hv (b - c) ltac:(lia) Hb2 E2). lia.
Qed.

Lemma shallow_all v : shallow v.
Proof.
  revert v. refine (value_ind' shallow shallow_type shallow_instance _ _ _ _ _ _ _ _ _ _ _ _).
  - intros v Hv b Hb _ H. assert (nest v = 0) as -> by (by destruct v).
    assert ((b =? 0) = false) by (by destruct v). lia.
  - intros l HF b Hb Hbb H. cbn in *. by eapply (seq_shallow l b listCost).
  - intros l HF b Hb Hbb H. cbn in *. by eapply (seq_shallow l b listCost).
  - intros n fs l HF b Hb Hbb H. cbn in *. by eapply (seq_shallow l b listCost).
  - intros [d|] HF b Hb Hbb H; cbn in *.
    + pose proof (pairs_shallow d b dictCost ltac:(done) HF Hbb H). unfold dictCost in *. lia.
    + unfold pairsExceed, dictCost in H. destruct (Z.ltb_spec b 3); [done|lia].
  - intros [l|] HF b Hb Hbb H; cbn in *; [by eapply (seq_shallow l b listCost)|].
    unfold seqExceeds, listCost in H. destruct (Z.ltb_spec b 2); [done|lia].
  - intros [l|] HF b Hb Hbb H; cbn in *; [by eapply (seq_shallow l b listCost)|].
    unfold seqExceeds, listCost in H. destruct (Z.ltb_spec b 2); [done|lia].
  - intros t Ht b Hb Hbb H. cbn [bare_builtins depthExceeds nest] in *. unfold typeCost in H.
    apply andb_true_iff in Hbb as [Hbt Ho].
    destruct (Z.eqb_spec (ty_origin t) OriginBuiltin).
    + apply Z.ltb_ge in H. destruct t as [? ? ? ? [[|]|]]; cbn in *; try lia; discriminate.
    + apply orb_false_iff in H as [Hl H]. apply Z.ltb_ge in Hl.
      destruct (Ht _ Hbt H); lia.
  - intros i Hi b Hb Hbb H. by apply Hi.
  - intros i Hi b Hb Hbb H. by apply Hi.
  - intros n id o dc [d|] HF b Hbb H; [|by left]. cbn [bare_type classTypeExceeds nest_type] in *.
    destruct d as [|p d]; [by left|right]. unfold len in H at 1. cbn [length] in H.
    rewrite (proj2 (Z.ltb_lt _ _)) in H by lia.
    pose proof (pairs_shallow (p :: d) b typeAttrsCost ltac:(done) HF Hbb H).
    unfold typeAttrsCost in *. lia.
  - intros t id a Ht HF b Hb Hbb H. cbn [bare_instance instanceExceeds nest_instance] in *.
    apply andb_true_iff in Hbb as [Hbt Hba].
    rewrite !orb_false_iff in H. destruct H as [[Hl Hty] Ha].
    unfold classInstanceTypeCost, deeper in *. apply Z.ltb_ge in Hl.
    assert (2 * match a with
      | Some d => zmax (map (fun p => 1 + Z.max (nest p.1) (nest p.2)) d) | None => 0 end + 3 <= b).
    { destruct a as [d|]; [|unfold pairsExceed, classInstanceCost in Ha;
        destruct (Z.ltb_spec b 4); [done|lia]].
      pose proof (pairs_shallow d b classInstanceCost ltac:(done) HF Hba Ha).
      unfold classInstanceCost in *. lia. }
    destruct (Z.eqb_spec (nest_type t) 0); [lia|]. destruct (Ht _ Hbt Hty); lia.
Qed.
End depth.

(** The nesting check is what it documents: a value [ExceedsMaxDepth] lets
    through (builtin types without attributes) nests at most [MaxValueDepth]
    levels, which is within what the decoder on the other side accepts. *)
Theorem depth_check_sound (v : value) :
  bare_builtins v = true -> ExceedsMaxDepth v = false ->
  nest v <= MaxValueDepth /\ MaxValueDepth <= maxDecodeNesting.
Proof.
  intros Hb H. split; [|done]. unfold ExceedsMaxDepth in H.
  pose proof (shallow_all v MaxProtoValueDepth ltac:(done) Hb H) as Hn.
  change MaxProtoValueDepth with 97 in Hn. change MaxValueDepth with 48. lia.
Qed.

(** 48 nested lists. *)
Definition tower (n : nat) (v : value) : value := Nat.iter n (fun v => VList [v]) v.

Lemma depth_check_sound_witness :
  ExceedsMaxDepth (tower 48 VNil) = false /\ nest (tower 48 VNil) = 48
  /\ nest (tower 48 VNil) <= MaxValueDepth.
Proof.
  split; [vm_compute; reflexivity|]. split; [vm_compute; reflexivity|].
  apply (depth_check_sound (tower 48 VNil)); vm_compute; reflexivity.
Defined.

(** The attributes of a builtin type escape the nesting check although
    [AppendValue] writes them: for every depth there is a value the check lets
    through that nests deeper. *)
Theorem depth_check_skips_builtin_attrs (n : nat) :
  exists v, ExceedsMaxDepth v = false /\ Z.of_nat n < nest v.
Proof.
  exists (VType (PyType (go "int") [] OriginBuiltin false (Some [(VNil, tower n VNil)]))).
  split; [vm_compute; reflexivity|]. cbn [nest nest_type map fst snd]. rewrite zmax_cons.
  assert (forall k, Z.of_nat k <= nest (tower k VNil)) as Hk.
  { induction k as [|k IH]; [done|]. change (tower (S k) VNil) with (VList [tower k VNil]).
    cbn [nest map]. rewrite zmax_cons. lia. }
  specialize (Hk n). lia.
Qed.

(** ** Time deltas *)

Section timedelta.
Lemma swrap_mod w a b : 0 < w -> a mod 2 ^ w = b mod 2 ^ w -> swrap w a = swrap w b.
Proof.
  intros Hw H. unfold swrap. f_equal.
  rewrite (Z.add_mod a), (Z.add_mod b), H by lia. done.
Qed.

Lemma swrap_eqm w a : 0 < w -> (swrap w a) mod 2 ^ w = a mod 2 ^ w.
Proof.
  intros Hw. unfold swrap. rewrite Zminus_mod_idemp_l. f_equal. lia.
Qed.

Lemma int64_add_l a b : int64 (int64 a + b) = int64 (a + b).
Proof.
  apply swrap_mod; [done|]. rewrite <- Z.add_mod_idemp_l by done.
  unfold int64. rewrite swrap_eqm by done. by rewrite Z.add_mod_idemp_l.
Qed.

Lemma int64_add_r a b : int64 (a + int64 b) = int64 (a + b).
Proof. by rewrite Z.add_comm, int64_add_l, Z.add_comm. Qed.

Lemma int64_mul_l a b : int64 (int64 a * b) = int64 (a * b).
Proof.
  apply swrap_mod; [done|]. rewrite <- Z.mul_mod_idemp_l by done.
  unfold int64. rewrite swrap_eqm by done. by rewrite Z.mul_mod_idemp_l.
Qed.

Lemma int64_add3 a b c : int64 (int64 (int64 a + int64 b) + int64 c) = int64 (a + b + c).
Proof. by rewrite int64_add_r, (int64_add_r (int64 a)), (int64_add_l a), int64_add_l. Qed.

(** Go's truncating division, corrected, is floor division. *)
Lemma floorDiv_floor a b :
  - 2 ^ 63 <= a < 2 ^ 63 -> 1 < b < 2 ^ 63 -> floorDiv a b = a / b.
Proof.
  intros Ha Hb. unfold floorDiv. rewrite (proj2 (Z.ltb_ge b 0)) by lia.
  pose proof (Z.quot_rem a b ltac:(lia)) as Hq.
  destruct (Z.ltb_spec a 0) as [Hn|Hp].
  - pose proof (Z.rem_bound_pos_neg a b ltac:(lia) ltac:(lia)) as Hr.
    destruct (Z.eqb_spec (Z.rem a b) 0) as [E|E]; cbn.
    + apply Z.div_unique_pos with 0; lia.
    + assert (- 2 ^ 63 <= Z.quot a b - 1 < 2 ^ 63) by nia.
      rewrite int64_small by done. apply Z.div_unique_pos with (Z.rem a b + b); nia.
  - rewrite andb_false_r. rewrite Z.quot_div_nonneg by lia. done.
Qed.

Definition total_micros (t : timedelta) : Z :=
  td_days t * dayMicros + td_seconds t * 1000000 + td_micros t.

Lemma normalize_spec days seconds micros :
  let total := days * dayMicros + seconds * 1000000 + micros in
  - 2 ^ 63 <= total < 2 ^ 63 ->
  total_micros (NormalizeTimeDelta days seconds micros) = total
  /\ timedelta_normalized (NormalizeTimeDelta days seconds micros) = true.
Proof.
  intros total Ht. unfold NormalizeTimeDelta.
  assert (int64 (int64 (int64 (int64 (days * 86400) * 1000000) + int64 (seconds * 1000000)) + micros)
    = total) as ->.
  { rewrite int64_mul_l, int64_add_l, <- Z.add_assoc, int64_add_l, (Z.add_comm (int64 _)).
    rewrite Z.add_assoc, int64_add_r. unfold total, dayMicros in *.
    rewrite int64_small; lia. }
  rewrite floorDiv_floor by (unfold dayMicros; lia).
  pose proof (Z.div_mod total dayMicros ltac:(done)) as Hdm.
  pose proof (Z.mod_pos_bound total dayMicros ltac:(done)) as Hb.
  set (d := total / dayMicros) in *. set (m := total mod dayMicros) in *.
  assert (int64 (total - int64 (int64 (d * 86400) * 1000000)) = m) as ->.
  { unfold dayMicros in *. rewrite int64_mul_l.
    replace (d * 86400 * 1000000) with (total - m) by lia.
    rewrite <- Z.add_opp_r.
    replace (- int64 (total - m)) with (int64 (total - m) * -1) by lia.
    rewrite Z.add_comm, <- int64_add_l, int64_mul_l, int64_add_l, int64_small; lia. }
  unfold dayMicros in *.
  rewrite Z.quot_div_nonneg, Z.rem_mod_nonneg by lia.
  pose proof (Z.div_mod m 1000000 ltac:(done)). pose proof (Z.mod_pos_bound m 1000000 ltac:(done)).
  assert (0 <= m / 1000000 < 86400) by lia.
  assert (-106751992 <= d <= 106751992) by lia.
  rewrite !int32_small by lia. split;
    [unfold total_micros, dayMicros; cbn [td_days td_seconds td_micros]; lia|].
  unfold timedelta_normalized. cbn [td_days td_seconds td_micros].
  apply negb_true_iff. rewrite !orb_false_iff. lia.
Qed.
End timedelta.

(** Timedelta normalisation: when the total number of microseconds fits an
    int64, [NormalizeTimeDelta] keeps it exactly and returns Python's normal
    form (seconds in a day, microseconds in a second), even where the products
    of the intermediate sums wrap around. *)
Theorem normalize_timedelta (days seconds micros : Z) :
  - 2 ^ 63 <= days * dayMicros + seconds * 1000000 + micros < 2 ^ 63 ->
  total_micros (NormalizeTimeDelta days seconds micros)
    = days * dayMicros + seconds * 1000000 + micros
  /\ timedelta_normalized (NormalizeTimeDelta days seconds micros) = true.
Proof. intros H. by apply normalize_spec. Qed.

Lemma normalize_timedelta_witness :
  NormalizeTimeDelta (-1) (2 ^ 40) (-5) = TimeDelta 12725828 2175 999995
  /\ timedelta_normalized (NormalizeTimeDelta (-1) (2 ^ 40) (-5)) = true.
Proof.
  split; [vm_compute; reflexivity|]. apply (normalize_timedelta (-1) (2 ^ 40) (-5)).
  unfold dayMicros. lia.
Defined.

(** A [time.Duration] survives the trip through a timedelta, to the
    microsecond: for every int64 number of nanoseconds the result is the
    duration truncated toward zero to a multiple of 1000. *)
Theorem duration_roundtrip (d : Z) :
  - 2 ^ 63 <= d < 2 ^ 63 ->
  Duration (TimeDeltaFromDuration d) = d - Z.rem d 1000
  /\ timedelta_normalized (TimeDeltaFromDuration d) = true.
Proof.
  intros Hd. unfold TimeDeltaFromDuration.
  assert (- 9223372036854777 <= Z.quot d 1000 <= 9223372036854777) as Hq.
  { pose proof (Z.quot_rem d 1000 ltac:(done)). pose proof (Z.rem_bound_abs d 1000 ltac:(done)). lia. }
  destruct (normalize_spec 0 0 (Z.quot d 1000)) as [Ht Hn]; [unfold dayMicros; lia|].
  split; [|done]. unfold Duration, total_micros, dayMicros, hour_ns in *.
  set (t := NormalizeTimeDelta 0 0 (Z.quot d 1000)) in *.
  pose proof (Z.quot_rem d 1000 ltac:(done)).
  pose proof (Z.rem_bound_pos_pos d 1000 ltac:(done)). pose proof (Z.rem_bound_pos_neg d 1000 ltac:(done)).
  rewrite int64_mul_l, int64_add3.
  replace (_ + _ + _) with (1000 * Z.quot d 1000) by lia. rewrite int64_small; lia.
Qed.

Lemma duration_roundtrip_witness :
  Duration (TimeDeltaFromDuration (-1999)) = -1000.
Proof. apply (duration_roundtrip (-1999)). lia. Defined.

(** Outside that range the sum wraps: Python's own maximum, 999999999 days, is
    not representable, unlike what "applies Python's timedelta normalization"
    says. *)
Lemma normalize_timedelta_overflow :
  timedelta_normalized (TimeDelta 999999999 0 0) = true
  /\ NormalizeTimeDelta 999999999 0 0 = TimeDelta (-67519913) 28252 241920.
Proof. split; vm_compute; reflexivity. Qed.

(** ** Open modes *)

Section modes.
Definition is_action (r : Z) : bool := is_rune "r" r || is_rune "w" r || is_rune "a" r.
Definition actions (rs : list Z) : list Z := List.filter is_action rs.
Definition flags (c : byte) (rs : list Z) : Z := len (List.filter (is_rune c) rs).
Definition known_rune (r : Z) : bool := is_action r || is_rune "b" r || is_rune "t" r.

(** Python's rule, stated on the whole mode: one action, at most one of [b]
    and [t], nothing else. *)
Definition mode_spec (rs : list Z) : option bytes :=
  if forallb known_rune rs && (flags "b" rs + flags "t" rs <=? 1) then
    match actions rs with
    | [a] => Some (if flags "b" rs =? 1 then [byte_of a; "b"%byte] else [byte_of a])
    | _ => None
    end
  else None.

Definition b2z (b : bool) : Z := if b then 1 else 0.

(** What the scan has found so far plus what is ahead. *)
Lemma scan_mode_spec rs s s' :
  scan_mode rs s = Ok s' <->
  forallb known_rune rs = true
  /\ option_list (ms_action s') = option_list (ms_action s) ++ actions rs
  /\ b2z (ms_binary s') = b2z (ms_binary s) + flags "b" rs
  /\ b2z (ms_text s') = b2z (ms_text s) + flags "t" rs.
Proof.
  assert (forall c rs, 0 <= flags c rs) as Hnn by (intros; apply len_nonneg).
  revert s. induction rs as [|r rs IH]; intros [a b t].
  - change (flags "b" []) with 0. change (flags "t" []) with 0. cbn [scan_mode forallb actions].
    split; [intros [= <-]; cbn; rewrite app_nil_r; split_and!; (done || lia)|].
    destruct s' as [a' b' t']. cbn. rewrite app_nil_r. intros (_ & Ha & Hb & Ht).
    assert (a = a') as <- by (destruct a, a'; cbn in Ha; congruence).
    destruct b, b', t, t'; cbn in *; (lia || done).
  - cbn [scan_mode forallb ms_action ms_binary ms_text].
    fold (is_action r). unfold known_rune at 1, actions, flags. cbn [List.filter].
    fold (actions rs) (flags "b" rs) (flags "t" rs).
    pose proof (Hnn "b"%byte rs). pose proof (Hnn "t"%byte rs).
    assert (is_action r = true -> is_rune "b" r = false /\ is_rune "t" r = false) as Hact.
    { unfold is_action, is_rune. cbn. lia. }
    assert (is_rune "b" r = true -> is_rune "t" r = false /\ is_rune "x" r = false) as Hbin.
    { unfold is_rune. cbn. lia. }
    assert (is_rune "t" r = true -> is_rune "x" r = false) as Htxt.
    { unfold is_rune. cbn. lia. }
    destruct (is_action r) eqn:Ea; [destruct Hact as [-> ->]; [done|]|].
    { destruct a as [a|]; [|rewrite IH; cbn; naive_solver].
      split; [done|]. cbn. intros (_ & Hl & _). by destruct (ms_action s'). }
    destruct (is_rune "b" r) eqn:Eb; [destruct Hbin as [-> ->]; [done|]|].
    { rewrite len_cons. fold (flags "b" rs).
      destruct b; [|rewrite IH; cbn [ms_action ms_binary ms_text b2z];
        split; intros (? & ? & ? & ?); split_and!; (done || lia)].
      split; [done|]. intros (_ & _ & Hl & _). destruct (ms_binary s'); cbn [b2z] in Hl; lia. }
    destruct (is_rune "t" r) eqn:Et; [rewrite Htxt by done|].
    { rewrite len_cons. fold (flags "t" rs).
      destruct t; [|rewrite IH; cbn [ms_action ms_binary ms_text b2z];
        split; intros (? & ? & ? & ?); split_and!; (done || lia)].
      split; [done|]. intros (_ & _ & _ & Hl). destruct (ms_text s'); cbn [b2z] in Hl; lia. }
    cbn [orb andb]. split; [|by intros [? _]]. by destruct (is_rune "x" r), (is_rune "+" r).
Qed.

Lemma CanonicalFileMode_mode_spec mode c :
  CanonicalFileMode mode = Ok c <-> mode_spec (runes mode) = Some c.
Proof.
  unfold CanonicalFileMode, mode_spec. set (rs := runes mode).
  assert (0 <= flags "b" rs /\ 0 <= flags "t" rs) as [? ?] by (split; apply len_nonneg).
  destruct (scan_mode rs (ModeScan None false false)) as [[a b t]|e] eqn:E; cbn [mbind result_mbind].
  - apply scan_mode_spec in E as (-> & Ha & Hb & Ht). cbn [ms_action ms_binary ms_text b2z] in *.
    assert (flags "b" rs = b2z b) as -> by (destruct b; cbn [b2z] in *; lia).
    assert (flags "t" rs = b2z t) as -> by (destruct t; cbn [b2z] in *; lia).
    change (option_list a = actions rs) in Ha. rewrite <- Ha.
    assert ((b2z b + b2z t <=? 1) = negb (b && t)) as -> by (by destruct b, t).
    destruct b, t, a as [a|]; cbn; split; intros; congruence.
  - split; [done|]. destruct (forallb known_rune rs) eqn:Hk; cbn [andb]; [|done].
    destruct (Z.leb_spec (flags "b" rs + flags "t" rs) 1); [|done].
    destruct (actions rs) as [|a [|]] eqn:Ha; [done| |done]. intros _. exfalso.
    assert (scan_mode rs (ModeScan None false false)
      = Ok (ModeScan (Some a) (flags "b" rs =? 1) (flags "t" rs =? 1))) as E2; [|congruence].
    apply scan_mode_spec. cbn. rewrite Ha. split_and!; [done|done|..]; unfold b2z;
      destruct (Z.eqb_spec (flags "b" rs) 1), (Z.eqb_spec (flags "t" rs) 1); lia.
Qed.

(** The six canonical modes. *)
Definition canonical_modes : list bytes := map go ["r"; "rb"; "w"; "wb"; "a"; "ab"]%string.

Lemma mode_spec_canonical rs c : mode_spec rs = Some c -> c ∈ canonical_modes.
Proof.
  unfold mode_spec. destruct (_ && _); [|done].
  destruct (actions rs) as [|a [|]] eqn:Ha; try done.
  assert (is_action a = true) as Hact.
  { assert (a ∈ actions rs) as Hin by (rewrite Ha; left).
    apply list_elem_of_In, filter_In in Hin. apply Hin. }
  assert (a = 114 \/ a = 119 \/ a = 97) as Hc by (unfold is_action, is_rune in Hact; cbn in Hact; lia).
  intros [= <-]. destruct Hc as [-> | [-> | ->]], (flags "b" rs =? 1);
    vm_compute; set_solver.
Qed.
End modes.

(** [CanonicalFileMode] decides Python's rule on open modes: it accepts a
    mode exactly when [mode_spec] does (one of r, w, a; at most one of b and t;
    nothing else) with the same canonical form, which is one of the six
    canonical modes, is a fixed point, and passes the wire's own mode check. *)
Theorem canonical_file_mode (mode c : bytes) :
  (CanonicalFileMode mode = Ok c <-> mode_spec (runes mode) = Some c)
  /\ (CanonicalFileMode mode = Ok c ->
      c ∈ canonical_modes /\ CanonicalFileMode c = Ok c /\ validHandleMode c = true).
Proof.
  split; [apply CanonicalFileMode_mode_spec|].
  intros H. apply CanonicalFileMode_mode_spec, mode_spec_canonical in H.
  split; [done|]. unfold canonical_modes in H. cbn [map] in H.
  rewrite !elem_of_cons in H.
  destruct H as [-> | [-> | [-> | [-> | [-> | [-> | []%not_elem_of_nil]]]]]];
    split; vm_compute; reflexivity.
Qed.

Lemma canonical_file_mode_witness :
  CanonicalFileMode (go "bw") = Ok (go "wb") /\ CanonicalFileMode (go "wb") = Ok (go "wb").
Proof.
  split; [vm_compute; reflexivity|].
  apply (proj2 (canonical_file_mode (go "bw") (go "wb"))). vm_compute. reflexivity.
Defined.
