(* ===== verification/Frame.v ===== *)
(** Length-prefixed framing (src/internal/wire/frame.go) over a byte stream. *)

From S2P Require Import Prelude Protowire Proto Values ValueCodec.

Definition EOF : goerror := ErrNew "EOF".
Definition ErrUnexpectedEOF : goerror := ErrNew "unexpected EOF".
Definition ErrTruncated : goerror := ErrNew "frame stream truncated".

(** An [io.Reader] behind the buffered reader: the bytes it still delivers and
    the error it reports after them. *)
Record stream := Stream { s_data : bytes; s_end : goerror }.

(** [io.ReadFull] of [n] bytes: how many were read, the bytes, the error. *)
Definition ReadFull (n : Z) (s : stream) : Z * bytes * option goerror * stream :=
  let got := take (Z.to_nat n) (s_data s) in
  let rest := Stream (drop (Z.to_nat n) (s_data s)) (s_end s) in
  if len got =? n then (n, got, None, rest)
  else
    let err := if (0 <? len got) && bool_decide (s_end s = EOF)
               then ErrUnexpectedEOF else s_end s in
    (len got, got, Some err, rest).

Definition is_eof (e : goerror) : bool :=
  bool_decide (e = ErrUnexpectedEOF) || bool_decide (e = EOF).

(** [FrameReader.Next] *)
Definition Next (s : stream) : result bytes * stream :=
  let '(n, hdr, err, s) := ReadFull 4 s in
  match err with
  | Some err =>
    if (n =? 0) && bool_decide (err = EOF) then (Err EOF, s)
    else if is_eof err then (Err ErrTruncated, s)
    else (Err err, s)
  | None =>
    let size := le_val hdr in
    if MaxFrameLen <? size then (Err (FrameTooLarge size MaxFrameLen), s)
    else
      let '(_, buf, err, s) := ReadFull size s in
      match err with
      | Some err => if is_eof err then (Err ErrTruncated, s) else (Err err, s)
      | None => (Ok buf, s)
      end
  end.

Definition AppendFrameHeader (payload : bytes) : result bytes :=
  if MaxFrameLen <? len payload then Err (FrameTooLarge (len payload) MaxFrameLen)
  else Ok (le_bytes 4 (uint32 (len payload)) ++ payload).

(** Reads frames until the first error. [fuel] bounds the number of frames. *)
Fixpoint read_all (fuel : nat) (s : stream) : list bytes * goerror :=
  match fuel with
  | O => ([], ErrFuel)
  | S fuel =>
    match Next s with
    | (Ok p, s) => let '(ps, e) := read_all fuel s in (p :: ps, e)
    | (Err e, _) => ([], e)
    end
  end.

(** What a writer sends: each payload with its header. *)
Fixpoint send_all (ps : list bytes) : result bytes :=
  match ps with
  | [] => Ok []
  | p :: ps => f ← AppendFrameHeader p; rest ← send_all ps; Ok (f ++ rest)
  end.

(** ** Facts *)

Section frame.
Lemma ReadFull_app (a b : bytes) e :
  ReadFull (len a) (Stream (a ++ b) e) = (len a, a, None, Stream b e).
Proof.
  unfold ReadFull. cbn [s_data s_end]. rewrite take_len_app, drop_len_app, Z.eqb_refl. done.
Qed.

Lemma ReadFull_short n s : len (s_data s) < n ->
  ReadFull n s =
    (len (s_data s), s_data s,
     Some (if (0 <? len (s_data s)) && bool_decide (s_end s = EOF)
           then ErrUnexpectedEOF else s_end s), Stream [] (s_end s)).
Proof.
  intros Hn. unfold ReadFull. pose proof (len_nonneg (s_data s)).
  rewrite take_ge, drop_ge by (unfold len in *; lia).
  rewrite (proj2 (Z.eqb_neq _ _)) by lia. done.
Qed.

(** However short the read, a stream that ends in EOF reports an EOF. *)
Lemma is_eof_short (c : bool) :
  is_eof (if c && bool_decide (EOF = EOF) then ErrUnexpectedEOF else EOF) = true.
Proof. by destruct c. Qed.

(** Any [n] bytes of the stream are a prefix of it. *)
Lemma ReadFull_long n s : 0 <= n <= len (s_data s) -> exists a b,
  s_data s = a ++ b /\ len a = n /\ ReadFull n s = (n, a, None, Stream b (s_end s)).
Proof.
  intros Hn. exists (take (Z.to_nat n) (s_data s)), (drop (Z.to_nat n) (s_data s)).
  assert (len (take (Z.to_nat n) (s_data s)) = n) as Hl.
  { unfold len in *. rewrite length_take. lia. }
  split_and!; [by rewrite take_drop|done|]. unfold ReadFull. by rewrite Hl, Z.eqb_refl.
Qed.

Lemma AppendFrameHeader_ok p : len p <= MaxFrameLen ->
  AppendFrameHeader p = Ok (le_bytes 4 (len p) ++ p).
Proof.
  intros Hp. unfold AppendFrameHeader, uint32. rewrite (proj2 (Z.ltb_ge _ _)) by done.
  rewrite uwrap_small; [done|]. pose proof (len_nonneg p). unfold MaxFrameLen in *. lia.
Qed.

Lemma Next_frame p rest e : len p <= MaxFrameLen ->
  Next (Stream (le_bytes 4 (len p) ++ p ++ rest) e) = (Ok p, Stream rest e).
Proof.
  intros Hp. pose proof (len_nonneg p). unfold Next.
  assert (len (le_bytes 4 (len p)) = 4) as H4 by (unfold len at 1; by rewrite length_le_bytes).
  rewrite <- H4 at 1. rewrite ReadFull_app.
  rewrite le_val_bytes by (unfold MaxFrameLen in *; lia).
  rewrite (proj2 (Z.ltb_ge _ _)) by done. by rewrite ReadFull_app.
Qed.

(** A frame is read exactly when the stream starts with one. *)
Lemma Next_ok s p s' : Next s = (Ok p, s') ->
  len p <= MaxFrameLen /\ s_end s' = s_end s
  /\ AppendFrameHeader p = Ok (le_bytes 4 (len p) ++ p)
  /\ s_data s = le_bytes 4 (len p) ++ p ++ s_data s'.
Proof.
  unfold Next. destruct (Z.le_gt_cases 4 (len (s_data s))) as [H4|H4].
  - destruct (ReadFull_long 4 s) as (hdr & b & Hd & Hl & ->); [lia|].
    destruct (Z.ltb_spec MaxFrameLen (le_val hdr)) as [|Hsz]; [done|].
    pose proof (le_val_range hdr) as Hr.
    destruct (Z.le_gt_cases (le_val hdr) (len b)) as [Hb|Hb].
    + destruct (ReadFull_long (le_val hdr) (Stream b (s_end s))) as (a & c & Hd2 & Hl2 & ->);
        [cbn; lia|]. cbn in Hd2. intros [= <- <-]. cbn [s_end s_data].
      assert (le_bytes 4 (len a) = hdr) as E.
      { rewrite Hl2. replace 4%nat with (length hdr) by (unfold len in Hl; lia). apply le_bytes_val. }
      rewrite E. split_and!; [lia|done| |by rewrite Hd, Hd2].
      rewrite AppendFrameHeader_ok by lia. by rewrite E.
    + rewrite ReadFull_short by (cbn; lia). cbn. by destruct (is_eof _).
  - rewrite ReadFull_short by lia. by repeat case_match.
Qed.

Lemma send_all_inv p ps out : send_all (p :: ps) = Ok out ->
  exists rest, len p <= MaxFrameLen /\ send_all ps = Ok rest
    /\ out = le_bytes 4 (len p) ++ p ++ rest.
Proof.
  cbn [send_all]. destruct (Z.le_gt_cases (len p) MaxFrameLen) as [Hp|Hp].
  - rewrite AppendFrameHeader_ok by done. cbn. destruct (send_all ps) as [rest|]; cbn; [|done].
    intros [= <-]. exists rest. done.
  - unfold AppendFrameHeader. by rewrite (proj2 (Z.ltb_lt _ _)) by lia.
Qed.
End frame.

(** C26. Framing round trip: a reader fed with what a writer sent, in one
    stream, gets the same payloads in the same order and then a clean EOF. *)
Theorem frames_roundtrip (ps : list bytes) (out : bytes) :
  send_all ps = Ok out ->
  read_all (S (length ps)) (Stream out EOF) = (ps, EOF).
Proof.
  revert out. induction ps as [|p ps IH]; intros out H.
  - injection H as <-. reflexivity.
  - apply send_all_inv in H as (rest & Hp & Hs & ->).
    cbn [length]. cbn [read_all]. rewrite Next_frame by done.
    pose proof (IH rest Hs) as Hr. cbn [read_all] in Hr. by rewrite Hr.
Qed.

Lemma frames_roundtrip_witness :
  read_all 3 (Stream (match send_all [go "ab"; []] with Ok b => b | Err _ => [] end) EOF)
    = ([go "ab"; []], EOF).
Proof. apply (frames_roundtrip [go "ab"; []]). vm_compute. reflexivity. Defined.

(** [FrameReader.Next] classifies every stream that ends in EOF: it
    returns a payload exactly when the stream starts with that payload's frame
    (and consumes just that), EOF exactly at a clean boundary, a too-large
    error exactly when the header announces more than the limit (without
    reading a body), and otherwise reports truncation. *)
Theorem next_classifies (d : bytes) :
  match Next (Stream d EOF) with
  | (Ok p, s) => AppendFrameHeader p = Ok (le_bytes 4 (len p) ++ p)
                 /\ d = (le_bytes 4 (len p) ++ p) ++ s_data s
  | (Err e, s) =>
    (d = [] /\ e = EOF)
    \/ (4 <= len d /\ MaxFrameLen < le_val (take 4 d)
        /\ e = FrameTooLarge (le_val (take 4 d)) MaxFrameLen /\ s_data s = drop 4 d)
    \/ (d <> [] /\ e = ErrTruncated
        /\ (len d < 4 \/ le_val (take 4 d) <= MaxFrameLen /\ len d < 4 + le_val (take 4 d)))
  end.
Proof.
  destruct (Next (Stream d EOF)) as [[p|e] s] eqn:E.
  { apply Next_ok in E as (Hp & _ & Ha & Hd). split; [done|]. cbn in Hd. by rewrite <- app_assoc. }
  unfold Next in E. destruct (Z.le_gt_cases 4 (len d)) as [H4|H4].
  - destruct (ReadFull_long 4 (Stream d EOF)) as (hdr & b & Hd & Hl & Hr); [cbn; lia|].
    rewrite Hr in E. cbn [s_data s_end] in *.
    assert (take 4 d = hdr /\ drop 4 d = b) as [-> Hb].
    { subst d. replace 4%nat with (length hdr) by (unfold len in Hl; lia).
      by rewrite take_app_length, drop_app_length. }
    destruct (Z.ltb_spec MaxFrameLen (le_val hdr)); simplify_eq; [right; left; by split_and!|].
    right; right. split; [intros Hn; by rewrite Hn in H4|].
    destruct (Z.le_gt_cases (le_val hdr) (len b)) as [Hbb|Hbb].
    + pose proof (le_val_range hdr).
      destruct (ReadFull_long (le_val hdr) (Stream b EOF)) as (a & c & _ & _ & Hr2); [cbn; lia|].
      by rewrite Hr2 in E.
    + rewrite ReadFull_short in E by (cbn; lia). cbn [s_data s_end] in E.
      assert (e = ErrTruncated) as -> by (rewrite is_eof_short in E; congruence).
      split; [done|right]. split; [done|]. rewrite len_app. lia.
  - rewrite ReadFull_short in E by (cbn; lia). cbn [s_data s_end] in E.
    destruct (Z.eqb_spec (len d) 0) as [Hz|Hz].
    + left. destruct d as [|x d]; [|rewrite len_cons in Hz; pose proof (len_nonneg d); lia].
      vm_compute in E. by injection E as <- _.
    + right; right. pose proof (len_nonneg d).
      cbn [andb] in E. rewrite is_eof_short in E. simplify_eq.
      split_and!; [by intros ->|done|by left].
Qed.
