(* ===== verification/FrameQueue.v ===== *)
(** The queue between a worker's frame reader and the callers of Recv,
    frameQueue and pumpFrames of src/internal/worker/worker.go.

    Each definition is one section of code under the queue's mutex; a channel
    that is closed and replaced is the number of times this has happened, so a
    goroutine that waits on an old number is awake. *)

From S2P Require Import Prelude Protowire Proto Values ValueCodec Frame.

Definition ErrWorkerGone : goerror := ErrNew "worker is gone".

Record frameQueue := FrameQueue {
  q_frames : list bytes; q_bytes : Z; q_max : Z; q_err : option goerror;
  q_notify : nat; q_space : nat; q_closed : bool; q_observed : Z }.

Definition newFrameQueue (maxBytes : Z) : frameQueue := FrameQueue [] 0 maxBytes None 0 0 false 0.

Inductive pushed := Pushed | PushGone | PushWait (space : nat).

(** One turn of the loop of [push]. *)
Definition push (frame : bytes) (q : frameQueue) : pushed * frameQueue :=
  let n := len frame in
  if (0 <? q_max q) && (0 <? q_bytes q) && (q_max q <? int64 (q_bytes q + n)) then
    if q_closed q then (PushGone, q) else (PushWait (q_space q), q)
  else if q_closed q then (PushGone, q)
  else (Pushed, FrameQueue (q_frames q ++ [frame]) (int64 (q_bytes q + n)) (q_max q) (q_err q)
                  (S (q_notify q)) (q_space q) (q_closed q) (q_observed q + n)).

(** [fail] of the queue. *)
Definition q_fail (err : goerror) (q : frameQueue) : frameQueue :=
  FrameQueue (q_frames q) (q_bytes q) (q_max q) (match q_err q with None => Some err | e => e end)
    (S (q_notify q)) (q_space q) (q_closed q) (q_observed q).

(** [close] of the queue. *)
Definition q_close (q : frameQueue) : frameQueue :=
  FrameQueue (q_frames q) (q_bytes q) (q_max q) (match q_err q with None => Some ErrWorkerGone | e => e end)
    (S (q_notify q)) (q_space q) true (q_observed q).

Definition terminalErr (q : frameQueue) : option goerror :=
  match q_err q with
  | Some e => if bool_decide (e = EOF) || bool_decide (e = ErrWorkerGone) then None else Some e
  | None => None
  end.

Inductive popped := Popped (f : bytes) | PopErr (e : goerror) | PopWait (notify : nat).

(** One turn of the loop of [pop]. *)
Definition pop (q : frameQueue) : popped * frameQueue :=
  match q_frames q with
  | f :: frames =>
    (Popped f, FrameQueue frames (int64 (q_bytes q - len f)) (q_max q) (q_err q)
                 (q_notify q) (S (q_space q)) (q_closed q) (q_observed q - len f))
  | [] =>
    match q_err q with
    | Some err => (PopErr (if bool_decide (err = ErrWorkerGone) then ErrTruncated else err), q)
    | None => (PopWait (q_notify q), q)
    end
  end.

(** ** The goroutines *)

(** [pumpFrames]: about to read, holding a frame to push, or returned. *)
Inductive pump := Reading (s : stream) | Pushing (s : stream) (f : bytes) | Returned.

Record queue_sys := QueueSys { qs_queue : frameQueue; qs_pump : pump; qs_out : list bytes }.

(** What a goroutine does next: the pump's own step, a Recv, or a Close. *)
Inductive queue_step : queue_sys -> queue_sys -> Prop :=
| pump_next q s f s' out : Next s = (Ok f, s') ->
    queue_step (QueueSys q (Reading s) out) (QueueSys q (Pushing s' f) out)
| pump_end q s e s' out : Next s = (Err e, s') ->
    queue_step (QueueSys q (Reading s) out) (QueueSys (q_fail e q) Returned out)
| pump_push q q' s f r out : push f q = (r, q') ->
    queue_step (QueueSys q (Pushing s f) out)
      (QueueSys q' (match r with Pushed => Reading s | PushGone => Returned | PushWait _ => Pushing s f end) out)
| recv q q' p r out : pop q = (r, q') ->
    queue_step (QueueSys q p out) (QueueSys q' p (match r with Popped f => out ++ [f] | _ => out end))
| close_queue q p out : queue_step (QueueSys q p out) (QueueSys (q_close q) p out).

(** The frames [Next] returns from a stream, and the stream then. *)
Inductive reads : stream -> list bytes -> stream -> Prop :=
| reads_nil s : reads s [] s
| reads_snoc s fs f s' s'' : reads s fs s' -> Next s' = (Ok f, s'') -> reads s (fs ++ [f]) s''.

Definition total (fs : list bytes) : Z := fold_right (fun f n => len f + n) 0 fs.
#[local] Arguments total : simpl never.

(** The frames between the stream and the callers. *)
Definition held (p : pump) : list bytes := match p with Pushing _ f => [f] | _ => [] end.

Record queue_inv (s0 : stream) (maxBytes : Z) (x : queue_sys) : Prop := QueueInv {
  qi_order : exists s, reads s0 (qs_out x ++ q_frames (qs_queue x) ++ held (qs_pump x)) s
             /\ match qs_pump x with Reading s' | Pushing s' _ => s' = s | Returned => True end;
  qi_max : q_max (qs_queue x) = maxBytes;
  qi_bytes : q_bytes (qs_queue x) = total (q_frames (qs_queue x));
  qi_observed : q_observed (qs_queue x) = total (q_frames (qs_queue x));
  qi_bound : total (q_frames (qs_queue x)) <= maxBytes
             \/ exists f, f ∈ q_frames (qs_queue x) /\ total (q_frames (qs_queue x)) = len f;
  qi_small : Forall (fun f => len f <= MaxFrameLen) (q_frames (qs_queue x) ++ held (qs_pump x)) }.

Section facts.
Lemma total_app a b : total (a ++ b) = total a + total b.
Proof. unfold total. induction a as [|x a IH]; cbn [app fold_right]; [done|]. rewrite IH. lia. Qed.

Lemma total_nonneg l : 0 <= total l.
Proof. unfold total. induction l as [|x l IH]; cbn [fold_right]; [done|]. pose proof (len_nonneg x). lia. Qed.

Lemma total_cons f l : total (f :: l) = len f + total l.
Proof. done. Qed.

Lemma reads_last s fs f s' : reads s (fs ++ [f]) s' -> exists s'', reads s fs s''.
Proof.
  intros H. inv H.
  - by destruct fs.
  - apply app_inj_tail in H0 as [-> ->]. by eexists.
Qed.

Definition bounded (maxBytes : Z) (l : list bytes) : Prop :=
  total l <= maxBytes \/ exists f, f ∈ l /\ total l = len f.

Lemma bounded_total maxBytes l : maxBytes <= 2 ^ 61 -> bounded maxBytes l ->
  Forall (fun f => len f <= MaxFrameLen) l -> 0 <= total l <= 2 ^ 61.
Proof.
  intros Hm Hb HF. split; [apply total_nonneg|]. destruct Hb as [H|(f & Hf & ->)]; [lia|].
  rewrite Forall_forall in HF. specialize (HF f Hf). unfold MaxFrameLen in *. cbn beta in HF. lia.
Qed.

Lemma bounded_pop maxBytes f l : 0 < maxBytes -> bounded maxBytes (f :: l) -> bounded maxBytes l.
Proof.
  unfold bounded. rewrite total_cons. pose proof (total_nonneg l). pose proof (len_nonneg f).
  intros Hm [H1|(g & [->|Hg]%elem_of_cons & E)]; [left; lia|left; lia|].
  destruct (decide (len f = 0)); [right; exists g; split; [done|lia]|].
  left. destruct (decide (total l = 0)); [lia|]. exfalso.
  assert (len g <= total l) as Hle; [|lia]. clear -Hg. induction l as [|x l IH]; [by apply not_elem_of_nil in Hg|].
  rewrite total_cons. pose proof (total_nonneg l). pose proof (len_nonneg x).
  apply elem_of_cons in Hg as [->|Hg]; [lia|]. specialize (IH Hg). lia.
Qed.

Lemma push_inv s0 maxBytes q q' s f r out : 0 < maxBytes <= 2 ^ 61 -> push f q = (r, q') ->
  queue_inv s0 maxBytes (QueueSys q (Pushing s f) out) ->
  queue_inv s0 maxBytes
    (QueueSys q' (match r with Pushed => Reading s | PushGone => Returned | PushWait _ => Pushing s f end) out).
Proof.
  intros Hm Hpush [[s1 [Hr Hp]] Hmax Hby Hob Hbd Hsm]. cbn in *. subst s1.
  pose proof (proj1 (proj1 (Forall_app _ _ _) Hsm)) as Hsm1.
  pose proof (bounded_total maxBytes (q_frames q) ltac:(lia) Hbd Hsm1) as Htot.
  pose proof (proj1 (Forall_singleton _ _) (proj2 (proj1 (Forall_app _ _ _) Hsm))) as Hlf. cbn in Hlf.
  assert (int64 (q_bytes q + len f) = total (q_frames q) + len f) as Hi
    by (pose proof (len_nonneg f); rewrite int64_small; [lia|unfold MaxFrameLen in *; lia]).
  assert (exists s', reads s0 (out ++ q_frames q) s') as [s2 Hr2] by (rewrite app_assoc in Hr; by eapply reads_last).
  unfold push in Hpush. rewrite Hi in Hpush.
  destruct ((0 <? q_max q) && (0 <? q_bytes q) && (q_max q <? total (q_frames q) + len f)) eqn:Efull;
    destruct (q_closed q); injection Hpush as <- <-; constructor; cbn; rewrite ?app_nil_r; eauto.
  - by rewrite total_app, total_cons, Z.add_0_r.
  - by rewrite total_app, total_cons, Hob, Z.add_0_r.
  - rewrite total_app, total_cons. change (total []) with 0.
    rewrite Hmax, Hby in Efull. destruct (Z.ltb_spec 0 maxBytes); [|lia].
    destruct (Z.ltb_spec 0 (total (q_frames q))); cbn [andb] in Efull.
    + apply Z.ltb_ge in Efull. left. lia.
    + right. exists f. split; [apply elem_of_app; right; by left|lia].
Qed.

Lemma queue_step_inv s0 maxBytes x y : 0 < maxBytes <= 2 ^ 61 ->
  queue_step x y -> queue_inv s0 maxBytes x -> queue_inv s0 maxBytes y.
Proof.
  intros Hm Hs Hinv. pose proof Hinv as [[s [Hr Hp]] Hmax Hby Hob Hbd Hsm].
  destruct Hs as [q s1 f s' out Hn|q s1 e s' out Hn|q q' s1 f r out Hpush|q q' p r out Hpop|q p out]; cbn in *.
  - subst s1. rewrite app_nil_r in *. constructor; cbn; try done.
    + exists s'. split; [|done]. rewrite app_assoc. by eapply reads_snoc.
    + apply Forall_app. split; [done|]. constructor; [|done]. by apply Next_ok in Hn as [? _].
  - rewrite app_nil_r in *. constructor; cbn; rewrite ?app_nil_r; try done. by exists s.
  - by eapply push_inv.
  - unfold pop in Hpop. destruct (q_frames q) as [|f l] eqn:Eq.
    + destruct (q_err q); injection Hpop as <- <-; constructor; cbn; rewrite ?Eq; eauto.
    + injection Hpop as <- <-. pose proof (bounded_pop maxBytes f l ltac:(lia) Hbd).
      pose proof (total_nonneg l). pose proof (len_nonneg f).
      pose proof (bounded_total maxBytes (f :: l) ltac:(lia) Hbd (proj1 (proj1 (Forall_app _ (f :: l) _) Hsm))) as Ht.
      change (0 <= len f + total l <= 2 ^ 61) in Ht. change (q_bytes q = len f + total l) in Hby. change (q_observed q = len f + total l) in Hob.
      constructor; cbn; eauto.
      * exists s. by rewrite <- app_assoc.
      * rewrite int64_small; lia.
      * lia.
      * by inv Hsm.
  - constructor; cbn; eauto.
Qed.

Lemma queue_init s0 maxBytes : 0 < maxBytes ->
  queue_inv s0 maxBytes (QueueSys (newFrameQueue maxBytes) (Reading s0) []).
Proof.
  intros Hm. constructor; cbn; try done.
  - exists s0. split; [constructor|done].
  - left. change (total []) with 0. lia.
Qed.

Lemma queue_reach_inv s0 maxBytes x y : 0 < maxBytes <= 2 ^ 61 ->
  rtc queue_step x y -> queue_inv s0 maxBytes x -> queue_inv s0 maxBytes y.
Proof.
  intros Hm H. induction H as [x|x y z Hxy _ IH]; [done|]. intros Hx. apply IH. by eapply queue_step_inv.
Qed.
End facts.


(** ** Waiting *)

(** Only what would wake a waiter changes the numbers. *)
Record queue_le (q q' : frameQueue) : Prop := QueueLe {
  ql_notify : (q_notify q <= q_notify q')%nat;
  ql_space : (q_space q <= q_space q')%nat;
  ql_max : q_max q' = q_max q;
  ql_quiet : q_notify q' = q_notify q -> q_err q' = q_err q /\ (q_frames q = [] -> q_frames q' = []);
  ql_full : q_space q' = q_space q -> exists l, q_frames q' = q_frames q ++ l;
  ql_closed : q_closed q = true -> q_closed q' = true }.

#[export] Instance queue_le_preorder : PreOrder queue_le.
Proof.
  split.
  - intros q. constructor; auto. intros _. exists []. by rewrite app_nil_r.
  - intros q1 q2 q3 [A1 A2 A3 A4 A5 A6] [B1 B2 B3 B4 B5 B6]. constructor; [lia|lia|congruence|..|auto].
    + intros E. destruct A4 as [A4 A4']; [lia|]. destruct B4 as [B4 B4']; [lia|]. split; [congruence|auto].
    + intros E. destruct A5 as [l1 E1]; [lia|]. destruct B5 as [l2 E2]; [lia|]. exists (l1 ++ l2). by rewrite E2, E1, app_assoc.
Qed.

Lemma queue_step_le x y : queue_step x y -> queue_le (qs_queue x) (qs_queue y).
Proof.
  destruct 1 as [q s1 f s' out Hn|q s1 e s' out Hn|q q' s1 f r out Hpush|q q' p r out Hpop|q p out]; cbn; try done.
  - constructor; cbn; try lia; try done. intros _. exists []. by rewrite app_nil_r.
  - unfold push in Hpush. destruct (_ && _); destruct (q_closed q) eqn:Ec; injection Hpush as <- <-; try done.
    constructor; cbn; try lia; try done; [eauto|congruence].
  - unfold pop in Hpop. destruct (q_frames q) as [|f l] eqn:Eq.
    + destruct (q_err q); by injection Hpop as <- <-.
    + injection Hpop as <- <-. constructor; cbn; try lia; try done. by rewrite Eq.
  - constructor; cbn; try lia; try done. intros _. exists []. by rewrite app_nil_r.
Qed.

Lemma queue_reach_le x y : rtc queue_step x y -> queue_le (qs_queue x) (qs_queue y).
Proof. induction 1 as [x|x y z Hxy _ IH]; [done|]. etrans; [by apply queue_step_le|done]. Qed.

(** C34. No wake-up is lost in the frame queue: a Recv that found nothing and waits
    still finds nothing as long as its channel is open, and a reader that found no
    room still finds none. *)
Theorem queue_no_lost_wakeup (s0 : stream) (maxBytes : Z) (x y : queue_sys) (g : nat) (f : bytes) :
  0 < maxBytes <= 2 ^ 61 -> len f <= MaxFrameLen ->
  rtc queue_step (QueueSys (newFrameQueue maxBytes) (Reading s0) []) x -> rtc queue_step x y ->
  ((pop (qs_queue x)).1 = PopWait g -> q_notify (qs_queue y) = g -> (pop (qs_queue y)).1 = PopWait g)
  /\ ((push f (qs_queue x)).1 = PushWait g -> q_space (qs_queue y) = g -> q_closed (qs_queue y) = false ->
      (push f (qs_queue y)).1 = PushWait g).
Proof.
  intros Hm Hlf Hx Hxy.
  pose proof (queue_reach_inv s0 maxBytes _ _ Hm Hx (queue_init s0 maxBytes ltac:(lia))) as Ix.
  pose proof (queue_reach_inv s0 maxBytes _ _ Hm Hxy Ix) as [_ Mx By _ Bd Sm].
  destruct Ix as [_ Mx' By' _ Bd' Sm'].
  destruct (queue_reach_le x y Hxy) as [L1 L2 L3 L4 L5 L6]. split.
  - unfold pop. destruct (q_frames (qs_queue x)) eqn:Ef; [|done]. destruct (q_err (qs_queue x)) eqn:Ee; [done|].
    cbn. intros [= <-] Hn. destruct L4 as [E1 E2]; [done|]. rewrite E2, E1, Hn by done. done.
  - pose proof (bounded_total maxBytes _ ltac:(lia) Bd (proj1 (proj1 (Forall_app _ _ _) Sm))) as Ty.
    pose proof (bounded_total maxBytes _ ltac:(lia) Bd' (proj1 (proj1 (Forall_app _ _ _) Sm'))) as Tx.
    pose proof (len_nonneg f). assert (MaxFrameLen < 2 ^ 61) as Hmf by (by vm_compute).
    unfold push. rewrite By, By', Mx, Mx', !int64_small by lia.
    destruct ((0 <? maxBytes) && (0 <? total (q_frames (qs_queue x))) && _) eqn:E1;
      destruct (q_closed (qs_queue x)); try done.
    cbn. intros [= <-] Hsp Hcl. destruct L5 as [l Hl]; [done|]. rewrite Hl, total_app, Hcl in *.
    pose proof (total_nonneg l). rewrite !andb_true_iff, !Z.ltb_lt in E1. destruct E1 as [[H1 H2] H3].
    rewrite !(proj2 (Z.ltb_lt _ _)) by lia. cbn. by rewrite Hsp.
Qed.

(** One frame through a queue. *)
Definition demo_stream : stream := Stream (le_bytes 4 2 ++ go "hi") EOF.


Lemma queue_no_lost_wakeup_witness :
  let x := QueueSys (newFrameQueue 10) (Reading demo_stream) [] in
  (pop (qs_queue x)).1 = PopWait 0 /\ (pop (qs_queue (QueueSys (newFrameQueue 10) (Pushing (Stream [] EOF) (go "hi")) []))).1 = PopWait 0.
Proof.
  cbv zeta. split; [reflexivity|].
  apply (queue_no_lost_wakeup demo_stream 10 (QueueSys (newFrameQueue 10) (Reading demo_stream) [])
    (QueueSys (newFrameQueue 10) (Pushing (Stream [] EOF) (go "hi")) []) 0 (go "hi")).
  - lia.
  - vm_compute. discriminate.
  - apply rtc_refl.
  - eapply rtc_l; [apply (pump_next _ _ (go "hi") (Stream [] EOF)); vm_compute; reflexivity|apply rtc_refl].
  - reflexivity.
  - reflexivity.
Defined.
