(* ===== verification/Exceptions.v ===== *)
(** Raised exceptions: src/internal/wire/exception.go (data and the traceback
    renderer) and exception_codec.go (the RaisedException codec). *)

From S2P Require Import Prelude Protowire Proto Utf8 Values ValueCodec CodecSpec CodecRoundtrip.

(** ** Data *)

Record codeloc := CodeLoc { cl_line : Z; cl_column : Z }.

Record tbframe := TbFrame {
  tb_filename : bytes; tb_start : codeloc; tb_end : codeloc;
  tb_name : option bytes; tb_preview : option bytes;
  tb_hide_caret : bool; tb_hide_name : bool }.

Record unicode_error := UnicodeErrorData {
  ue_encoding : bytes; ue_bytes : bytes; ue_str : option bytes;
  ue_start : Z; ue_end : Z; ue_reason : bytes }.

Record json_error := JSONErrorData {
  je_msg : bytes; je_doc : option bytes; je_pos : Z; je_lineno : Z; je_colno : Z }.

Record excdata := ExcData { ed_unicode : option unicode_error; ed_json : option json_error }.

(** [wire.Exception] *)
Record wexception := WException {
  we_type : bytes; we_message : option bytes;
  we_traceback : list tbframe; we_data : option excdata }.

Definition NewException (excType message : bytes) : wexception :=
  WException excType (Some message) [] None.

Definition MessageText (e : wexception) : bytes := default [] (we_message e).

Definition Summary (e : wexception) : bytes :=
  match we_message e with
  | None => we_type e
  | Some m => we_type e ++ go ": " ++ m
  end.

(** ** Codec *)

Section encode.
Context `{PW : Protowire}.

Definition appendCodeLoc (b : bytes) (c : codeloc) : bytes :=
  appendUintField (appendUintField b 1 (cl_line c)) 2 (cl_column c).

Definition appendFrameBody (b : bytes) (f : tbframe) : bytes :=
  let b := appendStringField b 1 (tb_filename f) in
  let b := appendMessage b 2 (appendCodeLoc [] (tb_start f)) in
  let b := appendMessage b 3 (appendCodeLoc [] (tb_end f)) in
  let b := appendOptString b 4 (tb_name f) in
  let b := appendOptString b 5 (tb_preview f) in
  let b := appendBoolField b 6 (tb_hide_caret f) in
  appendBoolField b 7 (tb_hide_name f).

Definition appendExcData (d : excdata) : bytes :=
  match ed_unicode d with
  | Some u =>
    let body := appendStringField [] 1 (ue_encoding u) in
    let body := match ue_str u with
                | Some s => appendStringAlways body 3 s
                | None => appendBytesAlways body 2 (ue_bytes u)
                end in
    let body := appendUintField body 4 (ue_start u) in
    let body := appendUintField body 5 (ue_end u) in
    let body := appendStringField body 6 (ue_reason u) in
    appendMessage [] 1 body
  | None =>
    match ed_json d with
    | Some j =>
      let body := appendStringField [] 1 (je_msg j) in
      let body := appendOptString body 2 (je_doc j) in
      let body := appendUintField body 3 (je_pos j) in
      let body := appendUintField body 4 (je_lineno j) in
      let body := appendUintField body 5 (je_colno j) in
      appendMessage [] 2 body
    | None => []
    end
  end.

Definition appendExceptionBody (b : bytes) (e : wexception) : bytes :=
  let b := appendStringField b 1 (we_type e) in
  let b := appendOptString b 2 (we_message e) in
  let b := fold_left (fun b f => appendMessage b 3 (appendFrameBody [] f)) (we_traceback e) b in
  match we_data e with
  | None => b
  | Some d => appendMessage b 4 (appendExcData d)
  end.
End encode.

Section decode.
Context `{PW : Protowire}.

Definition codeloc_field (num typ : Z) (c : codeloc) (r : reader) : result (codeloc * reader) :=
  if num =? 1 then let '(v, r) := r_varint num typ r in Ok (CodeLoc (uint32 v) (cl_column c), r)
  else if num =? 2 then let '(v, r) := r_varint num typ r in Ok (CodeLoc (cl_line c) (uint32 v), r)
  else Ok (c, r_skip num typ r).

(** A position's own read error is recorded in the parent reader. *)
Definition decodeCodeLoc (parent : reader) (msg : bytes) : codeloc * reader :=
  match each_field codeloc_field (CodeLoc 0 0) (new_reader msg) with
  | Ok (c, r) =>
    (c, match rerr r with Some e => fail parent e | None => parent end)
  | Err e => (CodeLoc 0 0, fail parent e)
  end.

Definition frame_field (num typ : Z) (f : tbframe) (r : reader) : result (tbframe * reader) :=
  let '(TbFrame fn st en nm pv hc hn) := f in
  if num =? 1 then let '(v, r) := r_str num typ r in Ok (TbFrame v st en nm pv hc hn, r)
  else if num =? 2 then
    let '(m, r) := r_bytes num typ r in
    let '(c, r) := decodeCodeLoc r m in Ok (TbFrame fn c en nm pv hc hn, r)
  else if num =? 3 then
    let '(m, r) := r_bytes num typ r in
    let '(c, r) := decodeCodeLoc r m in Ok (TbFrame fn st c nm pv hc hn, r)
  else if num =? 4 then let '(v, r) := r_str num typ r in Ok (TbFrame fn st en (Some v) pv hc hn, r)
  else if num =? 5 then let '(v, r) := r_str num typ r in Ok (TbFrame fn st en nm (Some v) hc hn, r)
  else if num =? 6 then
    let '(v, r) := r_varint num typ r in Ok (TbFrame fn st en nm pv (negb (v =? 0)) hn, r)
  else if num =? 7 then
    let '(v, r) := r_varint num typ r in Ok (TbFrame fn st en nm pv hc (negb (v =? 0)), r)
  else Ok (f, r_skip num typ r).

Definition decodeFrame (msg : bytes) : result tbframe :=
  checked (each_field frame_field
    (TbFrame [] (CodeLoc 0 0) (CodeLoc 0 0) None None false false) (new_reader msg)).

Definition unicode_field (num typ : Z) (u : unicode_error) (r : reader)
    : result (unicode_error * reader) :=
  let '(UnicodeErrorData en b s st e rs) := u in
  if num =? 1 then let '(v, r) := r_str num typ r in Ok (UnicodeErrorData v b s st e rs, r)
  else if num =? 2 then let '(v, r) := r_bytes num typ r in Ok (UnicodeErrorData en v s st e rs, r)
  else if num =? 3 then let '(v, r) := r_str num typ r in Ok (UnicodeErrorData en b (Some v) st e rs, r)
  else if num =? 4 then let '(v, r) := r_varint num typ r in Ok (UnicodeErrorData en b s v e rs, r)
  else if num =? 5 then let '(v, r) := r_varint num typ r in Ok (UnicodeErrorData en b s st v rs, r)
  else if num =? 6 then let '(v, r) := r_str num typ r in Ok (UnicodeErrorData en b s st e v, r)
  else Ok (u, r_skip num typ r).

Definition json_field (num typ : Z) (j : json_error) (r : reader) : result (json_error * reader) :=
  let '(JSONErrorData m d p l c) := j in
  if num =? 1 then let '(v, r) := r_str num typ r in Ok (JSONErrorData v d p l c, r)
  else if num =? 2 then let '(v, r) := r_str num typ r in Ok (JSONErrorData m (Some v) p l c, r)
  else if num =? 3 then let '(v, r) := r_varint num typ r in Ok (JSONErrorData m d v l c, r)
  else if num =? 4 then let '(v, r) := r_varint num typ r in Ok (JSONErrorData m d p v c, r)
  else if num =? 5 then let '(v, r) := r_varint num typ r in Ok (JSONErrorData m d p l v, r)
  else Ok (j, r_skip num typ r).

Definition excdata_field (num typ : Z) (d : excdata) (r : reader) : result (excdata * reader) :=
  if num =? 1 then
    let '(m, r) := r_bytes num typ r in
    u ← checked (each_field unicode_field (UnicodeErrorData [] [] None 0 0 []) (new_reader m));
    Ok (ExcData (Some u) (ed_json d), r)
  else if num =? 2 then
    let '(m, r) := r_bytes num typ r in
    j ← checked (each_field json_field (JSONErrorData [] None 0 0 0) (new_reader m));
    Ok (ExcData (ed_unicode d) (Some j), r)
  else Ok (d, r_skip num typ r).

Definition decodeExcData (msg : bytes) : result excdata :=
  checked (each_field excdata_field (ExcData None None) (new_reader msg)).

Definition exception_field (num typ : Z) (e : wexception) (r : reader)
    : result (wexception * reader) :=
  let '(WException et m tb d) := e in
  if num =? 1 then let '(v, r) := r_str num typ r in Ok (WException v m tb d, r)
  else if num =? 2 then let '(v, r) := r_str num typ r in Ok (WException et (Some v) tb d, r)
  else if num =? 3 then
    let '(b, r) := r_bytes num typ r in
    f ← decodeFrame b;
    Ok (WException et m (tb ++ [f]) d, r)
  else if num =? 4 then
    let '(b, r) := r_bytes num typ r in
    x ← decodeExcData b;
    Ok (WException et m tb (Some x), r)
  else Ok (e, r_skip num typ r).

Definition decodeException (msg : bytes) : result wexception :=
  checked (each_field exception_field (WException [] None [] None) (new_reader msg)).
End decode.

(** ** Shrinking *)

Section handlers.
Context `{PW : Protowire} `{!ProtowireLaws PW}.

Lemma codeloc_shrinking : shrinking codeloc_field.
Proof using Type. unfold codeloc_field. solve_shrinking. Qed.

Lemma decodeCodeLoc_rb r m c r' : decodeCodeLoc r m = (c, r') -> rb r' = rb r.
Proof using Type.
  unfold decodeCodeLoc, fail, set_err. intros H. repeat case_match; by simplify_eq.
Qed.

Lemma frame_shrinking : shrinking frame_field.
Proof using Type.
  intros num typ [fn st en nm pv hc hn] r s' r' H. unfold frame_field in H.
  repeat match type of H with
  | (if ?c then _ else _) = _ => destruct c
  | (let '(_, _) := ?x in _) = _ => destruct x eqn:?
  end; simplify_eq/=; unfold r_str in *;
  repeat match goal with
  | H : decodeCodeLoc _ _ = _ |- _ => apply decodeCodeLoc_rb in H; rewrite H
  end; eauto with shrink.
Qed.

Lemma unicode_shrinking : shrinking unicode_field.
Proof using Type. unfold unicode_field. solve_shrinking. Qed.
Lemma json_shrinking : shrinking json_field.
Proof using Type. unfold json_field. solve_shrinking. Qed.
Lemma excdata_shrinking : shrinking excdata_field.
Proof using Type. unfold excdata_field. solve_shrinking. Qed.
Lemma exception_shrinking : shrinking exception_field.
Proof using Type. unfold exception_field. solve_shrinking. Qed.
End handlers.
#[export] Hint Resolve codeloc_shrinking frame_shrinking unicode_shrinking json_shrinking
  excdata_shrinking exception_shrinking : shrink.

(** ** Round trip *)

Definition wf_loc (c : codeloc) : bool := in_uint 32 (cl_line c) && in_uint 32 (cl_column c).

Definition wf_frame (f : tbframe) : bool := wf_loc (tb_start f) && wf_loc (tb_end f).

Definition wf_data (d : excdata) : bool :=
  match ed_unicode d with
  | Some u => in_uint 64 (ue_start u) && in_uint 64 (ue_end u)
  | None => match ed_json d with
            | Some j => in_uint 64 (je_pos j) && in_uint 64 (je_lineno j) && in_uint 64 (je_colno j)
            | None => true
            end
  end.

Definition wf_exc (e : wexception) : bool :=
  forallb wf_frame (we_traceback e) && match we_data e with Some d => wf_data d | None => true end.

(** The wire carries one payload: unicode data wins over JSON data, and the
    text of a unicode error wins over its bytes. *)
Definition canon_data (d : excdata) : excdata :=
  match ed_unicode d with
  | Some (UnicodeErrorData en b (Some s) st e rs) =>
    ExcData (Some (UnicodeErrorData en [] (Some s) st e rs)) None
  | Some u => ExcData (Some u) None
  | None => ExcData None (ed_json d)
  end.

Definition canon_exc (e : wexception) : wexception :=
  WException (we_type e) (we_message e) (we_traceback e) (canon_data <$> we_data e).

(** Every length that occurs is non-negative, and a field holds its payload. *)
Ltac pose_once p :=
  let T := type of p in
  lazymatch goal with H : T |- _ => fail | _ => pose proof p end.
Ltac sizes :=
  autorewrite with len in *;
  repeat match goal with
  | _ : context [len (if bool_decide (?s = []) then [] else fbytes ?n ?s)] |- _ =>
    pose_once (len_opt_str n s)
  | _ : context [len (fbytes ?n ?s)] |- _ => pose_once (len_fbytes n s)
  | _ : context [len ?x] |- _ => pose_once (len_nonneg x)
  end.

Ltac unfold_body ::=
  cbn [codeloc_field frame_field unicode_field json_field excdata_field exception_field
       cl_line cl_column Z.eqb Pos.eqb negb].

Section roundtrip.
Context `{PW : Protowire} `{!ProtowireLaws PW}.

Definition opt_fbytes (num : Z) (o : option bytes) : bytes :=
  match o with None => [] | Some s => fbytes num s end.

Lemma appendOptString_opt b num o : appendOptString b num o = b ++ opt_fbytes num o.
Proof. apply appendOptString_eq. Qed.

Lemma decodeCodeLoc_enc c parent : wf_loc c = true ->
  decodeCodeLoc parent (appendCodeLoc [] c) = (c, parent).
Proof.
  destruct c as [l k]. intros Hw. assert (0 <= l < 2 ^ 32 /\ 0 <= k < 2 ^ 32) as [? ?].
  { unfold wf_loc in Hw. cbn in Hw. bool_lia. }
  unfold decodeCodeLoc, appendCodeLoc. cbn [cl_line cl_column]. enc_norm. end_of_message.
  rewrite <- app_assoc. do 2 read_field.
  rewrite each_field_nil. cbn [rerr new_reader].
  unfold uint32. cbn [cl_line cl_column]. by rewrite !uwrap_small by lia.
Qed.

Lemma decodeFrame_enc f : wf_frame f = true -> len (appendFrameBody [] f) < 2 ^ 63 ->
  decodeFrame (appendFrameBody [] f) = Ok f.
Proof.
  destruct f as [fn st en nm pv hc hn]. unfold wf_frame. cbn [tb_start tb_end].
  intros [Hs He]%andb_true_iff. unfold appendFrameBody.
  cbn [tb_filename tb_start tb_end tb_name tb_preview tb_hide_caret tb_hide_name].
  generalize (decodeCodeLoc_enc st) (decodeCodeLoc_enc en).
  generalize (appendCodeLoc [] st) as ms, (appendCodeLoc [] en) as me. intros ms me Ds De.
  enc_norm. rewrite !appendOptString_opt. enc_norm. intros Hlen.
  assert (len fn < 2 ^ 63 /\ len ms < 2 ^ 63 /\ len me < 2 ^ 63
    /\ match nm with Some n => len n < 2 ^ 63 | None => True end
    /\ match pv with Some n => len n < 2 ^ 63 | None => True end) as (? & ? & ? & Hnm & Hpv).
  { destruct nm, pv; cbn [opt_fbytes] in Hlen; sizes; lia. }
  clear Hlen. unfold decodeFrame. end_of_message. enc_norm.
  read_opt. read_bytes. rewrite Ds by done. cbn [mbind result_mbind].
  read_bytes. rewrite De by done. cbn [mbind result_mbind].
  destruct nm as [n|]; cbn [opt_fbytes app]; [read_bytes|];
    (destruct pv as [p|]; cbn [opt_fbytes app]; [read_bytes|]);
    destruct hc, hn; cbn [negb app]; repeat read_var; by finish_message.
Qed.

Lemma decodeUnicode_enc en b s st e rs body :
  0 <= st < 2 ^ 64 -> 0 <= e < 2 ^ 64 ->
  body = (if bool_decide (en = []) then [] else fbytes 1 en)
    ++ (match s with Some s => fbytes 3 s | None => fbytes 2 b end)
    ++ (if st =? 0 then [] else fvar 4 st) ++ (if e =? 0 then [] else fvar 5 e)
    ++ (if bool_decide (rs = []) then [] else fbytes 6 rs) ->
  len body < 2 ^ 63 ->
  checked (each_field unicode_field (UnicodeErrorData [] [] None 0 0 []) (new_reader body))
  = Ok (UnicodeErrorData en (match s with Some _ => [] | None => b end) s st e rs).
Proof.
  intros Hst He -> Hlen. end_of_message. rewrite <- !app_assoc.
  destruct s as [s|]; sizes; do 5 read_field; by finish_message.
Qed.

Lemma decodeJSON_enc m d p l c body :
  0 <= p < 2 ^ 64 -> 0 <= l < 2 ^ 64 -> 0 <= c < 2 ^ 64 ->
  body = (if bool_decide (m = []) then [] else fbytes 1 m) ++ opt_fbytes 2 d
    ++ (if p =? 0 then [] else fvar 3 p) ++ (if l =? 0 then [] else fvar 4 l)
    ++ (if c =? 0 then [] else fvar 5 c) ->
  len body < 2 ^ 63 ->
  checked (each_field json_field (JSONErrorData [] None 0 0 0) (new_reader body))
  = Ok (JSONErrorData m d p l c).
Proof.
  intros Hp Hl Hc -> Hlen. end_of_message. rewrite <- !app_assoc.
  destruct d as [d|]; cbn [opt_fbytes app] in *; sizes; repeat read_field; by finish_message.
Qed.

Lemma decodeExcData_enc d : wf_data d = true -> len (appendExcData d) < 2 ^ 63 ->
  decodeExcData (appendExcData d) = Ok (canon_data d).
Proof.
  destruct d as [[[en b s st e rs]|] j]; unfold wf_data, appendExcData, canon_data;
    cbn [ed_unicode ed_json ue_encoding ue_bytes ue_str ue_start ue_end ue_reason].
  - intros Hw Hlen. assert (0 <= st < 2 ^ 64 /\ 0 <= e < 2 ^ 64) as [? ?] by bool_lia.
    rewrite appendMessage_eq, app_nil_l in *. set (body := appendStringField _ 6 rs) in *.
    pose proof (len_fbytes 1 body).
    assert (body = (if bool_decide (en = []) then [] else fbytes 1 en)
      ++ (match s with Some s => fbytes 3 s | None => fbytes 2 b end)
      ++ (if st =? 0 then [] else fvar 4 st) ++ (if e =? 0 then [] else fvar 5 e)
      ++ (if bool_decide (rs = []) then [] else fbytes 6 rs)) as Hb
      by (subst body; destruct s; by enc_norm).
    unfold decodeExcData. end_of_message. read_bytes.
    rewrite (decodeUnicode_enc en b s st e rs body) by (done || lia).
    cbn [mbind result_mbind]. finish_message. by destruct s.
  - destruct j as [[m d p l c]|]; [|done]. cbn [je_msg je_doc je_pos je_lineno je_colno].
    intros Hw Hlen.
    assert (0 <= p < 2 ^ 64 /\ 0 <= l < 2 ^ 64 /\ 0 <= c < 2 ^ 64) as (? & ? & ?) by bool_lia.
    rewrite appendMessage_eq, app_nil_l in *. set (body := appendUintField _ 5 c) in *.
    pose proof (len_fbytes 2 body).
    assert (body = (if bool_decide (m = []) then [] else fbytes 1 m) ++ opt_fbytes 2 d
      ++ (if p =? 0 then [] else fvar 3 p) ++ (if l =? 0 then [] else fvar 4 l)
      ++ (if c =? 0 then [] else fvar 5 c)) as Hb
      by (subst body; enc_norm; rewrite appendOptString_opt; by enc_norm).
    unfold decodeExcData. end_of_message. read_bytes.
    rewrite (decodeJSON_enc m d p l c body) by (done || lia).
    cbn [mbind result_mbind]. by finish_message.
Qed.

(** The traceback: one message per frame, appended in order. *)
Definition frames_bytes (fs : list tbframe) : bytes :=
  concat (map (fun f => fbytes 3 (appendFrameBody [] f)) fs).

Lemma append_frames fs b :
  fold_left (fun b f => appendMessage b 3 (appendFrameBody [] f)) fs b = b ++ frames_bytes fs.
Proof.
  revert b. induction fs as [|f fs IH]; intros b; cbn; [by rewrite app_nil_r|].
  rewrite IH, appendMessage_eq, <- app_assoc. done.
Qed.

Lemma decode_frames fs et m tb d rest :
  forallb wf_frame fs = true -> len (frames_bytes fs) < 2 ^ 63 ->
  each_field exception_field (WException et m tb d) (new_reader (frames_bytes fs ++ rest))
  = each_field exception_field (WException et m (tb ++ fs) d) (new_reader rest).
Proof.
  revert tb. induction fs as [|f fs IH]; intros tb Hw Hlen; [by rewrite app_nil_r|].
  cbn [forallb] in Hw. apply andb_true_iff in Hw as [Hw1 Hw2].
  change (frames_bytes (f :: fs)) with (fbytes 3 (appendFrameBody [] f) ++ frames_bytes fs) in *.
  sizes. rewrite <- app_assoc. read_bytes.
  rewrite decodeFrame_enc by (done || lia). cbn [mbind result_mbind].
  rewrite IH by (done || lia). by rewrite <- app_assoc.
Qed.
End roundtrip.

(** Round trip of a raised exception: type, message, traceback and
    structured payload come back as sent, for any traceback and positions in
    range; of a payload with several forms the encoder's choice survives
    ([canon_exc]). *)
Theorem exception_roundtrip `{PW : Protowire} `{!ProtowireLaws PW} (e : wexception) :
  wf_exc e = true -> len (appendExceptionBody [] e) < 2 ^ 63 ->
  decodeException (appendExceptionBody [] e) = Ok (canon_exc e).
Proof.
  destruct e as [et m tb d]. unfold wf_exc, appendExceptionBody, canon_exc.
  cbn [we_type we_message we_traceback we_data].
  intros [Hf Hd]%andb_true_iff. rewrite append_frames, appendOptString_opt, appendStringField_eq, app_nil_l.
  set (dm := match d with Some d => fbytes 4 (appendExcData d) | None => [] end).
  assert (forall b, match d with None => b | Some d => appendMessage b 4 (appendExcData d) end = b ++ dm) as ->.
  { intros b. subst dm. destruct d; [apply appendMessage_eq|by rewrite app_nil_r]. }
  rewrite <- !app_assoc. intros Hlen. unfold decodeException. end_of_message. rewrite <- !app_assoc.
  assert (len et < 2 ^ 63 /\ len (frames_bytes tb) < 2 ^ 63
    /\ match m with Some m => len m < 2 ^ 63 | None => True end
    /\ match d with Some d => len (appendExcData d) < 2 ^ 63 | None => True end) as (? & ? & Hm & Hl).
  { subst dm. destruct m, d; cbn [opt_fbytes] in Hlen; sizes; lia. }
  clear Hlen. read_opt.
  destruct m as [m|]; cbn [opt_fbytes app]; [read_bytes|]; rewrite decode_frames by done;
    subst dm; (destruct d as [d|]; cbn [app]; [|by finish_message]);
    read_bytes; rewrite decodeExcData_enc by done; cbn [mbind result_mbind]; by finish_message.
Qed.

Definition sample_exception : wexception :=
  WException (go "ValueError") (Some (go "bad"))
    [TbFrame (go "main.py") (CodeLoc 3 1) (CodeLoc 3 7) (Some (go "f")) (Some (go "  x = y")) false false;
     TbFrame (go "main.py") (CodeLoc 9 1) (CodeLoc 10 2) None None true true]
    (Some (ExcData (Some (UnicodeErrorData (go "utf-8") (go "zz") (Some (go "s")) 1 2 (go "why"))) None)).

Lemma exception_roundtrip_witness :
  decodeException (PW := pwref) (appendExceptionBody (PW := pwref) [] sample_exception)
  = Ok (canon_exc sample_exception).
Proof. apply (exception_roundtrip (PW := pwref) sample_exception); vm_compute; reflexivity. Defined.
