(* ===== verification/Traceback.v ===== *)
(** Rendering a raised exception (src/internal/wire/exception.go): the layout
    of one frame and the collapsing of repeated frames. *)

From S2P Require Import Prelude Utf8 GoStrings Protowire Proto Values ValueCodec Exceptions.

Definition newline : byte := Byte.x0a.

Definition rustLines (s : bytes) : list bytes :=
  if bool_decide (s = []) then []
  else
    let parts := split_byte newline s in
    let parts := match last parts with
                 | Some [] => removelast parts
                 | _ => parts
                 end in
    map (fun p => TrimSuffix p [Byte.x0d]) parts.

Definition framesIdentical (a b : tbframe) : bool :=
  if negb (bool_decide (tb_filename a = tb_filename b))
     || negb (cl_line (tb_start a) =? cl_line (tb_start b)) then false
  else match tb_name a, tb_name b with
       | None, None => true
       | Some x, Some y => bool_decide (x = y)
       | _, _ => false
       end.

Definition writeFrame (f : tbframe) : bytes :=
  let head := go "  File " ++ [Byte.x22] ++ tb_filename f ++ [Byte.x22]
              ++ go ", line " ++ itoa (cl_line (tb_start f)) in
  let name := if tb_hide_name f then []
              else go ", in " ++ match tb_name f with Some n => n | None => go "<module>" end in
  match tb_preview f with
  | None => head ++ name ++ [newline]
  | Some line =>
    if negb (cl_line (tb_start f) =? cl_line (tb_end f)) then
      head ++ name ++ [newline]
      ++ concat (map (fun l => go "    " ++ l ++ [newline]) (rustLines line))
    else
      let trimmed := TrimLeftFunc line IsSpace in
      let shown := head ++ name ++ [newline] ++ go "    " ++ trimmed ++ [newline] in
      if tb_hide_caret f then shown
      else
        let leading := len line - len trimmed in
        let caretStart := if leading <? cl_column (tb_start f)
                          then 4 + cl_column (tb_start f) - leading - 1 else 4 in
        let caretLen := cl_column (tb_end f) - cl_column (tb_start f) in
        let caretLen := if caretLen <? 1 then 1 else caretLen in
        shown ++ Repeat (go " ") caretStart ++ Repeat (go "~") caretLen ++ [newline]
  end.

Definition repeatFramesShown : Z := 3.

(** The inner loop: how many frames from the second on repeat [frame]. *)
Fixpoint count_repeat (frame : tbframe) (rest : list tbframe) : nat :=
  match rest with
  | f :: rest => if framesIdentical frame f then S (count_repeat frame rest) else 0%nat
  | [] => 0%nat
  end.

(** What the body of the outer loop writes for a run of frames. *)
Definition writeRun (run : list tbframe) : bytes :=
  let repeat := len run in
  if repeatFramesShown <? repeat then
    concat (map writeFrame (take (Z.to_nat repeatFramesShown) run))
    ++ go "  [Previous line repeated " ++ itoa (repeat - repeatFramesShown) ++ go " more times]"
    ++ [newline]
  else concat (map writeFrame run).

(** The outer loop from index [i], [l] being the traceback from there on. *)
Fixpoint render_loop (fuel : nat) (l : list tbframe) : bytes :=
  match fuel, l with
  | S fuel, frame :: rest =>
    let repeat := S (count_repeat frame rest) in
    writeRun (take repeat l) ++ render_loop fuel (drop repeat l)
  | _, _ => []
  end.

(** [Exception.Render]; every iteration consumes a frame. *)
Definition Render (e : wexception) : bytes :=
  (if 0 <? len (we_traceback e) then go "Traceback (most recent call last):" ++ [newline] else [])
  ++ render_loop (length (we_traceback e)) (we_traceback e)
  ++ Summary e.

(** ** Runs of repeated frames *)

(** A run: frames that repeat its first. *)
Definition is_run (g : list tbframe) : Prop :=
  match g with [] => False | f :: fs => Forall (fun x => framesIdentical f x = true) fs end.

(** Runs are maximal: the next run does not start with a repeat of this one. *)
Fixpoint maximal (gs : list (list tbframe)) : Prop :=
  match gs with
  | (f :: _) :: (((f' :: _) :: _) as gs) => framesIdentical f f' = false /\ maximal gs
  | [] :: _ | _ :: [] :: _ => False
  | _ => True
  end.

Section runs.
Lemma count_repeat_le f l : (count_repeat f l <= length l)%nat.
Proof. induction l as [|x l IH]; cbn; [lia|]. destruct (framesIdentical f x); lia. Qed.

Lemma count_repeat_run f l :
  Forall (fun x => framesIdentical f x = true) (take (count_repeat f l) l).
Proof.
  induction l as [|x l IH]; cbn; [constructor|].
  destruct (framesIdentical f x) eqn:E; cbn; by constructor.
Qed.

Lemma count_repeat_stop f l x rest :
  drop (count_repeat f l) l = x :: rest -> framesIdentical f x = false.
Proof.
  induction l as [|y l IH]; cbn; [done|].
  destruct (framesIdentical f y) eqn:E; cbn; [done|]. by intros [= <- _].
Qed.

Lemma render_loop_runs n l : (length l <= n)%nat -> exists gs,
  concat gs = l /\ Forall is_run gs /\ maximal gs
  /\ render_loop n l = concat (map writeRun gs).
Proof.
  revert l. induction n as [|n IH]; intros l Hn.
  - destruct l; [|cbn in Hn; lia]. by exists [].
  - destruct l as [|f l]; [by exists []|]. cbn [render_loop take drop].
    pose proof (count_repeat_le f l). cbn in Hn.
    destruct (IH (drop (count_repeat f l) l)) as (gs & Hc & Hr & Hm & He).
    { rewrite length_drop. lia. }
    exists ((f :: take (count_repeat f l) l) :: gs). split_and!.
    + cbn. by rewrite Hc, take_drop.
    + constructor; [apply count_repeat_run|done].
    + destruct gs as [|[|f' g] gs]; [done|by inv Hr|].
      split; [|done]. eapply count_repeat_stop. by rewrite <- Hc.
    + by rewrite He.
Qed.
End runs.

(** [Render] shows the whole traceback: it is split into maximal runs of
    repeated frames, in order and without loss; each run is written out, a run
    of more than three frames as its first three and the number of the others,
    and the summary line comes last. The loop terminates. *)
Theorem render_shows_all (e : wexception) :
  exists gs, concat gs = we_traceback e /\ Forall is_run gs /\ maximal gs
  /\ Render e = (if 0 <? len (we_traceback e)
                 then go "Traceback (most recent call last):" ++ [newline] else [])
                ++ concat (map writeRun gs) ++ Summary e.
Proof.
  destruct (render_loop_runs (length (we_traceback e)) (we_traceback e)) as (gs & Hc & Hr & Hm & He);
    [done|].
  exists gs. split_and!; try done. unfold Render. by rewrite He.
Qed.

Example render_example :
  Render (WException (go "E") None
    (replicate 5 (TbFrame (go "a.py") (CodeLoc 2 3) (CodeLoc 2 5) None (Some (go "  f(x)")) false false)) None)
  = go "Traceback (most recent call last):" ++ [newline]
    ++ concat (replicate 3 (go "  File " ++ [Byte.x22] ++ go "a.py" ++ [Byte.x22] ++ go ", line 2, in <module>"
        ++ [newline] ++ go "    f(x)" ++ [newline] ++ go "    ~~" ++ [newline]))
    ++ go "  [Previous line repeated 2 more times]" ++ [newline] ++ go "E".
Proof. vm_compute. reflexivity. Qed.
