(* ===== verification/Events.v ===== *)
(** Worker events: src/internal/wire/oscall.go (OS calls) and event.go (the
    ChildEvent decoder). *)

From S2P Require Import Prelude Utf8 GoStrings VPath Protowire Proto Values ValueCodec Exceptions.

(** ** OS calls (oscall.go) *)

(** [OsOp]: the field numbers of the call's arms. *)
Definition OpExists : Z := 2.
Definition OpIsFile : Z := 3.
Definition OpIsDir : Z := 4.
Definition OpIsSymlink : Z := 5.
Definition OpReadText : Z := 6.
Definition OpReadBytes : Z := 7.
Definition OpStat : Z := 8.
Definition OpIterdir : Z := 9.
Definition OpResolve : Z := 10.
Definition OpAbsolute : Z := 11.
Definition OpUnlink : Z := 12.
Definition OpRmdir : Z := 13.
Definition OpWriteText : Z := 14.
Definition OpAppendText : Z := 15.
Definition OpWriteBytes : Z := 16.
Definition OpAppendBytes : Z := 17.
Definition OpOpen : Z := 18.
Definition OpMkdir : Z := 19.
Definition OpRename : Z := 20.
Definition OpGetenv : Z := 21.
Definition OpGetEnviron : Z := 22.
Definition OpDateToday : Z := 23.
Definition OpDateTimeNow : Z := 24.
Definition firstFSOp : Z := OpExists.
Definition lastFSOp : Z := OpRename.
Definition lastPathOnlyOp : Z := OpRmdir.

(** [OsOp.Name]: the entry of [opNames], or the empty string. *)
Definition opNames : list (Z * string) :=
  [(OpExists, "Path.exists"); (OpIsFile, "Path.is_file"); (OpIsDir, "Path.is_dir");
   (OpIsSymlink, "Path.is_symlink"); (OpReadText, "Path.read_text");
   (OpReadBytes, "Path.read_bytes"); (OpStat, "Path.stat"); (OpIterdir, "Path.iterdir");
   (OpResolve, "Path.resolve"); (OpAbsolute, "Path.absolute"); (OpUnlink, "Path.unlink");
   (OpRmdir, "Path.rmdir"); (OpWriteText, "Path.write_text"); (OpAppendText, "Path.append_text");
   (OpWriteBytes, "Path.write_bytes"); (OpAppendBytes, "Path.append_bytes"); (OpOpen, "open");
   (OpMkdir, "Path.mkdir"); (OpRename, "Path.rename"); (OpGetenv, "os.getenv");
   (OpGetEnviron, "os.environ"); (OpDateToday, "date.today"); (OpDateTimeNow, "datetime.now")]%string.

Definition op_name (o : Z) : string :=
  default EmptyString (snd <$> List.find (fun p => p.1 =? o) opNames).

Record oscall := OsCall {
  oc_callid : Z;
  oc_op : Z;
  oc_path : bytes;
  oc_dst : bytes;
  oc_text : bytes;
  oc_data : bytes;
  oc_mode : bytes;
  oc_parents : bool;
  oc_existok : bool;
  oc_key : bytes;
  oc_default : value;
  oc_hastz : bool;
  oc_tz : timezone;
  oc_payloaderr : option goerror }.

Definition set_oc_callid (v : Z) (r : oscall) : oscall :=
  OsCall v (oc_op r) (oc_path r) (oc_dst r) (oc_text r) (oc_data r) (oc_mode r) (oc_parents r) (oc_existok r) (oc_key r) (oc_default r) (oc_hastz r) (oc_tz r) (oc_payloaderr r).
Definition set_oc_op (v : Z) (r : oscall) : oscall :=
  OsCall (oc_callid r) v (oc_path r) (oc_dst r) (oc_text r) (oc_data r) (oc_mode r) (oc_parents r) (oc_existok r) (oc_key r) (oc_default r) (oc_hastz r) (oc_tz r) (oc_payloaderr r).
Definition set_oc_path (v : bytes) (r : oscall) : oscall :=
  OsCall (oc_callid r) (oc_op r) v (oc_dst r) (oc_text r) (oc_data r) (oc_mode r) (oc_parents r) (oc_existok r) (oc_key r) (oc_default r) (oc_hastz r) (oc_tz r) (oc_payloaderr r).
Definition set_oc_dst (v : bytes) (r : oscall) : oscall :=
  OsCall (oc_callid r) (oc_op r) (oc_path r) v (oc_text r) (oc_data r) (oc_mode r) (oc_parents r) (oc_existok r) (oc_key r) (oc_default r) (oc_hastz r) (oc_tz r) (oc_payloaderr r).
Definition set_oc_text (v : bytes) (r : oscall) : oscall :=
  OsCall (oc_callid r) (oc_op r) (oc_path r) (oc_dst r) v (oc_data r) (oc_mode r) (oc_parents r) (oc_existok r) (oc_key r) (oc_default r) (oc_hastz r) (oc_tz r) (oc_payloaderr r).
Definition set_oc_data (v : bytes) (r : oscall) : oscall :=
  OsCall (oc_callid r) (oc_op r) (oc_path r) (oc_dst r) (oc_text r) v (oc_mode r) (oc_parents r) (oc_existok r) (oc_key r) (oc_default r) (oc_hastz r) (oc_tz r) (oc_payloaderr r).
Definition set_oc_mode (v : bytes) (r : oscall) : oscall :=
  OsCall (oc_callid r) (oc_op r) (oc_path r) (oc_dst r) (oc_text r) (oc_data r) v (oc_parents r) (oc_existok r) (oc_key r) (oc_default r) (oc_hastz r) (oc_tz r) (oc_payloaderr r).
Definition set_oc_parents (v : bool) (r : oscall) : oscall :=
  OsCall (oc_callid r) (oc_op r) (oc_path r) (oc_dst r) (oc_text r) (oc_data r) (oc_mode r) v (oc_existok r) (oc_key r) (oc_default r) (oc_hastz r) (oc_tz r) (oc_payloaderr r).
Definition set_oc_existok (v : bool) (r : oscall) : oscall :=
  OsCall (oc_callid r) (oc_op r) (oc_path r) (oc_dst r) (oc_text r) (oc_data r) (oc_mode r) (oc_parents r) v (oc_key r) (oc_default r) (oc_hastz r) (oc_tz r) (oc_payloaderr r).
Definition set_oc_key (v : bytes) (r : oscall) : oscall :=
  OsCall (oc_callid r) (oc_op r) (oc_path r) (oc_dst r) (oc_text r) (oc_data r) (oc_mode r) (oc_parents r) (oc_existok r) v (oc_default r) (oc_hastz r) (oc_tz r) (oc_payloaderr r).
Definition set_oc_default (v : value) (r : oscall) : oscall :=
  OsCall (oc_callid r) (oc_op r) (oc_path r) (oc_dst r) (oc_text r) (oc_data r) (oc_mode r) (oc_parents r) (oc_existok r) (oc_key r) v (oc_hastz r) (oc_tz r) (oc_payloaderr r).
Definition set_oc_hastz (v : bool) (r : oscall) : oscall :=
  OsCall (oc_callid r) (oc_op r) (oc_path r) (oc_dst r) (oc_text r) (oc_data r) (oc_mode r) (oc_parents r) (oc_existok r) (oc_key r) (oc_default r) v (oc_tz r) (oc_payloaderr r).
Definition set_oc_tz (v : timezone) (r : oscall) : oscall :=
  OsCall (oc_callid r) (oc_op r) (oc_path r) (oc_dst r) (oc_text r) (oc_data r) (oc_mode r) (oc_parents r) (oc_existok r) (oc_key r) (oc_default r) (oc_hastz r) v (oc_payloaderr r).
Definition set_oc_payloaderr (v : option goerror) (r : oscall) : oscall :=
  OsCall (oc_callid r) (oc_op r) (oc_path r) (oc_dst r) (oc_text r) (oc_data r) (oc_mode r) (oc_parents r) (oc_existok r) (oc_key r) (oc_default r) (oc_hastz r) (oc_tz r) v.

Definition new_oscall : oscall :=
  OsCall 0 0 [] [] [] [] [] false false [] VNil false (TimeZone 0 None) None.

Definition IsFS (c : oscall) : bool := (firstFSOp <=? oc_op c) && (oc_op c <=? lastFSOp).
Definition IsExistenceCheck (c : oscall) : bool :=
  (OpExists <=? oc_op c) && (oc_op c <=? OpIsSymlink).

Definition IsWrite (c : oscall) : bool :=
  if existsb (Z.eqb (oc_op c)) [OpWriteText; OpWriteBytes; OpAppendText; OpAppendBytes;
                                OpMkdir; OpUnlink; OpRmdir; OpRename] then true
  else if oc_op c =? OpOpen then
    match oc_mode c with
    | x :: _ => bool_decide (x = "w"%byte) || bool_decide (x = "a"%byte)
    | [] => false
    end
  else false.

Definition NullMessage (c : oscall) (dst : bool) : string :=
  let o := oc_op c in
  if o =? OpMkdir then "mkdir: embedded null character in path"
  else if o =? OpUnlink then "unlink: embedded null character in path"
  else if o =? OpRmdir then "rmdir: embedded null character in path"
  else if o =? OpStat then "stat: embedded null character in path"
  else if o =? OpIterdir then "scandir: embedded null character in path"
  else if o =? OpResolve then "lstat: embedded null character in path"
  else if o =? OpRename then
    if dst then "rename: embedded null character in dst"
    else "rename: embedded null character in src"
  else "embedded null byte".

Definition argPath (p : bytes) : value :=
  if bool_decide (p = []) then VPath [] else VPath (NormalizeVirtualPath p).

(** [OsCall.Args]: the positional and keyword arguments of the handler. *)
Definition Args (c : oscall) : list value * list (value * value) :=
  let o := oc_op c in
  if (OpExists <=? o) && (o <=? lastPathOnlyOp) then ([argPath (oc_path c)], [])
  else if (o =? OpWriteText) || (o =? OpAppendText) then ([argPath (oc_path c); VStr (oc_text c)], [])
  else if (o =? OpWriteBytes) || (o =? OpAppendBytes) then
    ([argPath (oc_path c); VBytes (oc_data c)], [])
  else if o =? OpOpen then ([argPath (oc_path c); VStr (oc_mode c)], [])
  else if o =? OpMkdir then
    ([argPath (oc_path c)], [(VStr (go "parents"), VBool (oc_parents c));
                             (VStr (go "exist_ok"), VBool (oc_existok c))])
  else if o =? OpRename then ([argPath (oc_path c); argPath (oc_dst c)], [])
  else if o =? OpGetenv then ([VStr (oc_key c); oc_default c], [])
  else if (o =? OpGetEnviron) || (o =? OpDateToday) then ([], [])
  else if o =? OpDateTimeNow then ([if oc_hastz c then VTimeZone (oc_tz c) else VNil], [])
  else ([], []).

Section oscall_decode.
Context `{PW : Protowire}.

(** The sub-message loops, one per call arm; each writes into the call. *)
Definition write_field (outer num typ : Z) (s : oscall * budget) (r : reader)
    : result (oscall * budget * reader) :=
  let '(c, bg) := s in
  if num =? 1 then let '(v, r) := r_str num typ r in Ok ((set_oc_path v c, bg), r)
  else if num =? 2 then
    let '(data, r) := r_bytes num typ r in
    bg ← charge bg (len data);
    Ok ((if outer <=? 15 then set_oc_text data c else set_oc_data data c, bg), r)
  else Ok ((c, bg), r_skip num typ r).

Definition open_field (num typ : Z) (c : oscall) (r : reader) : result (oscall * reader) :=
  if num =? 1 then let '(v, r) := r_str num typ r in Ok (set_oc_path v c, r)
  else if num =? 2 then let '(v, r) := r_str num typ r in Ok (set_oc_mode v c, r)
  else Ok (c, r_skip num typ r).

Definition mkdir_field (num typ : Z) (c : oscall) (r : reader) : result (oscall * reader) :=
  if num =? 1 then let '(v, r) := r_str num typ r in Ok (set_oc_path v c, r)
  else if num =? 2 then let '(v, r) := r_varint num typ r in Ok (set_oc_parents (negb (v =? 0)) c, r)
  else if num =? 3 then let '(v, r) := r_varint num typ r in Ok (set_oc_existok (negb (v =? 0)) c, r)
  else Ok (c, r_skip num typ r).

Definition rename_field (num typ : Z) (c : oscall) (r : reader) : result (oscall * reader) :=
  if num =? 1 then let '(v, r) := r_str num typ r in Ok (set_oc_path v c, r)
  else if num =? 2 then let '(v, r) := r_str num typ r in Ok (set_oc_dst v c, r)
  else Ok (c, r_skip num typ r).

Definition getenv_field (num typ : Z) (s : oscall * budget) (r : reader)
    : result (oscall * budget * reader) :=
  let '(c, bg) := s in
  if num =? 1 then let '(v, r) := r_str num typ r in Ok ((set_oc_key v c, bg), r)
  else if num =? 2 then
    let '(m, r) := r_bytes num typ r in
    '(v, bg) ← decodeValue m bg 1;
    Ok ((set_oc_default v c, bg), r)
  else Ok ((c, bg), r_skip num typ r).

Definition now_field (num typ : Z) (c : oscall) (r : reader) : result (oscall * reader) :=
  if num =? 1 then
    let '(m, r) := r_bytes num typ r in
    tz ← decodeTimeZone m;
    Ok (set_oc_hastz true (set_oc_tz tz c), r)
  else Ok (c, r_skip num typ r).

(** The switch of [decodeOsCall]. *)
Definition oscall_field (num typ : Z) (s : oscall * budget) (r : reader)
    : result (oscall * budget * reader) :=
  let '(c, bg) := s in
  if num =? 1 then
    let '(v, r) := r_varint num typ r in Ok ((set_oc_callid (uint32 v) c, bg), r)
  else if (2 <=? num) && (num <=? 13) then
    let '(v, r) := r_str num typ r in Ok ((set_oc_path v (set_oc_op num c), bg), r)
  else if (14 <=? num) && (num <=? 17) then
    let '(m, r) := r_bytes num typ r in
    '(c, bg) ← checked (each_field (write_field num) (set_oc_op num c, bg) (new_reader m));
    Ok ((c, bg), r)
  else if num =? 18 then
    let '(m, r) := r_bytes num typ r in
    c ← checked (each_field open_field (set_oc_op OpOpen c) (new_reader m));
    Ok ((if negb (validHandleMode (oc_mode c))
         then set_oc_payloaderr (Some (Errorf "invalid open mode %q" [FStr (oc_mode c)])) c
         else c, bg), r)
  else if num =? 19 then
    let '(m, r) := r_bytes num typ r in
    c ← checked (each_field mkdir_field (set_oc_op OpMkdir c) (new_reader m));
    Ok ((c, bg), r)
  else if num =? 20 then
    let '(m, r) := r_bytes num typ r in
    c ← checked (each_field rename_field (set_oc_op OpRename c) (new_reader m));
    Ok ((c, bg), r)
  else if num =? 21 then
    let '(m, r) := r_bytes num typ r in
    '(c, bg) ← checked (each_field getenv_field (set_oc_op OpGetenv c, bg) (new_reader m));
    Ok ((c, bg), r)
  else if (num =? 22) || (num =? 23) then
    let '(_, r) := r_bytes num typ r in Ok ((set_oc_op num c, bg), r)
  else if num =? 24 then
    let '(m, r) := r_bytes num typ r in
    c ← checked (each_field now_field (set_oc_op OpDateTimeNow c) (new_reader m));
    Ok ((c, bg), r)
  else Ok ((c, bg), r_skip num typ r).

Definition decodeOsCall (msg : bytes) (bg : budget) : result (oscall * budget) :=
  checked (each_field oscall_field (new_oscall, bg) (new_reader msg)).
End oscall_decode.

(** ** Events (event.go) *)

Inductive eventkind :=
| EventNone | EventPrint | EventFunctionCall | EventOsCall | EventNameLookup
| EventResolveFutures | EventComplete | EventError | EventTypingError
| EventDumpResult | EventOk | EventFatalError | EventShutdown.

#[export] Instance eventkind_eq_decision : EqDecision eventkind.
Proof. solve_decision. Defined.

(** [EventKind.String] *)
Definition eventName (k : eventkind) : string :=
  match k with
  | EventNone => "None" | EventPrint => "Print" | EventFunctionCall => "FunctionCall"
  | EventOsCall => "OsCall" | EventNameLookup => "NameLookup"
  | EventResolveFutures => "ResolveFutures" | EventComplete => "Complete"
  | EventError => "Error" | EventTypingError => "TypingError" | EventDumpResult => "DumpResult"
  | EventOk => "Ok" | EventFatalError => "FatalError" | EventShutdown => "ShutdownDump"
  end.

Record printsegment := PrintSegment { ps_stream : Z; ps_text : bytes }.

Record funcall := FunctionCall {
  fc_name : bytes;
  fc_args : list value;
  fc_kwargs : list (value * value);
  fc_callid : Z;
  fc_objectid : bytes;
  fc_eager : bool }.

Definition set_fc_name (v : bytes) (r : funcall) : funcall :=
  FunctionCall v (fc_args r) (fc_kwargs r) (fc_callid r) (fc_objectid r) (fc_eager r).
Definition set_fc_args (v : list value) (r : funcall) : funcall :=
  FunctionCall (fc_name r) v (fc_kwargs r) (fc_callid r) (fc_objectid r) (fc_eager r).
Definition set_fc_kwargs (v : list (value * value)) (r : funcall) : funcall :=
  FunctionCall (fc_name r) (fc_args r) v (fc_callid r) (fc_objectid r) (fc_eager r).
Definition set_fc_callid (v : Z) (r : funcall) : funcall :=
  FunctionCall (fc_name r) (fc_args r) (fc_kwargs r) v (fc_objectid r) (fc_eager r).
Definition set_fc_objectid (v : bytes) (r : funcall) : funcall :=
  FunctionCall (fc_name r) (fc_args r) (fc_kwargs r) (fc_callid r) v (fc_eager r).
Definition set_fc_eager (v : bool) (r : funcall) : funcall :=
  FunctionCall (fc_name r) (fc_args r) (fc_kwargs r) (fc_callid r) (fc_objectid r) v.

Record namelookup := NameLookup { nl_name : bytes; nl_objectid : bytes }.

Record event := Event {
  ev_kind : eventkind;
  ev_print : list printsegment;
  ev_funcall : option funcall;
  ev_oscall : option oscall;
  ev_namelookup : option namelookup;
  ev_pending : list Z;
  ev_value : value;
  ev_hasvalue : bool;
  ev_exception : option wexception;
  ev_diagnostics : bytes;
  ev_state : bytes;
  ev_fatal : bytes;
  ev_dump : bytes;
  ev_hasdump : bool;
  ev_micros : Z;
  ev_maxduration : option Z;
  ev_restored : option bytes;
  ev_maxsusp : option Z }.

Definition set_ev_kind (v : eventkind) (r : event) : event :=
  Event v (ev_print r) (ev_funcall r) (ev_oscall r) (ev_namelookup r) (ev_pending r) (ev_value r) (ev_hasvalue r) (ev_exception r) (ev_diagnostics r) (ev_state r) (ev_fatal r) (ev_dump r) (ev_hasdump r) (ev_micros r) (ev_maxduration r) (ev_restored r) (ev_maxsusp r).
Definition set_ev_print (v : list printsegment) (r : event) : event :=
  Event (ev_kind r) v (ev_funcall r) (ev_oscall r) (ev_namelookup r) (ev_pending r) (ev_value r) (ev_hasvalue r) (ev_exception r) (ev_diagnostics r) (ev_state r) (ev_fatal r) (ev_dump r) (ev_hasdump r) (ev_micros r) (ev_maxduration r) (ev_restored r) (ev_maxsusp r).
Definition set_ev_funcall (v : option funcall) (r : event) : event :=
  Event (ev_kind r) (ev_print r) v (ev_oscall r) (ev_namelookup r) (ev_pending r) (ev_value r) (ev_hasvalue r) (ev_exception r) (ev_diagnostics r) (ev_state r) (ev_fatal r) (ev_dump r) (ev_hasdump r) (ev_micros r) (ev_maxduration r) (ev_restored r) (ev_maxsusp r).
Definition set_ev_oscall (v : option oscall) (r : event) : event :=
  Event (ev_kind r) (ev_print r) (ev_funcall r) v (ev_namelookup r) (ev_pending r) (ev_value r) (ev_hasvalue r) (ev_exception r) (ev_diagnostics r) (ev_state r) (ev_fatal r) (ev_dump r) (ev_hasdump r) (ev_micros r) (ev_maxduration r) (ev_restored r) (ev_maxsusp r).
Definition set_ev_namelookup (v : option namelookup) (r : event) : event :=
  Event (ev_kind r) (ev_print r) (ev_funcall r) (ev_oscall r) v (ev_pending r) (ev_value r) (ev_hasvalue r) (ev_exception r) (ev_diagnostics r) (ev_state r) (ev_fatal r) (ev_dump r) (ev_hasdump r) (ev_micros r) (ev_maxduration r) (ev_restored r) (ev_maxsusp r).
Definition set_ev_pending (v : list Z) (r : event) : event :=
  Event (ev_kind r) (ev_print r) (ev_funcall r) (ev_oscall r) (ev_namelookup r) v (ev_value r) (ev_hasvalue r) (ev_exception r) (ev_diagnostics r) (ev_state r) (ev_fatal r) (ev_dump r) (ev_hasdump r) (ev_micros r) (ev_maxduration r) (ev_restored r) (ev_maxsusp r).
Definition set_ev_value (v : value) (r : event) : event :=
  Event (ev_kind r) (ev_print r) (ev_funcall r) (ev_oscall r) (ev_namelookup r) (ev_pending r) v (ev_hasvalue r) (ev_exception r) (ev_diagnostics r) (ev_state r) (ev_fatal r) (ev_dump r) (ev_hasdump r) (ev_micros r) (ev_maxduration r) (ev_restored r) (ev_maxsusp r).
Definition set_ev_hasvalue (v : bool) (r : event) : event :=
  Event (ev_kind r) (ev_print r) (ev_funcall r) (ev_oscall r) (ev_namelookup r) (ev_pending r) (ev_value r) v (ev_exception r) (ev_diagnostics r) (ev_state r) (ev_fatal r) (ev_dump r) (ev_hasdump r) (ev_micros r) (ev_maxduration r) (ev_restored r) (ev_maxsusp r).
Definition set_ev_exception (v : option wexception) (r : event) : event :=
  Event (ev_kind r) (ev_print r) (ev_funcall r) (ev_oscall r) (ev_namelookup r) (ev_pending r) (ev_value r) (ev_hasvalue r) v (ev_diagnostics r) (ev_state r) (ev_fatal r) (ev_dump r) (ev_hasdump r) (ev_micros r) (ev_maxduration r) (ev_restored r) (ev_maxsusp r).
Definition set_ev_diagnostics (v : bytes) (r : event) : event :=
  Event (ev_kind r) (ev_print r) (ev_funcall r) (ev_oscall r) (ev_namelookup r) (ev_pending r) (ev_value r) (ev_hasvalue r) (ev_exception r) v (ev_state r) (ev_fatal r) (ev_dump r) (ev_hasdump r) (ev_micros r) (ev_maxduration r) (ev_restored r) (ev_maxsusp r).
Definition set_ev_state (v : bytes) (r : event) : event :=
  Event (ev_kind r) (ev_print r) (ev_funcall r) (ev_oscall r) (ev_namelookup r) (ev_pending r) (ev_value r) (ev_hasvalue r) (ev_exception r) (ev_diagnostics r) v (ev_fatal r) (ev_dump r) (ev_hasdump r) (ev_micros r) (ev_maxduration r) (ev_restored r) (ev_maxsusp r).
Definition set_ev_fatal (v : bytes) (r : event) : event :=
  Event (ev_kind r) (ev_print r) (ev_funcall r) (ev_oscall r) (ev_namelookup r) (ev_pending r) (ev_value r) (ev_hasvalue r) (ev_exception r) (ev_diagnostics r) (ev_state r) v (ev_dump r) (ev_hasdump r) (ev_micros r) (ev_maxduration r) (ev_restored r) (ev_maxsusp r).
Definition set_ev_dump (v : bytes) (r : event) : event :=
  Event (ev_kind r) (ev_print r) (ev_funcall r) (ev_oscall r) (ev_namelookup r) (ev_pending r) (ev_value r) (ev_hasvalue r) (ev_exception r) (ev_diagnostics r) (ev_state r) (ev_fatal r) v (ev_hasdump r) (ev_micros r) (ev_maxduration r) (ev_restored r) (ev_maxsusp r).
Definition set_ev_hasdump (v : bool) (r : event) : event :=
  Event (ev_kind r) (ev_print r) (ev_funcall r) (ev_oscall r) (ev_namelookup r) (ev_pending r) (ev_value r) (ev_hasvalue r) (ev_exception r) (ev_diagnostics r) (ev_state r) (ev_fatal r) (ev_dump r) v (ev_micros r) (ev_maxduration r) (ev_restored r) (ev_maxsusp r).
Definition set_ev_micros (v : Z) (r : event) : event :=
  Event (ev_kind r) (ev_print r) (ev_funcall r) (ev_oscall r) (ev_namelookup r) (ev_pending r) (ev_value r) (ev_hasvalue r) (ev_exception r) (ev_diagnostics r) (ev_state r) (ev_fatal r) (ev_dump r) (ev_hasdump r) v (ev_maxduration r) (ev_restored r) (ev_maxsusp r).
Definition set_ev_maxduration (v : option Z) (r : event) : event :=
  Event (ev_kind r) (ev_print r) (ev_funcall r) (ev_oscall r) (ev_namelookup r) (ev_pending r) (ev_value r) (ev_hasvalue r) (ev_exception r) (ev_diagnostics r) (ev_state r) (ev_fatal r) (ev_dump r) (ev_hasdump r) (ev_micros r) v (ev_restored r) (ev_maxsusp r).
Definition set_ev_restored (v : option bytes) (r : event) : event :=
  Event (ev_kind r) (ev_print r) (ev_funcall r) (ev_oscall r) (ev_namelookup r) (ev_pending r) (ev_value r) (ev_hasvalue r) (ev_exception r) (ev_diagnostics r) (ev_state r) (ev_fatal r) (ev_dump r) (ev_hasdump r) (ev_micros r) (ev_maxduration r) v (ev_maxsusp r).
Definition set_ev_maxsusp (v : option Z) (r : event) : event :=
  Event (ev_kind r) (ev_print r) (ev_funcall r) (ev_oscall r) (ev_namelookup r) (ev_pending r) (ev_value r) (ev_hasvalue r) (ev_exception r) (ev_diagnostics r) (ev_state r) (ev_fatal r) (ev_dump r) (ev_hasdump r) (ev_micros r) (ev_maxduration r) (ev_restored r) v.

Definition new_event : event :=
  Event EventNone [] None None None [] VNil false None [] [] [] [] false 0 None None None.

Definition IsSuspension (e : event) : bool :=
  match ev_kind e with
  | EventFunctionCall | EventOsCall | EventNameLookup | EventResolveFutures => true
  | _ => false
  end.

Section event_decode.
Context `{PW : Protowire}.

(** A message whose only field of interest is a string numbered 1. *)
Definition single_field (num typ : Z) (s : bytes) (r : reader) : result (bytes * reader) :=
  if num =? 1 then let '(v, r) := r_str num typ r in Ok (v, r)
  else Ok (s, r_skip num typ r).

Definition decodeSingleString (msg : bytes) : result bytes :=
  checked (each_field single_field [] (new_reader msg)).

Definition segment_field (num typ : Z) (s : printsegment) (r : reader)
    : result (printsegment * reader) :=
  if num =? 1 then
    let '(v, r) := r_varint num typ r in
    Ok (if v =? 2 then PrintSegment 2 (ps_text s) else s, r)
  else if num =? 2 then let '(v, r) := r_str num typ r in Ok (PrintSegment (ps_stream s) v, r)
  else Ok (s, r_skip num typ r).

Definition print_field (num typ : Z) (segs : list printsegment) (r : reader)
    : result (list printsegment * reader) :=
  if negb (num =? 3) then Ok (segs, r_skip num typ r)
  else
    let '(m, r) := r_bytes num typ r in
    seg ← checked (each_field segment_field (PrintSegment 1 []) (new_reader m));
    Ok (segs ++ [seg], r).

Definition decodePrint (msg : bytes) : result (list printsegment) :=
  checked (each_field print_field [] (new_reader msg)).

Definition funcall_field (num typ : Z) (s : funcall * budget) (r : reader)
    : result (funcall * budget * reader) :=
  let '(fc, bg) := s in
  if num =? 1 then let '(v, r) := r_str num typ r in Ok ((set_fc_name v fc, bg), r)
  else if num =? 2 then
    let '(m, r) := r_bytes num typ r in
    '(v, bg) ← decodeValue m bg 0;
    Ok ((set_fc_args (fc_args fc ++ [v]) fc, bg), r)
  else if num =? 3 then
    let '(m, r) := r_bytes num typ r in
    '(k, v, bg) ← decodePair decodeValue m bg 0;
    Ok ((set_fc_kwargs (fc_kwargs fc ++ [(k, v)]) fc, bg), r)
  else if num =? 4 then
    let '(v, r) := r_varint num typ r in Ok ((set_fc_callid (uint32 v) fc, bg), r)
  else if num =? 5 then
    let '(m, r) := r_bytes num typ r in
    id ← decodeUUIDMessage m;
    Ok ((set_fc_objectid id fc, bg), r)
  else if num =? 6 then
    let '(v, r) := r_varint num typ r in Ok ((set_fc_eager (negb (v =? 0)) fc, bg), r)
  else Ok ((fc, bg), r_skip num typ r).

Definition decodeFunctionCall (msg : bytes) (bg : budget) : result (funcall * budget) :=
  checked (each_field funcall_field (FunctionCall [] [] [] 0 [] false, bg) (new_reader msg)).

Definition namelookup_field (num typ : Z) (nl : namelookup) (r : reader)
    : result (namelookup * reader) :=
  if num =? 1 then let '(v, r) := r_str num typ r in Ok (NameLookup v (nl_objectid nl), r)
  else if num =? 2 then
    let '(m, r) := r_bytes num typ r in
    match decodeUUIDMessage m with
    | Err _ => Err (ErrNew "NameLookup.object_id is not a 16-byte uuid")
    | Ok id => Ok (NameLookup (nl_name nl) id, r)
    end
  else Ok (nl, r_skip num typ r).

Definition decodeNameLookup (msg : bytes) : result namelookup :=
  checked (each_field namelookup_field (NameLookup [] []) (new_reader msg)).

(** The inline loops of [DecodeEventWithBudget]. *)
Definition futures_field (num typ : Z) (ids : list Z) (r : reader) : result (list Z * reader) :=
  if num =? 1 then let '(ids, r) := uint32s num typ ids r in Ok (ids, r)
  else Ok (ids, r_skip num typ r).

Definition complete_field (num typ : Z) (s : event * budget) (r : reader)
    : result (event * budget * reader) :=
  let '(ev, bg) := s in
  if num =? 1 then
    let '(m, r) := r_bytes num typ r in
    '(v, bg) ← decodeValue m bg 0;
    Ok ((set_ev_hasvalue true (set_ev_value v ev), bg), r)
  else Ok ((ev, bg), r_skip num typ r).

Definition error_field (num typ : Z) (ev : event) (r : reader) : result (event * reader) :=
  if num =? 1 then
    let '(m, r) := r_bytes num typ r in
    e ← decodeException m;
    Ok (set_ev_exception (Some e) ev, r)
  else Ok (ev, r_skip num typ r).

Definition dump_field (num typ : Z) (ev : event) (r : reader) : result (event * reader) :=
  if num =? 1 then let '(v, r) := r_bytes num typ r in Ok (set_ev_state v ev, r)
  else Ok (ev, r_skip num typ r).

Definition shutdown_field (num typ : Z) (ev : event) (r : reader) : result (event * reader) :=
  if num =? 1 then
    let '(v, r) := r_bytes num typ r in Ok (set_ev_hasdump true (set_ev_dump v ev), r)
  else Ok (ev, r_skip num typ r).

(** The switch of [DecodeEventWithBudget]. *)
Definition event_field (num typ : Z) (s : event * budget) (r : reader)
    : result (event * budget * reader) :=
  let '(ev, bg) := s in
  let '(m, rs) := r_bytes num typ r in
  if num =? 1 then
    p ← decodePrint m; Ok ((set_ev_print p (set_ev_kind EventPrint ev), bg), rs)
  else if num =? 2 then
    '(fc, bg) ← decodeFunctionCall m bg;
    Ok ((set_ev_funcall (Some fc) (set_ev_kind EventFunctionCall ev), bg), rs)
  else if num =? 3 then
    '(oc, bg) ← decodeOsCall m bg;
    Ok ((set_ev_oscall (Some oc) (set_ev_kind EventOsCall ev), bg), rs)
  else if num =? 4 then
    nl ← decodeNameLookup m;
    Ok ((set_ev_namelookup (Some nl) (set_ev_kind EventNameLookup ev), bg), rs)
  else if num =? 5 then
    ids ← checked (each_field futures_field [] (new_reader m));
    Ok ((set_ev_pending ids (set_ev_kind EventResolveFutures ev), bg), rs)
  else if num =? 6 then
    '(ev, bg) ← checked (each_field complete_field (set_ev_kind EventComplete ev, bg) (new_reader m));
    Ok ((ev, bg), rs)
  else if num =? 7 then
    ev ← checked (each_field error_field (set_ev_kind EventError ev) (new_reader m));
    Ok ((ev, bg), rs)
  else if num =? 8 then
    s ← decodeSingleString m;
    Ok ((set_ev_diagnostics s (set_ev_kind EventTypingError ev), bg), rs)
  else if num =? 9 then
    ev ← checked (each_field dump_field (set_ev_kind EventDumpResult ev) (new_reader m));
    Ok ((ev, bg), rs)
  else if num =? 10 then Ok ((set_ev_kind EventOk ev, bg), rs)
  else if num =? 11 then
    s ← decodeSingleString m;
    Ok ((set_ev_fatal s (set_ev_kind EventFatalError ev), bg), rs)
  else if num =? 12 then
    ev ← checked (each_field shutdown_field (set_ev_kind EventShutdown ev) (new_reader m));
    Ok ((ev, bg), rs)
  else if num =? 20 then let '(v, r) := r_varint num typ r in Ok ((set_ev_micros v ev, bg), r)
  else if num =? 21 then
    let '(v, r) := r_varint num typ r in Ok ((set_ev_maxduration (Some v) ev, bg), r)
  else if num =? 22 then
    let '(v, r) := r_str num typ r in Ok ((set_ev_restored (Some v) ev, bg), r)
  else if num =? 23 then
    let '(v, r) := r_varint num typ r in Ok ((set_ev_maxsusp (Some v) ev, bg), r)
  else Ok ((ev, bg), r_skip num typ r).

Definition DecodeEventWithBudget (payload : bytes) (bg : budget) : result (event * budget) :=
  checked (each_field event_field (new_event, bg) (new_reader payload)).

Definition DecodeEvent (payload : bytes) : result (event * budget) :=
  DecodeEventWithBudget payload (NewBudget DefaultMaxDecodeBytes).
End event_decode.
