(* ===== verification/EventFacts.v ===== *)
(** Soundness of the event decoder on arbitrary frames, and facts about OS
    calls. *)

From S2P Require Import Prelude Utf8 GoStrings VPath Protowire Proto Values ValueCodec CodecSpec.
From S2P Require Import CodecRoundtrip CodecSound Exceptions Events.

(** ** Specification: what an event holds *)

(** Never-set fields hold Go's nil, which is not charged. *)
Definition held_cost (v : value) : Z := match v with VNil => 0 | _ => cost v end.

Definition fc_cost (fc : funcall) : Z := zsum (map cost (fc_args fc)) + dcost (fc_kwargs fc).
Definition oc_cost (c : oscall) : Z := held_cost (oc_default c) + len (oc_text c) + len (oc_data c).
Definition opt_sum {A} (f : A -> Z) (o : option A) : Z := match o with Some a => f a | None => 0 end.
Definition ev_cost (ev : event) : Z :=
  opt_sum fc_cost (ev_funcall ev) + opt_sum oc_cost (ev_oscall ev)
  + (if ev_hasvalue ev then cost (ev_value ev) else 0).

Definition fc_good (fc : funcall) : Prop :=
  Forall good (fc_args fc) /\ Forall (fun p => good p.1 /\ good p.2) (fc_kwargs fc).

Definition opt_all {A} (P : A -> Prop) (o : option A) : Prop :=
  match o with Some a => P a | None => True end.

Definition ev_good (ev : event) : Prop :=
  opt_all fc_good (ev_funcall ev) /\ opt_all (fun c => good (oc_default c)) (ev_oscall ev)
  /\ good (ev_value ev).

(** The payload a kind promises is there. *)
Definition kind_ok (ev : event) : Prop :=
  match ev_kind ev with
  | EventFunctionCall => is_Some (ev_funcall ev)
  | EventOsCall => is_Some (ev_oscall ev)
  | EventNameLookup => is_Some (ev_namelookup ev)
  | _ => True
  end.

(** ** Shrinking *)

Section handlers.
Context `{PW : Protowire} `{!ProtowireLaws PW}.

Lemma write_shrinking n : shrinking (write_field n).
Proof using Type. unfold write_field. solve_shrinking. Qed.
Lemma open_shrinking : shrinking open_field.
Proof using Type. unfold open_field. solve_shrinking. Qed.
Lemma mkdir_shrinking : shrinking mkdir_field.
Proof using Type. unfold mkdir_field. solve_shrinking. Qed.
Lemma rename_shrinking : shrinking rename_field.
Proof using Type. unfold rename_field. solve_shrinking. Qed.
Lemma getenv_shrinking : shrinking getenv_field.
Proof using Type. unfold getenv_field. solve_shrinking. Qed.
Lemma now_shrinking : shrinking now_field.
Proof using Type. unfold now_field. solve_shrinking. Qed.

(** For switches whose arms hand on the reader [r_bytes] left. *)
Ltac shrink_arms H :=
  repeat match type of H with
  | (if ?c then _ else _) = _ => destruct c
  | (let '(_, _) := ?x in _) = _ => destruct x eqn:?
  | (?m ≫= _) = Ok _ => destruct m eqn:?; cbn [mbind result_mbind] in H; [|done]
  end; simplify_eq/=; unfold r_str in *; eauto with shrink.

Lemma oscall_shrinking : shrinking oscall_field.
Proof using Type. intros num typ [c bg] r s' r' H. unfold oscall_field in H. shrink_arms H. Qed.
Lemma funcall_shrinking : shrinking funcall_field.
Proof using Type. intros num typ [c bg] r s' r' H. unfold funcall_field in H. shrink_arms H. Qed.
Lemma complete_shrinking : shrinking complete_field.
Proof using Type. intros num typ [c bg] r s' r' H. unfold complete_field in H. shrink_arms H. Qed.
Lemma error_shrinking : shrinking error_field.
Proof using Type. intros num typ c r s' r' H. unfold error_field in H. shrink_arms H. Qed.
Lemma dump_shrinking : shrinking dump_field.
Proof using Type. intros num typ c r s' r' H. unfold dump_field in H. shrink_arms H. Qed.
Lemma shutdown_shrinking : shrinking shutdown_field.
Proof using Type. intros num typ c r s' r' H. unfold shutdown_field in H. shrink_arms H. Qed.
Lemma event_shrinking : shrinking event_field.
Proof using Type. intros num typ [c bg] r s' r' H. unfold event_field in H. shrink_arms H. Qed.
End handlers.
#[export] Hint Resolve write_shrinking open_shrinking mkdir_shrinking rename_shrinking
  getenv_shrinking now_shrinking oscall_shrinking funcall_shrinking complete_shrinking
  error_shrinking dump_shrinking shutdown_shrinking event_shrinking : shrink.

(** ** Invariants *)

Section sound.
Context `{PW : Protowire} `{!ProtowireLaws PW}.

Lemma decodeValue_sound : sound_decoder decodeValue.
Proof. intros m bg depth v bg' Hm Hb H. by eapply decodeValue_fuel_sound. Qed.

Lemma held_cost_le v : 0 <= held_cost v <= cost v.
Proof using Type.
  pose proof (cost_nonneg v). unfold nodeHostSize in *. destruct v; cbn [held_cost] in *; try lia.
Qed.

Lemma oc_cost_nonneg c : 0 <= oc_cost c.
Proof using Type.
  unfold oc_cost. pose proof (held_cost_le (oc_default c)). pose proof (len_nonneg (oc_text c)).
  pose proof (len_nonneg (oc_data c)). lia.
Qed.

Lemma fc_cost_nonneg fc : 0 <= fc_cost fc.
Proof using Type.
  unfold fc_cost. pose proof (zsum_cost_nonneg (fc_args fc)). pose proof (dcost_nonneg (fc_kwargs fc)). lia.
Qed.

(** The loop invariant of [decodeFunctionCall]. *)
Lemma decodeFunctionCall_sound m bg fc bg' :
  len m < 2 ^ 63 -> affords bg 0 -> decodeFunctionCall m bg = Ok (fc, bg') ->
  fc_good fc /\ paid bg (fc_cost fc) bg'.
Proof.
  intros Hm Hb H. unfold decodeFunctionCall in H.
  apply (decoder_inv _ (fun s => fc_good s.1 /\ paid bg (fc_cost s.1) s.2)) in H;
    [done|auto with shrink| |split; [by split|by apply paid_refl]].
  intros num typ [c b] r s' r' Hr [[Ha Hk] Hp] E. cbn [fst snd] in *. unfold funcall_field in E.
  destruct (r_bytes num typ r) as [x r1] eqn:Em. apply r_bytes_len in Em.
  repeat match type of E with (if ?c then _ else _) = _ => destruct c end;
    repeat match type of E with (let '(_, _) := ?y in _) = _ => destruct y end;
    simplify_eq; try done.
  - destruct (decodeValue x b 0) as [[v b2]|] eqn:Ev; cbn in E; [|done]. simplify_eq.
    apply decodeValue_sound in Ev as (Hg & _ & Hp2); [|lia|apply Hp]. cbn [fst snd]. split.
    + split; [|done]. by apply Forall_app_2, Forall_singleton.
    + unfold fc_cost in *. cbn [fc_args fc_kwargs set_fc_args]. rewrite zsum_snoc.
      eapply paid_le; [|apply (paid_trans _ _ _ _ _ Hp Hp2)]. lia.
  - destruct (decodePair decodeValue x b 0) as [[[k v] b2]|] eqn:Ev; cbn in E; [|done]. simplify_eq.
    apply (decodePair_sound _ decodeValue_sound) in Ev as (Hg1 & Hg2 & _ & Hp2); [|lia|apply Hp].
    cbn [fst snd]. split.
    + split; [done|]. by apply Forall_app_2, Forall_singleton.
    + unfold fc_cost, dcost in *. cbn [fc_args fc_kwargs set_fc_kwargs]. rewrite zsum_snoc.
      eapply paid_le; [|apply (paid_trans _ _ _ _ _ Hp Hp2)]. cbn. lia.
  - destruct (decodeUUIDMessage x); cbn in E; [|done]. by simplify_eq.
Qed.

Definition oc_inv (bg : budget) (s : oscall * budget) : Prop :=
  good (oc_default s.1) /\ paid bg (oc_cost s.1) s.2.

Lemma write_loop_sound n m bg c b c' b' : len m < 2 ^ 63 -> oc_inv bg (c, b) ->
  checked (each_field (write_field n) (c, b) (new_reader m)) = Ok (c', b') -> oc_inv bg (c', b').
Proof.
  intros Hm Hi H. apply (decoder_inv _ (oc_inv bg)) in H; [done|auto with shrink| |done].
  intros num typ [c1 b1] r s' r' Hr [Hg Hp] E. cbn [fst snd] in *. unfold write_field in E.
  destruct (r_bytes num typ r) as [x r1] eqn:Em. apply r_bytes_len in Em.
  destruct (num =? 1); [destruct (r_str num typ r); by simplify_eq|].
  destruct (num =? 2); [|by simplify_eq].
  destruct (charge b1 (len x)) as [b2|] eqn:Ec; cbn in E; [|done]. simplify_eq.
  pose proof (len_nonneg x). apply charge_paid in Ec; [|apply Hp|lia].
  pose proof (paid_trans _ _ _ _ _ Hp Ec) as Hp2.
  pose proof (len_nonneg (oc_text c1)). pose proof (len_nonneg (oc_data c1)).
  unfold oc_inv, oc_cost in *. cbn [fst snd].
  destruct (n <=? 15); cbn [set_oc_text set_oc_data oc_default oc_text oc_data];
    (split; [done|eapply paid_le; [|exact Hp2]; lia]).
Qed.

Lemma getenv_loop_sound m bg c b c' b' : len m < 2 ^ 63 -> oc_inv bg (c, b) ->
  checked (each_field getenv_field (c, b) (new_reader m)) = Ok (c', b') -> oc_inv bg (c', b').
Proof.
  intros Hm Hi H. apply (decoder_inv _ (oc_inv bg)) in H; [done|auto with shrink| |done].
  intros num typ [c1 b1] r s' r' Hr [Hg Hp] E. cbn [fst snd] in *. unfold getenv_field in E.
  destruct (r_bytes num typ r) as [x r1] eqn:Em. apply r_bytes_len in Em.
  destruct (num =? 1); [destruct (r_str num typ r); by simplify_eq|].
  destruct (num =? 2); [|by simplify_eq].
  destruct (decodeValue x b1 1) as [[v b2]|] eqn:Ev; cbn in E; [|done]. simplify_eq.
  apply decodeValue_sound in Ev as (Hgv & _ & Hp2); [|lia|apply Hp].
  pose proof (paid_trans _ _ _ _ _ Hp Hp2) as Hp3. pose proof (held_cost_le v).
  pose proof (held_cost_le (oc_default c1)).
  split; [done|]. cbn [fst snd]. unfold oc_cost in *.
  cbn [set_oc_default oc_default oc_text oc_data]. eapply paid_le; [|exact Hp3]. lia.
Qed.

(** The arms that decode no value leave the charged fields alone. *)
Definition same_held (c c' : oscall) : Prop :=
  oc_default c' = oc_default c /\ oc_text c' = oc_text c /\ oc_data c' = oc_data c.

Lemma same_held_inv bg c c' b : same_held c c' -> oc_inv bg (c, b) -> oc_inv bg (c', b).
Proof using Type.
  intros (Hd & Ht & Hb) [Hg Hp]. unfold oc_inv, oc_cost in *. cbn [fst snd] in *.
  by rewrite Hd, Ht, Hb.
Qed.

Ltac pure_loop H c :=
  apply (decoder_inv _ (same_held c)) in H;
    [done|auto with shrink| |by repeat split];
  intros num typ c1 r s' r' Hr Hs E;
  unfold open_field, mkdir_field, rename_field, now_field, error_field, dump_field,
    shutdown_field in E;
  repeat match type of E with
  | (if ?c then _ else _) = _ => destruct c
  | (let '(_, _) := ?y in _) = _ => destruct y
  | (?m ≫= _) = Ok _ => destruct m; cbn [mbind result_mbind] in E; [|done]
  end; by simplify_eq.

Lemma open_loop_held m c c' :
  checked (each_field open_field c (new_reader m)) = Ok c' -> same_held c c'.
Proof. intros H. pure_loop H c. Qed.
Lemma mkdir_loop_held m c c' :
  checked (each_field mkdir_field c (new_reader m)) = Ok c' -> same_held c c'.
Proof. intros H. pure_loop H c. Qed.
Lemma rename_loop_held m c c' :
  checked (each_field rename_field c (new_reader m)) = Ok c' -> same_held c c'.
Proof. intros H. pure_loop H c. Qed.
Lemma now_loop_held m c c' :
  checked (each_field now_field c (new_reader m)) = Ok c' -> same_held c c'.
Proof. intros H. pure_loop H c. Qed.

Lemma oscall_field_sound bg (msg : bytes) num typ s r s' r' :
  len msg < 2 ^ 63 -> len (rb r) <= len msg -> oc_inv bg s ->
  oscall_field num typ s r = Ok (s', r') -> oc_inv bg s'.
Proof.
  intros Hm Hr Hi E. destruct s as [c b]. unfold oscall_field in E.
  destruct (r_bytes num typ r) as [x r1] eqn:Em. apply r_bytes_len in Em.
  assert (forall n, same_held c (set_oc_op n c)) as Hop by (by intros).
  repeat match type of E with (if ?c then _ else _) = _ => destruct c end;
    repeat match type of E with (let '(_, _) := ?y in _) = _ => destruct y end;
    simplify_eq; try (by eapply same_held_inv; [|exact Hi]).
  - destruct (checked _) as [[c2 b2]|] eqn:Ec; cbn in E; [|done]. simplify_eq.
    eapply write_loop_sound in Ec; [done|lia|by eapply same_held_inv].
  - destruct (checked _) as [c2|] eqn:Ec; cbn in E; [|done]. simplify_eq.
    apply open_loop_held in Ec. eapply same_held_inv; [|exact Hi].
    destruct (negb _); exact Ec.
  - destruct (checked _) as [c2|] eqn:Ec; cbn in E; [|done]. simplify_eq.
    apply mkdir_loop_held in Ec. by eapply same_held_inv; [|exact Hi].
  - destruct (checked _) as [c2|] eqn:Ec; cbn in E; [|done]. simplify_eq.
    apply rename_loop_held in Ec. by eapply same_held_inv; [|exact Hi].
  - destruct (checked _) as [[c2 b2]|] eqn:Ec; cbn in E; [|done]. simplify_eq.
    eapply getenv_loop_sound in Ec; [done|lia|by eapply same_held_inv].
  - destruct (checked _) as [c2|] eqn:Ec; cbn in E; [|done]. simplify_eq.
    apply now_loop_held in Ec. by eapply same_held_inv; [|exact Hi].
Qed.

Lemma decodeOsCall_sound m bg c bg' :
  len m < 2 ^ 63 -> affords bg 0 -> decodeOsCall m bg = Ok (c, bg') ->
  good (oc_default c) /\ paid bg (oc_cost c) bg'.
Proof.
  intros Hm Hb H. unfold decodeOsCall in H.
  apply (decoder_inv _ (oc_inv bg)) in H; [done|auto with shrink| |].
  - intros. by eapply oscall_field_sound.
  - split; [done|by apply paid_refl].
Qed.

(** ** The event *)

Definition ev_inv (bg : budget) (s : event * budget) : Prop :=
  ev_good s.1 /\ kind_ok s.1 /\ paid bg (ev_cost s.1) s.2.

(** Updates that touch no value. *)
Definition same_values (ev ev' : event) : Prop :=
  ev_funcall ev' = ev_funcall ev /\ ev_oscall ev' = ev_oscall ev
  /\ ev_value ev' = ev_value ev /\ ev_hasvalue ev' = ev_hasvalue ev.

Lemma same_values_inv bg ev ev' b :
  same_values ev ev' -> kind_ok ev' -> ev_inv bg (ev, b) -> ev_inv bg (ev', b).
Proof using Type.
  intros (H1 & H2 & H3 & H4) Hk (Hg & _ & Hp). unfold ev_inv, ev_good, ev_cost in *.
  cbn [fst snd] in *. by rewrite H1, H2, H3, H4.
Qed.

Lemma opt_sum_nonneg {A} (f : A -> Z) o : (forall a, 0 <= f a) -> 0 <= opt_sum f o.
Proof using Type. intros Hf. destruct o; [apply Hf|done]. Qed.

Lemma ev_cost_parts ev :
  0 <= opt_sum fc_cost (ev_funcall ev) /\ 0 <= opt_sum oc_cost (ev_oscall ev)
  /\ 0 <= (if ev_hasvalue ev then cost (ev_value ev) else 0).
Proof using Type.
  split_and!; [apply opt_sum_nonneg, fc_cost_nonneg|apply opt_sum_nonneg, oc_cost_nonneg|].
  pose proof (cost_nonneg (ev_value ev)). unfold nodeHostSize in *. destruct (ev_hasvalue ev); lia.
Qed.

Lemma complete_loop_sound m bg ev b ev' b' : len m < 2 ^ 63 ->
  ev_kind ev = EventComplete -> ev_inv bg (ev, b) ->
  checked (each_field complete_field (ev, b) (new_reader m)) = Ok (ev', b') -> ev_inv bg (ev', b').
Proof.
  intros Hm Hk Hi H.
  apply (decoder_inv _ (fun s => ev_kind s.1 = EventComplete /\ ev_inv bg s)) in H;
    [by destruct H|auto with shrink| |done].
  intros num typ [e1 b1] r s' r' Hr [Hk1 ((Hg1 & Hg2 & Hg3) & Hkk & Hp)] E.
  cbn [fst snd] in *. unfold complete_field in E.
  destruct (r_bytes num typ r) as [x r1] eqn:Em. apply r_bytes_len in Em.
  destruct (num =? 1); [|by simplify_eq].
  destruct (decodeValue x b1 0) as [[v b2]|] eqn:Ev; cbn in E; [|done]. simplify_eq.
  apply decodeValue_sound in Ev as (Hgv & _ & Hp2); [|lia|apply Hp].
  split; [done|]. split; [done|]. split; [unfold kind_ok; cbn; by rewrite Hk1|].
  pose proof (ev_cost_parts e1) as (? & ? & ?). unfold ev_cost in *.
  cbn [fst snd ev_funcall ev_oscall ev_hasvalue ev_value set_ev_hasvalue set_ev_value] in *.
  eapply paid_le; [|apply (paid_trans _ _ _ _ _ Hp Hp2)]. lia.
Qed.

Ltac pure_event_loop H ev :=
  apply (decoder_inv _ (fun x => same_values ev x /\ ev_kind x = ev_kind ev)) in H;
    [done|auto with shrink| |by repeat split];
  intros num typ c1 r s' r' Hr Hs E;
  unfold open_field, mkdir_field, rename_field, now_field, error_field, dump_field,
    shutdown_field in E;
  repeat match type of E with
  | (if ?c then _ else _) = _ => destruct c
  | (let '(_, _) := ?y in _) = _ => destruct y
  | (?m ≫= _) = Ok _ => destruct m; cbn [mbind result_mbind] in E; [|done]
  end; by simplify_eq.

Lemma error_loop_same m ev ev' :
  checked (each_field error_field ev (new_reader m)) = Ok ev' ->
  same_values ev ev' /\ ev_kind ev' = ev_kind ev.
Proof. intros H. pure_event_loop H ev. Qed.
Lemma dump_loop_same m ev ev' :
  checked (each_field dump_field ev (new_reader m)) = Ok ev' ->
  same_values ev ev' /\ ev_kind ev' = ev_kind ev.
Proof. intros H. pure_event_loop H ev. Qed.
Lemma shutdown_loop_same m ev ev' :
  checked (each_field shutdown_field ev (new_reader m)) = Ok ev' ->
  same_values ev ev' /\ ev_kind ev' = ev_kind ev.
Proof. intros H. pure_event_loop H ev. Qed.

Lemma event_field_sound bg (msg : bytes) num typ s r s' r' :
  len msg < 2 ^ 63 -> len (rb r) <= len msg -> ev_inv bg s ->
  event_field num typ s r = Ok (s', r') -> ev_inv bg s'.
Proof.
  intros Hm Hr Hi E. destruct s as [ev b]. unfold event_field in E.
  destruct (r_bytes num typ r) as [x r1] eqn:Em. apply r_bytes_len in Em.
  pose proof Hi as ((Hg1 & Hg2 & Hg3) & Hk & Hp). cbn [fst snd] in *.
  pose proof (ev_cost_parts ev) as (? & ? & ?).
  repeat match type of E with (if ?c then _ else _) = _ => destruct c end;
    repeat match type of E with (let '(_, _) := ?y in _) = _ => destruct y end;
    simplify_eq; try (by eapply same_values_inv; [| |exact Hi]);
    match type of E with
    | (?m ≫= _) = Ok _ => destruct m as [y|] eqn:Ec; cbn [mbind result_mbind] in E; [|done]
    | _ => idtac
    end; repeat match type of E with (let '(_, _) := ?y in _) = _ => destruct y end;
    simplify_eq; try (by eapply same_values_inv; [| |exact Hi]).
  - apply decodeFunctionCall_sound in Ec as [Hf Hp2]; [|lia|apply Hp].
    split; [done|]. split; [by eexists|]. unfold ev_cost in *. cbn in Hp |- *.
    eapply paid_le; [|apply (paid_trans _ _ _ _ _ Hp Hp2)]. lia.
  - apply decodeOsCall_sound in Ec as [Hf Hp2]; [|lia|apply Hp].
    split; [done|]. split; [by eexists|]. unfold ev_cost in *. cbn in Hp |- *.
    eapply paid_le; [|apply (paid_trans _ _ _ _ _ Hp Hp2)]. lia.
  - eapply same_values_inv; [| |exact Hi]; [done|by eexists].
  - eapply complete_loop_sound in Ec; [done|lia|done|].
    by eapply same_values_inv; [| |exact Hi].
  - apply error_loop_same in Ec as [Hs Hk2]. apply (same_values_inv _ ev); [exact Hs| |exact Hi].
    unfold kind_ok. by rewrite Hk2.
  - apply dump_loop_same in Ec as [Hs Hk2]. apply (same_values_inv _ ev); [exact Hs| |exact Hi].
    unfold kind_ok. by rewrite Hk2.
  - apply shutdown_loop_same in Ec as [Hs Hk2]. apply (same_values_inv _ ev); [exact Hs| |exact Hi].
    unfold kind_ok. by rewrite Hk2.
Qed.
End sound.

Lemma event_decoded `{PW : Protowire} `{!ProtowireLaws PW}
    (payload : bytes) (r : Z) (ev : event) (bg' : budget) :
  len payload < 2 ^ 63 -> 0 <= r < 2 ^ 63 ->
  DecodeEventWithBudget payload (NewBudget r) = Ok (ev, bg') -> ev_inv (NewBudget r) (ev, bg').
Proof.
  intros Hl Hr H. unfold DecodeEventWithBudget in H.
  apply (decoder_inv _ (ev_inv (NewBudget r))) in H; [done|auto with shrink| |].
  - intros. by eapply event_field_sound.
  - split; [|split]; [done|done|]. by apply paid_refl.
Qed.

(** C28. Soundness of the event decoder on any frame: a decoded ChildEvent has
    the payload its kind promises (so dispatching on the kind never meets a nil
    payload), every value in it is well formed and canonical, and all of them
    together, with the text of OS calls, were paid for from the decode budget,
    which never goes negative. *)
Theorem event_decode_sound `{PW : Protowire} `{!ProtowireLaws PW}
    (payload : bytes) (r : Z) (ev : event) (bg' : budget) :
  len payload < 2 ^ 63 -> 0 <= r < 2 ^ 63 ->
  DecodeEventWithBudget payload (NewBudget r) = Ok (ev, bg') ->
  kind_ok ev /\ ev_good ev
  /\ exists r', bg' = Some r' /\ 0 <= r' /\ r' + ev_cost ev <= r.
Proof.
  intros Hl Hr H. destruct (event_decoded _ _ _ _ Hl Hr H) as (Hg & Hk & Hb & Hp).
  cbn [fst snd] in *. destruct bg' as [r'|]; [|done]. cbn in Hb, Hp.
  split_and!; [done|done|]. exists r'. split_and!; [done|lia|done].
Qed.

(** The frame of a function call [f(7, k=True)]. *)
Definition sample_event : bytes :=
  appendMessage (PW := pwref) [] 2
    (appendMessage (PW := pwref) (appendMessage (PW := pwref)
       (appendStringField (PW := pwref) [] 1 (go "f")) 2 (appendInt (PW := pwref) [] 7)) 3
       (appendMessage (PW := pwref) (appendMessage (PW := pwref) [] 1
          (appendStringAlways (PW := pwref) [] 8 (go "k"))) 2
          (AppendVarint (Protowire := pwref) (AppendTag (Protowire := pwref) [] 4 VarintType) 1))).

Lemma event_decode_sound_witness :
  exists ev bg', DecodeEventWithBudget (PW := pwref) sample_event (NewBudget 1000) = Ok (ev, bg')
    /\ ev_kind ev = EventFunctionCall /\ is_Some (ev_funcall ev) /\ ev_good ev.
Proof.
  eexists _, _. split; [vm_compute; reflexivity|]. split; [reflexivity|].
  match goal with |- is_Some (ev_funcall ?e) /\ _ =>
    destruct (event_decode_sound (PW := pwref) sample_event 1000 e (Some 735)) as (Hk & Hg & _) end.
  - vm_compute. reflexivity.
  - lia.
  - vm_compute. reflexivity.
  - split; [exact Hk|exact Hg].
Defined.

(** ** OS calls *)

(** A path argument as a handler receives it: empty, or normalised. *)
Definition path_arg_ok (v : value) : Prop :=
  exists p, v = VPath p /\ (p = [] \/ isNormalizedVirtualPath p = true).

Lemma argPath_ok p : path_arg_ok (argPath p).
Proof.
  unfold argPath. destruct (bool_decide (p = [])); eexists; (split; [done|]); [by left|right].
  apply isNormalized_spec. exists (resolve p). destruct (Normalize_spec p). by split.
Qed.

(** What an OS handler is called with: every filesystem call passes its
    path first, empty or normalised (so no [..] reaches a handler), and a rename
    passes its destination the same way; every write is a filesystem call, and
    an existence check is a filesystem call that does not write. *)
Theorem oscall_args (c : oscall) :
  (if IsFS c then
     exists v rest, (Args c).1 = v :: rest /\ path_arg_ok v
     /\ (if oc_op c =? OpRename then exists w, rest = [w] /\ path_arg_ok w else True)
   else IsWrite c = false /\ IsExistenceCheck c = false)
  /\ (IsExistenceCheck c && IsWrite c = false).
Proof.
  pose proof (argPath_ok (oc_path c)) as Hp. pose proof (argPath_ok (oc_dst c)) as Hd.
  unfold IsFS, IsExistenceCheck, Args, IsWrite.
  unfold firstFSOp, lastFSOp, lastPathOnlyOp, OpExists, OpRename, OpRmdir, OpIsSymlink, OpWriteText,
    OpAppendText, OpWriteBytes, OpAppendBytes, OpOpen, OpMkdir, OpUnlink, OpGetenv, OpGetEnviron,
    OpDateToday, OpDateTimeNow in *.
  split.
  - destruct ((2 <=? oc_op c) && (oc_op c <=? 20)) eqn:E.
    + assert (oc_op c ∈ seqZ 2 19) as Hin by (apply elem_of_seqZ; lia).
      remember (oc_op c) as o. clear Heqo E.
      change (seqZ 2 19) with [2; 3; 4; 5; 6; 7; 8; 9; 10; 11; 12; 13; 14; 15; 16; 17; 18; 19; 20] in Hin.
      rewrite !elem_of_cons, elem_of_nil in Hin.
      repeat destruct Hin as [-> | Hin]; [cbn; eauto 10..|done].
    + cbn [existsb]. split; [|lia].
      rewrite !(proj2 (Z.eqb_neq (oc_op c) _)) by lia. done.
  - apply not_true_iff_false. intros [H1 H2]%andb_true_iff. cbn [existsb] in H2.
    rewrite !(proj2 (Z.eqb_neq (oc_op c) _)) in H2 by lia. done.
Qed.
