(* ===== verification/Requests.v ===== *)
(** Parent requests (src/internal/wire/request.go): the request types, their
    encodings, and the values they carry. *)

From S2P Require Import Prelude Protowire Proto Values ValueCodec CodecSpec CodecRoundtrip Exceptions.

Record limits := Limits {
  lm_duration : option Z; lm_memory : option Z; lm_gc : option Z;
  lm_recursion : option Z; lm_suspensions : option Z }.

Record configure := Configure {
  cf_script : bytes; cf_limits : option limits; cf_typecheck : bool;
  cf_stubs : option bytes; cf_version : bytes; cf_annotations : option Z;
  cf_format : Z; cf_color : bool; cf_protocol : Z; cf_flush : option Z }.

Record feed := Feed {
  fd_code : bytes; fd_inputs : list (bytes * value); fd_skip : bool; fd_cwd : bytes }.

(** [ExtKind] and [LookupKind]; zero is no kind. *)
Definition ExtReturn : Z := 1.
Definition ExtError : Z := 2.
Definition ExtFuture : Z := 3.
Definition ExtNotFound : Z := 4.
Definition ExtNotHandled : Z := 5.
Definition LookupValue : Z := 1.
Definition LookupUndefined : Z := 2.
Definition LookupError : Z := 3.

Record extresult := ExtResult {
  er_kind : Z; er_value : value; er_error : option wexception;
  er_future : Z; er_notfound : bytes }.

Inductive request :=
| RConfigure (c : configure)
| RInstallDependencies (reqs : list bytes)
| RFeed (f : feed)
| RResumeCall (callid : Z) (res : extresult)
| RResumeNameLookup (kind : Z) (v : value) (e : option wexception)
| RResumeFutures (results : list (Z * extresult))
| RDump
| RLoad (state : bytes)
| RReset
| RShutdown
| RAbortFeed (e : option wexception).

Definition requestField (r : request) : Z :=
  match r with
  | RConfigure _ => 1 | RInstallDependencies _ => 2 | RFeed _ => 3 | RResumeCall _ _ => 4
  | RResumeNameLookup _ _ _ => 5 | RResumeFutures _ => 6 | RDump => 7 | RLoad _ => 8
  | RReset => 9 | RShutdown => 10 | RAbortFeed _ => 11
  end.

Definition request_Name (r : request) : string :=
  match r with
  | RConfigure _ => "Configure" | RInstallDependencies _ => "InstallDependencies"
  | RFeed _ => "Feed" | RResumeCall _ _ => "ResumeCall"
  | RResumeNameLookup _ _ _ => "ResumeNameLookup" | RResumeFutures _ => "ResumeFutures"
  | RDump => "Dump" | RLoad _ => "Load" | RReset => "Reset" | RShutdown => "Shutdown"
  | RAbortFeed _ => "AbortFeed"
  end.

Definition nil_deref : goerror := Panic "invalid memory address or nil pointer dereference".

Section encode.
Context `{PW : Protowire}.

Definition appendOptionalU64 (b : bytes) (num : Z) (v : option Z) : bytes :=
  match v with None => b | Some v => appendVarintField b num v end.

(** [appendExceptionBody(nil, e)] for a pointer [e]. *)
Definition exceptionBody (e : option wexception) : result bytes :=
  match e with None => Err nil_deref | Some e => Ok (appendExceptionBody [] e) end.

Definition configure_body (b : bytes) (c : configure) : bytes :=
  let b := appendStringField b 1 (cf_script c) in
  let b := match cf_limits c with
           | None => b
           | Some l =>
             let m := appendOptionalU64 [] 1 (lm_duration l) in
             let m := appendOptionalU64 m 2 (lm_memory l) in
             let m := appendOptionalU64 m 3 (lm_gc l) in
             let m := appendOptionalU64 m 4 (lm_recursion l) in
             let m := appendOptionalU64 m 5 (lm_suspensions l) in
             appendMessage b 2 m
           end in
  let b := appendBoolField b 3 (cf_typecheck c) in
  let b := appendOptString b 4 (cf_stubs c) in
  let b := appendStringField b 5 (cf_version c) in
  let b := appendOptionalU64 b 6 (cf_annotations c) in
  let b := appendUintField b 7 (uint64 (cf_format c)) in
  let b := appendBoolField b 8 (cf_color c) in
  let b := appendUintField b 9 (cf_protocol c) in
  appendOptionalU64 b 10 (cf_flush c).

Fixpoint feed_inputs (inputs : list (bytes * value)) (b : bytes) : result bytes :=
  match inputs with
  | [] => Ok b
  | (name, v) :: inputs =>
    nv ← appendValueField (AppendValue []) (appendStringField [] 1 name) 2 v;
    feed_inputs inputs (appendMessage b 2 nv)
  end.

Definition feed_body (b : bytes) (f : feed) : result bytes :=
  b ← feed_inputs (fd_inputs f) (appendStringField b 1 (fd_code f));
  Ok (appendStringField (appendBoolField b 3 (fd_skip f)) 4 (fd_cwd f)).

Definition appendExtResult (b : bytes) (r : extresult) : result bytes :=
  if er_kind r =? ExtReturn then appendValueField (AppendValue []) b 1 (er_value r)
  else if er_kind r =? ExtError then
    body ← exceptionBody (er_error r); Ok (appendMessage b 2 body)
  else if er_kind r =? ExtFuture then Ok (appendVarintField b 3 (er_future r))
  else if er_kind r =? ExtNotFound then Ok (appendStringAlways b 4 (er_notfound r))
  else if er_kind r =? ExtNotHandled then Ok (appendMessage b 5 [])
  else Err (ConversionError (ErrNew "external result has no kind")).

Definition resume_lookup_body (b : bytes) (kind : Z) (v : value) (e : option wexception)
    : result bytes :=
  if kind =? LookupValue then appendValueField (AppendValue []) b 1 v
  else if kind =? LookupUndefined then Ok (appendMessage b 2 [])
  else if kind =? LookupError then
    body ← exceptionBody e; Ok (appendMessage b 3 body)
  else Err (ConversionError (ErrNew "name lookup result has no kind")).

Fixpoint futures_body (results : list (Z * extresult)) (b : bytes) : result bytes :=
  match results with
  | [] => Ok b
  | (callid, res) :: results =>
    let body := appendUintField [] 1 callid in
    res ← appendExtResult [] res;
    futures_body results (appendMessage b 1 (appendMessage body 2 res))
  end.

(** [Request.appendBody] *)
Definition appendBody (b : bytes) (r : request) : result bytes :=
  match r with
  | RConfigure c => Ok (configure_body b c)
  | RInstallDependencies reqs => Ok (fold_left (fun b q => appendStringAlways b 1 q) reqs b)
  | RFeed f => feed_body b f
  | RResumeCall callid res =>
    let b := appendUintField b 1 callid in
    res ← appendExtResult [] res;
    Ok (appendMessage b 2 res)
  | RResumeNameLookup kind v e => resume_lookup_body b kind v e
  | RResumeFutures results => futures_body results b
  | RDump | RReset | RShutdown => Ok b
  | RLoad state => if len state =? 0 then Ok b else Ok (appendBytesAlways b 1 state)
  | RAbortFeed e => body ← exceptionBody e; Ok (appendMessage b 1 body)
  end.

Definition EncodeRequest (r : request) (traceParent : bytes) : result bytes :=
  body ← appendBody [] r;
  let out := appendMessage [] (requestField r) body in
  Ok (if bool_decide (traceParent = []) then out else appendStringAlways out 20 traceParent).
End encode.

(** [RequestValues]: the values a request carries. *)
Definition RequestValues (r : request) : list value :=
  match r with
  | RFeed f => map snd (fd_inputs f)
  | RResumeCall _ res => if er_kind res =? ExtReturn then [er_value res] else []
  | RResumeNameLookup kind v _ => if kind =? LookupValue then [v] else []
  | RResumeFutures results =>
    map (fun p => er_value p.2) (List.filter (fun p => er_kind p.2 =? ExtReturn) results)
  | _ => []
  end.

(** ** Specification *)

(** The kinds and pointers of a request are set. *)
Definition result_ok (r : extresult) : bool :=
  (1 <=? er_kind r) && (er_kind r <=? 5)
  && (if er_kind r =? ExtError then bool_decide (is_Some (er_error r)) else true).

Definition request_ok (r : request) : bool :=
  match r with
  | RResumeCall _ res => result_ok res
  | RResumeNameLookup kind _ e =>
    (1 <=? kind) && (kind <=? 3) && (if kind =? LookupError then bool_decide (is_Some e) else true)
  | RResumeFutures results => forallb (fun p => result_ok p.2) results
  | RAbortFeed e => bool_decide (is_Some e)
  | _ => true
  end.

Definition encodable `{PW : Protowire} (v : value) : bool := is_ok (AppendValue [] v).

(** A peer's generic view of a message of length-delimited fields: the field
    numbers and payloads in order. *)
Definition fields_of `{PW : Protowire} (msg : bytes) : result (list (Z * bytes)) :=
  checked (each_field (fun num typ (l : list (Z * bytes)) r =>
    let '(m, r) := r_bytes num typ r in Ok (l ++ [(num, m)], r)) [] (new_reader msg)).

Section facts.
Context `{PW : Protowire}.

Lemma appendValueField_ok b num v :
  is_ok (appendValueField (AppendValue []) b num v) = encodable v.
Proof. unfold appendValueField, encodable. by destruct (AppendValue [] v). Qed.

Lemma appendExtResult_ok b r :
  is_ok (appendExtResult b r) =
  result_ok r && (if er_kind r =? ExtReturn then encodable (er_value r) else true).
Proof.
  unfold appendExtResult, result_ok, ExtReturn, ExtError, ExtFuture, ExtNotFound, ExtNotHandled.
  destruct (Z.eqb_spec (er_kind r) 1) as [->|]; [apply appendValueField_ok|].
  destruct (Z.eqb_spec (er_kind r) 2) as [->|]; [by destruct (er_error r)|].
  destruct (Z.eqb_spec (er_kind r) 3) as [->|]; [done|].
  destruct (Z.eqb_spec (er_kind r) 4) as [->|]; [done|].
  destruct (Z.eqb_spec (er_kind r) 5) as [->|]; [done|]. cbn. lia.
Qed.

Lemma feed_inputs_ok inputs b :
  is_ok (feed_inputs inputs b) = forallb encodable (map snd inputs).
Proof.
  revert b. induction inputs as [|[n v] inputs IH]; intros b; [done|]. cbn [feed_inputs map forallb snd].
  rewrite <- (appendValueField_ok (appendStringField [] 1 n) 2 v). cbn [snd].
  destruct (appendValueField _ _ 2 v); cbn; [apply IH|done].
Qed.

Lemma futures_body_ok results b :
  is_ok (futures_body results b) =
  forallb (fun p => result_ok p.2) results && forallb encodable (RequestValues (RResumeFutures results)).
Proof.
  revert b. induction results as [|[id r] results IH]; intros b; [done|].
  cbn [futures_body forallb RequestValues List.filter snd map].
  pose proof (appendExtResult_ok [] r) as He.
  destruct (appendExtResult [] r) as [m|]; cbn [mbind result_mbind is_ok] in *.
  - rewrite IH. symmetry in He. apply andb_true_iff in He as [-> He]. cbn [RequestValues].
    destruct (er_kind r =? ExtReturn); [|done]. cbn [map forallb snd]. by rewrite He.
  - symmetry in He. apply andb_false_iff in He as [-> | He]; [done|].
    destruct (er_kind r =? ExtReturn); [|done]. cbn [map forallb snd]. rewrite He. cbn.
    by rewrite andb_false_r.
Qed.

Lemma appendBody_ok r b :
  is_ok (appendBody b r) = request_ok r && forallb encodable (RequestValues r).
Proof.
  destruct r as [c|reqs|f|id res|k v e|rs| |st| | |e]; cbn [appendBody request_ok RequestValues];
    try done.
  - unfold feed_body. pose proof (feed_inputs_ok (fd_inputs f) (appendStringField b 1 (fd_code f))) as Hf.
    cbn. rewrite <- Hf. by destruct (feed_inputs _ _).
  - pose proof (appendExtResult_ok [] res) as He. destruct (appendExtResult [] res); cbn in *;
      rewrite He; destruct (er_kind res =? ExtReturn); cbn; by rewrite ?andb_true_r.
  - unfold resume_lookup_body, LookupValue, LookupUndefined, LookupError.
    destruct (Z.eqb_spec k 1) as [->|]; [rewrite appendValueField_ok; cbn; by rewrite andb_true_r|].
    destruct (Z.eqb_spec k 2) as [->|]; [done|].
    destruct (Z.eqb_spec k 3) as [->|]; [by destruct e|]. cbn. lia.
  - apply futures_body_ok.
  - by destruct (len st =? 0).
  - by destruct e.
Qed.
End facts.

(** ** Encoding errors *)

(** An error, if any, is a [ConversionError]. *)
Definition converts {A} (r : result A) : Prop :=
  match r with Ok _ | Err (ConversionError _) => True | Err _ => False end.

(** The exceptions a request refers to are there. *)
Definition no_nil (r : request) : bool :=
  match r with
  | RResumeCall _ res => negb (er_kind res =? ExtError) || bool_decide (is_Some (er_error res))
  | RResumeNameLookup kind _ e => negb (kind =? LookupError) || bool_decide (is_Some e)
  | RResumeFutures results =>
    forallb (fun p => negb (er_kind p.2 =? ExtError) || bool_decide (is_Some (er_error p.2))) results
  | RAbortFeed e => bool_decide (is_Some e)
  | _ => true
  end.

Section conversion.
Context `{PW : Protowire}.

Lemma converts_bind {A B} (m : result A) (f : A -> result B) :
  converts m -> (forall a, m = Ok a -> converts (f a)) -> converts (m ≫= f).
Proof. destruct m as [a|[]]; cbn; auto. Qed.

Lemma converts_uuid b n id :
  converts (match appendUUIDMessage b n id with Ok b => Ok b | Err e => Err (ConversionError e) end).
Proof. by destruct (appendUUIDMessage b n id). Qed.

Definition converted (v : value) : Prop := forall b, converts (AppendValue b v).

Lemma field_converts b n v : converted v -> converts (appendValueField (AppendValue []) b n v).
Proof. intros H. by apply converts_bind. Qed.

Lemma values_convert n l b : Forall converted l -> converts (appendValues (AppendValue []) n l b).
Proof.
  intros H. revert b. induction H as [|v l Hv _ IH]; intros b; [done|]. cbn [appendValues].
  apply converts_bind; [by apply field_converts|auto].
Qed.

Lemma list_converts b n l : Forall converted l -> converts (appendObjectList (AppendValue []) b n l).
Proof. intros H. apply converts_bind; [by apply values_convert|done]. Qed.

Lemma dict_converts l b : Forall (fun p => converted p.1 /\ converted p.2) l ->
  converts (appendDictBody (AppendValue []) l b).
Proof.
  intros H. revert b. induction H as [|[k v] l [Hk Hv] _ IH]; intros b; [done|]. cbn [appendDictBody].
  apply converts_bind; [|auto]. apply converts_bind; [by apply field_converts|].
  intros. by apply field_converts.
Qed.

(** Every error of the value encoder is a [ConversionError]. *)
Lemma value_converts v : converted v.
Proof.
  revert v. refine (value_ind' converted (fun t => forall b, converts (appendTypeBody b t))
    (fun i => forall b, converts (appendInstance b i)) _ _ _ _ _ _ _ _ _ _ _ _).
  - intros v Hv b. destruct v as [| | | |k z|[]| | | | | | | | | | | | | | | | | | | | | | | | | |]; try done.
    by destruct k.
  - intros l HF b. by apply list_converts.
  - intros l HF b. by apply list_converts.
  - intros n fs l HF b. apply converts_bind; [by apply values_convert|done].
  - intros [l|] HF b; [|done]. apply converts_bind; [by apply dict_converts|done].
  - intros [l|] HF b; by apply list_converts.
  - intros [l|] HF b; by apply list_converts.
  - intros t Ht b. by apply converts_bind.
  - intros i Hi b. apply Hi.
  - intros i Hi b. apply Hi.
  - intros n id o dc a HF b. cbn [appendTypeBody]. apply converts_bind.
    + case_bool_decide; [done|apply converts_uuid].
    + intros b' _. destruct a as [[|p l]|]; [done| |done]. apply converts_bind; [by apply dict_converts|done].
  - intros t id a Ht HF b. cbn [appendInstance]. apply converts_bind; [auto|]. intros ty _.
    apply converts_bind; [apply converts_uuid|]. intros b' _. apply converts_bind; [|done].
    destruct a; [by apply dict_converts|done].
Qed.

Lemma exceptionBody_converts e : bool_decide (is_Some e) = true -> converts (exceptionBody e).
Proof. intros H%bool_decide_eq_true. by destruct H as [x ->]. Qed.

Lemma appendExtResult_converts b r :
  negb (er_kind r =? ExtError) || bool_decide (is_Some (er_error r)) = true -> converts (appendExtResult b r).
Proof.
  intros H. unfold appendExtResult. destruct (er_kind r =? ExtReturn); [apply field_converts, value_converts|].
  destruct (er_kind r =? ExtError); [|by destruct (er_kind r =? ExtFuture), (er_kind r =? ExtNotFound), (er_kind r =? ExtNotHandled)].
  apply converts_bind; [by apply exceptionBody_converts|done].
Qed.

(** A request that refers to no nil exception encodes or fails with a
    [ConversionError]; it never panics. *)
Lemma request_converts r tp : no_nil r = true -> converts (EncodeRequest r tp).
Proof.
  intros H. apply converts_bind; [|done]. destruct r as [c|reqs|f|id res|k v e|rs| |st| | |e]; cbn in *; try done.
  - unfold feed_body. apply converts_bind; [|done]. generalize (appendStringField [] 1 (fd_code f)).
    induction (fd_inputs f) as [|[n v] l IH]; intros b; [done|]. cbn [feed_inputs].
    apply converts_bind; [apply field_converts, value_converts|auto].
  - apply converts_bind; [by apply appendExtResult_converts|done].
  - unfold resume_lookup_body. destruct (k =? LookupValue); [apply field_converts, value_converts|].
    destruct (k =? LookupUndefined); [done|]. destruct (k =? LookupError); [|done].
    apply converts_bind; [by apply exceptionBody_converts|done].
  - generalize (@nil byte). induction rs as [|[id r] rs IH]; intros b; [done|]. cbn [forallb snd] in H.
    apply andb_true_iff in H as [Hr Hrs]. cbn [futures_body].
    apply converts_bind; [by apply appendExtResult_converts|auto].
  - by destruct (len st =? 0).
  - apply converts_bind; [by apply exceptionBody_converts|done].
Qed.
End conversion.

(** A request encodes exactly when its kinds are set, the exceptions it
    refers to are there, and every value [RequestValues] lists is convertible:
    that list (used for the depth check before sending) misses no value the
    encoder writes and names none it does not. *)
Theorem request_encodes_iff `{PW : Protowire} (r : request) (tp : bytes) :
  is_ok (EncodeRequest r tp) = request_ok r && forallb encodable (RequestValues r).
Proof.
  unfold EncodeRequest. rewrite <- (appendBody_ok r []). by destruct (appendBody [] r).
Qed.

(** What the peer sees of a request: one field, numbered by the request's
    kind, holding its body, followed by the trace parent (field 20) when there
    is one, and nothing else. *)
Theorem request_on_the_wire `{PW : Protowire} `{!ProtowireLaws PW}
    (r : request) (tp out body : bytes) :
  appendBody [] r = Ok body -> EncodeRequest r tp = Ok out -> len out < 2 ^ 63 ->
  fields_of out = Ok ((requestField r, body) :: if bool_decide (tp = []) then [] else [(20, tp)]).
Proof.
  intros Hb H Hlen. unfold EncodeRequest in H. rewrite Hb in H. cbn in H. injection H as <-.
  assert (shrinking (fun num typ (l : list (Z * bytes)) r =>
    let '(m, r) := r_bytes num typ r in Ok (l ++ [(num, m)], r))) as Hs by solve_shrinking.
  assert (1 <= requestField r < 2 ^ 29) as Hf by (destruct r; cbn; lia).
  unfold fields_of. rewrite appendMessage_eq, app_nil_l in *. pose proof (len_fbytes (requestField r) body).
  destruct (bool_decide (tp = [])) eqn:Et; end_of_message.
  - rewrite each_field_fbytes by (done || lia). rewrite r_bytes_app by lia. cbn [mbind result_mbind].
    by finish_message.
  - rewrite appendStringAlways_eq, len_app in *. pose proof (len_fbytes 20 tp).
    pose proof (len_nonneg (fbytes (requestField r) body)). pose proof (len_nonneg (fbytes 20 tp)).
    rewrite <- app_assoc, each_field_fbytes by (done || lia). rewrite r_bytes_app by lia.
    cbn [mbind result_mbind]. rewrite each_field_fbytes by (done || lia). rewrite r_bytes_app by lia.
    cbn [mbind result_mbind]. by finish_message.
Qed.

Definition sample_request : request :=
  RFeed (Feed (go "x+1") [(go "x", VInt KInt 41)] true (go "/work")).

Lemma request_on_the_wire_witness :
  exists body out, EncodeRequest (PW := pwref) sample_request (go "00-ab") = Ok out
  /\ fields_of (PW := pwref) out = Ok [(3, body); (20, go "00-ab")].
Proof.
  eexists _, _. split; [vm_compute; reflexivity|].
  apply (request_on_the_wire (PW := pwref) sample_request (go "00-ab")); vm_compute; reflexivity.
Defined.
