(* ===== verification/MountPath.v ===== *)
(** Path policy of the mount file system: src/internal/mountfs/pathpolicy.go,
    mode.go and the error values of errors.go. *)

From S2P Require Import Prelude Utf8 GoStrings VPath.

(** ** Errors (errors.go) *)

Inductive iokind :=
| ioOther | ioNotFound | ioAlreadyExists | ioPermissionDenied | ioIsADirectory
| ioNotADirectory | ioDirectoryNotEmpty | ioInvalidFilename | ioInvalidInput | ioInvalidData.

Record utf8Failure := Utf8Failure {
  uf_start : Z; uf_end : Z; uf_first : byte; uf_reason : string; uf_object : option bytes }.

(** [mountError]: one constructor per [errKind]; [MValueOf err] is
    [valueError(err.Error())]. *)
Inductive mountError :=
| MNoMountPoint (path : bytes)
| MPathEscape (path : bytes)
| MValue (msg : bytes)
| MValueOf (err : goerror)
| MReadOnly (path : bytes)
| MCrossMount (path dst : bytes)
| MIO (io : iokind) (msg : bytes) (path : bytes)
| MInvalidUTF8 (u : utf8Failure)
| MInvalidMount (msg : bytes)
| MWriteLimit (limit : Z)
| MMemoryLimit (limit : Z).

(** A result with the error last, as [(T, *mountError)]. *)
Abbreviation mres A := (A + mountError)%type.

Definition maxUnicodeObjectLen : Z := 64 * 1024.

Definition bytesToUTF8 (b : bytes) : mres bytes :=
  let '(start, errLen, ok) := utf8Check b in
  if ok : bool then inl b
  else
    let end_ := if 0 <? errLen then start + errLen else len b in
    let first := default Byte.x00 (b !! Z.to_nat start) in
    inr (MInvalidUTF8 (Utf8Failure start end_ first (utf8ErrorReason first errLen)
           (if len b <=? maxUnicodeObjectLen then Some b else None))).

(** ** Modes (mode.go) *)

Inductive mount_mode := ReadOnly | ReadWrite | Overlay.

#[export] Instance mount_mode_eq_decision : EqDecision mount_mode.
Proof. solve_decision. Defined.

Definition ParseMode (s : bytes) : result mount_mode :=
  if bool_decide (s = go "read-only") then Ok ReadOnly
  else if bool_decide (s = go "read-write") then Ok ReadWrite
  else if bool_decide (s = go "overlay") then Ok Overlay
  else Err (Errorf "Invalid mode '%s', expected 'read-only', 'read-write', or 'overlay'" [FStr s]).

Definition Mode_String (m : mount_mode) : bytes :=
  match m with
  | ReadOnly => go "read-only" | ReadWrite => go "read-write" | Overlay => go "overlay"
  end.

(** ** Path policy (pathpolicy.go) *)

Definition pathMax : Z := 4096.
Definition nameMax : Z := 255.
Definition depthMax : Z := 64.
Definition errorPathEdge : Z := 20.

Definition dirOp (rel : bytes) : bytes := if bool_decide (rel = []) then go "." else rel.

(** [strings.CutPrefix] *)
Definition CutPrefix (s p : bytes) : bytes * bool :=
  if HasPrefix s p then (drop (length p) s, true) else (s, false).

Definition stripMountPrefix (normalized mountVirtual : bytes) : bytes * bool :=
  if bool_decide (mountVirtual = [slash]) then (TrimPrefix normalized [slash], true)
  else if bool_decide (normalized = mountVirtual) then ([], true)
  else
    let '(rest, ok) := CutPrefix normalized mountVirtual in
    if negb ok then ([], false) else CutPrefix rest [slash].

Definition backslash : byte := Byte.x5c.
Definition colon : byte := Byte.x3a.

Definition isWindowsDrivePrefix (seg : bytes) : bool :=
  match seg with
  | c :: d :: _ =>
    if negb (Byte.eqb d colon) then false
    else between 97 122 c || between 65 90 c
  | _ => false
  end.

Definition rejectDriveOrUNCSegments (rel normalized : bytes) : option mountError :=
  if existsb (Byte.eqb backslash) rel then Some (MPathEscape normalized)
  else if existsb isWindowsDrivePrefix (split_byte slash rel) then Some (MPathEscape normalized)
  else None.

Definition containsNullByte (path : bytes) : bool := existsb (Byte.eqb Byte.x00) path.

Definition rejectNullBytes (path : bytes) : option mountError :=
  if containsNullByte path then Some (MValue (go "embedded null byte")) else None.

Definition resolveVirtualPath (vpath mountVirtual : bytes) : mres bytes :=
  match rejectNullBytes vpath with
  | Some e => inr e
  | None =>
    let normalized := NormalizeVirtualPath vpath in
    let '(rel, ok) := stripMountPrefix normalized mountVirtual in
    if negb ok then inr (MNoMountPoint vpath)
    else match rejectDriveOrUNCSegments rel normalized with
         | Some e => inr e
         | None => inl rel
         end
  end.

(** [strings.IndexByte(s, '/')] as a cut: the part before, the part after. *)
Fixpoint cut_slash (s : bytes) : bytes * option bytes :=
  match s with
  | [] => ([], None)
  | c :: s => if Byte.eqb c slash then ([], Some s)
              else let '(a, b) := cut_slash s in (c :: a, b)
  end.

(** The loop of [isOverlong]; it stops at [depthMax] by itself. *)
Fixpoint overlong_loop (fuel : nat) (count : Z) (rest : bytes) : bool :=
  match fuel with
  | O => true
  | S fuel =>
    if count =? depthMax then true
    else
      let '(comp, after) := cut_slash rest in
      if nameMax <? len comp then true
      else match after with
           | None => false
           | Some rest => overlong_loop fuel (count + 1) rest
           end
  end.

Definition isOverlong (path : bytes) : bool :=
  if pathMax <? len path then true
  else overlong_loop (S (Z.to_nat depthMax)) 0 path.

(** The byte offsets of the runes of a string ([for i := range path]). *)
Fixpoint rune_starts_fuel (fuel : nat) (i : Z) (s : bytes) : list Z :=
  match fuel, s with
  | S fuel, b0 :: rest =>
    let '(_, w) := decode_rune b0 rest in
    i :: rune_starts_fuel fuel (i + Z.of_nat w) (drop (w - 1) rest)
  | _, _ => []
  end.
Definition rune_starts (s : bytes) : list Z := rune_starts_fuel (length s) 0 s.

Definition ellipsis_char : bytes := [Byte.xe2; Byte.x80; Byte.xa6].

Definition elideMiddle (path : bytes) : option bytes :=
  let starts := rune_starts path in
  let n := len starts in
  if n <? 2 * errorPathEdge + 1 then None
  else
    let a := default 0 (starts !! Z.to_nat errorPathEdge) in
    let b := default 0 (starts !! Z.to_nat (n - errorPathEdge)) in
    Some (take (Z.to_nat a) path ++ ellipsis_char ++ drop (Z.to_nat b) path).

(** [rejectOverlongPath] *)
Definition rejectOverlongPath (path : bytes) : option mountError :=
  if negb (isOverlong path) then None
  else
    let shown := match elideMiddle path with Some e => e | None => path end in
    Some (MIO ioInvalidFilename (go "File name too long") shown).

Definition formatChildPath (parent child : bytes) : bytes :=
  if HasSuffix parent [slash] then parent ++ child else parent ++ [slash] ++ child.

Definition joinMountRelative (rel child : bytes) : bytes :=
  if bool_decide (rel = []) || bool_decide (rel = go ".") then child
  else rel ++ [slash] ++ child.

(** [pathMatchesMount] (table.go) *)
Definition pathMatchesMount (normalized mountVirtual : bytes) : bool :=
  if bool_decide (mountVirtual = [slash]) || bool_decide (normalized = mountVirtual) then true
  else HasPrefix normalized mountVirtual && (len mountVirtual <? len normalized)
       && bool_decide (normalized !! length mountVirtual = Some slash).

(** ** Facts *)

Section prefixes.
Lemma HasPrefix_spec s p : HasPrefix s p = true <-> exists r, s = p ++ r.
Proof.
  unfold HasPrefix. rewrite bool_decide_eq_true. split.
  - intros H. exists (drop (length p) s). by rewrite <- H at 1; rewrite take_drop.
  - intros [r ->]. apply take_app_length.
Qed.

Lemma unparse_app a b : unparse (a ++ b) = unparse a ++ unparse b.
Proof. unfold unparse. by rewrite map_app, concat_app. Qed.

(** Spelled-out stacks of segments are comparable only as stacks. *)
Lemma unparse_prefix a b r : Forall (fun s => slash ∉ s) a -> Forall (fun s => slash ∉ s) b ->
  unparse b = unparse a ++ r -> r = [] \/ (exists r', r = slash :: r') -> a `prefix_of` b.
Proof.
  revert b. induction a as [|x a IH]; intros b Ha Hb E Hr; [by exists b|].
  inv Ha. destruct b as [|y b]; [done|]. inv Hb. cbn in E. injection E as E.
  change (concat (map (cons slash) ?l)) with (unparse l) in E.
  assert (x = y /\ unparse b = unparse a ++ r) as [-> E'].
  { assert (forall (p q u v : bytes), slash ∉ p -> slash ∉ q ->
      (u = [] \/ exists u', u = slash :: u') -> (v = [] \/ exists v', v = slash :: v') ->
      p ++ u = q ++ v -> p = q /\ u = v) as Hcut.
    { clear. induction p as [|c p IH]; intros q u v Hp Hq Hu Hv E.
      - destruct q as [|d q]; [done|]. cbn in E. subst u. destruct Hu as [|[u' [= -> ->]]]; set_solver.
      - destruct q as [|d q]; cbn in E.
        + subst v. destruct Hv as [|[v' [= -> ->]]]; set_solver.
        + injection E as -> E. destruct (IH q u v) as [-> ->]; set_solver. }
    rewrite app_assoc_reverse in E. destruct (Hcut y x (unparse b) (unparse a ++ r)) as [-> ->]; try done.
    - destruct b; [by left|right; eexists; done].
    - destruct a; [|right; eexists; done]. by destruct Hr as [-> |[r' ->]]; [left|right; eexists]. }
  destruct (IH b) as [k ->]; try done. by exists k.
Qed.

Lemma unparse_rest b : b <> [] -> unparse b = slash :: join_byte slash b.
Proof. destruct b; [done|]. intros _. apply unparse_join. Qed.

(** A mount covers a path exactly when its segments start the path's, and
    what is stripped is the rest. *)
Lemma strip_covers ms ps : Forall seg_ok ms -> Forall seg_ok ps ->
  (exists rs, ps = ms ++ rs /\ stripMountPrefix (path_of ps) (path_of ms) = (join_byte slash rs, true)
     /\ pathMatchesMount (path_of ps) (path_of ms) = true)
  \/ (~ ms `prefix_of` ps /\ (stripMountPrefix (path_of ps) (path_of ms)).2 = false
      /\ pathMatchesMount (path_of ps) (path_of ms) = false).
Proof.
  intros Hm Hp. destruct ms as [|m ms].
  { left. exists ps. split; [done|]. unfold stripMountPrefix, pathMatchesMount. cbn [path_of].
    rewrite bool_decide_eq_true_2 by done. split; [|done]. f_equal.
    destruct ps as [|p ps]; [done|]. cbn [path_of]. rewrite unparse_join.
    unfold TrimPrefix. by rewrite (proj2 (HasPrefix_slash _)) by eauto. }
  assert (m <> []) as Hm0.
  { apply Forall_cons in Hm as [[Ho _] _]. by apply ordinary_spec in Ho as (Ho & _). }
  assert (path_of (m :: ms) <> [slash]) as Hne.
  { cbn [path_of]. rewrite unparse_join. intros [= E]. destruct ms, m; cbn in E; congruence. }
  unfold stripMountPrefix, pathMatchesMount. rewrite (bool_decide_eq_false_2 _ Hne).
  destruct (bool_decide (path_of ps = path_of (m :: ms))) eqn:Ee.
  { apply bool_decide_eq_true in Ee. left. exists []. rewrite app_nil_r. split; [|done].
    apply (f_equal resolve) in Ee. by rewrite !resolve_path_of in Ee. }
  apply bool_decide_eq_false in Ee. cbn [orb].
  assert (Forall (fun s => slash ∉ s) (m :: ms) /\ Forall (fun s => slash ∉ s) ps) as [Hms Hps].
  { split; (eapply Forall_impl; [done|]); by intros ? []. }
  unfold CutPrefix. destruct (HasPrefix (path_of ps) (path_of (m :: ms))) eqn:Eh.
  - apply HasPrefix_spec in Eh as [r Er]. cbn [path_of] in *. rewrite Er, drop_app_length. cbn [negb].
    destruct ps as [|p ps]; [destruct m; cbn in Er; congruence|]. cbn [path_of] in *.
    destruct (HasPrefix r [slash]) eqn:Es.
    + left. apply HasPrefix_slash in Es as [r' ->].
      destruct (unparse_prefix (m :: ms) (p :: ps) (slash :: r')) as [rs Hrs]; try done; [by right; eexists|].
      exists rs. split; [done|]. rewrite Hrs, unparse_app in Er. apply app_inv_head in Er.
      assert (rs <> []) as Hrne by (by intros ->).
      rewrite unparse_rest in Er by done. injection Er as ->. cbn [length drop]. rewrite drop_0.
      split; [done|].
      assert (len (unparse (m :: ms)) < len (unparse (m :: ms) ++ slash :: r')) as Hlt.
      { rewrite len_app, len_cons. pose proof (len_nonneg r'). lia. }
      rewrite (proj2 (Z.ltb_lt _ _) Hlt). cbn [andb]. apply bool_decide_eq_true. rewrite lookup_app_r by lia. by rewrite Nat.sub_diag.
    + right. split_and!; [|done|].
      * intros [rs Hrs]. apply not_true_iff_false in Es. apply Es. rewrite Hrs, unparse_app in Er.
        apply app_inv_head in Er. apply HasPrefix_slash. destruct rs as [|x rs].
        { rewrite app_nil_r in Hrs. by rewrite Hrs in Ee. }
        rewrite unparse_rest in Er by done. eauto.
      * apply not_true_iff_false in Es. apply not_true_iff_false.
        intros [_ Hs]%andb_true_iff. apply bool_decide_eq_true in Hs.
        rewrite lookup_app_r, Nat.sub_diag in Hs by lia. apply Es, HasPrefix_slash.
        destruct r; [done|]. injection Hs as ->. eauto.
  - right. split_and!; [|done|done]. intros [rs ->]. apply not_true_iff_false in Eh. apply Eh.
    apply HasPrefix_spec. cbn [app path_of]. exists (unparse rs). apply (unparse_app (m :: ms) rs).
Qed.
End prefixes.

Section confinement.
(** Every byte of a resolved segment comes from the path. *)
Lemma split_subset c s seg x : seg ∈ split_byte c s -> x ∈ seg -> x ∈ s.
Proof.
  revert seg. induction s as [|y s IH]; intros seg Hs Hx; cbn in Hs;
    [by apply list_elem_of_singleton in Hs as ->|].
  destruct (Byte.eqb y c).
  - apply elem_of_cons in Hs as [-> | Hs]; [by apply not_elem_of_nil in Hx|]. right. eauto.
  - destruct (split_byte c s) as [|p ps]; [apply list_elem_of_singleton in Hs as ->; set_solver|].
    apply elem_of_cons in Hs as [-> | Hs].
    + apply elem_of_cons in Hx as [-> | Hx]; [by left|]. right. apply (IH p); [by left|done].
    + right. apply (IH seg); [by right|done].
Qed.

Lemma resolve_segs_subset segs st seg : seg ∈ fold_left push_seg segs st -> seg ∈ segs \/ seg ∈ st.
Proof.
  revert st. induction segs as [|s segs IH]; intros st H; [by right|]. cbn in H.
  apply IH in H as [H|H]; [left; by right|]. unfold push_seg in H.
  destruct (_ || _); [by right|]. destruct (bool_decide (s = dotdot_seg)).
  - right. destruct st as [|x st] using rev_ind; [done|]. rewrite removelast_last in H. set_solver.
  - set_solver.
Qed.

Lemma resolve_subset p seg x : seg ∈ resolve p -> x ∈ seg -> x ∈ p.
Proof.
  intros Hs Hx. apply resolve_segs_subset in Hs as [Hs|Hs]; [|set_solver].
  by eapply split_subset.
Qed.

Lemma join_subset segs x : x ∈ join_byte slash segs -> x = slash \/ exists seg, seg ∈ segs /\ x ∈ seg.
Proof.
  induction segs as [|s segs IH]; [set_solver|].
  destruct segs as [|t segs]; [cbn; right; exists s; set_solver|].
  change (join_byte slash (s :: t :: segs)) with (s ++ slash :: join_byte slash (t :: segs)).
  rewrite elem_of_app, elem_of_cons. intros [H|[-> |H]]; [right; exists s; set_solver|by left|].
  apply IH in H as [-> |(u & Hu & Hx)]; [by left|]. right. exists u. set_solver.
Qed.

Lemma existsb_byte c s : existsb (Byte.eqb c) s = true <-> c ∈ s.
Proof.
  rewrite existsb_exists. setoid_rewrite <- list_elem_of_In. split.
  - by intros (x & Hx & ->%Byte.byte_dec_bl).
  - intros Hx. exists c. by split; [|apply Byte.byte_dec_lb].
Qed.

(** A path the host side accepts below a directory descriptor: relative,
    made of ordinary segments, free of NUL, backslash and drive prefixes. *)
Definition confined (rel : bytes) : Prop :=
  exists segs, rel = join_byte slash segs /\ Forall seg_ok segs
  /\ Byte.x00 ∉ rel /\ backslash ∉ rel /\ Forall (fun s => isWindowsDrivePrefix s = false) segs.

Lemma resolveVirtualPath_confined vp ms rel : Forall seg_ok ms ->
  resolveVirtualPath vp (path_of ms) = inl rel ->
  exists rs, resolve vp = ms ++ rs /\ rel = join_byte slash rs /\ confined rel.
Proof.
  intros Hms. unfold resolveVirtualPath, rejectNullBytes.
  destruct (containsNullByte vp) eqn:En; [done|].
  destruct (Normalize_spec vp) as [-> Hok].
  destruct (strip_covers ms (resolve vp) Hms Hok) as [(rs & Hrs & -> & _)|(_ & Hf & _)]; cbn [negb];
    [|destruct (stripMountPrefix _ _) as [r b]; cbn in Hf; by subst b].
  unfold rejectDriveOrUNCSegments.
  destruct (existsb (Byte.eqb backslash) _) eqn:Eb; [done|].
  destruct (existsb isWindowsDrivePrefix _) eqn:Ew; [done|]. intros [= <-].
  exists rs. split; [done|]. split; [done|]. exists rs.
  assert (Forall seg_ok rs) as Hrok by (rewrite Hrs in Hok; by apply Forall_app in Hok as [_ ?]).
  split_and!; try done.
  - intros Hx. apply join_subset in Hx as [?|(seg & Hseg & Hx)]; [done|].
    apply not_true_iff_false in En. apply En, existsb_byte.
    apply (resolve_subset vp seg); [rewrite Hrs; set_solver|done].
  - intros Hx%existsb_byte. congruence.
  - destruct rs as [|r rs]; [constructor|]. rewrite split_join in Ew; [|done|].
    + apply Forall_forall. intros x Hx. apply not_true_iff_false. intros Hw.
      apply not_true_iff_false in Ew. apply Ew, existsb_exists. exists x.
      split; [by apply list_elem_of_In|done].
    + eapply Forall_impl; [exact Hrok|]. by intros ? [].
Qed.
End confinement.

(** Confinement of mount paths: whatever path the sandbox sends,
    [resolveVirtualPath] either refuses it or returns the segments of the
    normalised path below the mount's own segments, spelled relatively: no
    empty, [.] or [..] segment, no NUL byte, no backslash, no drive letter. *)
Theorem resolve_confined (vpath mountVirtual rel : bytes) :
  isNormalizedVirtualPath mountVirtual = true ->
  resolveVirtualPath vpath mountVirtual = inl rel ->
  confined rel /\ exists rs, resolve vpath = resolve mountVirtual ++ rs /\ rel = join_byte slash rs.
Proof.
  intros Hn H. apply isNormalized_spec in Hn as (ms & Hms & ->).
  rewrite resolve_path_of by done.
  apply resolveVirtualPath_confined in H as (rs & Hr & Hj & Hc); [|done]. eauto.
Qed.

Lemma resolve_confined_witness :
  resolveVirtualPath (go "/data/x/../y//z.txt") (go "/data") = inl (go "y/z.txt")
  /\ confined (go "y/z.txt").
Proof.
  split; [vm_compute; reflexivity|].
  apply (resolve_confined (go "/data/x/../y//z.txt") (go "/data")); vm_compute; reflexivity.
Defined.

Section overlong.
Lemma cut_slash_split s :
  split_byte slash s = match cut_slash s with
                       | (a, None) => [a]
                       | (a, Some r) => a :: split_byte slash r
                       end.
Proof.
  induction s as [|c s IH]; [done|]. cbn. destruct (Byte.eqb c slash); [done|].
  rewrite IH. by destruct (cut_slash s) as [a [r|]].
Qed.

Lemma overlong_loop_spec fuel count rest :
  0 <= count <= depthMax -> depthMax - count < Z.of_nat fuel ->
  overlong_loop fuel count rest =
    (depthMax <? count + len (split_byte slash rest))
    || existsb (fun c => nameMax <? len c) (split_byte slash rest).
Proof.
  unfold depthMax. revert count rest. induction fuel as [|fuel IH]; intros count rest Hc Hf; [lia|].
  cbn [overlong_loop]. unfold depthMax.
  assert (forall s, 1 <= len (split_byte slash s)) as Hpos.
  { intros s. destruct (split_byte slash s) eqn:E; [by apply split_byte_nonempty in E|].
    rewrite len_cons. pose proof (len_nonneg l0). lia. }
  destruct (Z.eqb_spec count 64) as [->|Hne].
  { symmetry. apply orb_true_iff. left. apply Z.ltb_lt. specialize (Hpos rest). lia. }
  pose proof (cut_slash_split rest) as Hs. destruct (cut_slash rest) as [comp [r|]]; rewrite Hs.
  - cbn [existsb]. rewrite len_cons. destruct (nameMax <? len comp); [by rewrite orb_true_r|].
    rewrite IH by lia. cbn [orb]. f_equal. f_equal. lia.
  - cbn [existsb]. rewrite len_cons, len_nil.
    rewrite (proj2 (Z.ltb_ge 64 _)) by lia. cbn [orb]. rewrite orb_false_r.
    by destruct (nameMax <? len comp).
Qed.
End overlong.

(** [isOverlong] measures the path as sent: over 4096 bytes, more than 64
    components, or a component over 255 bytes; the loop always terminates
    within its component bound. *)
Theorem overlong_spec (path : bytes) :
  isOverlong path =
    (pathMax <? len path) || (depthMax <? len (split_byte slash path))
    || existsb (fun c => nameMax <? len c) (split_byte slash path).
Proof.
  unfold isOverlong. destruct (pathMax <? len path); [done|].
  rewrite overlong_loop_spec by (unfold depthMax; lia). done.
Qed.
