(* ===== verification/Utf8Facts.v ===== *)
(** The UTF-8 validator of mountfs agrees with Go's own decoding, and the
    lossy conversion produces valid text. *)

From S2P Require Import Prelude Utf8 MountPath.

(** [utf8.ValidString]: no decoding error (U+FFFD of width 1) anywhere. *)
Definition bad_rune (rw : Z * nat) : bool := (rw.1 =? RuneError) && (rw.2 =? 1)%nat.

Fixpoint valid_fuel (fuel : nat) (s : bytes) : bool :=
  match fuel, s with
  | S fuel, b0 :: rest =>
    let rw := decode_rune b0 rest in
    if bad_rune rw then false else valid_fuel fuel (drop (rw.2 - 1) rest)
  | _, _ => true
  end.
Definition ValidUTF8 (s : bytes) : bool := valid_fuel (length s) s.

(** ** One step *)

Section step.
Lemma cont_between b : cont b = between 128 191 b.
Proof. by destruct b. Qed.

Lemma valid3_between f s : 224 <= byte_val f <= 239 ->
  valid3 f s = between (if byte_val f =? 224 then 160 else 128) (if byte_val f =? 237 then 159 else 191) s.
Proof.
  intros Hf. unfold valid3. rewrite cont_between. unfold between.
  destruct (Z.eqb_spec (byte_val f) 224), (Z.eqb_spec (byte_val f) 237); lia.
Qed.

Lemma valid4_between f s : 240 <= byte_val f <= 244 ->
  valid4 f s = between (if byte_val f =? 240 then 144 else 128) (if byte_val f =? 244 then 143 else 191) s.
Proof.
  intros Hf. unfold valid4. rewrite cont_between. unfold between.
  destruct (Z.eqb_spec (byte_val f) 240), (Z.eqb_spec (byte_val f) 244); lia.
Qed.

Lemma lead_class b :
  (byte_val b < 128) \/ (128 <= byte_val b /\ utf8CharWidth b = 0 /\ between 194 223 b = false
    /\ between 224 239 b = false /\ between 240 244 b = false)
  \/ (utf8CharWidth b = 2 /\ between 194 223 b = true /\ 194 <= byte_val b)
  \/ (utf8CharWidth b = 3 /\ between 194 223 b = false /\ between 224 239 b = true)
  \/ (utf8CharWidth b = 4 /\ between 194 223 b = false /\ between 224 239 b = false
      /\ between 240 244 b = true).
Proof.
  unfold utf8CharWidth, between. pose proof (byte_val_range b). repeat case_match; lia.
Qed.

(** A step of the validator is a step of Go's decoder: same width when the
    sequence is valid, a decoding error otherwise; an error spans at least
    one byte unless the input ends, and never more than is there. *)
Lemma step_decode b0 rest :
  match utf8_step b0 rest with
  | inl w => 1 <= w <= 1 + len rest /\ (decode_rune b0 rest).2 = Z.to_nat w
             /\ bad_rune (decode_rune b0 rest) = false
  | inr e => bad_rune (decode_rune b0 rest) = true /\ 0 <= e <= 1 + len rest
  end.
Proof.
  unfold utf8_step, decode_rune.
  assert (forall r w, (1 < w)%nat -> bad_rune (r, w) = false) as Hw.
  { intros r w Hw. unfold bad_rune. cbn. rewrite (proj2 (Nat.eqb_neq _ _)) by lia. apply andb_false_r. }
  destruct (lead_class b0) as [H|[(H0 & H & H1 & H2 & H3)|[(H & H1 & H2)|[(H & H1 & H2)|(H & H1 & H2 & H3)]]]].
  - rewrite (proj2 (Z.ltb_lt _ _)) by done. pose proof (len_nonneg rest). cbn. split_and!; [lia|lia|done|].
    unfold bad_rune, RuneError. cbn. pose proof (byte_val_range b0). lia.
  - rewrite (proj2 (Z.ltb_ge _ _)) by done. rewrite H, H1, H2, H3. cbn.
    pose proof (len_nonneg rest). split; [done|lia].
  - rewrite (proj2 (Z.ltb_ge _ _)) by lia. rewrite H, H1. cbn [Z.eqb Pos.eqb].
    destruct rest as [|b1 rest]; [done|]. rewrite cont_between, len_cons. pose proof (len_nonneg rest).
    destruct (between 128 191 b1); cbn [negb]; [|split; [done|lia]].
    split_and!; [lia|lia|done|]. by apply Hw; lia.
  - assert (224 <= byte_val b0 <= 239) as Hr by (unfold between in H2; lia).
    rewrite (proj2 (Z.ltb_ge _ _)) by lia. rewrite H, H1, H2. cbn [Z.eqb Pos.eqb].
    destruct rest as [|b1 rest]; [done|]. rewrite valid3_between by done. rewrite len_cons.
    pose proof (len_nonneg rest).
    destruct (between _ _ b1); cbn [negb andb];
      [|by destruct rest; (split; [done|lia])].
    destruct rest as [|b2 rest]; [split; [done|lia]|]. rewrite cont_between, len_cons in *.
    pose proof (len_nonneg rest).
    destruct (between 128 191 b2); cbn [negb]; [|split; [done|lia]].
    split_and!; [lia|lia|done|]. by apply Hw; lia.
  - assert (240 <= byte_val b0 <= 244) as Hr by (unfold between in H3; lia).
    rewrite (proj2 (Z.ltb_ge _ _)) by lia. rewrite H, H1, H2, H3. cbn [Z.eqb Pos.eqb].
    destruct rest as [|b1 rest]; [done|]. rewrite valid4_between by done. rewrite len_cons.
    pose proof (len_nonneg rest).
    destruct (between _ _ b1); cbn [negb andb];
      [|destruct rest as [|? [|? ?]]; (split; [done|lia])].
    destruct rest as [|b2 rest]; [split; [done|lia]|]. rewrite cont_between, len_cons in *.
    pose proof (len_nonneg rest).
    destruct (between 128 191 b2); cbn [negb andb]; [|by destruct rest; (split; [done|lia])].
    destruct rest as [|b3 rest]; [split; [done|lia]|]. rewrite cont_between, len_cons in *.
    pose proof (len_nonneg rest).
    destruct (between 128 191 b3); cbn [negb]; [|split; [done|lia]].
    split_and!; [lia|lia|done|]. by apply Hw; lia.
Qed.

(** Decoding a valid sequence looks no further than the sequence. *)
Lemma decode_app b0 rest more : bad_rune (decode_rune b0 rest) = false ->
  decode_rune b0 (rest ++ more) = decode_rune b0 rest.
Proof.
  unfold decode_rune. destruct (_ <? 128); [done|].
  destruct (between 194 223 b0); [by destruct rest|].
  destruct (between 224 239 b0); [by destruct rest as [|? [|? ?]]|].
  destruct (between 240 244 b0); [by destruct rest as [|? [|? [|? ?]]]|done].
Qed.

(** ... and cutting the input behind it changes nothing. *)
Lemma decode_take b0 rest k : bad_rune (decode_rune b0 rest) = false ->
  ((decode_rune b0 rest).2 - 1 <= k)%nat -> decode_rune b0 (take k rest) = decode_rune b0 rest.
Proof.
  unfold decode_rune. destruct (_ <? 128); [done|].
  destruct (between 194 223 b0).
  { destruct rest as [|b1 rest]; [by rewrite take_nil|]. destruct (between 128 191 b1) eqn:E1; [|done].
    intros _ Hk. cbn in Hk. destruct k; [lia|]. cbn. by rewrite E1. }
  destruct (between 224 239 b0).
  { destruct rest as [|b1 [|b2 rest]]; [done|done|]. destruct (_ && _) eqn:E1; [|done].
    intros _ Hk. cbn in Hk. destruct k as [|[|k]]; [lia|lia|]. cbn [take]. by rewrite E1. }
  destruct (between 240 244 b0); [|done].
  destruct rest as [|b1 [|b2 [|b3 rest]]]; [done|done|done|]. destruct (_ && _ && _) eqn:E1; [|done].
  intros _ Hk. cbn in Hk. destruct k as [|[|[|k]]]; [lia|lia|lia|]. cbn [take]. by rewrite E1.
Qed.
End step.

(** ** The loops *)

Section loops.
Lemma valid_fuel_enough n m s : (length s <= n)%nat -> (length s <= m)%nat ->
  valid_fuel n s = valid_fuel m s.
Proof.
  revert m s. induction n as [|n IH]; intros m s Hn Hm.
  - destruct s; [by destruct m|cbn in Hn; lia].
  - destruct m as [|m]; [by destruct s; [|cbn in Hm; lia]|].
    destruct s as [|b s]; [done|]. cbn in Hn, Hm |- *. destruct (bad_rune _); [done|].
    apply IH; rewrite length_drop; lia.
Qed.

Lemma ValidUTF8_cons b s : ValidUTF8 (b :: s) =
  if bad_rune (decode_rune b s) then false else ValidUTF8 (drop ((decode_rune b s).2 - 1) s).
Proof.
  unfold ValidUTF8. cbn [length valid_fuel]. destruct (bad_rune _); [done|].
  apply valid_fuel_enough; rewrite ?length_drop; lia.
Qed.

Lemma valid_app_fuel n a b : (length a <= n)%nat -> ValidUTF8 a = true -> ValidUTF8 b = true ->
  ValidUTF8 (a ++ b) = true.
Proof.
  revert a. induction n as [|n IH]; intros a Hn Ha Hb; (destruct a as [|x a]; [done|]); cbn in Hn; [lia|].
  rewrite ValidUTF8_cons in Ha. cbn [app]. rewrite ValidUTF8_cons.
  destruct (bad_rune (decode_rune x a)) eqn:E; [done|]. rewrite decode_app, E by done.
  pose proof (step_decode x a) as Hs. destruct (utf8_step x a) as [w|e]; [|by destruct Hs; congruence].
  destruct Hs as (Hw & Hd & _). unfold len in Hw. rewrite drop_app_le by lia.
  apply IH; [rewrite length_drop; lia|done|done].
Qed.

Lemma valid_app a b : ValidUTF8 a = true -> ValidUTF8 b = true -> ValidUTF8 (a ++ b) = true.
Proof. by apply (valid_app_fuel (length a)). Qed.

(** What [utf8Check] reports: the longest valid prefix, and an error there. *)
Lemma utf8_loop_spec n i s : (length s <= n)%nat ->
  match utf8_loop n i s with
  | (j, e, true) => j = i + len s /\ e = 0 /\ ValidUTF8 s = true
  | (j, e, false) => i <= j < i + len s /\ 0 <= e /\ j + e <= i + len s
      /\ ValidUTF8 (take (Z.to_nat (j - i)) s) = true /\ ValidUTF8 s = false
  end.
Proof.
  revert i s. induction n as [|n IH]; intros i s Hn.
  - destruct s; [cbn; rewrite len_nil; split_and!; (done || lia)|cbn in Hn; lia].
  - destruct s as [|b s]; [cbn; rewrite len_nil; split_and!; (done || lia)|]. cbn [utf8_loop].
    cbn in Hn. pose proof (step_decode b s) as Hs. pose proof (ValidUTF8_cons b s) as Hv.
    rewrite len_cons. pose proof (len_nonneg s). destruct (utf8_step b s) as [w|e].
    + destruct Hs as (Hw & Hd & Hb). rewrite Hb, Hd in Hv. unfold len in *.
      assert (length (drop (Z.to_nat w - 1) s) = (length s - (Z.to_nat w - 1))%nat) as Hl
        by apply length_drop.
      specialize (IH (i + w) (drop (Z.to_nat w - 1) s) ltac:(lia)).
      destruct (utf8_loop n (i + w) _) as [[j e] [|]].
      * destruct IH as (-> & -> & Hok). split_and!; [lia|done|by rewrite Hv].
      * destruct IH as (Hj & He & Hje & Hok & Hbad). split_and!; try lia; [|by rewrite Hv].
        replace (Z.to_nat (j - i)) with (S (Z.to_nat w - 1 + Z.to_nat (j - (i + w)))) by lia.
        cbn [take]. rewrite ValidUTF8_cons.
        rewrite decode_take, Hb, Hd by (rewrite ?Hd; (done || lia)). rewrite skipn_firstn_comm.
        replace (Z.to_nat w - 1 + Z.to_nat (j - (i + w)) - (Z.to_nat w - 1))%nat
          with (Z.to_nat (j - (i + w))) by lia. exact Hok.
    + destruct Hs as [Hb He]. rewrite Hb in Hv. split_and!; try lia; [|done].
      by replace (Z.to_nat (i - i)) with 0%nat by lia.
Qed.

(** [lossyUTF8]'s loop as a recursion on what is left. *)
Lemma lossy_loop_enough n m b : (length b <= n)%nat -> (length b <= m)%nat ->
  lossy_loop n b = lossy_loop m b.
Proof.
  revert m b. induction n as [|n IH]; intros m b Hn Hm.
  - destruct b; [by destruct m|cbn in Hn; lia].
  - destruct m as [|m]; [by destruct b; [|cbn in Hm; lia]|]. cbn [lossy_loop].
    destruct (Z.eqb_spec (len b) 0); [done|].
    pose proof (utf8_loop_spec (length b) 0 b ltac:(done)) as Hs. fold (utf8Check b) in Hs.
    destruct (utf8Check b) as [[v e] [|]]; [done|]. destruct (Z.eqb_spec e 0); [done|].
    f_equal. f_equal. destruct Hs as (? & ? & ? & _). unfold len in *.
    apply IH; rewrite length_drop; lia.
Qed.

Lemma lossy_loop_valid n b : (length b <= n)%nat -> ValidUTF8 (lossy_loop n b) = true.
Proof.
  revert b. induction n as [|n IH]; intros b Hn; [done|]. cbn [lossy_loop].
  destruct (Z.eqb_spec (len b) 0); [done|].
  pose proof (utf8_loop_spec (length b) 0 b ltac:(done)) as Hs. fold (utf8Check b) in Hs.
  destruct (utf8Check b) as [[v e] [|]].
  - destruct Hs as (-> & _ & Hv). unfold len. rewrite take_ge by lia. done.
  - destruct Hs as (Hv1 & He & Hve & Hv & _). rewrite Z.sub_0_r in Hv.
    destruct (Z.eqb_spec e 0); [by apply valid_app|]. unfold len in *.
    apply valid_app; [done|]. apply valid_app; [done|]. apply IH. rewrite length_drop. lia.
Qed.
End loops.

(** The validator that reproduces Rust's [Utf8Error] agrees with Go's own
    UTF-8: it accepts exactly the valid strings, and on any other it reports
    the length of a valid prefix and an error inside the input. *)
Theorem utf8_check_spec (s : bytes) :
  match utf8Check s with
  | (n, e, true) => n = len s /\ e = 0 /\ ValidUTF8 s = true
  | (n, e, false) => ValidUTF8 s = false /\ 0 <= n < len s /\ 0 <= e /\ n + e <= len s
                     /\ ValidUTF8 (take (Z.to_nat n) s) = true
  end.
Proof.
  pose proof (utf8_loop_spec (length s) 0 s ltac:(done)) as H. fold (utf8Check s) in H.
  destruct (utf8Check s) as [[n e] [|]]; rewrite ?Z.add_0_l, ?Z.sub_0_r in H; intuition.
Qed.

(** The lossy conversion always yields valid UTF-8, leaves valid text
    alone, and otherwise keeps the valid prefix, writes one U+FFFD for the bad
    sequence and goes on behind it. *)
Theorem lossy_utf8 (s : bytes) :
  ValidUTF8 (lossyUTF8 s) = true
  /\ (if ValidUTF8 s then lossyUTF8 s = s
      else let '(v, e, _) := utf8Check s in
           lossyUTF8 s = take (Z.to_nat v) s ++ replacement_char
             ++ (if e =? 0 then [] else lossyUTF8 (drop (Z.to_nat (v + e)) s))).
Proof.
  assert (forall b, lossyUTF8 b = lossy_loop (length b) b) as Hl.
  { intros b. unfold lossyUTF8. pose proof (utf8_loop_spec (length b) 0 b ltac:(done)) as H.
    fold (utf8Check b) in H. destruct (utf8Check b) as [[n e] [|]] eqn:E; [|done].
    destruct b as [|x b]; [done|]. cbn [length lossy_loop]. rewrite E.
    destruct (Z.eqb_spec (len (x :: b)) 0); [done|]. destruct H as (-> & _). unfold len.
    by rewrite take_ge by (cbn; lia). }
  split; [rewrite Hl; by apply lossy_loop_valid|].
  pose proof (utf8_loop_spec (length s) 0 s ltac:(done)) as H. fold (utf8Check s) in H.
  unfold lossyUTF8 at 1 2. destruct (utf8Check s) as [[v e] [|]] eqn:E.
  - destruct H as (_ & _ & ->). done.
  - destruct H as (Hv & He & Hve & _ & ->). destruct s as [|x s]; [unfold len in Hv; cbn in Hv; lia|].
    cbn [length lossy_loop]. rewrite E. destruct (Z.eqb_spec (len (x :: s)) 0) as [H0|]; [lia|].
    destruct (Z.eqb_spec e 0); [by rewrite app_nil_r|]. f_equal. f_equal. rewrite Hl.
    apply lossy_loop_enough; rewrite length_drop; unfold len in *; cbn in *; lia.
Qed.
