(* ===== verification/OverlayState.v ===== *)
(** The copy-on-write store of an overlay mount
    (src/internal/mountfs/overlay_state.go): an ordered map with an exact
    memory account. *)

From Stdlib Require Import Sorted.
From S2P Require Import Prelude Utf8 GoStrings VPath MountPath CodecSpec.

(** ** Saturating arithmetic (host.go, overlay_state.go) *)

Definition satAdd (a b : Z) : Z := let s := uint64 (a + b) in if a <=? s then s else MaxUint64.
Definition satSub (a b : Z) : Z := if a <? b then 0 else a - b.

(** ** sort.SearchStrings *)

(** [sort.Search]'s bisection for the first key not below [k]. *)
Fixpoint search_loop (fuel : nat) (keys : list bytes) (k : bytes) (i j : Z) : Z :=
  match fuel with
  | O => i
  | S fuel =>
    if i <? j then
      let h := (i + j) / 2 in
      if bytes_lt (default [] (keys !! Z.to_nat h)) k
      then search_loop fuel keys k (h + 1) j
      else search_loop fuel keys k i h
    else i
  end.
Definition SearchStrings (keys : list bytes) (k : bytes) : Z :=
  search_loop (S (length keys)) keys k 0 (len keys).

(** ** Entries *)

Inductive entryKind := entFile | entRealFileRef | entDirectory | entDeleted.

#[export] Instance entryKind_eq_decision : EqDecision entryKind.
Proof. solve_decision. Defined.

(** Times are opaque: nothing below computes with them. *)
Record overlayEntry := OverlayEntry {
  oe_kind : entryKind; oe_content : bytes; oe_mtime : Z; oe_relative : bytes; oe_size : Z }.

Definition deletedEntry : overlayEntry := OverlayEntry entDeleted [] 0 [] 0.
Definition directoryEntry (mtime : Z) : overlayEntry := OverlayEntry entDirectory [] mtime [] 0.
Definition fileEntry (content : bytes) (mtime : Z) : overlayEntry :=
  OverlayEntry entFile content mtime [] 0.

Definition entryMemoryUsage : Z := 256.
Definition overlayEntrySize : Z := 48.
Definition realDescendantMemoryUsage : Z := 512.

Definition baseEntryUsage (key : bytes) : Z :=
  satAdd (satAdd entryMemoryUsage (len key)) overlayEntrySize.

Definition entryUsage (key : bytes) (e : overlayEntry) : Z :=
  let variable := match oe_kind e with
                  | entFile => len (oe_content e)
                  | entRealFileRef => len (oe_relative e)
                  | _ => 0
                  end in
  satAdd (baseEntryUsage key) variable.

(** ** The store *)

Record overlayState := OverlayState {
  os_entries : gmap bytes overlayEntry; os_keys : list bytes; os_usage : Z }.

Definition newOverlayState : overlayState := OverlayState ∅ [] 0.

Definition os_get (s : overlayState) (key : bytes) : option overlayEntry := os_entries s !! key.

(** Usage of the entry stored under a key, if any. *)
Definition old_usage (s : overlayState) (key : bytes) : Z :=
  match os_entries s !! key with Some prev => entryUsage key prev | None => 0 end.

Definition os_put (key : bytes) (e : overlayEntry) (s : overlayState) : overlayState :=
  let keys := match os_entries s !! key with
              | Some _ => os_keys s
              | None =>
                let i := Z.to_nat (SearchStrings (os_keys s) key) in
                take i (os_keys s) ++ key :: drop i (os_keys s)
              end in
  OverlayState (<[key := e]> (os_entries s)) keys (os_usage s).

Definition os_remove (key : bytes) (s : overlayState) : option overlayEntry * overlayState :=
  match os_entries s !! key with
  | None => (None, s)
  | Some e =>
    let i := Z.to_nat (SearchStrings (os_keys s) key) in
    (Some e, OverlayState (delete key (os_entries s))
               (take i (os_keys s) ++ drop (S i) (os_keys s))
               (satSub (os_usage s) (entryUsage key e)))
  end.

Definition projectedUsage (s : overlayState) (key : bytes) (e : overlayEntry) : Z :=
  satAdd (satSub (os_usage s) (old_usage s key)) (entryUsage key e).

Definition set_usage (u : Z) (s : overlayState) : overlayState :=
  OverlayState (os_entries s) (os_keys s) u.

Definition os_insert (key : bytes) (e : overlayEntry) (limit : Z) (s : overlayState)
    : option mountError * overlayState :=
  let projected := projectedUsage s key e in
  if limit <? projected then (Some (MMemoryLimit limit), s)
  else (None, set_usage projected (os_put key e s)).

Definition insertUnchecked (key : bytes) (e : overlayEntry) (s : overlayState) : overlayState :=
  let u := projectedUsage s key e in os_put key e (set_usage u s).

Definition appendFile (key data : bytes) (mtime limit : Z) (s : overlayState)
    : mres bool * overlayState :=
  match os_entries s !! key with
  | Some (OverlayEntry entFile content _ rel size) =>
    let projected := satAdd (os_usage s) (len data) in
    if limit <? projected then (inr (MMemoryLimit limit), s)
    else (inl true,
          OverlayState (<[key := OverlayEntry entFile (content ++ data) mtime rel size]> (os_entries s))
            (os_keys s) projected)
  | _ => (inl false, s)
  end.

Definition checkFileReplacement (key : bytes) (contentLen limit : Z) (s : overlayState)
    : option mountError :=
  if limit <? satAdd (satSub (os_usage s) (old_usage s key)) (satAdd (baseEntryUsage key) contentLen)
  then Some (MMemoryLimit limit) else None.

(** The loop of [checkReplacements]: the projected usage and what each key of
    the batch was last projected to. *)
Definition replace_step (s : overlayState) (acc : Z * gmap bytes Z) (r : bytes * overlayEntry)
    : Z * gmap bytes Z :=
  let '(projected, replaced) := acc in
  let '(key, entry) := r in
  let old := match replaced !! key with Some old => old | None => old_usage s key end in
  let next := entryUsage key entry in
  (satAdd (satSub projected old) next, <[key := next]> replaced).

Definition checkReplacements (batch : list (bytes * overlayEntry)) (limit : Z) (s : overlayState)
    : option mountError :=
  let '(projected, _) := fold_left (replace_step s) batch (os_usage s, ∅) in
  if limit <? projected then Some (MMemoryLimit limit) else None.

(** [s.keys[start:end]] *)
Definition prefixKeys (s : overlayState) (prefix : bytes) : list bytes :=
  if bool_decide (prefix = []) then os_keys s
  else
    let start := SearchStrings (os_keys s) prefix in
    let end_ := SearchStrings (os_keys s) (take (length prefix - 1) prefix ++ [Byte.x30]) in
    drop (Z.to_nat start) (take (Z.to_nat end_) (os_keys s)).

(** ** Order *)

Section order.
(** The bisection finds the boundary of any split into smaller and not
    smaller keys. *)
Lemma search_loop_spec fuel a b k i j :
  Forall (fun x => bytes_lt x k = true) a -> Forall (fun x => bytes_lt x k = false) b ->
  0 <= i <= len a -> len a <= j <= len a + len b -> j - i < Z.of_nat fuel ->
  search_loop fuel (a ++ b) k i j = len a.
Proof.
  intros Ha Hb. revert i j. induction fuel as [|fuel IH]; intros i j Hi Hj Hf; [lia|].
  cbn [search_loop]. destruct (Z.ltb_spec i j); [|lia].
  assert (i <= (i + j) / 2 < j) as Hh
    by (split; [apply Z.div_le_lower_bound|apply Z.div_lt_upper_bound]; lia). set (h := (i + j) / 2) in *.
  destruct (Z.lt_ge_cases h (len a)) as [Hl|Hl]; unfold len in *.
  - rewrite lookup_app_l by lia. destruct (lookup_lt_is_Some_2 a (Z.to_nat h)) as [x Hx]; [lia|].
    rewrite Hx. cbn. rewrite Forall_lookup in Ha. rewrite (Ha _ _ Hx). apply IH; lia.
  - rewrite lookup_app_r by lia.
    destruct (lookup_lt_is_Some_2 b (Z.to_nat h - length a)) as [x Hx]; [lia|].
    rewrite Hx. cbn. rewrite Forall_lookup in Hb. rewrite (Hb _ _ Hx). apply IH; lia.
Qed.

Lemma SearchStrings_spec a b k :
  Forall (fun x => bytes_lt x k = true) a -> Forall (fun x => bytes_lt x k = false) b ->
  SearchStrings (a ++ b) k = len a.
Proof.
  intros Ha Hb. unfold SearchStrings. pose proof (len_nonneg a). pose proof (len_nonneg b).
  rewrite len_app. apply search_loop_spec; try done; try lia. unfold len. rewrite length_app. lia.
Qed.

Definition ltP (a b : bytes) : Prop := bytes_lt a b = true.

(** A sorted list splits at any key. *)
Lemma sorted_split l k : StronglySorted ltP l -> exists a b, l = a ++ b
  /\ Forall (fun x => bytes_lt x k = true) a /\ Forall (fun x => bytes_lt x k = false) b.
Proof.
  induction 1 as [|x l Hs (a & b & -> & Ha & Hb) Hx]; [by exists [], []|].
  destruct (bytes_lt x k) eqn:E.
  - exists (x :: a), b. split_and!; [done|by constructor|done].
  - exists [], (x :: a ++ b). split_and!; [done|constructor|]. constructor; [done|].
    eapply Forall_impl; [exact Hx|]. intros y Hy. cbn in Hy. apply not_true_iff_false. intros Hyk.
    by rewrite (bytes_lt_trans _ _ _ Hy Hyk) in E.
Qed.

Lemma sorted_nodup l : StronglySorted ltP l -> NoDup l.
Proof.
  induction 1 as [|x l Hs IH Hx]; constructor; [|done]. intros Hin.
  rewrite Forall_forall in Hx. specialize (Hx _ Hin). unfold ltP in Hx. by rewrite bytes_lt_irrefl in Hx.
Qed.

Lemma sorted_app a b : StronglySorted ltP (a ++ b) <->
  StronglySorted ltP a /\ StronglySorted ltP b /\ Forall (fun x => Forall (ltP x) b) a.
Proof.
  induction a as [|x a IH]; cbn; [split; [intros; split_and!; [constructor|done|constructor]|tauto]|].
  split.
  - inversion 1 as [|? ? Hs Hx]; subst. apply IH in Hs as (? & ? & ?).
    apply Forall_app in Hx as [? ?]. split_and!; [by constructor|done|by constructor].
  - intros (Ha & Hb & Hab). inv Ha. inv Hab. constructor; [by apply IH|by apply Forall_app].
Qed.

Lemma sorted_insert a b k : StronglySorted ltP (a ++ b) ->
  Forall (fun x => bytes_lt x k = true) a -> Forall (ltP k) b ->
  StronglySorted ltP (a ++ k :: b).
Proof.
  rewrite !sorted_app. intros (Ha & Hb & Hab) Hak Hkb. split_and!; [done|by constructor|].
  apply Forall_forall. intros x Hx. rewrite Forall_forall in Hak, Hab.
  constructor; [by apply Hak|by apply Hab].
Qed.

(** Keys under a directory: exactly those between ["dir/"] and ["dir0"]. *)
Lemma prefix_range q k :
  HasPrefix k (q ++ [slash]) = true <->
  bytes_lt k (q ++ [slash]) = false /\ bytes_lt k (q ++ [Byte.x30]) = true.
Proof.
  rewrite HasPrefix_spec. revert k. induction q as [|x q IH]; intros k.
  - destruct k as [|c k]; cbn; [split; [by intros [r ?]|by intros [? _]]|].
    assert (bytes_lt k [] = false) as -> by (by destruct k).
    change (byte_val slash) with 47. change (byte_val Byte.x30) with 48.
    assert ((exists r, c :: k = slash :: r) <-> byte_val c = 47) as ->.
    { split; [by intros [r [= -> _]]|]. intros Hc. exists k. f_equal. by apply byte_val_inj. }
    destruct (Z.ltb_spec (byte_val c) 47), (Z.ltb_spec 47 (byte_val c)),
      (Z.ltb_spec (byte_val c) 48), (Z.ltb_spec 48 (byte_val c)); intuition (congruence || lia).
  - destruct k as [|c k]; cbn; [split; [by intros [r ?]|by intros [? _]]|].
    destruct (Z.ltb_spec (byte_val c) (byte_val x)); [split; [intros [r [= -> ->]]; lia|by intros [? _]]|].
    destruct (Z.ltb_spec (byte_val x) (byte_val c)); [split; [intros [r [= -> ->]]; lia|by intros [_ ?]]|].
    assert (c = x) as -> by (apply byte_val_inj; lia). rewrite <- IH.
    split; intros [r Hr]; exists r; [by injection Hr|cbn; by f_equal].
Qed.
End order.

(** ** The account *)

Section saturating.
Lemma satAdd_range a b : 0 <= satAdd a b <= MaxUint64.
Proof.
  unfold satAdd. pose proof (uint64_range (a + b)). unfold MaxUint64.
  destruct (a <=? uint64 (a + b)); lia.
Qed.

Lemma satAdd_min a b : 0 <= a <= MaxUint64 -> 0 <= b <= MaxUint64 ->
  satAdd a b = Z.min (a + b) MaxUint64.
Proof.
  unfold satAdd, MaxUint64. intros Ha Hb. destruct (Z.lt_ge_cases (a + b) (2 ^ 64)).
  - unfold uint64. rewrite uwrap_small by lia. rewrite (proj2 (Z.leb_le _ _)) by lia. lia.
  - assert (uint64 (a + b) = a + b - 2 ^ 64) as ->.
    { unfold uint64, uwrap. symmetry. apply (Z.mod_unique_pos _ _ 1); lia. }
    rewrite (proj2 (Z.leb_gt _ _)) by lia. lia.
Qed.

Lemma satSub_exact a b : b <= a -> satSub a b = a - b.
Proof. intros. unfold satSub. by rewrite (proj2 (Z.ltb_ge _ _)) by lia. Qed.

Lemma entryUsage_range k e : 0 <= entryUsage k e <= MaxUint64.
Proof. apply satAdd_range. Qed.

Lemma old_usage_range s k : 0 <= old_usage s k <= MaxUint64.
Proof. unfold old_usage. destruct (_ !! _); [apply entryUsage_range|done]. Qed.
End saturating.

(** What the entries of a store cost together. *)
Definition os_total (s : overlayState) : Z := zsum (map (old_usage s) (os_keys s)).

Record ov_inv (s : overlayState) : Prop := {
  ov_sorted : StronglySorted ltP (os_keys s);
  ov_dom : forall k, k ∈ os_keys s <-> is_Some (os_entries s !! k);
  ov_usage : os_usage s = os_total s;
  ov_bound : os_total s <= MaxUint64;
  ov_fits : forall k e, os_entries s !! k = Some e -> len (oe_content e) <= MaxUint64 }.

Section account.
Lemma zsum_app a b : zsum (a ++ b) = zsum a + zsum b.
Proof. induction a as [|x a IH]; [done|]. cbn [app]. rewrite !zsum_cons, IH. lia. Qed.

Lemma zsum_map_ext {A} (f g : A -> Z) l : (forall x, x ∈ l -> f x = g x) -> zsum (map f l) = zsum (map g l).
Proof.
  induction l as [|x l IH]; intros H; [done|]. cbn [map]. rewrite !zsum_cons.
  rewrite H by set_solver. rewrite IH; [done|]. intros. apply H. set_solver.
Qed.

(** Changing a sum at one place. *)
Lemma zsum_update (f g : bytes -> Z) a k b : k ∉ a -> k ∉ b -> (forall x, x <> k -> g x = f x) ->
  zsum (map g (a ++ k :: b)) = zsum (map f (a ++ b)) + g k.
Proof.
  intros Ha Hb H. rewrite !map_app, !zsum_app. cbn [map]. rewrite zsum_cons.
  rewrite (zsum_map_ext g f a), (zsum_map_ext g f b) by (intros; apply H; set_solver). lia.
Qed.

Lemma nodup_split (l : list bytes) k : NoDup l -> k ∈ l -> exists a b, l = a ++ k :: b /\ k ∉ a /\ k ∉ b.
Proof.
  intros Hn Hk. apply list_elem_of_split in Hk as (a & b & ->). exists a, b.
  apply NoDup_app in Hn as (_ & Hab & Hb). apply NoDup_cons in Hb as [Hb _]. set_solver.
Qed.

Lemma old_usage_le s k : ov_inv s -> 0 <= old_usage s k <= os_total s.
Proof.
  intros Hi. pose proof (old_usage_range s k).
  assert (forall l, 0 <= zsum (map (old_usage s) l)) as Hnn.
  { intros l. apply zsum_nonneg, Forall_forall. intros x _. apply old_usage_range. }
  destruct (decide (k ∈ os_keys s)) as [Hk|Hk].
  - destruct (nodup_split _ _ (sorted_nodup _ (ov_sorted s Hi)) Hk) as (a & b & Hl & Ha & Hb).
    unfold os_total. rewrite Hl. rewrite (zsum_update (old_usage s) (old_usage s)) by done.
    specialize (Hnn (a ++ b)). lia.
  - unfold old_usage. destruct (os_entries s !! k) eqn:E.
    + exfalso. apply Hk, (ov_dom s Hi). by eexists.
    + split; [done|]. apply Hnn.
Qed.

Lemma old_usage_put s key e k :
  old_usage (os_put key e s) k = if decide (k = key) then entryUsage key e else old_usage s k.
Proof.
  unfold old_usage, os_put. cbn [os_entries]. destruct (decide (k = key)) as [->|].
  - by rewrite lookup_insert_eq.
  - by rewrite lookup_insert_ne.
Qed.

(** Storing an entry: order, domain and total. *)
Lemma put_keys s key e : ov_inv s ->
  StronglySorted ltP (os_keys (os_put key e s))
  /\ (forall k, k ∈ os_keys (os_put key e s) <-> is_Some (os_entries (os_put key e s) !! k))
  /\ os_total (os_put key e s) = os_total s - old_usage s key + entryUsage key e.
Proof.
  intros Hi. pose proof (ov_sorted s Hi) as Hs. pose proof (sorted_nodup _ Hs) as Hn.
  assert (forall x, x <> key -> old_usage (os_put key e s) x = old_usage s x) as Hext.
  { intros x Hx. rewrite old_usage_put. by destruct (decide (x = key)). }
  pose proof (old_usage_put s key e key) as Hkey. rewrite decide_True in Hkey by done.
  destruct (os_entries s !! key) as [prev|] eqn:E.
  - assert (os_keys (os_put key e s) = os_keys s) as Hk by (unfold os_put; by rewrite E).
    rewrite Hk. split_and!; [done| |].
    + intros k. rewrite (ov_dom s Hi). cbn. destruct (decide (k = key)) as [->|].
      * rewrite lookup_insert_eq, E. split; intros _; by eexists.
      * by rewrite lookup_insert_ne.
    + assert (key ∈ os_keys s) as Hin by (apply (ov_dom s Hi); by eexists).
      destruct (nodup_split _ _ Hn Hin) as (a & b & Hl & Ha & Hb).
      unfold os_total. rewrite Hk, Hl.
      rewrite (zsum_update (old_usage s) (old_usage (os_put key e s)) a key b) by done.
      rewrite (zsum_update (old_usage s) (old_usage s) a key b) by done. lia.
  - assert (key ∉ os_keys s) as Hni.
    { intros Hin. apply (ov_dom s Hi) in Hin as [? Hin]. congruence. }
    destruct (sorted_split _ key Hs) as (a & b & Hl & Ha & Hb).
    assert (os_keys (os_put key e s) = a ++ key :: b) as Hk.
    { unfold os_put. rewrite E. cbn [os_keys]. rewrite Hl, (SearchStrings_spec a b key) by done.
      by rewrite take_len_app, drop_len_app. }
    rewrite Hk. split_and!.
    + rewrite Hl in Hs, Hni. apply sorted_insert; [done|done|].
      apply Forall_forall. intros x Hx. rewrite Forall_forall in Hb. unfold ltP.
      apply not_false_iff_true. intros Hlt. assert (key = x) as <- by (apply bytes_lt_total; auto).
      set_solver.
    + intros k. cbn. rewrite elem_of_app, elem_of_cons. destruct (decide (k = key)) as [->|Hne].
      * rewrite lookup_insert_eq. split; [intros _; by eexists|auto].
      * rewrite lookup_insert_ne by done. rewrite <- (ov_dom s Hi), Hl, elem_of_app. naive_solver.
    + unfold os_total at 1. rewrite Hk. rewrite Hl in Hni.
      rewrite (zsum_update (old_usage s)) by (done || set_solver). rewrite <- Hl, Hkey.
      unfold old_usage at 2. rewrite E. unfold os_total. lia.
Qed.

Lemma projected_exact s key e : ov_inv s ->
  projectedUsage s key e = Z.min (os_total s - old_usage s key + entryUsage key e) MaxUint64.
Proof.
  intros Hi. pose proof (old_usage_le s key Hi). pose proof (entryUsage_range key e).
  pose proof (ov_bound s Hi). unfold projectedUsage. rewrite (ov_usage s Hi), satSub_exact by lia.
  apply satAdd_min; lia.
Qed.

Lemma set_usage_total u s : os_total (set_usage u s) = os_total s.
Proof. done. Qed.

Lemma put_inv s key e : ov_inv s -> len (oe_content e) <= MaxUint64 ->
  os_total s - old_usage s key + entryUsage key e <= MaxUint64 ->
  ov_inv (set_usage (projectedUsage s key e) (os_put key e s)).
Proof.
  intros Hi Hf Hb. destruct (put_keys s key e Hi) as (H1 & H2 & H3).
  constructor; [done|done| |by rewrite set_usage_total, H3|].
  - rewrite set_usage_total, H3. cbn. rewrite projected_exact by done. lia.
  - cbn. intros k e' [[<- <-]|[_ Hk]]%lookup_insert_Some; [done|]. by eapply (ov_fits s Hi).
Qed.

Lemma insertUnchecked_eq s key e :
  insertUnchecked key e s = set_usage (projectedUsage s key e) (os_put key e s).
Proof. done. Qed.

Lemma remove_inv s key : ov_inv s -> ov_inv (os_remove key s).2.
Proof.
  intros Hi. unfold os_remove. destruct (os_entries s !! key) as [e|] eqn:E; [|done]. cbn [snd].
  pose proof (ov_sorted s Hi) as Hs. pose proof (sorted_nodup _ Hs) as Hn.
  assert (key ∈ os_keys s) as Hin by (apply (ov_dom s Hi); by eexists).
  destruct (nodup_split _ _ Hn Hin) as (a & b & Hl & Ha & Hb).
  assert (old_usage s key = entryUsage key e) as Hold by (unfold old_usage; by rewrite E).
  pose proof (old_usage_le s key Hi) as Hle. rewrite Hold in Hle.
  rewrite Hl in Hs. apply sorted_app in Hs as (Hsa & Hsb & Hab).
  inversion Hsb as [|? ? Hsb' Hkb]; subst.
  assert (SearchStrings (os_keys s) key = len a) as Hse.
  { rewrite Hl. apply (SearchStrings_spec a (key :: b)).
    - eapply Forall_impl; [exact Hab|]. intros x Hx. by inv Hx.
    - constructor; [apply bytes_lt_irrefl|]. eapply Forall_impl; [exact Hkb|]. intros x Hx.
      apply not_true_iff_false. intros Hlt. pose proof (bytes_lt_trans _ _ _ Hx Hlt) as Ht.
      by rewrite bytes_lt_irrefl in Ht. }
  rewrite Hse.
  assert (take (Z.to_nat (len a)) (os_keys s) ++ drop (S (Z.to_nat (len a))) (os_keys s) = a ++ b) as Hk.
  { rewrite Hl, take_len_app. f_equal. change (key :: b) with ([key] ++ b). rewrite app_assoc.
    replace (S (Z.to_nat (len a))) with (length (a ++ [key])) by (unfold len; rewrite length_app; cbn; lia).
    apply drop_app_length. }
  rewrite Hk.
  set (s' := OverlayState _ _ _).
  assert (os_total s' = os_total s - entryUsage key e) as Ht.
  { unfold os_total. rewrite Hl. rewrite (zsum_update (old_usage s) (old_usage s) a key b) by done.
    rewrite Hold, (zsum_map_ext (old_usage s') (old_usage s)); [cbn [os_keys s']; lia|].
    intros x Hx. unfold old_usage. cbn. rewrite lookup_delete_ne; [done|]. cbn in Hx. set_solver. }
  subst s'. constructor; cbn [os_keys os_entries os_usage].
  - apply sorted_app. split_and!; [done|done|]. eapply Forall_impl; [exact Hab|]. intros x Hx. by inv Hx.
  - intros k. destruct (decide (k = key)) as [->|Hne].
    + rewrite lookup_delete_eq. split; [set_solver|]. intros [? ?]. done.
    + rewrite lookup_delete_ne by done. rewrite <- (ov_dom s Hi), Hl. set_solver.
  - rewrite Ht, (ov_usage s Hi). apply satSub_exact. lia.
  - rewrite Ht. pose proof (ov_bound s Hi). lia.
  - intros k e' [_ Hk']%lookup_delete_Some. by eapply (ov_fits s Hi).
Qed.
End account.

(** ** Steps of an overlay store *)

(** Every way the store changes, under a memory limit; unchecked inserts are
    the second half of a rename, whose total was checked as a batch. Contents
    are Go slices. *)
Inductive ov_step (limit : Z) : overlayState -> overlayState -> Prop :=
| step_insert key e s err s' :
    len (oe_content e) < 2 ^ 63 ->
    os_insert key e limit s = (err, s') -> ov_step limit s s'
| step_append key data mtime s r s' :
    len data < 2 ^ 63 ->
    appendFile key data mtime limit s = (r, s') -> ov_step limit s s'
| step_remove key s r s' :
    os_remove key s = (r, s') -> ov_step limit s s'
| step_unchecked key e s :
    len (oe_content e) <= MaxUint64 ->
    os_total s - old_usage s key + entryUsage key e <= limit ->
    ov_step limit s (insertUnchecked key e s).

Inductive ov_reach (limit : Z) : overlayState -> Prop :=
| reach_init : ov_reach limit newOverlayState
| reach_step s s' : ov_reach limit s -> ov_step limit s s' -> ov_reach limit s'.

Section steps.
Lemma insert_cases s key e limit : ov_inv s -> limit < MaxUint64 -> len (oe_content e) < 2 ^ 63 ->
  match os_insert key e limit s with
  | (None, s') => ov_inv s' /\ os_usage s' <= limit
      /\ os_total s' = os_total s - old_usage s key + entryUsage key e
  | (Some err, s') => s' = s /\ err = MMemoryLimit limit
      /\ limit < os_total s - old_usage s key + entryUsage key e
  end.
Proof.
  intros Hi Hl Hf. unfold os_insert. pose proof (projected_exact s key e Hi) as Hp.
  destruct (put_keys s key e Hi) as (_ & _ & Ht).
  destruct (Z.ltb_spec limit (projectedUsage s key e)) as [Hlt|Hge]; [split_and!; [done|done|lia]|].
  split_and!; [apply put_inv; [done|unfold MaxUint64; lia|lia]|done|by rewrite set_usage_total].
Qed.

(** Appending to a file entry grows its usage by the data. *)
Lemma entryUsage_append key c data mt mt' rel size :
  len c <= MaxUint64 -> len data <= MaxUint64 ->
  entryUsage key (OverlayEntry entFile c mt rel size) + len data < MaxUint64 ->
  len (c ++ data) <= MaxUint64 /\
  entryUsage key (OverlayEntry entFile (c ++ data) mt' rel size)
    = entryUsage key (OverlayEntry entFile c mt rel size) + len data.
Proof.
  unfold entryUsage. cbn [oe_kind oe_content]. rewrite len_app.
  pose proof (satAdd_range (satAdd entryMemoryUsage (len key)) overlayEntrySize).
  fold (baseEntryUsage key) in *. pose proof (len_nonneg c). pose proof (len_nonneg data).
  intros Hc Hd Hb. rewrite (satAdd_min _ (len c)) in * by lia.
  rewrite satAdd_min by lia. lia.
Qed.

Lemma append_cases s key data mt limit : ov_inv s -> limit < MaxUint64 -> len data < 2 ^ 63 ->
  match appendFile key data mt limit s with
  | (inl true, s') => ov_inv s' /\ os_usage s' = os_usage s + len data /\ os_usage s' <= limit
      /\ exists e, os_get s key = Some e /\ oe_kind e = entFile /\ os_get s' key
           = Some (OverlayEntry entFile (oe_content e ++ data) mt (oe_relative e) (oe_size e))
  | (inl false, s') => s' = s
  | (inr err, s') => s' = s /\ err = MMemoryLimit limit /\ limit < os_usage s + len data
  end.
Proof.
  intros Hi Hl Hd. unfold appendFile, os_get.
  destruct (os_entries s !! key) as [[[| | |] c mt0 rel size]|] eqn:E; try done.
  pose proof (len_nonneg data). pose proof (old_usage_le s key Hi) as Hle.
  pose proof (ov_bound s Hi). pose proof (ov_usage s Hi) as Hu.
  rewrite satAdd_min by (unfold MaxUint64 in *; lia).
  destruct (Z.ltb_spec limit (Z.min (os_usage s + len data) MaxUint64)); [split_and!; [done|done|lia]|].
  assert (old_usage s key = entryUsage key (OverlayEntry entFile c mt0 rel size)) as Hold
    by (unfold old_usage; by rewrite E).
  destruct (entryUsage_append key c data mt0 mt rel size) as [Hlen Hau];
    [by eapply (ov_fits s Hi) in E|unfold MaxUint64; lia|lia|].
  assert (os_put key (OverlayEntry entFile (c ++ data) mt rel size) s
    = OverlayState (<[key:=OverlayEntry entFile (c ++ data) mt rel size]> (os_entries s)) (os_keys s) (os_usage s))
    as Hput by (unfold os_put; by rewrite E).
  pose proof (projected_exact s key (OverlayEntry entFile (c ++ data) mt rel size) Hi) as Hp.
  pose proof (put_inv s key (OverlayEntry entFile (c ++ data) mt rel size) Hi Hlen ltac:(lia)) as Hinv.
  rewrite Hp, Hput, Hold, Hau in Hinv. unfold set_usage in Hinv. cbn [os_entries os_keys] in Hinv.
  replace (os_total s - entryUsage key (OverlayEntry entFile c mt0 rel size)
    + (entryUsage key (OverlayEntry entFile c mt0 rel size) + len data)) with (os_usage s + len data) in Hinv by lia.
  split_and!; [exact Hinv|cbn; lia|cbn; lia|]. eexists. split; [done|]. split; [done|].
  cbn. by rewrite lookup_insert_eq.
Qed.

Lemma step_inv limit s s' : 0 <= limit < MaxUint64 -> ov_step limit s s' -> ov_inv s -> ov_inv s'.
Proof.
  intros Hl H Hi. destruct H as [key e s err s' Hf E|key data mt s r s' Hd E|key s r s' E|key e s Hf Hb].
  - pose proof (insert_cases s key e limit Hi ltac:(lia) Hf) as Hc. rewrite E in Hc.
    destruct err; [by destruct Hc as [-> _]|apply Hc].
  - pose proof (append_cases s key data mt limit Hi ltac:(lia) Hd) as Hc. rewrite E in Hc.
    destruct r as [[]|]; [apply Hc|by subst|by destruct Hc as [-> _]].
  - pose proof (remove_inv s key Hi) as Hr. by rewrite E in Hr.
  - rewrite insertUnchecked_eq. apply put_inv; [done|done|lia].
Qed.

Lemma reach_inv limit s : 0 <= limit < MaxUint64 -> ov_reach limit s -> ov_inv s.
Proof.
  intros Hl H. induction H as [|s s' _ IH Hs]; [|by eapply step_inv].
  constructor; cbn; try done; [constructor|]. intros k. rewrite lookup_empty.
  split; [by intros ?%not_elem_of_nil|by intros [? ?]].
Qed.
End steps.

(** The overlay store's invariant: in every reachable state the keys are
    sorted and are exactly the stored ones, and the account is exact (the usage
    is the sum of what the entries cost). *)
Theorem overlay_invariant (limit : Z) (s : overlayState) :
  0 <= limit < MaxUint64 -> ov_reach limit s ->
  StronglySorted ltP (os_keys s)
  /\ (forall k, k ∈ os_keys s <-> is_Some (os_get s k))
  /\ os_usage s = zsum (map (old_usage s) (os_keys s)).
Proof.
  intros Hl H. by destruct (reach_inv limit s Hl H) as [H1 H2 H3 _ _].
Qed.

(** A store with a file and a directory, after an append and a removal. *)
Definition sample_store : overlayState :=
  (os_remove (go "b") (appendFile (go "a/x") (go "++") 2 1000
    (os_insert (go "a/x") (fileEntry (go "hi") 1) 1000
      (os_insert (go "b") (directoryEntry 1) 1000 newOverlayState).2).2).2).2.

Lemma sample_reach : ov_reach 1000 sample_store.
Proof.
  eapply reach_step; [|eapply (step_remove _ (go "b")); apply surjective_pairing].
  eapply reach_step; [|eapply (step_append _ (go "a/x") (go "++") 2); [done|apply surjective_pairing]].
  eapply reach_step; [|eapply (step_insert _ (go "a/x") (fileEntry (go "hi") 1)); [done|apply surjective_pairing]].
  eapply reach_step; [|eapply (step_insert _ (go "b") (directoryEntry 1)); [done|apply surjective_pairing]].
  apply reach_init.
Qed.

Lemma overlay_invariant_witness :
  os_usage sample_store = 311
  /\ os_usage sample_store = zsum (map (old_usage sample_store) (os_keys sample_store)).
Proof.
  split; [vm_compute; reflexivity|]. apply (overlay_invariant 1000 sample_store); [done|apply sample_reach].
Defined.

(** An insert respects the memory limit: it succeeds exactly when the new
    total fits the limit, then stores the entry and leaves every other key
    alone; otherwise it reports the limit and changes nothing. *)
Theorem overlay_insert (s : overlayState) (key : bytes) (e : overlayEntry) (limit : Z) :
  ov_reach limit s -> 0 <= limit < MaxUint64 -> len (oe_content e) < 2 ^ 63 ->
  let total := os_total s - old_usage s key + entryUsage key e in
  match os_insert key e limit s with
  | (None, s') => total <= limit /\ os_usage s' = total /\ os_get s' key = Some e
      /\ forall k, k <> key -> os_get s' k = os_get s k
  | (Some err, s') => limit < total /\ err = MMemoryLimit limit /\ s' = s
  end.
Proof.
  intros Hr Hl Hf total. pose proof (reach_inv limit s Hl Hr) as Hi.
  pose proof (insert_cases s key e limit Hi ltac:(lia) Hf) as Hc.
  unfold os_insert in *. pose proof (projected_exact s key e Hi) as Hp.
  destruct (Z.ltb_spec limit (projectedUsage s key e)).
  - destruct Hc as (_ & _ & Hc). done.
  - destruct Hc as (Hi' & Hle & Ht). split_and!; [unfold total; lia|unfold total; cbn; lia|..]; unfold os_get; cbn.
    + by rewrite lookup_insert_eq.
    + intros k Hk. by rewrite lookup_insert_ne.
Qed.

Lemma overlay_insert_witness :
  os_get (os_insert (go "c") (directoryEntry 5) 1000 newOverlayState).2 (go "c") = Some (directoryEntry 5).
Proof.
  apply (overlay_insert newOverlayState (go "c") (directoryEntry 5) 1000);
    [apply reach_init|done|done].
Defined.

(** The range between two keys that [prefixKeys] finds by bisection. *)
Lemma prefix_keys_filter (s : overlayState) (q : bytes) : StronglySorted ltP (os_keys s) ->
  prefixKeys s (q ++ [slash]) = List.filter (fun k => HasPrefix k (q ++ [slash])) (os_keys s).
Proof.
  intros Hs.
  unfold prefixKeys. rewrite bool_decide_eq_false_2 by (by destruct q).
  rewrite length_app. cbn [length]. replace (length q + 1 - 1)%nat with (length q) by lia.
  rewrite take_app_length.
  destruct (sorted_split _ (q ++ [Byte.x30]) Hs) as (ab & c & Hl1 & Hab & Hc).
  rewrite Hl1 in Hs |- *. apply sorted_app in Hs as (Hsab & _ & Habc).
  destruct (sorted_split _ (q ++ [slash]) Hsab) as (a & b & -> & Ha & Hb).
  assert (bytes_lt (q ++ [slash]) (q ++ [Byte.x30]) = true) as Hq by (rewrite bytes_lt_app; done).
  rewrite (SearchStrings_spec (a ++ b) c (q ++ [Byte.x30])) by done. rewrite take_len_app.
  rewrite <- app_assoc, (SearchStrings_spec a (b ++ c) (q ++ [slash])).
  - rewrite drop_len_app, !List.filter_app.
    assert (forall l, Forall (fun x => HasPrefix x (q ++ [slash]) = false) l ->
      List.filter (fun k => HasPrefix k (q ++ [slash])) l = []) as Hnone.
    { induction 1 as [|x l Hx _ IH]; [done|]. cbn. by rewrite Hx. }
    rewrite (Hnone a), (Hnone c), app_nil_l, app_nil_r.
    + symmetry. apply Forall_app in Hab as [_ Hab]. clear -Hab Hb. revert Hab.
      induction Hb as [|x b Hx _ IH]; intros Hab; [done|]. inv Hab. cbn.
      rewrite (proj2 (prefix_range q x)) by done. by rewrite IH.
    + eapply Forall_impl; [exact Hc|]. intros x Hx. apply not_true_iff_false.
      intros [_ Hp]%prefix_range. congruence.
    + eapply Forall_impl; [exact Ha|]. intros x Hx. apply not_true_iff_false.
      intros [Hp _]%prefix_range. congruence.
  - done.
  - apply Forall_app. split; [done|]. eapply Forall_impl; [exact Hc|]. intros x Hx.
    apply not_true_iff_false. intros Hlt. pose proof (bytes_lt_trans _ _ _ Hlt Hq). congruence.
Qed.

(** [prefixKeys] of a directory prefix (["dir/"]) is exactly the stored
    keys below that directory, in order: the range from ["dir/"] to ["dir0"]
    found by bisection holds those keys and no others. *)
Theorem prefix_keys_exact (limit : Z) (s : overlayState) (q : bytes) :
  0 <= limit < MaxUint64 -> ov_reach limit s ->
  prefixKeys s (q ++ [slash]) = List.filter (fun k => HasPrefix k (q ++ [slash])) (os_keys s).
Proof. intros Hl Hr. by apply prefix_keys_filter, ov_sorted, (reach_inv limit). Qed.

Lemma prefix_keys_exact_witness :
  prefixKeys sample_store (go "a" ++ [slash]) = [go "a/x"].
Proof.
  rewrite (prefix_keys_exact 1000 sample_store (go "a")); [vm_compute; reflexivity|done|apply sample_reach].
Defined.

(** [checkReplacements] projects a batch exactly: it refuses precisely
    when the usage after inserting the batch one entry at a time (later writes
    to a key winning) would exceed the limit. *)
Theorem check_replacements_exact (s : overlayState) (batch : list (bytes * overlayEntry)) (limit : Z) :
  checkReplacements batch limit s =
    if limit <? os_usage (fold_left (fun s r => insertUnchecked r.1 r.2 s) batch s)
    then Some (MMemoryLimit limit) else None.
Proof.
  unfold checkReplacements.
  assert (forall s' projected replaced, projected = os_usage s' ->
    (forall k, match replaced !! k with Some old => old | None => old_usage s k end = old_usage s' k) ->
    (fold_left (replace_step s) batch (projected, replaced)).1
      = os_usage (fold_left (fun s r => insertUnchecked r.1 r.2 s) batch s')) as H.
  { induction batch as [|[k e] batch IH]; intros s' projected replaced Hp Hr; [done|]. cbn [fold_left fst snd].
    unfold replace_step at 2. rewrite Hr. apply IH.
    - unfold insertUnchecked, projectedUsage. cbn. by rewrite Hp.
    - intros k'. rewrite insertUnchecked_eq. change (old_usage (set_usage ?u ?x) k') with (old_usage x k').
      rewrite old_usage_put. destruct (decide (k' = k)) as [->|Hne].
      + by rewrite lookup_insert_eq.
      + rewrite lookup_insert_ne by done. apply Hr. }
  specialize (H s (os_usage s) ∅ eq_refl).
  destruct (fold_left (replace_step s) batch (os_usage s, ∅)) as [projected replaced]. cbn in H.
  rewrite H; [done|]. intros k. by rewrite lookup_empty.
Qed.
