(* ===== verification/MountTable.v ===== *)
(** The mount table (src/internal/mountfs/table.go): building it, routing a
    call to the mount with the longest prefix, and the guards every call
    passes before a mount executes it. *)

From Stdlib Require Import Sorted.
From S2P Require Import Prelude Utf8 GoStrings VPath Protowire Proto Values ValueCodec Exceptions.
From S2P Require Import Events ValueFacts MountPath OverlayState.

Definition DefaultMemoryUsageLimit : Z := 100000000.

(** A [Root] is its normalised virtual path and its directory descriptor. *)
Record spec := Spec {
  sp_virtual : bytes; sp_dir : Z; sp_mode : mount_mode; sp_write_limit : option Z; sp_memory_limit : Z }.

Record mount := Mount {
  m_virtual : bytes; m_dir : Z; m_mode : mount_mode; m_write_used : Z; m_write_limit : option Z;
  m_memory_limit : Z; m_overlay : option overlayState }.

Record table := Table { t_mounts : list mount; t_first : option bytes }.

Definition mount_of (s : spec) : mount :=
  Mount (sp_virtual s) (sp_dir s) (sp_mode s) 0 (sp_write_limit s) (sp_memory_limit s)
    (if bool_decide (sp_mode s = Overlay) then Some newOverlayState else None).

(** The index loop of [push]. *)
Fixpoint push_at (n : Z) (ms : list mount) : nat :=
  match ms with
  | m :: ms => if n <? len (m_virtual m) then S (push_at n ms) else O
  | [] => O
  end.

Definition push (m : mount) (ms : list mount) : list mount :=
  let at_ := push_at (len (m_virtual m)) ms in
  take at_ ms ++ m :: drop at_ ms.

Definition NewTable (specs : list spec) : table :=
  Table (fold_left (fun ms s => push (mount_of s) ms) specs [])
        (sp_virtual <$> head specs).

Definition FirstVirtualPath (t : table) : option bytes := t_first t.

(** [findMount]: the index of the first mount that covers the path, or -1. *)
Fixpoint find_loop (normalized : bytes) (ms : list mount) (i : Z) : Z :=
  match ms with
  | m :: ms => if pathMatchesMount normalized (m_virtual m) then i else find_loop normalized ms (i + 1)
  | [] => -1
  end.

Definition findMount (t : table) (vpath : bytes) : Z :=
  find_loop (NormalizeVirtualPath vpath) (t_mounts t) 0.

(** [route]: the mount's index, an error, or not handled. *)
Inductive routing := RouteTo (i : Z) | RouteErr (e : mountError) | RouteNone.

Definition route (t : table) (primary : bytes) (call : oscall) : routing :=
  let src := findMount t primary in
  if negb (oc_op call =? OpRename) then (if 0 <=? src then RouteTo src else RouteNone)
  else match rejectOverlongPath (oc_dst call) with
       | Some e => RouteErr e
       | None =>
         if containsNullByte (oc_dst call) then RouteErr (MValue (go (NullMessage call true)))
         else
           let dst := findMount t (oc_dst call) in
           if (src <? 0) && (dst <? 0) then RouteNone
           else if (0 <=? src) && (src =? dst) then RouteTo src
           else RouteErr (MCrossMount primary (oc_dst call))
       end.

Definition isWriteCall (call : oscall) (mode : bytes) : bool :=
  if oc_op call =? OpOpen then ModeCreates mode else IsWrite call.

(** ** Write accounting *)

Definition checkWriteLimit (m : mount) (n : Z) : option mountError :=
  match m_write_limit m with
  | Some limit => if limit <? satAdd (m_write_used m) n then Some (MWriteLimit limit) else None
  | None => None
  end.

Definition commitWriteBytes (m : mount) (n : Z) : mount :=
  match m_write_limit m with
  | Some _ => Mount (m_virtual m) (m_dir m) (m_mode m) (satAdd (m_write_used m) n) (m_write_limit m)
                (m_memory_limit m) (m_overlay m)
  | None => m
  end.

Definition fileHandle (path mode : bytes) : filehandle :=
  FileHandle (NormalizeVirtualPath path) mode 0.

(** ** Executing a call *)

(** How a call ends: with a value, with an error, not at all while the host
    keeps it waiting, or in a run-time panic. *)
Inductive xres (A : Type) := XRet (a : A) | XFail (e : mountError) | XHangs | XPanics.
Arguments XRet {A} a.
Arguments XFail {A} e.
Arguments XHangs {A}.
Arguments XPanics {A}.

Section execute.
(** The state of the host, and the two executors a mount dispatches to
    (overlay.go, direct.go). *)
Context {H : Type}.
Variables directExecute overlayExecute : mount -> oscall -> bytes -> H -> xres value * (mount * H).

Definition execute (m : mount) (call : oscall) (h : H) : xres value * (mount * H) :=
  let run (mode : bytes) : xres value * (mount * H) :=
    if bool_decide (m_mode m = ReadOnly) && isWriteCall call mode
    then (XFail (MReadOnly (oc_path call)), (m, h))
    else if bool_decide (m_mode m = Overlay) then overlayExecute m call mode h
    else directExecute m call mode h in
  if oc_op call =? OpOpen then
    match CanonicalFileMode (oc_mode call) with
    | Err e => (XFail (MValueOf e), (m, h))
    | Ok mode => run mode
    end
  else run [].

(** [Table.handle]: [None] when no mount covers the call. *)
Definition handle (t : table) (call : option oscall) (h : H) : option (xres value) * (table * H) :=
  match call with
  | None => (None, (t, h))
  | Some call =>
    if negb (IsFS call) then (None, (t, h))
    else
      let primary := oc_path call in
      let rejection :=
        match rejectOverlongPath primary with
        | Some e => Some e
        | None => if containsNullByte primary then Some (MValue (go (NullMessage call false))) else None
        end in
      match rejection with
      | Some e => (Some (if IsExistenceCheck call then XRet (VBool false) else XFail e), (t, h))
      | None =>
        match route t primary call with
        | RouteNone => (None, (t, h))
        | RouteErr e => (Some (XFail e), (t, h))
        | RouteTo i =>
          match t_mounts t !! Z.to_nat i with
          | None => (Some XPanics, (t, h))
          | Some m =>
            let '(r, (m, h)) := execute m call h in
            (Some r, (Table (<[Z.to_nat i := m]> (t_mounts t)) (t_first t), h))
          end
        end
      end
  end.
End execute.

(** ** Routing *)

Section routing.
Definition longer (a b : mount) : Prop := len (m_virtual b) <= len (m_virtual a).

Lemma push_at_split n ms : Forall (fun m => n < len (m_virtual m)) (take (push_at n ms) ms)
  /\ match drop (push_at n ms) ms with m :: _ => len (m_virtual m) <= n | [] => True end.
Proof.
  induction ms as [|m ms [IH1 IH2]]; cbn; [done|].
  destruct (Z.ltb_spec n (len (m_virtual m))); cbn; [split; [by constructor|done]|]. split; [constructor|done].
Qed.

Lemma push_sorted m ms : StronglySorted longer ms -> StronglySorted longer (push m ms).
Proof.
  unfold push. destruct (push_at_split (len (m_virtual m)) ms) as [Ha Hb].
  set (n := push_at (len (m_virtual m)) ms) in *. intros Hs. rewrite <- (take_drop n ms) in Hs.
  revert Ha Hb Hs. generalize (take n ms) as a, (drop n ms) as b. intros a b Ha Hb Hs.
  induction a as [|x a IH]; cbn in *.
  - constructor; [done|]. destruct b as [|y b]; [constructor|]. inv Hs. constructor; [done|].
    eapply Forall_impl; [exact H2|]. unfold longer. intros; cbn in *; lia.
  - inv Hs. inv Ha. constructor; [by apply IH|]. apply Forall_app in H2 as [? ?].
    apply Forall_app. split; [done|]. constructor; [unfold longer; lia|done].
Qed.

Lemma push_elem m ms x : x ∈ push m ms <-> x = m \/ x ∈ ms.
Proof.
  unfold push. set (n := push_at _ ms). rewrite elem_of_app, elem_of_cons.
  rewrite <- (take_drop n ms) at 3. rewrite elem_of_app. tauto.
Qed.

Lemma table_sorted specs ms : StronglySorted longer ms ->
  StronglySorted longer (fold_left (fun ms s => push (mount_of s) ms) specs ms).
Proof. revert ms. induction specs as [|s specs IH]; intros ms Hs; [done|]. apply IH, push_sorted, Hs. Qed.

Lemma table_elem specs ms x :
  x ∈ fold_left (fun ms s => push (mount_of s) ms) specs ms <-> x ∈ ms \/ exists s, s ∈ specs /\ x = mount_of s.
Proof.
  revert ms. induction specs as [|s specs IH]; intros ms; cbn.
  - split; [auto|]. intros [?|(s & Hs & _)]; [done|]. by apply not_elem_of_nil in Hs.
  - rewrite IH, push_elem. setoid_rewrite elem_of_cons. naive_solver.
Qed.

Lemma find_loop_spec p ms i : 0 <= i ->
  let j := find_loop p ms i in
  (j = -1 /\ Forall (fun m => pathMatchesMount p (m_virtual m) = false) ms)
  \/ (i <= j /\ exists m, ms !! Z.to_nat (j - i) = Some m /\ pathMatchesMount p (m_virtual m) = true
      /\ Forall (fun m => pathMatchesMount p (m_virtual m) = false) (take (Z.to_nat (j - i)) ms)).
Proof.
  revert i. induction ms as [|m ms IH]; intros i Hi; cbn; [left; split; [done|constructor]|].
  destruct (pathMatchesMount p (m_virtual m)) eqn:E.
  - right. split; [lia|]. exists m. rewrite Z.sub_diag. cbn. split_and!; [done|done|constructor].
  - destruct (IH (i + 1) ltac:(lia)) as [[Hj HF]|(Hj & m' & Hl & Hm & HF)].
    + left. split; [done|]. by constructor.
    + right. split; [lia|]. exists m'.
      set (j := find_loop p ms (i + 1)) in *.
      replace (Z.to_nat (j - i)) with (S (Z.to_nat (j - (i + 1)))) by lia. cbn.
      split_and!; [done|done|by constructor].
Qed.

Lemma sorted_lookup ms i j a b : StronglySorted longer ms -> (i <= j)%nat ->
  ms !! i = Some a -> ms !! j = Some b -> len (m_virtual b) <= len (m_virtual a).
Proof.
  intros Hs. revert i j. induction Hs as [|x ms Hs IH Hx]; intros i j Hij Ha Hb; [done|].
  destruct i as [|i], j as [|j]; cbn in *; simplify_eq; try lia.
  - rewrite Forall_lookup in Hx. by apply (Hx j).
  - eapply IH; [|done|done]. lia.
Qed.
End routing.

(** Routing picks the most specific mount: in a table built from any
    specs, [findMount] returns the index of a mount that covers the path and
    whose virtual path is at least as long as that of every other mount that
    covers it, and -1 exactly when no spec covers the path. *)
Theorem find_mount_longest (specs : list spec) (vpath : bytes) :
  let t := NewTable specs in
  let p := NormalizeVirtualPath vpath in
  let i := findMount t vpath in
  (i = -1 /\ Forall (fun s => pathMatchesMount p (sp_virtual s) = false) specs)
  \/ (0 <= i /\ exists m, t_mounts t !! Z.to_nat i = Some m
      /\ pathMatchesMount p (m_virtual m) = true
      /\ Forall (fun s => pathMatchesMount p (sp_virtual s) = true ->
                          len (sp_virtual s) <= len (m_virtual m)) specs).
Proof.
  intros t p i. pose proof (table_sorted specs [] ltac:(constructor)) as Hs.
  fold (t_mounts t) in Hs. change (fold_left _ specs []) with (t_mounts t) in Hs.
  assert (forall s, s ∈ specs -> mount_of s ∈ t_mounts t) as Hin.
  { intros s Hsp. apply table_elem. right. by exists s. }
  destruct (find_loop_spec p (t_mounts t) 0 ltac:(done)) as [[Hi HF]|(Hi & m & Hl & Hm & HF)].
  - left. split; [done|]. apply Forall_forall. intros s Hsp. rewrite Forall_forall in HF.
    apply (HF (mount_of s)). by apply Hin.
  - right. rewrite Z.sub_0_r in *. split; [done|]. exists m. split_and!; [done|done|].
    apply Forall_forall. intros s Hsp Hmatch. apply Hin in Hsp.
    apply list_elem_of_lookup in Hsp as [j Hj].
    change (len (sp_virtual s)) with (len (m_virtual (mount_of s))).
    destruct (Nat.le_gt_cases (Z.to_nat i) j) as [Hle|Hgt].
    + by eapply sorted_lookup; [| |exact Hl|exact Hj].
    + exfalso. rewrite Forall_lookup in HF.
      assert (take (Z.to_nat i) (t_mounts t) !! j = Some (mount_of s)) as Ht
        by (by rewrite lookup_take_lt).
      apply HF in Ht. cbn in Ht. congruence.
Qed.

(** On a read-only mount only reading calls reach the executor. *)
Lemma read_only_execute {H : Type}
    (direct overlay : mount -> oscall -> bytes -> H -> xres value * (mount * H)) m call h :
  m_mode m = ReadOnly ->
  (exists e, execute direct overlay m call h = (XFail e, (m, h)))
  \/ (exists mode, execute direct overlay m call h = direct m call mode h
      /\ (if oc_op call =? OpOpen then mode = go "r" \/ mode = go "rb" else IsWrite call = false)).
Proof.
  intros Hm. unfold execute, isWriteCall. rewrite Hm, bool_decide_eq_true_2 by done. cbn [andb].
  rewrite bool_decide_eq_false_2 by done.
  destruct (oc_op call =? OpOpen) eqn:Ho.
  - destruct (CanonicalFileMode (oc_mode call)) as [c|e] eqn:Ec; [|by eauto].
    apply CanonicalFileMode_mode_spec, mode_spec_canonical in Ec.
    destruct (ModeCreates c) eqn:Em; [by eauto|]. right. exists c. split; [done|].
    unfold canonical_modes in Ec. cbn [map] in Ec. rewrite !elem_of_cons in Ec.
    destruct Ec as [-> | [-> | [-> | [-> | [-> | [-> | []%not_elem_of_nil]]]]]]; auto; done.
  - destruct (IsWrite call) eqn:Hw; [by eauto|]. right. exists []. done.
Qed.

(** Guards before any host access, whatever the executors do: a call that
    is no filesystem call is not handled; one whose path is overlong or holds a
    NUL byte answers false for an existence check and an error otherwise; both
    leave the table unchanged. On a read-only mount an executor only ever runs
    for a call that does not write: every write is refused, and [open] gets
    through only with the canonical mode r or rb. *)
Theorem handle_guards {H : Type}
    (direct overlay : mount -> oscall -> bytes -> H -> xres value * (mount * H)) (t : table) (call : oscall) (h : H) :
  (if negb (IsFS call) then handle direct overlay t (Some call) h = (None, (t, h))
   else if isOverlong (oc_path call) || containsNullByte (oc_path call) then
     exists r, handle direct overlay t (Some call) h = (Some r, (t, h))
     /\ if IsExistenceCheck call then r = XRet (VBool false) else exists e, r = XFail e
   else True)
  /\ forall m, m_mode m = ReadOnly ->
     (exists e, execute direct overlay m call h = (XFail e, (m, h)))
     \/ (exists mode, execute direct overlay m call h = direct m call mode h
         /\ (if oc_op call =? OpOpen then mode = go "r" \/ mode = go "rb" else IsWrite call = false)).
Proof.
  split.
  - destruct (IsFS call) eqn:Hf; cbn [negb]; [|cbn; by rewrite Hf].
    destruct (isOverlong (oc_path call) || _) eqn:Ho; [|done]. cbn. rewrite Hf. cbn [negb].
    unfold rejectOverlongPath. destruct (isOverlong (oc_path call)) eqn:Eo; cbn [negb].
    + destruct (IsExistenceCheck call); eauto.
    + cbn in Ho. rewrite Ho. destruct (IsExistenceCheck call); eauto.
  - intros m Hm. destruct (read_only_execute direct overlay m call h Hm) as [?|(mode & ? & ?)]; eauto.
Qed.

(** A read-only mount refuses to open a file for writing, however the mode is
    spelled. *)
Lemma handle_guards_witness :
  let run (m : mount) (_ : oscall) (_ : bytes) (h : ()) : xres value * (mount * ()) := (XRet VNil, (m, h)) in
  let m := mount_of (Spec (go "/data") 3 ReadOnly None 1000) in
  exists e, execute run run m (set_oc_mode (go "bw") (set_oc_path (go "/data/x") (set_oc_op OpOpen new_oscall))) ()
  = (XFail e, (m, ())).
Proof.
  intros run m.
  destruct (proj2 (handle_guards run run (Table [] None)
    (set_oc_mode (go "bw") (set_oc_path (go "/data/x") (set_oc_op OpOpen new_oscall))) ())
    m eq_refl) as [H|(mode & H & [-> | ->])].
  - exact H.
  - vm_compute in H. discriminate H.
  - vm_compute in H. discriminate H.
Defined.

(** The write limit is never exceeded: committing what [checkWriteLimit]
    let through keeps the bytes written within the limit, and what was written
    before stays counted. *)
Theorem write_limit_respected (m : mount) (n limit : Z) :
  0 <= n <= MaxUint64 -> 0 <= m_write_used m <= limit -> limit <= MaxUint64 ->
  m_write_limit m = Some limit ->
  match checkWriteLimit m n with
  | None => m_write_used m + n <= limit \/ limit = MaxUint64
  | Some e => e = MWriteLimit limit /\ limit < m_write_used m + n
  end
  /\ (checkWriteLimit m n = None ->
      m_write_used m <= m_write_used (commitWriteBytes m n) <= limit
      /\ m_write_limit (commitWriteBytes m n) = Some limit).
Proof.
  intros Hn Hu Hl Hw. unfold checkWriteLimit, commitWriteBytes. rewrite Hw.
  rewrite satAdd_min by lia.
  destruct (Z.ltb_spec limit (Z.min (m_write_used m + n) MaxUint64)).
  - split; [split; [done|lia]|done].
  - split; [lia|]. intros _. cbn. split; [lia|done].
Qed.

Lemma write_limit_respected_witness :
  checkWriteLimit (Mount (go "/d") 3 ReadWrite 90 (Some 100) 0 None) 20 = Some (MWriteLimit 100).
Proof.
  destruct (write_limit_respected (Mount (go "/d") 3 ReadWrite 90 (Some 100) 0 None) 20 100) as [H _];
    [vm_compute; split; discriminate|vm_compute; split; discriminate|vm_compute; discriminate|reflexivity|].
  vm_compute. reflexivity.
Defined.
