(* ===== verification/HostFs.v ===== *)
(** The host side of a mount: src/internal/mountfs/host.go and the
    classification of operating-system errors of errors.go.

    What the operating system and the Go runtime answer is the class [Host]: a
    state and, for each call the code makes on an os.Root or os.File, an answer
    and a next state. Nothing is assumed of the answers, so other processes may
    change the directory between any two calls. Every call and its arguments
    are logged. Programs run in a monad over the mount, the host and the log;
    loops that go on for as long as the host gives them something are bounded by
    [fuel], and one that has used it up hangs. *)

From S2P Require Import Prelude Utf8 GoStrings VPath Protowire Proto Values ValueCodec Exceptions.
From S2P Require Import Events MountPath OverlayState MountTable.

(** ** Operating-system errors (errors.go) *)

(** One error of a chain of wrapped errors: its text, and its number when it is
    a syscall.Errno. *)
Record errlayer := ErrLayer { el_text : bytes; el_errno : option Z }.
Abbreviation oserr := (list errlayer).

Definition ENOENT : Z := 2.
Definition EPERM : Z := 1.
Definition EACCES : Z := 13.
Definition EEXIST : Z := 17.
Definition ENOTDIR : Z := 20.
Definition EISDIR : Z := 21.
Definition EINVAL : Z := 22.
Definition ENAMETOOLONG : Z := 36.
Definition ENOTEMPTY : Z := 39.

Definition pathEscapesText : bytes := go "path escapes from parent".

Definition isPathEscape (err : oserr) : bool :=
  existsb (fun l => bool_decide (el_text l = pathEscapesText)) err.

(** [errors.As(err, &errno)] *)
Fixpoint as_errno (err : oserr) : option (Z * bytes) :=
  match err with
  | [] => None
  | ErrLayer text (Some n) :: _ => Some (n, text)
  | _ :: err => as_errno err
  end.

Definition ioKindOf (err : oserr) : iokind :=
  match as_errno err with
  | None => ioOther
  | Some (n, _) =>
    if n =? ENOENT then ioNotFound
    else if n =? EEXIST then ioAlreadyExists
    else if (n =? EACCES) || (n =? EPERM) then ioPermissionDenied
    else if n =? EISDIR then ioIsADirectory
    else if n =? ENOTDIR then ioNotADirectory
    else if n =? ENOTEMPTY then ioDirectoryNotEmpty
    else if n =? ENAMETOOLONG then ioInvalidFilename
    else if n =? EINVAL then ioInvalidInput
    else ioOther
  end.

Definition ioDisplay (err : oserr) : bytes :=
  match as_errno err with
  | Some (n, text) =>
    let text := match text with
                | c :: rest => if between 97 122 c then byte_of (byte_val c - 97 + 65) :: rest else text
                | [] => text
                end in
    text ++ go " (os error " ++ itoa n ++ go ")"
  | None => match last err with Some l => el_text l | None => [] end
  end.

Definition mapIO (err : oserr) (vpath : bytes) : mountError :=
  if isPathEscape err then MPathEscape vpath else MIO (ioKindOf err) (ioDisplay err) vpath.

(** [!isPathEscape(err) && ioKindOf(err) == ioNotFound] *)
Definition missing (err : oserr) : bool :=
  negb (isPathEscape err) && match ioKindOf err with ioNotFound => true | _ => false end.

Definition notFound (vpath : bytes) : mountError := MIO ioNotFound (go "No such file or directory") vpath.
Definition isADirectory (vpath : bytes) : mountError := MIO ioIsADirectory (go "Is a directory") vpath.
Definition notADirectory (vpath : bytes) : mountError := MIO ioNotADirectory (go "Not a directory") vpath.
Definition fileExists (vpath : bytes) : mountError := MIO ioAlreadyExists (go "File exists") vpath.
Definition permissionDenied (vpath : bytes) : mountError := MIO ioPermissionDenied (go "Permission denied") vpath.
Definition directoryNotEmpty (vpath : bytes) : mountError := MIO ioDirectoryNotEmpty (go "Directory not empty") vpath.

(** ** What the host answers *)

Inductive fkind := FDir | FRegular | FSymlink | FSpecial.

#[export] Instance fkind_eq_decision : EqDecision fkind.
Proof. solve_decision. Defined.

(** An fs.FileInfo; the modification time in seconds is opaque. *)
Record fileinfo := FileInfo { fi_kind : fkind; fi_size : Z; fi_mtime : Z }.

Definition IsDir (fi : fileinfo) : bool := bool_decide (fi_kind fi = FDir).
Definition IsRegular (fi : fileinfo) : bool := bool_decide (fi_kind fi = FRegular).
Definition IsLink (fi : fileinfo) : bool := bool_decide (fi_kind fi = FSymlink).

Record direntry := DirEntry { de_name : bytes; de_type : fkind }.

(** Why a Read or a ReadDir ended. *)
Inductive readend := REof | RErr (err : oserr).

(** The flags of an OpenFile. *)
Inductive openflag := ORead | ODirectory | OCreateTrunc | OCreateAppend.

(** Directory and file descriptors are numbers. *)
Class Host := {
  host : Type;
  Stat : Z -> bytes -> host -> (oserr + fileinfo) * host;
  Lstat : Z -> bytes -> host -> (oserr + fileinfo) * host;
  OpenRoot : Z -> bytes -> host -> (oserr + Z) * host;
  OpenFile : Z -> bytes -> openflag -> host -> (oserr + Z) * host;
  FStat : Z -> host -> (oserr + fileinfo) * host;
  Read : Z -> Z -> host -> bytes * option readend * host;
  WriteTo : Z -> bytes -> host -> option oserr * host;
  ReadDir : Z -> host -> list direntry * option readend * host;
  Mkdir : Z -> bytes -> host -> option oserr * host;
  Remove : Z -> bytes -> host -> option oserr * host;
  RenameIn : Z -> bytes -> bytes -> host -> option oserr * host;
  Close : Z -> host -> host;
  (** [currentTimestamp] *)
  Now : host -> Z * host;
  (** the capacity of a slice of a given length and capacity after appending
      so many bytes to it, which Go leaves to its runtime *)
  append_cap : Z -> Z -> Z -> Z;
  (** [unlinkDirErrno], by operating system, and its text *)
  unlinkDirErrno : Z;
  errno_text : Z -> bytes }.

(** ** The monad *)

(** The log of host calls. *)
Inductive hcall :=
| CStat (dir : Z) (rel : bytes)
| CLstat (dir : Z) (rel : bytes)
| COpenRoot (dir : Z) (rel : bytes)
| COpenFile (dir : Z) (rel : bytes) (flag : openflag)
| COpened (fd : Z)
| CFStat (fd : Z)
| CRead (fd : Z) (room : Z)
| CWrite (fd : Z) (data : bytes)
| CReadDir (fd : Z)
| CMkdir (dir : Z) (rel : bytes)
| CRemove (dir : Z) (rel : bytes)
| CRename (dir : Z) (src dst : bytes)
| CClose (fd : Z).

Section host.
Context `{HO : Host}.

Record st := St { st_mount : mount; st_host : host; st_log : list hcall }.

Definition X (A : Type) : Type := st -> xres A * st.

#[export] Instance X_ret : MRet X := fun _ a s => (XRet a, s).
#[export] Instance X_bind : MBind X := fun _ _ f m s =>
  match m s with
  | (XRet a, s) => f a s
  | (XFail e, s) => (XFail e, s)
  | (XHangs, s) => (XHangs, s)
  | (XPanics, s) => (XPanics, s)
  end.

Definition fail {A} (e : mountError) : X A := fun s => (XFail e, s).
Definition hangs {A} : X A := fun s => (XHangs, s).
Definition panics {A} : X A := fun s => (XPanics, s).
Definition lift {A} (r : mres A) : X A := match r with inl a => mret a | inr e => fail e end.
Definition check (r : option mountError) : X () := match r with Some e => fail e | None => mret tt end.

(** A call whose error is looked at. *)
Definition catch {A} (m : X A) : X (mountError + A) := fun s =>
  match m s with
  | (XRet a, s) => (XRet (inr a), s)
  | (XFail e, s) => (XRet (inl e), s)
  | (XHangs, s) => (XHangs, s)
  | (XPanics, s) => (XPanics, s)
  end.

(** [defer]: [fin] runs when [m] has returned, with a value or an error. *)
Definition deferring {A} (fin : X ()) (m : X A) : X A :=
  r ← catch m; _ ← fin; match r with inl e => fail e | inr a => mret a end.

Definition get_mount : X mount := fun s => (XRet (st_mount s), s).
Definition put_mount (m : mount) : X () := fun s => (XRet tt, St m (st_host s) (st_log s)).

Definition ask {A} (c : hcall) (op : host -> A * host) : X A := fun s =>
  let '(a, h) := op (st_host s) in (XRet a, St (st_mount s) h (st_log s ++ [c])).

Definition log (c : hcall) : X () := fun s => (XRet tt, St (st_mount s) (st_host s) (st_log s ++ [c])).

Definition stat (dir : Z) (rel : bytes) : X (oserr + fileinfo) := ask (CStat dir rel) (Stat dir rel).
Definition lstat (dir : Z) (rel : bytes) : X (oserr + fileinfo) := ask (CLstat dir rel) (Lstat dir rel).
(** A descriptor that was opened is logged as such. *)
Definition opened (r : oserr + Z) : X (oserr + Z) :=
  match r with inr fd => _ ← log (COpened fd); mret r | inl _ => mret r end.
Definition open_root (dir : Z) (rel : bytes) : X (oserr + Z) :=
  r ← ask (COpenRoot dir rel) (OpenRoot dir rel); opened r.
Definition open_file (dir : Z) (rel : bytes) (flag : openflag) : X (oserr + Z) :=
  r ← ask (COpenFile dir rel flag) (OpenFile dir rel flag); opened r.
Definition fstat (fd : Z) : X (oserr + fileinfo) := ask (CFStat fd) (FStat fd).
Definition fread (fd room : Z) : X (bytes * option readend) :=
  ask (CRead fd room) (fun h => let '(d, e, h) := Read fd room h in (d, e, h)).
Definition fwrite (fd : Z) (data : bytes) : X (option oserr) := ask (CWrite fd data) (WriteTo fd data).
Definition read_dir (fd : Z) : X (list direntry * option readend) :=
  ask (CReadDir fd) (fun h => let '(d, e, h) := ReadDir fd h in (d, e, h)).
Definition mkdir (dir : Z) (rel : bytes) : X (option oserr) := ask (CMkdir dir rel) (Mkdir dir rel).
Definition remove (dir : Z) (rel : bytes) : X (option oserr) := ask (CRemove dir rel) (Remove dir rel).
Definition rename (dir : Z) (src dst : bytes) : X (option oserr) := ask (CRename dir src dst) (RenameIn dir src dst).
Definition close (fd : Z) : X () := ask (CClose fd) (fun h => (tt, Close fd h)).
Definition currentTimestamp : X Z := fun s => let '(t, h) := Now (st_host s) in (XRet t, St (st_mount s) h (st_log s)).
End host.

(** ** Memory budgets *)

Definition listingEntryMemoryUsage : Z := 128.

Record memoryBudget := MemoryBudget { mb_available : Z; mb_limit : Z }.

Definition fullBudget (limit : Z) : memoryBudget := MemoryBudget limit limit.

Definition mb_check (b : memoryBudget) (n : Z) : option mountError :=
  if mb_available b <? n then Some (MMemoryLimit (mb_limit b)) else None.

Definition shrink (b : memoryBudget) (n : Z) : mres memoryBudget :=
  if mb_available b <? n then inr (MMemoryLimit (mb_limit b))
  else inl (MemoryBudget (mb_available b - n) (mb_limit b)).

Definition halved (b : memoryBudget) : memoryBudget := MemoryBudget (mb_available b / 2) (mb_limit b).

Definition satMul (a b : Z) : Z := if negb (a =? 0) && (MaxUint64 / a <? b) then MaxUint64 else a * b.

(** ** Stat results *)

Definition statResult (mode nlink size mtime : Z) : value :=
  VNamedTuple (go "StatResult")
    (map go ["st_mode"; "st_ino"; "st_dev"; "st_nlink"; "st_uid"; "st_gid"; "st_size"; "st_atime"; "st_mtime"; "st_ctime"])
    [VInt KInt64 mode; VInt KInt64 0; VInt KInt64 0; VInt KInt64 nlink; VInt KInt64 0; VInt KInt64 0; VInt KInt64 size;
     VFloat64 mtime; VFloat64 mtime; VFloat64 mtime].

Definition fileStat (size mtime : Z) : value := statResult 33188 1 size mtime.
Definition dirStat (mtime : Z) : value := statResult 16877 2 4096 mtime.

(** ** Queries *)

Section queries.
Context `{HO : Host}.

(** [fi, err := dir.Stat(rel)] and a test of [fi] that fails with [err]. *)
Definition stat_test (dir : Z) (rel : bytes) (test : fileinfo -> bool) : X bool :=
  r ← stat dir rel; mret match r with inr fi => test fi | inl _ => false end.

Definition hostDirMtime (dir : Z) (rel : bytes) : X Z :=
  r ← stat dir rel; match r with inr fi => mret (fi_mtime fi) | inl _ => currentTimestamp end.

Definition hostExists (dir : Z) (rel : bytes) : X bool := stat_test dir rel (fun _ => true).
Definition hostIsDir (dir : Z) (rel : bytes) : X bool := stat_test dir rel IsDir.
Definition hostIsFile (dir : Z) (rel : bytes) : X bool := stat_test dir rel IsRegular.
Definition hostIsSymlink (dir : Z) (rel : bytes) : X bool :=
  r ← lstat dir rel; mret match r with inr fi => IsLink fi | inl _ => false end.

Definition rejectNonRegular (dir : Z) (rel vpath : bytes) : X () :=
  r ← stat dir rel;
  match r with
  | inl _ => mret tt
  | inr fi => if IsDir fi then fail (isADirectory vpath)
              else if negb (IsRegular fi) then fail (permissionDenied vpath) else mret tt
  end.

Definition openRegular (dir : Z) (rel vpath : bytes) (flag : openflag) : X Z :=
  r ← open_file dir rel flag;
  match r with
  | inl err => fail (mapIO err vpath)
  | inr f =>
    r ← fstat f;
    match r with
    | inl err => _ ← close f; fail (mapIO err vpath)
    | inr fi =>
      if IsRegular fi then mret f
      else
        _ ← close f;
        if IsDir fi then fail (isADirectory vpath) else fail (permissionDenied vpath)
    end
  end.

Section loops.
(** How many answers of the host a loop waits for. *)
Variable fuel : nat.

(** [readAtMost]; [cap] is the capacity of [buf]. A Read fills at most the room
    it is given. *)
Fixpoint read_loop (n : nat) (fd : Z) (buf : bytes) (cap limit : Z) : X (bytes * option oserr) :=
  match n with
  | O => hangs
  | S n =>
    if len buf <? limit then
      let cap := if len buf =? cap
                 then append_cap (len buf) cap (Z.min (Z.max cap 512) (limit - len buf))
                 else cap in
      let room := Z.min (cap - len buf) (limit - len buf) in
      '(data, err) ← fread fd room;
      let buf := buf ++ take (Z.to_nat room) data in
      match err with
      | Some REof => mret (buf, None)
      | Some (RErr err) => mret (buf, Some err)
      | None => read_loop n fd buf cap limit
      end
    else mret (buf, None)
  end.
Definition readAtMost (fd cap limit : Z) : X (bytes * option oserr) := read_loop fuel fd [] cap limit.

Definition readFileLimited (dir : Z) (rel vpath : bytes) (budget : memoryBudget) : X bytes :=
  _ ← rejectNonRegular dir rel vpath;
  f ← openRegular dir rel vpath ORead;
  deferring (close f) (
    r ← fstat f;
    match r with
    | inl err => fail (mapIO err vpath)
    | inr fi =>
      let size := Z.max (fi_size fi) 0 in
      _ ← check (mb_check budget size);
      let limit := satAdd (mb_available budget) 1 in
      '(content, err) ← readAtMost f (Z.min (uint64 (size + 1)) limit) limit;
      match err with
      | Some err => fail (mapIO err vpath)
      | None => _ ← check (mb_check budget (len content)); mret content
      end
    end).

Definition writeWithFlags (dir : Z) (rel content vpath : bytes) (flag : openflag) : X () :=
  _ ← rejectNonRegular dir rel vpath;
  f ← openRegular dir rel vpath flag;
  deferring (close f) (
    err ← fwrite f content;
    match err with Some err => fail (mapIO err vpath) | None => mret tt end).

Definition writeBytesToFile (dir : Z) (rel content vpath : bytes) : X () :=
  writeWithFlags dir rel content vpath OCreateTrunc.
Definition appendBytesToFile (dir : Z) (rel content vpath : bytes) : X () :=
  writeWithFlags dir rel content vpath OCreateAppend.

(** The parent of a relative path: what stands before its last slash. *)
Definition before_slash (p : bytes) : bytes :=
  let i := LastIndexByte p slash in if 0 <=? i then take (Z.to_nat i) p else [].

(** [createDirAll]; every call is on a shorter path. *)
Fixpoint create_dirs (n : nat) (dir : Z) (p : bytes) : X (option oserr) :=
  match n with
  | O => hangs
  | S n =>
    if bool_decide (p = []) then mret None
    else
      err ← mkdir dir p;
      match err with
      | None => mret None
      | Some err =>
        if negb (missing err) then
          d ← hostIsDir dir p; mret (if d : bool then None else Some err)
        else
          r ← create_dirs n dir (before_slash p);
          match r with
          | Some err => mret (Some err)
          | None =>
            err ← mkdir dir p;
            match err with
            | None => mret None
            | Some err => d ← hostIsDir dir p; mret (if d : bool then None else Some err)
            end
          end
      end
  end.
Definition createDirAll (dir : Z) (p : bytes) : X (option oserr) := create_dirs (S (length p)) dir p.

Definition hostMkdir (dir : Z) (rel : bytes) (parents existOK : bool) (vpath : bytes) : X () :=
  let finish (err : option oserr) : X () :=
    match err with
    | None => mret tt
    | Some err =>
      let exists_ := negb (isPathEscape err) && match ioKindOf err with ioAlreadyExists => true | _ => false end in
      d ← (if exists_ && existOK then hostIsDir dir rel else mret false);
      if d : bool then mret tt else fail (mapIO err vpath)
    end in
  if parents then
    r ← stat dir rel;
    match r with
    | inr fi => if IsDir fi && existOK then mret tt else fail (fileExists vpath)
    | inl _ => err ← createDirAll dir rel; finish err
    end
  else err ← mkdir dir rel; finish err.

(** The error of [&os.PathError{Op: "unlinkat", Path: rel, Err: errno}] *)
Definition unlinkat_error (rel : bytes) (errno : Z) : oserr :=
  [ErrLayer (go "unlinkat " ++ rel ++ go ": " ++ errno_text errno) None; ErrLayer (errno_text errno) (Some errno)].

Definition hostUnlink (dir : Z) (rel vpath : bytes) : X () :=
  r ← lstat dir rel;
  match r with
  | inl err => fail (mapIO err vpath)
  | inr fi =>
    if IsDir fi then fail (mapIO (unlinkat_error rel unlinkDirErrno) vpath)
    else err ← remove dir rel; match err with Some err => fail (mapIO err vpath) | None => mret tt end
  end.

Definition hostRmdir (dir : Z) (rel vpath : bytes) : X () :=
  r ← lstat dir rel;
  match r with
  | inl err => fail (mapIO err vpath)
  | inr fi =>
    if negb (IsDir fi) then fail (mapIO (unlinkat_error rel ENOTDIR) vpath)
    else err ← remove dir rel; match err with Some err => fail (mapIO err vpath) | None => mret tt end
  end.

Definition hostStat (dir : Z) (rel vpath : bytes) : X value :=
  r ← stat dir rel;
  match r with
  | inl err => fail (mapIO err vpath)
  | inr fi => mret (if IsDir fi then dirStat (fi_mtime fi) else fileStat (fi_size fi) (fi_mtime fi))
  end.

Definition openDir (dir : Z) (rel : bytes) : X (oserr + Z) := open_file dir rel ODirectory.

(** [eachDirEntry]: [fn] threads what the closure of the source keeps, and says
    whether to stop. *)
Section each.
Context {S : Type} (fn : S -> direntry -> X (S * bool)).

Fixpoint each_entry (batch : list direntry) (acc : S) : X (S * bool) :=
  match batch with
  | [] => mret (acc, false)
  | entry :: batch =>
    '(acc, stop) ← fn acc entry;
    if stop : bool then mret (acc, true) else each_entry batch acc
  end.

Fixpoint each_batch (n : nat) (fd : Z) (vpath : bytes) (acc : S) : X S :=
  match n with
  | O => hangs
  | Datatypes.S n =>
    '(batch, err) ← read_dir fd;
    '(acc, stop) ← each_entry batch acc;
    if stop : bool then mret acc
    else match err with
         | Some REof => mret acc
         | Some (RErr err) => fail (mapIO err vpath)
         | None => if len batch =? 0 then mret acc else each_batch n fd vpath acc
         end
  end.
Definition eachDirEntry (fd : Z) (vpath : bytes) (acc : S) : X S := each_batch fuel fd vpath acc.
End each.

Definition charge_name (usage : Z) (name : bytes) : Z := satAdd (satAdd usage (len name)) listingEntryMemoryUsage.

Definition visible_entry (dir : Z) (rel : bytes) (budget : memoryBudget) (acc : list bytes * Z) (entry : direntry)
    : X (list bytes * Z * bool) :=
  let '(names, usage) := acc in
  hidden ← (if bool_decide (de_type entry = FSymlink)
            then r ← stat dir (joinMountRelative rel (de_name entry));
                 mret match r with inl _ => true | inr _ => false end
            else mret false);
  if hidden : bool then mret (names, usage, false)
  else
    let name := lossyUTF8 (de_name entry) in
    let usage := charge_name usage name in
    _ ← check (mb_check budget usage);
    mret (names ++ [name], usage, false).

Definition hostListVisibleDirEntryNames (dir : Z) (rel vpath : bytes) (budget : memoryBudget) : X (list bytes) :=
  r ← stat dir rel;
  match r with
  | inl err => fail (mapIO err vpath)
  | inr _ =>
    r ← openDir dir rel;
    match r with
    | inl err => fail (mapIO err vpath)
    | inr f =>
      deferring (close f) (
        '(names, _) ← eachDirEntry (visible_entry dir rel budget) f vpath ([], 0);
        mret names)
    end
  end.

(** The loop that turns names into paths, charging each to the budget. *)
Fixpoint list_paths (vpath : bytes) (budget : memoryBudget) (names : list bytes) (usage : Z) : mres (list value) :=
  match names with
  | [] => inl []
  | name :: names =>
    let path := formatChildPath vpath name in
    let usage := charge_name usage path in
    match mb_check budget usage with
    | Some e => inr e
    | None =>
      match list_paths vpath budget names usage with
      | inl rest => inl (VPath path :: rest)
      | inr e => inr e
      end
    end
  end.

Definition hostIterdir (dir : Z) (rel vpath : bytes) (budget : memoryBudget) : X value :=
  names ← hostListVisibleDirEntryNames dir rel vpath (halved budget);
  let usage := fold_left charge_name names 0 in
  result ← lift (list_paths vpath budget names usage);
  mret (VList result).
End loops.
End queries.
