(* ===== verification/Direct.v ===== *)
(** The executor of read-only and read-write mounts,
    src/internal/mountfs/direct.go, over the host of HostFs.v. *)

From S2P Require Import Prelude Utf8 GoStrings VPath Protowire Proto Values ValueCodec Exceptions.
From S2P Require Import Events MountPath OverlayState MountTable HostFs.

(** [utf8.RuneCountInString] *)
Definition RuneCountInString (s : bytes) : Z := len (rune_starts s).

Section direct.
Context `{HO : Host} (fuel : nat).

(** [m.checkWriteLimit] and [m.commitWriteBytes] on the mount of the state. *)
Definition check_write (n : Z) : X () := m ← get_mount; check (checkWriteLimit m n).
Definition commit_write (n : Z) : X () := m ← get_mount; put_mount (commitWriteBytes m n).

Definition resolve_path (vpath : bytes) : X bytes := m ← get_mount; lift (resolveVirtualPath vpath (m_virtual m)).

Definition the_dir : X Z := m ← get_mount; mret (m_dir m).

Definition directWrite (path data : bytes) (result : Z) (appendMode : bool) : X value :=
  let n := len data in
  _ ← check_write n;
  rel ← resolve_path path;
  dir ← the_dir;
  _ ← (if appendMode then appendBytesToFile dir (dirOp rel) data path
       else writeBytesToFile dir (dirOp rel) data path);
  _ ← commit_write n;
  mret (VInt KInt64 result).

Definition directOpen (path mode : bytes) : X value :=
  rel ← resolve_path path;
  dir ← the_dir;
  let op := dirOp rel in
  _ ← match mode with
      | [] => panics
      | c :: _ =>
        if Byte.eqb c "r" then
          r ← stat dir op;
          match r with inl err => fail (mapIO err path) | inr _ => rejectNonRegular dir op path end
        else if Byte.eqb c "w" then
          _ ← check_write 0; _ ← writeBytesToFile dir op [] path; commit_write 0
        else if Byte.eqb c "a" then appendBytesToFile dir op [] path
        else mret tt
      end;
  mret (VFileHandlePtr (fileHandle path mode)).

Definition directRename (src dst : bytes) : X value :=
  srcRel ← resolve_path src;
  dstRel ← resolve_path dst;
  if bool_decide (srcRel = []) then fail (MPathEscape src)
  else if bool_decide (dstRel = []) then fail (MPathEscape dst)
  else
    dir ← the_dir;
    err ← rename dir srcRel dstRel;
    match err with Some err => fail (mapIO err src) | None => mret VNil end.

Definition boolQuery (path : bytes) (query : Z -> bytes -> X bool) : X value :=
  rel ← resolve_path path; dir ← the_dir; b ← query dir (dirOp rel); mret (VBool b).

Definition unit_result (m : X ()) : X value := _ ← m; mret VNil.

Definition direct_execute (call : oscall) (mode : bytes) : X value :=
  let path := oc_path call in
  let op := oc_op call in
  if op =? OpExists then boolQuery path hostExists
  else if op =? OpIsFile then boolQuery path hostIsFile
  else if op =? OpIsDir then boolQuery path hostIsDir
  else if op =? OpIsSymlink then boolQuery path hostIsSymlink
  else if (op =? OpResolve) || (op =? OpAbsolute) then mret (VPath (NormalizeVirtualPath path))
  else if op =? OpWriteText then directWrite path (oc_text call) (RuneCountInString (oc_text call)) false
  else if op =? OpWriteBytes then directWrite path (oc_data call) (len (oc_data call)) false
  else if op =? OpAppendText then directWrite path (oc_text call) (RuneCountInString (oc_text call)) true
  else if op =? OpAppendBytes then directWrite path (oc_data call) (len (oc_data call)) true
  else if op =? OpRename then directRename path (oc_dst call)
  else if op =? OpOpen then directOpen path mode
  else
    m ← get_mount;
    rel ← resolve_path path;
    let dir := m_dir m in
    if op =? OpReadText then
      content ← readFileLimited fuel dir (dirOp rel) path (fullBudget (m_memory_limit m));
      text ← lift (bytesToUTF8 content);
      mret (VStr text)
    else if op =? OpReadBytes then
      content ← readFileLimited fuel dir (dirOp rel) path (fullBudget (m_memory_limit m));
      mret (VBytes content)
    else if op =? OpMkdir then unit_result (hostMkdir dir (dirOp rel) (oc_parents call) (oc_existok call) path)
    else if op =? OpUnlink then unit_result (hostUnlink dir (dirOp rel) path)
    else if op =? OpRmdir then
      if bool_decide (rel = []) then fail (MPathEscape path)
      else unit_result (hostRmdir dir rel path)
    else if op =? OpIterdir then hostIterdir fuel dir (dirOp rel) path (fullBudget (m_memory_limit m))
    else if op =? OpStat then hostStat dir (dirOp rel) path
    else mret VNil.

(** Running a program of the monad as an executor of MountTable.v. *)
Definition as_executor (p : oscall -> bytes -> X value) (m : mount) (call : oscall) (mode : bytes)
    (h : host * list hcall) : xres value * (mount * (host * list hcall)) :=
  let '(r, s) := p call mode (St m h.1 h.2) in (r, (st_mount s, (st_host s, st_log s))).

Definition directExecute : mount -> oscall -> bytes -> host * list hcall -> xres value * (mount * (host * list hcall)) :=
  as_executor direct_execute.
End direct.
