(* ===== verification/Overlay.v ===== *)
(** The executor of overlay mounts, src/internal/mountfs/overlay.go: reads see
    the store over the host directory, writes go to the store.

    Components of a path are walked with one lstat and one descriptor each, so
    that no symbolic link is ever followed. *)

From S2P Require Import Prelude Utf8 GoStrings VPath Protowire Proto Values ValueCodec Exceptions.
From S2P Require Import Events MountPath Utf8Facts OverlayState MountTable HostFs Direct.

Inductive realTarget := targetDir | targetFile | targetSymlink | targetAbsent.

#[export] Instance realTarget_eq_decision : EqDecision realTarget.
Proof. solve_decision. Defined.

Inductive lookupFailure := lookupMissing | lookupPropagate.

Definition directoryPrefix (rel : bytes) : bytes := if bool_decide (rel = []) then [] else rel ++ [slash].

(** [componentWalk]: the directory it starts from, the one it has descended to,
    and whether it has met something that is no directory. *)
Record componentWalk := ComponentWalk { cw_root : Z; cw_current : option Z; cw_exhausted : bool }.

Definition here (w : componentWalk) : Z := default (cw_root w) (cw_current w).

Section overlay.
Context `{HO : Host} (fuel : nat).

Definition classifyTarget (dir : Z) (rel vpath : bytes) : X realTarget :=
  r ← lstat dir rel;
  match r with
  | inl err => if missing err then mret targetAbsent else fail (mapIO err vpath)
  | inr fi => mret (if IsLink fi then targetSymlink else if IsDir fi then targetDir else targetFile)
  end.

Definition walk_close (w : componentWalk) : X () :=
  match cw_current w with Some d => close d | None => mret tt end.

(** [step]; the walk is returned also with an error, for the deferred close. *)
Definition step (w : componentWalk) (component vpath : bytes) : X (componentWalk * mres realTarget) :=
  if cw_exhausted w then mret (w, inl targetAbsent)
  else
    t ← catch (classifyTarget (here w) component vpath);
    match t with
    | inl e => mret (w, inr e)
    | inr target =>
      if negb (bool_decide (target = targetDir))
      then mret (ComponentWalk (cw_root w) (cw_current w) true, inl target)
      else
        r ← open_root (here w) component;
        match r with
        | inl err =>
          if missing err then mret (ComponentWalk (cw_root w) (cw_current w) true, inl targetAbsent)
          else mret (w, inr (mapIO err vpath))
        | inr next =>
          _ ← walk_close w;
          mret (ComponentWalk (cw_root w) (Some next) (cw_exhausted w), inl target)
        end
    end.

(** A loop over the components of a path that ends with closing the walk: [body]
    gets what each component is and says whether to go on. *)
Fixpoint walk_components {S} (body : S -> bytes -> realTarget -> X (S + ())) (vpath_of : S -> bytes -> bytes)
    (w : componentWalk) (acc : S) (components : list bytes) : X () :=
  match components with
  | [] => walk_close w
  | c :: components =>
    '(w, t) ← step w c (vpath_of acc c);
    match t with
    | inr e => _ ← walk_close w; fail e
    | inl target =>
      r ← catch (body acc c target);
      match r with
      | inl e => _ ← walk_close w; fail e
      | inr (inr _) => walk_close w
      | inr (inl acc) => walk_components body vpath_of w acc components
      end
    end
  end.

Definition rejectSymlinkChain (dir : Z) (rel vpath : bytes) : X () :=
  if bool_decide (rel = []) || bool_decide (rel = go ".") then mret tt
  else
    walk_components
      (fun (_ : ()) _ target =>
         match target with
         | targetSymlink => fail (MPathEscape vpath)
         | targetAbsent | targetFile => mret (inr tt)
         | targetDir => mret (inl tt)
         end)
      (fun _ _ => vpath) (ComponentWalk dir None false) tt (split_byte slash rel).

(** ** The store of the mount *)

Definition get_store : X overlayState :=
  m ← get_mount; match m_overlay m with Some s => mret s | None => panics end.

Definition set_overlay (s : overlayState) (m : mount) : mount :=
  Mount (m_virtual m) (m_dir m) (m_mode m) (m_write_used m) (m_write_limit m) (m_memory_limit m) (Some s).
Definition put_store (s : overlayState) : X () := m ← get_mount; put_mount (set_overlay s m).

(** [m.overlay.get(key)] *)
Definition entry_at (key : bytes) : X (option overlayEntry) := s ← get_store; mret (os_get s key).

(** [m.overlay.insert(key, e, m.memLimit)] *)
Definition insert_entry (key : bytes) (e : overlayEntry) : X () :=
  s ← get_store;
  m ← get_mount;
  let '(err, s) := os_insert key e (m_memory_limit m) s in
  _ ← put_store s; check err.

Definition resolveReal (vpath : bytes) : X bytes :=
  rel ← resolve_path vpath;
  dir ← the_dir;
  _ ← rejectSymlinkChain dir (dirOp rel) vpath;
  mret rel.

Definition checkedRefPath (ref : overlayEntry) (vpath : bytes) : X bytes :=
  dir ← the_dir; _ ← rejectSymlinkChain dir (oe_relative ref) vpath; mret (oe_relative ref).

Definition availableMemory : X memoryBudget :=
  s ← get_store;
  m ← get_mount;
  let usage := os_usage s in
  if m_memory_limit m <? usage then fail (MMemoryLimit (m_memory_limit m))
  else mret (MemoryBudget (m_memory_limit m - usage) (m_memory_limit m)).

(** [resolveRealPathState]: the spelling when the path is present. *)
Definition resolveRealPathState (vpath : bytes) (onFailure : lookupFailure) : X (option bytes) :=
  t ← catch (resolveReal vpath);
  match t with
  | inl e => match onFailure with lookupMissing => mret None | lookupPropagate => fail e end
  | inr target =>
    let rel := dirOp target in
    dir ← the_dir;
    r ← stat dir rel;
    match r with
    | inr _ => mret (Some rel)
    | inl err =>
      if missing err || match onFailure with lookupMissing => true | lookupPropagate => false end then mret None
      else fail (mapIO err vpath)
    end
  end.

(** ** Queries *)

Definition overlayPredicate (rel vpath : bytes) (byKind : entryKind -> bool) (hostq : Z -> bytes -> X bool) : X value :=
  e ← entry_at rel;
  match e with
  | Some entry => mret (VBool (byKind (oe_kind entry)))
  | None =>
    r ← resolveRealPathState vpath lookupMissing;
    match r with
    | None => mret (VBool false)
    | Some real => dir ← the_dir; b ← hostq dir real; mret (VBool b)
    end
  end.

Definition overlayIsSymlink (rel vpath : bytes) : X bool :=
  e ← entry_at rel;
  match e with
  | Some _ => mret false
  | None =>
    t ← catch (resolve_path vpath);
    match t with
    | inl _ => mret false
    | inr target =>
      let op := dirOp target in
      dir ← the_dir;
      r ← catch (rejectSymlinkChain dir (before_slash op) vpath);
      match r with inl _ => mret false | inr _ => hostIsSymlink dir op end
    end
  end.

Definition overlayRead (rel vpath : bytes) : X bytes :=
  e ← entry_at rel;
  dir ← the_dir;
  match e with
  | None =>
    target ← resolveReal vpath;
    budget ← availableMemory;
    readFileLimited fuel dir (dirOp target) vpath budget
  | Some entry =>
    match oe_kind entry with
    | entFile =>
      budget ← availableMemory;
      _ ← check (mb_check budget (len (oe_content entry)));
      mret (oe_content entry)
    | entRealFileRef =>
      ref ← checkedRefPath entry vpath;
      budget ← availableMemory;
      readFileLimited fuel dir ref vpath budget
    | entDirectory => fail (isADirectory vpath)
    | entDeleted => fail (notFound vpath)
    end
  end.

Definition hostFileLen (rel vpath : bytes) : X Z :=
  dir ← the_dir;
  r ← stat dir rel;
  match r with inl err => fail (mapIO err vpath) | inr fi => mret (Z.max (fi_size fi) 0) end.

Definition existingFileLen (rel vpath : bytes) : X Z :=
  e ← entry_at rel;
  match e with
  | None =>
    r ← resolveRealPathState vpath lookupPropagate;
    match r with None => mret 0 | Some real => hostFileLen real vpath end
  | Some entry =>
    match oe_kind entry with
    | entFile => mret (len (oe_content entry))
    | entRealFileRef => ref ← checkedRefPath entry vpath; hostFileLen ref vpath
    | entDirectory => fail (isADirectory vpath)
    | entDeleted => mret 0
    end
  end.

Definition existingFileBytes (rel vpath : bytes) (budget : memoryBudget) : X bytes :=
  e ← entry_at rel;
  dir ← the_dir;
  match e with
  | None =>
    r ← resolveRealPathState vpath lookupPropagate;
    match r with None => mret [] | Some real => readFileLimited fuel dir real vpath budget end
  | Some entry =>
    match oe_kind entry with
    | entFile => _ ← check (mb_check budget (len (oe_content entry))); mret (oe_content entry)
    | entRealFileRef => ref ← checkedRefPath entry vpath; readFileLimited fuel dir ref vpath budget
    | entDirectory => fail (isADirectory vpath)
    | entDeleted => mret []
    end
  end.

(** ** Writing *)

(** [resolveReal] and [classifyTarget] of what it returns. *)
Definition classify_real (vpath : bytes) : X realTarget :=
  target ← resolveReal vpath; dir ← the_dir; classifyTarget dir (dirOp target) vpath.

Definition rejectDirectoryTarget (rel vpath : bytes) : X () :=
  e ← entry_at rel;
  match e with
  | Some entry => if bool_decide (oe_kind entry = entDirectory) then fail (isADirectory vpath) else mret tt
  | None =>
    kind ← classify_real vpath;
    match kind with
    | targetDir => fail (isADirectory vpath)
    | targetSymlink => fail (MPathEscape vpath)
    | _ => mret tt
    end
  end.

(** [current] and the next component. *)
Definition extend (current component : bytes) : bytes :=
  (if bool_decide (current = []) then [] else current ++ [slash]) ++ component.

Definition ensureParentExists (rel vpath : bytes) : X () :=
  let i := LastIndexByte rel slash in
  if i <? 0 then mret tt
  else
    dir ← the_dir;
    walk_components
      (fun current component real =>
         let current := extend current component in
         e ← entry_at current;
         match e with
         | Some entry =>
           if negb (bool_decide (oe_kind entry = entDirectory)) then fail (notFound vpath) else mret (inl current)
         | None =>
           match real with
           | targetDir => mret (inl current)
           | targetSymlink => fail (MPathEscape vpath)
           | _ => fail (notFound vpath)
           end
         end)
      (fun _ _ => vpath) (ComponentWalk dir None false) [] (split_byte slash (take (Z.to_nat i) rel)).

Definition overlayWrite (vpath data : bytes) (result : Z) : X value :=
  let n := len data in
  _ ← check_write n;
  rel ← resolve_path vpath;
  _ ← ensureParentExists rel vpath;
  _ ← rejectDirectoryTarget rel vpath;
  s ← get_store;
  m ← get_mount;
  _ ← check (checkFileReplacement rel n (m_memory_limit m) s);
  now ← currentTimestamp;
  _ ← insert_entry rel (fileEntry data now);
  _ ← commit_write n;
  mret (VInt KInt64 result).

Definition overlayAppend (vpath data : bytes) : X () :=
  rel ← resolve_path vpath;
  _ ← ensureParentExists rel vpath;
  _ ← rejectDirectoryTarget rel vpath;
  current ← entry_at rel;
  let targetIsOverlayFile := match current with Some e => bool_decide (oe_kind e = entFile) | None => false end in
  existingLen ← existingFileLen rel vpath;
  m ← get_mount;
  let n := len data in
  let charged := if negb (bool_decide (m_write_limit m = None)) && negb targetIsOverlayFile
                 then satAdd existingLen n else n in
  _ ← check_write charged;
  now ← currentTimestamp;
  s ← get_store;
  let '(r, s) := appendFile rel data now (m_memory_limit m) s in
  appended ← lift r;
  _ ← put_store s;
  _ ← (if appended : bool then mret tt
       else
         let finalLen := satAdd existingLen n in
         s ← get_store;
         _ ← check (checkFileReplacement rel finalLen (m_memory_limit m) s);
         budget ← availableMemory;
         _ ← check (mb_check budget finalLen);
         shrunk ← lift (shrink budget n);
         content ← existingFileBytes rel vpath shrunk;
         now ← currentTimestamp;
         insert_entry rel (fileEntry (content ++ data) now));
  commit_write charged.

(** ** Directories *)

Definition createOverlayParents (rel : bytes) : X () :=
  dir ← the_dir;
  m ← get_mount;
  let vpath_of current component := formatChildPath (m_virtual m) (extend current component) in
  let make key := now ← currentTimestamp; insert_entry key (directoryEntry now) in
  walk_components
    (fun current component real =>
       let currentVpath := vpath_of current component in
       let current := extend current component in
       e ← entry_at current;
       match e with
       | Some entry =>
         match oe_kind entry with
         | entFile | entRealFileRef => fail (notADirectory currentVpath)
         | entDeleted => _ ← make current; mret (inl current)
         | entDirectory => mret (inl current)
         end
       | None =>
         match real with
         | targetDir => mret (inl current)
         | targetSymlink => fail (MPathEscape currentVpath)
         | targetFile => fail (notADirectory currentVpath)
         | targetAbsent => _ ← make current; mret (inl current)
         end
       end)
    vpath_of (ComponentWalk dir None false) [] (split_byte slash rel).

Definition overlayMkdir (rel : bytes) (parents existOK : bool) (vpath : bytes) : X () :=
  e ← entry_at rel;
  let make : X () :=
    _ ← (if parents then createOverlayParents rel else ensureParentExists rel vpath);
    now ← currentTimestamp;
    insert_entry rel (directoryEntry now) in
  match e with
  | Some entry =>
    match oe_kind entry with
    | entDirectory => if existOK then mret tt else fail (fileExists vpath)
    | entFile | entRealFileRef => fail (fileExists vpath)
    | entDeleted => make
    end
  | None =>
    kind ← classify_real vpath;
    match kind with
    | targetDir => if existOK then mret tt else fail (fileExists vpath)
    | targetFile => fail (fileExists vpath)
    | targetSymlink => fail (MPathEscape vpath)
    | targetAbsent => make
    end
  end.

Definition overlayUnlink (rel vpath : bytes) : X () :=
  e ← entry_at rel;
  match e with
  | Some entry =>
    match oe_kind entry with
    | entFile | entRealFileRef => insert_entry rel deletedEntry
    | entDirectory => fail (isADirectory vpath)
    | entDeleted => fail (notFound vpath)
    end
  | None =>
    _ ← ensureParentExists rel vpath;
    kind ← classify_real vpath;
    match kind with
    | targetFile => insert_entry rel deletedEntry
    | targetDir => fail (isADirectory vpath)
    | targetSymlink => fail (MPathEscape vpath)
    | targetAbsent => fail (notFound vpath)
    end
  end.

(** [m.overlay.get(key).kind != entDeleted] of a stored key. *)
Definition alive (s : overlayState) (key : bytes) : bool :=
  match os_get s key with Some e => negb (bool_decide (oe_kind e = entDeleted)) | None => true end.

Definition has_children (s : overlayState) (rel : bytes) : bool :=
  existsb (fun key => negb (bool_decide (key = rel)) && alive s key) (prefixKeys s (directoryPrefix rel)).

Definition overlayDirectoryHasChildren (rel : bytes) : X bool := s ← get_store; mret (has_children s rel).

(** The loop of [realDirectoryHasVisibleChildren]. *)
Fixpoint visible_loop (n : nat) (fd : Z) (prefix : bytes) : X bool :=
  match n with
  | O => hangs
  | S n =>
    '(batch, err) ← read_dir fd;
    s ← get_store;
    if existsb (fun entry => alive s (prefix ++ lossyUTF8 (de_name entry))) batch then mret true
    else if negb (bool_decide (err = None)) || (len batch =? 0) then mret false
    else visible_loop n fd prefix
  end.

Definition realDirectoryHasVisibleChildren (rel op vpath : bytes) : X bool :=
  dir ← the_dir;
  r ← openDir dir op;
  match r with
  | inl err => fail (mapIO err vpath)
  | inr f => deferring (close f) (visible_loop fuel f (directoryPrefix rel))
  end.

Definition overlayRmdir (rel vpath : bytes) : X () :=
  if bool_decide (rel = []) then fail (MPathEscape vpath)
  else
    e ← entry_at rel;
    match e with
    | Some entry =>
      match oe_kind entry with
      | entDirectory =>
        c ← overlayDirectoryHasChildren rel;
        if c : bool then fail (directoryNotEmpty vpath) else insert_entry rel deletedEntry
      | entFile | entRealFileRef => fail (notADirectory vpath)
      | entDeleted => fail (notFound vpath)
      end
    | None =>
      _ ← ensureParentExists rel vpath;
      target ← resolveReal vpath;
      let op := dirOp target in
      dir ← the_dir;
      d ← hostIsDir dir op;
      if negb d then
        x ← hostExists dir op;
        if x : bool then fail (notADirectory vpath) else fail (notFound vpath)
      else
        visible ← realDirectoryHasVisibleChildren rel op vpath;
        c ← (if visible : bool then mret true else overlayDirectoryHasChildren rel);
        if c : bool then fail (directoryNotEmpty vpath) else insert_entry rel deletedEntry
    end.

Definition overlayStat (rel vpath : bytes) : X value :=
  e ← entry_at rel;
  match e with
  | None => target ← resolveReal vpath; dir ← the_dir; hostStat dir (dirOp target) vpath
  | Some entry =>
    match oe_kind entry with
    | entFile => mret (fileStat (len (oe_content entry)) (oe_mtime entry))
    | entRealFileRef => _ ← checkedRefPath entry vpath; mret (fileStat (oe_size entry) (oe_mtime entry))
    | entDirectory => mret (dirStat (oe_mtime entry))
    | entDeleted => fail (notFound vpath)
    end
  end.

(** ** Listing *)

(** The first loop of [overlayIterdir]: what the store knows below [prefix]. *)
Fixpoint list_store (s : overlayState) (prefix vpath : bytes) (budget : memoryBudget) (keys : list bytes)
    (usage : Z) (seen : gset bytes) (entries : list value) : mres (Z * gset bytes * list value) :=
  match keys with
  | [] => inl (usage, seen, entries)
  | key :: keys =>
    let rest := drop (length prefix) key in
    if bool_decide (rest = []) || existsb (Byte.eqb slash) rest then list_store s prefix vpath budget keys usage seen entries
    else
      let usage := satAdd (satAdd usage (satMul (len rest) 2)) listingEntryMemoryUsage in
      match mb_check budget usage with
      | Some e => inr e
      | None =>
        let seen := {[rest]} ∪ seen in
        if alive s key then
          let child := formatChildPath vpath rest in
          let usage := charge_name usage child in
          match mb_check budget usage with
          | Some e => inr e
          | None => list_store s prefix vpath budget keys usage seen (entries ++ [VPath child])
          end
        else list_store s prefix vpath budget keys usage seen entries
      end
  end.

Definition overlayIterdir (rel vpath : bytes) : X value :=
  e ← entry_at rel;
  dir ← the_dir;
  hostDir ← match e with
            | Some entry =>
              match oe_kind entry with
              | entFile | entRealFileRef => fail (notADirectory vpath)
              | entDeleted => fail (notFound vpath)
              | entDirectory => mret None
              end
            | None =>
              target ← resolveReal vpath;
              let op := dirOp target in
              d ← hostIsDir dir op;
              if d : bool then mret (Some op)
              else
                x ← hostExists dir op;
                if negb x then fail (notFound vpath) else fail (notADirectory vpath)
            end;
  let prefix := directoryPrefix rel in
  budget ← availableMemory;
  s ← get_store;
  '(usage, seen, entries) ← lift (list_store s prefix vpath budget (prefixKeys s prefix) 0 ∅ []);
  match hostDir with
  | None => mret (VList entries)
  | Some hostDir =>
    remaining ← lift (shrink budget usage);
    names ← hostListVisibleDirEntryNames fuel dir hostDir vpath (halved remaining);
    let usage := fold_left charge_name names usage in
    more ← lift (list_paths vpath budget (filter (fun name => name ∉ seen) names) usage);
    mret (VList (entries ++ more))
  end.

(** ** Renaming *)

Record plannedMove := PlannedMove { pm_old : bytes; pm_new : bytes; pm_entry : overlayEntry }.

Definition rejectRenameTypeMismatch (dstRel : bytes) (srcIsDir : bool) (dstV : bytes) : X () :=
  e ← entry_at dstRel;
  dir ← the_dir;
  (* known, and then whether it is a directory *)
  dst ← match e with
        | Some entry =>
          mret match oe_kind entry with
               | entDirectory => Some true
               | entFile | entRealFileRef => Some false
               | entDeleted => None
               end
        | None =>
          t ← catch (resolve_path dstV);
          match t with
          | inl _ => mret None
          | inr target =>
            let op := dirOp target in
            d ← hostIsDir dir op;
            if d : bool then mret (Some true)
            else x ← hostExists dir op; mret (if x : bool then Some false else None)
          end
        end;
  match dst with
  | Some true => if negb srcIsDir then fail (isADirectory dstV) else mret tt
  | Some false => if srcIsDir then fail (notADirectory dstV) else mret tt
  | None => mret tt
  end.

(** [target, e := resolveVirtualPath(...); e == nil && hostIsDir(...)], and the
    spelling of the target. *)
Definition host_dir_at (vpath : bytes) : X (option bytes) :=
  t ← catch (resolve_path vpath);
  match t with
  | inl _ => mret None
  | inr target => dir ← the_dir; d ← hostIsDir dir (dirOp target); mret (if d : bool then Some (dirOp target) else None)
  end.

Definition rejectRenameOntoNonemptyDir (dstRel dstV : bytes) : X () :=
  e ← entry_at dstRel;
  isdir ← match e with
          | Some entry => mret (bool_decide (oe_kind entry = entDirectory))
          | None => t ← host_dir_at dstV; mret (negb (bool_decide (t = None)))
          end;
  if negb isdir then mret tt
  else
    c ← overlayDirectoryHasChildren dstRel;
    if c : bool then fail (directoryNotEmpty dstV)
    else
      t ← host_dir_at dstV;
      match t with
      | None => mret tt
      | Some op =>
        visible ← realDirectoryHasVisibleChildren dstRel op dstV;
        if visible : bool then fail (directoryNotEmpty dstV) else mret tt
      end.

Definition fileRefFromRelative (dir : Z) (rel : bytes) : X (option overlayEntry) :=
  r ← lstat dir rel;
  mret match r with
       | inr fi => if IsRegular fi then Some (OverlayEntry entRealFileRef [] (fi_mtime fi) rel (fi_size fi)) else None
       | inl _ => None
       end.

(** What [collectRealDescendants] has so far: the moves, the directories to
    visit with their prefixes, most recent last, and the usage. *)
Record collected := Collected { cd_result : list plannedMove; cd_dirs : list (bytes * bytes); cd_usage : Z }.

Definition collect_entry (dir : Z) (curRel curPrefix : bytes) (handled : gset bytes) (vpath : bytes) (budget : memoryBudget)
    (acc : collected) (entry : direntry) : X (collected * bool) :=
  let name := de_name entry in
  if negb (ValidUTF8 name) then fail (MIO ioInvalidData (go "directory contains an entry with a non-UTF-8 name") vpath)
  else
    let key := curPrefix ++ name in
    known ← entry_at key;
    if bool_decide (key ∈ handled) || negb (bool_decide (known = None)) then mret (acc, false)
    else match de_type entry with
         | FSymlink => fail (MPathEscape vpath)
         | FRegular =>
           let childRel := joinMountRelative curRel name in
           ref ← fileRefFromRelative dir childRel;
           match ref with
           | None => mret (acc, false)
           | Some ref =>
             let usage := satAdd (satAdd (satAdd (cd_usage acc) (len key)) (len (oe_relative ref))) realDescendantMemoryUsage in
             _ ← check (mb_check budget usage);
             mret (Collected (cd_result acc ++ [PlannedMove key [] ref]) (cd_dirs acc) usage, false)
           end
         | FDir =>
           let childRel := joinMountRelative curRel name in
           let usage := satAdd (satAdd (satAdd (cd_usage acc) (satMul (len key) 2)) (len childRel)) realDescendantMemoryUsage in
           _ ← check (mb_check budget usage);
           mtime ← hostDirMtime dir childRel;
           mret (Collected (cd_result acc ++ [PlannedMove key [] (directoryEntry mtime)])
                   (cd_dirs acc ++ [(childRel, key ++ [slash])]) usage, false)
         | FSpecial => mret (acc, false)
         end.

Fixpoint collect_loop (n : nat) (dir : Z) (handled : gset bytes) (vpath : bytes) (budget : memoryBudget) (acc : collected)
    : X (list plannedMove) :=
  match last (cd_dirs acc), n with
  | None, _ => mret (cd_result acc)
  | Some _, O => hangs
  | Some (curRel, curPrefix), S n =>
    let acc := Collected (cd_result acc) (removelast (cd_dirs acc)) (cd_usage acc) in
    r ← openDir dir curRel;
    match r with
    | inl err => fail (mapIO err vpath)
    | inr f =>
      r ← catch (eachDirEntry fuel (collect_entry dir curRel curPrefix handled vpath budget) f vpath acc);
      _ ← close f;
      match r with
      | inl e => fail e
      | inr acc => collect_loop n dir handled vpath budget acc
      end
    end
  end.

Definition collectRealDescendants (rootRel prefix : bytes) (handled : gset bytes) (vpath : bytes) (budget : memoryBudget)
    : X (list plannedMove) :=
  dir ← the_dir;
  collect_loop fuel dir handled vpath budget
    (Collected [] [(rootRel, prefix)] (satAdd (len rootRel) (len prefix))).

(** What planning the move of a key below [srcPrefix] costs. *)
Definition plan_usage (srcPrefix dstPrefix : bytes) (usage : Z) (key : bytes) : Z :=
  let suffix := uint64 (len key - len srcPrefix) in
  satAdd (satAdd (satAdd usage (satMul (len key) 2)) (satAdd (len dstPrefix) suffix)) entryMemoryUsage.

(** Errors of collecting that end the rename; others leave the descendants
    where they are. *)
Definition fatal (e : mountError) : bool :=
  match e with MMemoryLimit _ | MPathEscape _ | MIO ioInvalidData _ _ => true | _ => false end.

(** The moves of what lies below the source: in the store, then on the host. *)
Definition plan_moves (srcRel dstRel srcV : bytes) : X (list (bytes * bytes) * list plannedMove) :=
  s ← get_store;
  dir ← the_dir;
  let srcPrefix := srcRel ++ [slash] in
  let dstPrefix := dstRel ++ [slash] in
  let childKeys := prefixKeys s srcPrefix in
  available ← availableMemory;
  remaining ← lift (shrink available (fold_left (plan_usage srcPrefix dstPrefix) childKeys 0));
  let overlayMoves := map (fun key => (key, dstPrefix ++ drop (length srcPrefix) key)) childKeys in
  t ← catch (resolveReal srcV);
  match t with
  | inl _ => mret (overlayMoves, [])
  | inr target =>
    d ← hostIsDir dir (dirOp target);
    if negb d then mret (overlayMoves, [])
    else
      r ← catch (collectRealDescendants (dirOp target) srcPrefix (list_to_set childKeys) srcV remaining);
      match r with
      | inl e => if fatal e then fail e else mret (overlayMoves, [])
      | inr children =>
        mret (overlayMoves,
              map (fun c => PlannedMove (pm_old c) (dstPrefix ++ TrimPrefix (pm_old c) srcPrefix) (pm_entry c)) children)
      end
  end.

(** [batch] of the rename; every key of [overlayMoves] is a stored one. *)
Definition rename_batch (s : overlayState) (srcRel dstRel : bytes) (source : overlayEntry)
    (overlayMoves : list (bytes * bytes)) (realMoves : list plannedMove) : list (bytes * overlayEntry) :=
  [(srcRel, deletedEntry); (dstRel, source)]
  ++ flat_map (fun mv => [(mv.1, deletedEntry); (mv.2, default deletedEntry (os_get s mv.1))]) overlayMoves
  ++ flat_map (fun mv => [(pm_old mv, deletedEntry); (pm_new mv, pm_entry mv)]) realMoves.

(** Taking the moved entries out of the store. *)
Fixpoint take_moves (moves : list (bytes * bytes)) (s : overlayState) : list plannedMove * overlayState :=
  match moves with
  | [] => ([], s)
  | (old, new) :: moves =>
    let '(e, s) := os_remove old s in
    let '(rest, s) := take_moves moves s in
    (PlannedMove old new (default deletedEntry e) :: rest, s)
  end.

(** The updates of the rename, after all its checks. *)
Definition apply_rename (srcRel dstRel : bytes) (sourceIsOverlay : bool) (source : overlayEntry)
    (overlayMoves : list (bytes * bytes)) (realMoves : list plannedMove) (s : overlayState) : overlayState :=
  let '(entry, s) := if sourceIsOverlay then let '(e, s) := os_remove srcRel s in (default deletedEntry e, s) else (source, s) in
  let '(moved, s) := take_moves overlayMoves s in
  let s := insertUnchecked srcRel deletedEntry s in
  let s := insertUnchecked dstRel entry s in
  fold_left (fun s mv => insertUnchecked (pm_new mv) (pm_entry mv) (insertUnchecked (pm_old mv) deletedEntry s))
    (moved ++ realMoves) s.

(** What the source is on the host. *)
Definition real_source (srcV : bytes) : X overlayEntry :=
  target ← resolveReal srcV;
  dir ← the_dir;
  let op := dirOp target in
  kind ← classifyTarget dir op srcV;
  match kind with
  | targetFile =>
    ref ← fileRefFromRelative dir op;
    match ref with Some ref => mret ref | None => fail (notFound srcV) end
  | targetDir => mtime ← hostDirMtime dir op; mret (directoryEntry mtime)
  | targetSymlink => fail (MPathEscape srcV)
  | targetAbsent => fail (notFound srcV)
  end.

(** Everything the rename checks and plans before it changes the store. *)
Record rename_plan := RenamePlan {
  rp_src : bytes; rp_dst : bytes; rp_overlay : bool; rp_source : overlayEntry;
  rp_moves : list (bytes * bytes); rp_real : list plannedMove }.

Definition plan_rename (srcV dstV : bytes) : X rename_plan :=
  srcRel ← resolve_path srcV;
  dstRel ← resolve_path dstV;
  if bool_decide (srcRel = []) then fail (MPathEscape srcV)
  else if bool_decide (dstRel = []) then fail (MPathEscape dstV)
  else
    _ ← ensureParentExists dstRel dstV;
    d ← entry_at dstRel;
    _ ← match d with None => _ ← resolveReal dstV; mret tt | Some _ => mret tt end;
    _ ← ensureParentExists srcRel srcV;
    e ← entry_at srcRel;
    if match e with Some e => bool_decide (oe_kind e = entDeleted) | None => false end then fail (notFound srcV)
    else
      srcIsDir ← match e with
                 | Some e => mret (bool_decide (oe_kind e = entDirectory))
                 | None => target ← resolveReal srcV; dir ← the_dir; hostIsDir dir (dirOp target)
                 end;
      _ ← rejectRenameTypeMismatch dstRel srcIsDir dstV;
      _ ← (if srcIsDir : bool then
             _ ← rejectRenameOntoNonemptyDir dstRel dstV;
             if HasPrefix dstRel (srcRel ++ [slash]) then fail (MIO ioInvalidInput (go "Invalid argument") srcV) else mret tt
           else mret tt);
      source ← match e with Some e => mret e | None => real_source srcV end;
      '(overlayMoves, realMoves) ← (if srcIsDir : bool then plan_moves srcRel dstRel srcV else mret ([], []));
      mret (RenamePlan srcRel dstRel (negb (bool_decide (e = None))) source overlayMoves realMoves).

Definition overlayRename (srcV dstV : bytes) : X () :=
  p ← plan_rename srcV dstV;
  s ← get_store;
  m ← get_mount;
  _ ← check (checkReplacements (rename_batch s (rp_src p) (rp_dst p) (rp_source p) (rp_moves p) (rp_real p)) (m_memory_limit m) s);
  put_store (apply_rename (rp_src p) (rp_dst p) (rp_overlay p) (rp_source p) (rp_moves p) (rp_real p) s).

(** ** Opening *)

Definition ensureAppendTargetExists (vpath : bytes) : X () :=
  rel ← resolve_path vpath;
  let make : X () :=
    _ ← ensureParentExists rel vpath;
    now ← currentTimestamp;
    insert_entry rel (fileEntry [] now) in
  e ← entry_at rel;
  match e with
  | Some entry =>
    match oe_kind entry with
    | entFile | entRealFileRef => mret tt
    | entDirectory => fail (isADirectory vpath)
    | entDeleted => make
    end
  | None =>
    kind ← classify_real vpath;
    match kind with
    | targetDir => fail (isADirectory vpath)
    | targetSymlink => fail (MPathEscape vpath)
    | targetFile => ensureParentExists rel vpath
    | targetAbsent => make
    end
  end.

Definition overlayOpen (path mode : bytes) : X value :=
  _ ← match mode with
      | [] => panics
      | c :: _ =>
        if Byte.eqb c "r" then
          rel ← resolve_path path;
          e ← entry_at rel;
          match e with
          | Some entry =>
            match oe_kind entry with
            | entDirectory => fail (isADirectory path)
            | entDeleted => fail (notFound path)
            | _ => mret tt
            end
          | None =>
            r ← resolveRealPathState path lookupPropagate;
            match r with
            | None => fail (notFound path)
            | Some real =>
              dir ← the_dir;
              d ← hostIsDir dir real;
              if d : bool then fail (isADirectory path) else mret tt
            end
          end
        else if Byte.eqb c "w" then _ ← overlayWrite path [] 0; mret tt
        else if Byte.eqb c "a" then ensureAppendTargetExists path
        else mret tt
      end;
  mret (VFileHandlePtr (fileHandle path mode)).

(** ** Dispatch *)

Definition overlay_execute (call : oscall) (mode : bytes) : X value :=
  let path := oc_path call in
  let op := oc_op call in
  if (op =? OpResolve) || (op =? OpAbsolute) then mret (VPath (NormalizeVirtualPath path))
  else if op =? OpWriteText then overlayWrite path (oc_text call) (RuneCountInString (oc_text call))
  else if op =? OpWriteBytes then overlayWrite path (oc_data call) (len (oc_data call))
  else if op =? OpAppendText then
    _ ← overlayAppend path (oc_text call); mret (VInt KInt64 (RuneCountInString (oc_text call)))
  else if op =? OpAppendBytes then
    _ ← overlayAppend path (oc_data call); mret (VInt KInt64 (len (oc_data call)))
  else if op =? OpRename then unit_result (overlayRename path (oc_dst call))
  else if op =? OpOpen then overlayOpen path mode
  else
    rel ← resolve_path path;
    if op =? OpExists then
      overlayPredicate rel path (fun k => negb (bool_decide (k = entDeleted))) hostExists
    else if op =? OpIsFile then
      overlayPredicate rel path (fun k => bool_decide (k = entFile) || bool_decide (k = entRealFileRef)) hostIsFile
    else if op =? OpIsDir then overlayPredicate rel path (fun k => bool_decide (k = entDirectory)) hostIsDir
    else if op =? OpIsSymlink then b ← overlayIsSymlink rel path; mret (VBool b)
    else if op =? OpReadText then
      content ← overlayRead rel path;
      text ← lift (bytesToUTF8 content);
      mret (VStr text)
    else if op =? OpReadBytes then content ← overlayRead rel path; mret (VBytes content)
    else if op =? OpMkdir then unit_result (overlayMkdir rel (oc_parents call) (oc_existok call) path)
    else if op =? OpUnlink then unit_result (overlayUnlink rel path)
    else if op =? OpRmdir then unit_result (overlayRmdir rel path)
    else if op =? OpIterdir then overlayIterdir rel path
    else if op =? OpStat then overlayStat rel path
    else mret VNil.

Definition overlayExecute : mount -> oscall -> bytes -> host * list hcall -> xres value * (mount * (host * list hcall)) :=
  as_executor overlay_execute.
End overlay.
