(* ===== verification/OverlayRename.v ===== *)
(** The second half of an overlay rename: after its checks, the planned moves
    leave the store with exactly the entries of the batch that was checked. *)

From S2P Require Import Prelude Utf8 GoStrings VPath Protowire Proto Values ValueCodec CodecSpec Exceptions.
From S2P Require Import Events MountPath OverlayState MountTable HostFs Direct Overlay.

(** ** Totals *)

(** The cost of an entry before saturation. *)
Definition entry_cost (r : bytes * overlayEntry) : Z :=
  304 + len r.1 + match oe_kind r.2 with entFile => len (oe_content r.2) | entRealFileRef => len (oe_relative r.2) | _ => 0 end.

Lemma satAdd_le a b : 0 <= a -> 0 <= b -> satAdd a b <= a + b.
Proof.
  intros Ha Hb. unfold satAdd. destruct (Z.leb_spec a (uint64 (a + b))) as [H|H].
  - unfold uint64, uwrap. apply Z.mod_le; lia.
  - destruct (Z.lt_ge_cases (a + b) (2 ^ 64)); [|unfold MaxUint64; lia].
    unfold uint64 in H. rewrite uwrap_small in H by lia. lia.
Qed.

Lemma entryUsage_cost r : entryUsage r.1 r.2 <= entry_cost r.
Proof.
  destruct r as [k e]. unfold entryUsage, entry_cost, baseEntryUsage. cbn [fst snd].
  set (v := match oe_kind e with entFile => _ | entRealFileRef => _ | _ => 0 end).
  assert (0 <= v) by (subst v; destruct (oe_kind e); try apply len_nonneg; lia). pose proof (len_nonneg k).
  pose proof (satAdd_le entryMemoryUsage (len k) ltac:(done) ltac:(done)) as H1. unfold entryMemoryUsage in *.
  pose proof (satAdd_range 256 (len k)) as H2.
  pose proof (satAdd_le (satAdd 256 (len k)) overlayEntrySize ltac:(lia) ltac:(done)) as H3. unfold overlayEntrySize in *.
  pose proof (satAdd_range (satAdd 256 (len k)) 48). pose proof (satAdd_le (satAdd (satAdd 256 (len k)) 48) v ltac:(lia) ltac:(lia)). lia.
Qed.

(** The total is a matter of the entries alone. *)
Lemma os_total_entries s s' : ov_inv s -> ov_inv s' -> os_entries s = os_entries s' -> os_total s = os_total s'.
Proof.
  intros Hs Hs' E. unfold os_total.
  assert (os_keys s ≡ₚ os_keys s') as Hp.
  { apply NoDup_Permutation; [apply sorted_nodup, Hs|apply sorted_nodup, Hs'|].
    intros k. by rewrite (ov_dom s Hs), (ov_dom s' Hs'), E. }
  assert (forall k, old_usage s k = old_usage s' k) as Hu by (intros k; unfold old_usage; by rewrite E).
  rewrite (zsum_map_ext (old_usage s) (old_usage s')) by (intros; apply Hu).
  clear -Hp. induction Hp; cbn [map]; rewrite ?zsum_cons; lia.
Qed.

Definition inserts (l : list (bytes * overlayEntry)) (s : overlayState) : overlayState :=
  fold_left (fun s r => insertUnchecked r.1 r.2 s) l s.

(** Unchecked inserts that cannot saturate. *)
Lemma inserts_inv l s : ov_inv s -> Forall (fun r => len (oe_content r.2) <= MaxUint64) l ->
  os_total s + zsum (map entry_cost l) <= MaxUint64 ->
  ov_inv (inserts l s) /\ os_entries (inserts l s) = list_to_map (rev l) ∪ os_entries s.
Proof.
  intros Hs Hf. revert s Hs. induction Hf as [|r l Hr _ IH]; intros s Hs Hb.
  - split; [done|]. cbn. by rewrite map_empty_union.
  - cbn [map] in Hb. rewrite zsum_cons in Hb. pose proof (entryUsage_cost r). pose proof (old_usage_le s r.1 Hs).
    assert (forall r, 0 <= entry_cost r) as Hnn.
    { intros [k e]. unfold entry_cost. cbn. pose proof (len_nonneg k). destruct (oe_kind e); try pose proof (len_nonneg (oe_content e));
        try pose proof (len_nonneg (oe_relative e)); lia. }
    assert (0 <= zsum (map entry_cost l)).
    { apply zsum_nonneg, Forall_forall. intros x _. apply Hnn. }
    assert (ov_inv (insertUnchecked r.1 r.2 s)) as Hi by (rewrite insertUnchecked_eq; apply put_inv; [done|done|lia]).
    destruct (put_keys s r.1 r.2 Hs) as (_ & _ & Ht).
    destruct (IH (insertUnchecked r.1 r.2 s) Hi) as [Hi' He'].
    + rewrite insertUnchecked_eq, set_usage_total, Ht. lia.
    + split; [exact Hi'|]. cbn [inserts fold_left]. change (fold_left _ l ?x) with (inserts l x). rewrite He'. cbn [rev].
      rewrite list_to_map_app. cbn. rewrite insert_empty, <- map_union_assoc. f_equal. by rewrite insert_union_singleton_l.
Qed.

(** ** Taking entries out *)

Lemma remove_entries k s : os_entries (os_remove k s).2 = delete k (os_entries s).
Proof. unfold os_remove. destruct (os_entries s !! k) eqn:E; cbn; [done|]. by rewrite delete_id. Qed.

Lemma remove_total k s : ov_inv s -> os_total (os_remove k s).2 <= os_total s.
Proof.
  intros Hs. unfold os_remove. destruct (os_entries s !! k) as [e|] eqn:E; [|done].
  pose proof (remove_inv s k Hs) as Hr. unfold os_remove in Hr. rewrite E in Hr. cbn [snd] in *.
  rewrite <- (ov_usage _ Hr), <- (ov_usage _ Hs). cbn [os_usage]. unfold satSub.
  pose proof (entryUsage_range k e). pose proof (old_usage_le s k Hs). rewrite (ov_usage _ Hs). destruct (_ <? _); lia.
Qed.

Lemma take_moves_spec moves s : ov_inv s -> NoDup moves.*1 ->
  let '(moved, s') := take_moves moves s in
  ov_inv s' /\ os_total s' <= os_total s
  /\ moved = map (fun mv => PlannedMove mv.1 mv.2 (default deletedEntry (os_get s mv.1))) moves
  /\ forall k, os_entries s' !! k = if bool_decide (k ∈ moves.*1) then None else os_entries s !! k.
Proof.
  revert s. induction moves as [|[old new] moves IH]; intros s Hs Hn; cbn [take_moves].
  - split_and!; try done.
  - cbn in Hn. apply NoDup_cons in Hn as [Hold Hn].
    pose proof (remove_inv s old Hs) as Hr. pose proof (remove_entries old s) as He. pose proof (remove_total old s Hs) as Ht.
    assert ((os_remove old s).1 = os_get s old) as Hg by (unfold os_remove, os_get; by destruct (os_entries s !! old)).
    destruct (os_remove old s) as [e s1]. cbn [fst snd] in *. subst e.
    specialize (IH s1 Hr Hn). destruct (take_moves moves s1) as [moved s2]. destruct IH as (H1 & H2 & H3 & H4).
    split_and!; [done|lia| |].
    + rewrite H3. cbn [map]. f_equal. apply map_ext_in. intros [o n] Hin. cbn. unfold os_get. rewrite He, lookup_delete_ne; [done|].
      intros ->. apply Hold. apply list_elem_of_In in Hin. by apply (list_elem_of_fmap_2 fst) in Hin.
    + intros k. rewrite H4. cbn [fmap list_fmap fst]. destruct (decide (k = old)) as [->|Hk].
      * rewrite (bool_decide_eq_true_2 (old ∈ old :: _)) by by left. rewrite He, lookup_delete_eq. by case_bool_decide.
      * rewrite He, lookup_delete_ne by done.
        rewrite (bool_decide_ext (k ∈ old :: moves.*1) (k ∈ moves.*1)); [done|]. rewrite elem_of_cons. naive_solver.
Qed.

(** ** The whole update *)

Definition move_updates (mv : plannedMove) : list (bytes * overlayEntry) := [(pm_old mv, deletedEntry); (pm_new mv, pm_entry mv)].

Lemma apply_moves mvs s :
  fold_left (fun s mv => insertUnchecked (pm_new mv) (pm_entry mv) (insertUnchecked (pm_old mv) deletedEntry s)) mvs s
  = inserts (flat_map move_updates mvs) s.
Proof. revert s. induction mvs as [|mv mvs IH]; intros s; [done|]. cbn. by rewrite IH. Qed.

Lemma lookup_updates_some (l : list (bytes * overlayEntry)) k : k ∈ l.*1 -> is_Some ((list_to_map (rev l) : gmap bytes overlayEntry) !! k).
Proof.
  intros Hk. destruct ((list_to_map (rev l) : gmap bytes overlayEntry) !! k) eqn:E; [by eexists|].
  apply not_elem_of_list_to_map_2 in E. exfalso. apply E. apply list_elem_of_fmap in Hk as (r & -> & Hr).
  apply list_elem_of_fmap_2. apply list_elem_of_In, in_rev. rewrite rev_involutive. by apply list_elem_of_In.
Qed.

Lemma apply_rename_spec s src dst ov source moves real :
  ov_inv s -> (ov = true -> os_get s src = Some source) -> NoDup moves.*1 -> src ∉ moves.*1 ->
  let batch := rename_batch s src dst source moves real in
  Forall (fun r => len (oe_content r.2) <= MaxUint64) batch -> os_total s + zsum (map entry_cost batch) <= MaxUint64 ->
  let s' := apply_rename src dst ov source moves real s in
  ov_inv s' /\ os_entries s' = list_to_map (rev batch) ∪ os_entries s /\ os_usage s' = os_usage (inserts batch s).
Proof.
  intros Hs Hsrc Hn Hni batch Hf Hb s'.
  assert (exists s1, (if ov then let '(e, s) := os_remove src s in (default deletedEntry e, s) else (source, s)) = (source, s1)
    /\ ov_inv s1 /\ os_total s1 <= os_total s /\ (forall k, k <> src -> os_entries s1 !! k = os_entries s !! k)) as (s1 & E1 & I1 & T1 & L1).
  { destruct ov; [|by exists s]. pose proof (remove_inv s src Hs). pose proof (remove_total src s Hs). pose proof (remove_entries src s) as He.
    assert ((os_remove src s).1 = os_get s src) as Hg by (unfold os_remove, os_get; by destruct (os_entries s !! src)).
    destruct (os_remove src s) as [e s1]. cbn [fst snd] in *. exists s1. rewrite Hg, Hsrc by done. split_and!; try done.
    intros k Hk. by rewrite He, lookup_delete_ne. }
  pose proof (take_moves_spec moves s1 I1 Hn) as Ht. destruct (take_moves moves s1) as [moved s2] eqn:Et.
  destruct Ht as (I2 & T2 & Hm & L2).
  assert (s' = inserts batch s2) as Es.
  { subst s'. unfold apply_rename. rewrite E1, Et, apply_moves. unfold batch, rename_batch. cbn [app inserts fold_left fst snd].
    f_equal. rewrite flat_map_app. f_equal. rewrite Hm, flat_map_concat_map, map_map, <- flat_map_concat_map.
    rewrite !flat_map_concat_map. f_equal. apply map_ext_in. intros [o n] Hin. cbn. do 3 f_equal. unfold os_get. rewrite L1; [done|].
    intros ->. apply Hni. apply list_elem_of_In in Hin. by apply (list_elem_of_fmap_2 fst) in Hin. }
  destruct (inserts_inv batch s2 I2 Hf ltac:(lia)) as [I3 E3]. destruct (inserts_inv batch s Hs Hf Hb) as [I4 E4].
  assert (forall k, k ∈ moves.*1 -> k ∈ batch.*1) as Hin1.
  { intros k Hk. unfold batch, rename_batch. rewrite !fmap_app, !elem_of_app. right. left.
    apply list_elem_of_fmap in Hk as ([o n] & -> & Hk). apply list_elem_of_fmap. exists (o, deletedEntry). split; [done|].
    apply list_elem_of_In, in_flat_map. exists (o, n). split; [by apply list_elem_of_In|by left]. }
  assert (os_entries s' = os_entries (inserts batch s)) as Ee.
  { rewrite Es, E3, E4. apply map_eq. intros k. rewrite !lookup_union.
    destruct (decide (k ∈ batch.*1)) as [Hk|Hk].
    - destruct (lookup_updates_some batch k Hk) as [x ->]. by destruct (os_entries s2 !! k), (os_entries s !! k).
    - f_equal. rewrite L2, bool_decide_eq_false_2 by naive_solver. apply L1. intros ->. apply Hk. by left. }
  split; [by rewrite Es|]. split; [by rewrite Ee, E4|]. rewrite Es in *.
  rewrite (ov_usage _ I3), (ov_usage _ I4). by apply os_total_entries.
Qed.
