(* ===== verification/MountLogic.v ===== *)
(** A logic for the programs of HostFs.v, Direct.v and Overlay.v.

    [keeps P G m V] says that [m], whatever the host answers, keeps the property
    [P] of its mount, makes only calls that satisfy [G], does not panic, and
    returns values that satisfy [V]. *)

From S2P Require Import Prelude Utf8 GoStrings VPath Protowire Proto Values ValueCodec CodecSpec Exceptions.
From S2P Require Import Events MountPath Utf8Facts OverlayState MountTable HostFs Direct Overlay.

Create HintDb mountfs.

Section keeps.
Context `{HO : Host}.
Variables (P : mount -> Prop) (G : hcall -> Prop).

Definition good_log (s s' : st) : Prop := exists cs, st_log s' = st_log s ++ cs /\ Forall G cs.

Definition post {A} (V : A -> Prop) (r : xres A) : Prop :=
  match r with XRet a => V a | XPanics => False | _ => True end.

Definition keeps {A} (m : X A) (V : A -> Prop) : Prop := forall s, P (st_mount s) ->
  let '(r, s') := m s in P (st_mount s') /\ good_log s s' /\ post V r.

#[export] Instance good_log_preorder : PreOrder good_log.
Proof.
  split.
  - intros s. exists []. split; [by rewrite app_nil_r|constructor].
  - intros s1 s2 s3 (a & Ha & Fa) (b & Hb & Fb). exists (a ++ b). rewrite Hb, Ha, app_assoc. split; [done|].
    by apply Forall_app.
Qed.

Lemma keeps_mret {A} (a : A) (V : A -> Prop) : V a -> keeps (mret a) V.
Proof. intros H s Hs. by split_and!. Qed.

Lemma keeps_failing {A} e (V : A -> Prop) : keeps (fail e) V.
Proof. intros s Hs. by split_and!. Qed.

Lemma keeps_hangs {A} (V : A -> Prop) : keeps hangs V.
Proof. intros s Hs. by split_and!. Qed.

Lemma keeps_seq {A B} (m : X A) (f : A -> X B) (V : A -> Prop) (W : B -> Prop) :
  keeps m V -> (forall a, V a -> keeps (f a) W) -> keeps (m ≫= f) W.
Proof.
  intros Hm Hf s Hs. specialize (Hm s Hs). unfold mbind, X_bind.
  destruct (m s) as [[a|e| |] s1]; destruct Hm as (H1 & H2 & H3); try by split_and!.
  specialize (Hf a H3 s1 H1). destruct (f a s1) as [r s2]. destruct Hf as (H4 & H5 & H6).
  split_and!; [done|by etrans|done].
Qed.

Lemma keeps_mono {A} (m : X A) (V W : A -> Prop) : keeps m V -> (forall a, V a -> W a) -> keeps m W.
Proof.
  intros Hm HVW s Hs. specialize (Hm s Hs). destruct (m s) as [[a|e| |] s']; destruct Hm as (H1 & H2 & H3); split_and!; try done.
  by apply HVW.
Qed.

Lemma keeps_any {A} (m : X A) V : keeps m V -> keeps m (fun _ => True).
Proof. intros H. by eapply keeps_mono. Qed.

Lemma keeps_catch {A} (m : X A) V : keeps m V -> keeps (catch m) (fun r => match r with inl _ => True | inr a => V a end).
Proof.
  intros Hm s Hs. specialize (Hm s Hs). unfold catch. destruct (m s) as [[a|e| |] s']; destruct Hm as (H1 & H2 & H3); by split_and!.
Qed.

Lemma keeps_deferring {A} fin (m : X A) V W : keeps fin W -> keeps m V -> keeps (deferring fin m) V.
Proof.
  intros Hf Hm. unfold deferring. eapply keeps_seq; [by apply keeps_catch|]. intros r Hr.
  eapply keeps_seq; [done|]. intros _ _. destruct r; [apply keeps_failing|by apply keeps_mret].
Qed.

Lemma keeps_lift {A} (r : mres A) (V : A -> Prop) : (forall a, r = inl a -> V a) -> keeps (lift r) V.
Proof. intros H. destruct r as [a|e]; [apply keeps_mret; auto|apply keeps_failing]. Qed.

Lemma keeps_check r : keeps (check r) (fun _ => r = None).
Proof. destruct r; [apply keeps_failing|by apply keeps_mret]. Qed.

Lemma keeps_get_mount : keeps get_mount P.
Proof. intros s Hs. by split_and!. Qed.

Lemma keeps_put m : P m -> keeps (put_mount m) (fun _ => True).
Proof. intros H s Hs. split_and!; [done| |done]. exists []. cbn. split; [by rewrite app_nil_r|constructor]. Qed.

Lemma keeps_asking {A} c (op : host -> A * host) (V : A -> Prop) : G c -> (forall h, V (op h).1) -> keeps (ask c op) V.
Proof.
  intros HG HV s Hs. unfold ask. specialize (HV (st_host s)). destruct (op (st_host s)) as [a h]. cbn in *.
  split_and!; [done| |done]. exists [c]. cbn. split; [done|by constructor].
Qed.

Lemma keeps_log c : G c -> keeps (log c) (fun _ => True).
Proof. intros HG s Hs. split_and!; [done| |done]. exists [c]. cbn. split; [done|by constructor]. Qed.

Lemma keeps_now : keeps currentTimestamp (fun _ => True).
Proof.
  intros s Hs. unfold currentTimestamp. destruct (Now (st_host s)) as [t h]. split_and!; [done| |done].
  exists []. cbn. split; [by rewrite app_nil_r|constructor].
Qed.
End keeps.

#[export] Hint Resolve keeps_failing keeps_hangs keeps_check keeps_get_mount keeps_now : mountfs.

(** One step through a program: binds are split with what is known of their
    first part, matches are opened. *)
Ltac keeps_known := first [solve [eauto with mountfs] | solve [eapply keeps_any; eauto with mountfs]].
Ltac keeps_step :=
  lazymatch goal with
  | |- forall a, _ -> keeps _ _ _ _ => intros ? ?
  | |- keeps _ _ (mret _) _ => apply keeps_mret; try exact I
  | |- keeps _ _ (fail _) _ => apply keeps_failing
  | |- keeps _ _ hangs _ => apply keeps_hangs
  | |- keeps _ _ (mbind _ (mret _)) _ => eapply (keeps_seq _ _ _ _ (fun x => x = _)); [by apply keeps_mret|intros ? ->]
  | |- keeps _ _ (mbind _ (lift _)) _ =>
    eapply (keeps_seq _ _ _ _ (fun x => _ = inl x)); [apply keeps_lift; intros ? ?; eassumption|intros ? ?]
  | |- keeps _ _ (mbind _ (catch _)) _ => eapply keeps_seq; [apply keeps_catch; keeps_known|intros [?|?] ?]
  | |- keeps _ _ (mbind _ (if ?b then _ else _)) _ => destruct b eqn:?
  | |- keeps _ _ (mbind _ (match ?x with _ => _ end)) _ => destruct x eqn:?
  | |- keeps _ _ (mbind _ (mbind _ _)) _ => eapply (keeps_seq _ _ _ _ (fun _ => True)); [keeps|intros ? _]
  | |- keeps _ _ (mbind _ _) _ => eapply keeps_seq; [keeps_known|intros ? ?]
  | |- keeps _ _ (if ?b then _ else _) _ => destruct b eqn:?
  | |- keeps _ _ (match ?x with _ => _ end) _ => destruct x eqn:?
  | |- keeps _ _ (let _ := _ in _) _ => cbv zeta
  | |- keeps _ _ (unit_result _) _ => unfold unit_result
  | |- keeps _ _ _ (fun _ => True) => keeps_known
  | |- keeps _ _ _ _ => solve [eauto with mountfs]
  end
with keeps := repeat keeps_step.
