(* ===== verification/MountSafety.v ===== *)
(** What a mount guarantees whatever the host answers: the paths it hands to the
    host stay below its directory, only read-write mounts change the host, the
    accounts of memory and of bytes written stay within their limits, and no
    call panics. *)

From S2P Require Import Prelude Utf8 GoStrings VPath Protowire Proto Values ValueCodec CodecSpec Exceptions.
From S2P Require Import Events MountPath Utf8Facts OverlayState MountTable HostFs Direct Overlay OverlayRename MountLogic.

(** ** Paths *)

(** Made of ordinary segments: not empty, not [.] or [..], no slash inside. *)
Definition segmented (rel : bytes) : Prop := Forall seg_ok (split_byte slash rel).
(** A mount-relative path; the root is empty. *)
Definition clean (rel : bytes) : Prop := rel = [] \/ segmented rel.
(** What a descriptor is asked for: the directory itself or something below; the
    empty path, which no descriptor accepts, is harmless. *)
Definition path_ok (rel : bytes) : Prop := rel = go "." \/ clean rel.

Section paths.
Lemma seg_slash_free segs : Forall seg_ok segs -> Forall (fun s => slash ∉ s) segs.
Proof. intros H. eapply Forall_impl; [done|]. by intros ? []. Qed.

Lemma segmented_join segs : segs <> [] -> Forall seg_ok segs -> segmented (join_byte slash segs).
Proof. intros Hne H. unfold segmented. rewrite split_join; [done|done|by apply seg_slash_free]. Qed.

Lemma segmented_nonempty rel : segmented rel -> rel <> [].
Proof. intros H ->. inv H. destruct H2 as [H _]. done. Qed.

Lemma confined_clean rel : confined rel -> clean rel.
Proof.
  intros (segs & -> & H & _). destruct segs as [|x segs]; [by left|]. right. by apply segmented_join.
Qed.

Lemma clean_dirOp rel : clean rel -> path_ok (dirOp rel).
Proof.
  unfold dirOp. intros [->|H]; [by left|]. rewrite bool_decide_eq_false_2 by by apply segmented_nonempty. by right; right.
Qed.

Lemma segmented_path rel : segmented rel -> path_ok rel.
Proof. by right; right. Qed.

Lemma clean_path rel : clean rel -> path_ok rel.
Proof. by right. Qed.

Lemma component_ok c : seg_ok c -> path_ok c.
Proof. intros H. right. right. unfold segmented. rewrite split_no_sep by apply H. by constructor. Qed.

Lemma components_ok rel : clean rel -> Forall path_ok (split_byte slash rel).
Proof.
  intros [->|H]; [constructor; [by right; left|constructor]|]. eapply Forall_impl; [exact H|]. apply component_ok.
Qed.

Lemma join_child rel name : path_ok rel -> seg_ok name -> segmented (joinMountRelative rel name).
Proof.
  intros Hr Hn. unfold joinMountRelative.
  destruct (bool_decide (rel = []) || bool_decide (rel = go ".")) eqn:E.
  - unfold segmented. rewrite split_no_sep by apply Hn. by constructor.
  - apply orb_false_iff in E as [E0 E]. apply bool_decide_eq_false in E0, E. destruct Hr as [Hr|[Hr|Hr]]; [done|done|].
    change ([slash] ++ name) with (slash :: name).
    assert (rel ++ slash :: name = join_byte slash (split_byte slash rel ++ [name])) as ->.
    { rewrite <- (join_split slash rel) at 1. generalize (split_byte_nonempty slash rel).
      induction (split_byte slash rel) as [|x l IH]; [done|]. intros _. destruct l as [|y l]; [done|].
      change (join_byte slash (x :: y :: l)) with (x ++ slash :: join_byte slash (y :: l)).
      rewrite <- app_assoc. cbn [app]. rewrite IH by done. done. }
    apply segmented_join; [by destruct (split_byte slash rel)|]. apply Forall_app. split; [done|by constructor].
Qed.

Lemma no_last_slash p : slash ∉ p -> LastIndexByte p slash = -1.
Proof.
  unfold LastIndexByte. generalize 0 at 1 as i. induction p as [|c p IH]; intros i H; [done|]. cbn.
  destruct (Byte.eqb c slash) eqn:E; [|apply IH; set_solver]. exfalso. apply Byte.byte_dec_bl in E. set_solver.
Qed.

(** What stands before the last slash of a segmented path. *)
Lemma segmented_cut rel : segmented rel ->
  (LastIndexByte rel slash = -1 /\ seg_ok rel)
  \/ (0 <= LastIndexByte rel slash /\ segmented (take (Z.to_nat (LastIndexByte rel slash)) rel)).
Proof.
  intros H. rewrite <- (join_split slash rel). pose proof (split_byte_nonempty slash rel) as Hne. unfold segmented in H.
  revert H Hne. generalize (split_byte slash rel) as l. intros l H Hne.
  destruct l as [|x l _] using rev_ind; [done|]. apply Forall_app in H as [Hl Hx]. inv Hx.
  destruct l as [|y l]; [left; cbn; split; [apply no_last_slash, H1|done]|]. right.
  assert (join_byte slash ((y :: l) ++ [x]) = join_byte slash (y :: l) ++ slash :: x) as ->.
  { clear. revert y. induction l as [|z l IH]; intros y; [done|].
    change (join_byte slash ((y :: z :: l) ++ [x])) with (y ++ slash :: join_byte slash ((z :: l) ++ [x])).
    rewrite IH. change (join_byte slash (y :: z :: l)) with (y ++ slash :: join_byte slash (z :: l)).
    by rewrite <- app_assoc. }
  rewrite LastIndexByte_app by apply H1. split; [apply len_nonneg|]. rewrite take_len_app. by apply segmented_join.
Qed.

Lemma clean_before rel : path_ok rel -> clean (before_slash rel).
Proof.
  unfold before_slash. intros [->|[->|H]]; [by left|by left|].
  destruct (segmented_cut rel H) as [[-> _]|[Hi Hc]]; [by left|]. rewrite (proj2 (Z.leb_le _ _)) by done. by right.
Qed.
End paths.

(** Resolving does not lengthen a path. *)
Section lengths.
Definition segs_len (segs : list bytes) : Z := zsum (map (fun s => 1 + len s) segs).

Lemma segs_len_app a b : segs_len (a ++ b) = segs_len a + segs_len b.
Proof. unfold segs_len. by rewrite map_app, zsum_app. Qed.

Lemma segs_len_nonneg a : 0 <= segs_len a.
Proof. apply zsum_nonneg, Forall_forall. intros x _. pose proof (len_nonneg x). lia. Qed.

Lemma len_unparse segs : len (unparse segs) = segs_len segs.
Proof.
  induction segs as [|x segs IH]; [done|]. unfold unparse in *. cbn [map concat]. rewrite len_app, len_cons, IH.
  unfold segs_len. cbn [map]. rewrite zsum_cons. lia.
Qed.

Lemma len_join segs : len (join_byte slash segs) <= segs_len segs.
Proof.
  destruct segs as [|x segs]; [done|]. rewrite <- len_unparse, unparse_join, len_cons. lia.
Qed.

Lemma len_split s : segs_len (split_byte slash s) = len s + 1.
Proof.
  rewrite <- (join_split slash s) at 2. pose proof (split_byte_nonempty slash s).
  destruct (split_byte slash s) as [|x l]; [done|]. rewrite <- len_unparse, unparse_join, len_cons. lia.
Qed.

Lemma len_resolve p : segs_len (resolve p) <= len p + 1.
Proof.
  rewrite <- len_split. unfold resolve. assert (forall st, segs_len (fold_left push_seg (split_byte slash p) st)
    <= segs_len st + segs_len (split_byte slash p)) as H; [|apply (H [])].
  induction (split_byte slash p) as [|x l IH]; intros st; cbn [fold_left].
  { pose proof (segs_len_nonneg []). lia. }
  specialize (IH (push_seg st x)). change (x :: l) with ([x] ++ l). rewrite segs_len_app.
  assert (segs_len (push_seg st x) <= segs_len st + segs_len [x]); [|lia].
  pose proof (segs_len_nonneg [x]). unfold push_seg. destruct (_ || _); [lia|]. destruct (bool_decide _).
  - destruct st as [|y st _] using rev_ind; [pose proof (segs_len_nonneg []); cbn [removelast]; lia|]. rewrite removelast_last, segs_len_app. pose proof (segs_len_nonneg [y]). lia.
  - rewrite segs_len_app. lia.
Qed.

(** What a mount-relative path is. *)
Lemma resolve_clean vpath mv rel : isNormalizedVirtualPath mv = true -> resolveVirtualPath vpath mv = inl rel ->
  clean rel /\ len rel <= len vpath + 1.
Proof.
  intros Hn Hr. apply isNormalized_spec in Hn as (ms & Hms & E). rewrite E in Hr.
  apply resolveVirtualPath_confined in Hr as (rs & Hrs & -> & Hc); [|done]. split; [by apply confined_clean|].
  pose proof (len_join rs). pose proof (len_resolve vpath) as Hl. rewrite Hrs, segs_len_app in Hl.
  pose proof (segs_len_nonneg ms). lia.
Qed.
End lengths.

#[export] Hint Resolve clean_dirOp clean_path segmented_path component_ok join_child clean_before confined_clean : mountfs.

(** ** Calls *)

Definition writing (c : hcall) : bool :=
  match c with
  | COpenFile _ _ (OCreateTrunc | OCreateAppend) | CWrite _ _ | CMkdir _ _ | CRemove _ _ | CRename _ _ _ => true
  | _ => false
  end.

Definition call_paths (c : hcall) : list bytes :=
  match c with
  | CStat _ p | CLstat _ p | COpenRoot _ p | COpenFile _ p _ | CMkdir _ p | CRemove _ p => [p]
  | CRename _ p q => [p; q]
  | _ => []
  end.

(** A call whose paths are in order, and that writes only when [w] allows it. *)
Definition good (w : bool) (c : hcall) : Prop :=
  Forall path_ok (call_paths c) /\ (writing c = true -> w = true).

(** What os.File.ReadDir documents: the names of entries are base names; and
    they are Go strings. *)
Definition name_ok (name : bytes) : Prop := seg_ok name /\ len name < 2 ^ 62.
Class HostNames `(HO : Host) : Prop :=
  host_names : forall fd h, Forall (fun e => name_ok (de_name e)) (ReadDir fd h).1.1.

(** ** The state of a mount *)

Definition ref_ok (e : overlayEntry) : Prop := oe_kind e = entRealFileRef -> path_ok (oe_relative e).

Record store_ok (limit : Z) (s : overlayState) : Prop := {
  so_inv : ov_inv s;
  so_limit : os_usage s <= limit;
  so_refs : forall k e, os_entries s !! k = Some e -> ref_ok e;
  so_sizes : forall k e, os_entries s !! k = Some e -> len k <= 2 ^ 41 /\ len (oe_relative e) <= 2 ^ 41 }.

(** A mount whose fixed part is that of [m0]. Memory limits are at most a
    tebibyte, so that sums of a few times the limit do not saturate. *)
Record mount_ok (m0 m : mount) : Prop := {
  mo_virtual : m_virtual m = m_virtual m0;
  mo_dir : m_dir m = m_dir m0;
  mo_mode : m_mode m = m_mode m0;
  mo_wlimit : m_write_limit m = m_write_limit m0;
  mo_mlimit : m_memory_limit m = m_memory_limit m0;
  mo_normal : isNormalizedVirtualPath (m_virtual m) = true;
  mo_memory : 0 <= m_memory_limit m <= 2 ^ 40;
  mo_written : forall l, m_write_limit m = Some l -> 0 <= m_write_used m <= l /\ l <= MaxUint64;
  mo_store : m_mode m = Overlay -> exists s, m_overlay m = Some s /\ store_ok (m_memory_limit m) s }.

(** An answer other than a content. *)
Definition no_content (v : value) : Prop := match v with VBytes _ | VStr _ => False | _ => True end.

(** ** Reading

    Everything here holds for every property [P] of mounts, as nothing changes
    the mount. *)

Section reading.
Context `{HO : Host} `{!HostNames HO} (fuel : nat) (m0 : mount) (P : mount -> Prop) (w : bool).
Hypothesis P_ok : forall m, P m -> mount_ok m0 m.
Abbreviation keeps := (keeps P (good w)).

Ltac good := split; [cbn; repeat (apply Forall_cons_2; [assumption|]); apply Forall_nil_2|try done].

Lemma k_stat d p : path_ok p -> keeps (stat d p) (fun _ => True).
Proof. intros H. apply keeps_asking; [good|done]. Qed.
Lemma k_lstat d p : path_ok p -> keeps (lstat d p) (fun _ => True).
Proof. intros H. apply keeps_asking; [good|done]. Qed.
Lemma k_opened r : keeps (opened r) (fun _ => True).
Proof. destruct r; cbn; [by apply keeps_mret|]. eapply keeps_seq; [apply keeps_log; good|]. intros. by apply keeps_mret. Qed.
Lemma k_open_root d p : path_ok p -> keeps (open_root d p) (fun _ => True).
Proof. intros H. eapply (keeps_seq _ _ _ _ (fun _ => True)); [apply keeps_asking; [good|done]|]. intros. apply k_opened. Qed.
Lemma k_open_file d p fl : path_ok p -> (writing (COpenFile d p fl) = true -> w = true) -> keeps (open_file d p fl) (fun _ => True).
Proof.
  intros H Hw. eapply (keeps_seq _ _ _ _ (fun _ => True)); [apply keeps_asking; [|done]|intros; apply k_opened].
  by good.
Qed.
Lemma k_fstat f : keeps (fstat f) (fun _ => True).
Proof. apply keeps_asking; [good|done]. Qed.
Lemma k_read f n : keeps (fread f n) (fun _ => True).
Proof. apply keeps_asking; [good|done]. Qed.
Lemma k_close f : keeps (close f) (fun _ => True).
Proof. apply keeps_asking; [good|done]. Qed.
Lemma k_read_dir f : keeps (read_dir f) (fun r => Forall (fun e => name_ok (de_name e)) r.1).
Proof. apply keeps_asking; [good|]. intros h. pose proof (host_names f h) as H. by destruct (ReadDir f h) as [[d e] h']. Qed.
#[local] Hint Resolve k_stat k_lstat k_open_root k_fstat k_read k_close k_read_dir : mountfs.

Lemma k_the_dir : keeps the_dir (fun _ => True).
Proof. unfold the_dir. keeps. Qed.

Lemma k_resolve_path vpath : keeps (resolve_path vpath) clean.
Proof.
  unfold resolve_path. eapply keeps_seq; [apply keeps_get_mount|]. intros m Hm. apply keeps_lift. intros rel Hr.
  by eapply resolve_clean; [apply (mo_normal _ _ (P_ok m Hm))|].
Qed.
#[local] Hint Resolve k_the_dir k_resolve_path : mountfs.

Lemma k_stat_test d p t : path_ok p -> keeps (stat_test d p t) (fun _ => True).
Proof. intros. unfold stat_test. keeps. Qed.
Lemma k_hostExists d p : path_ok p -> keeps (hostExists d p) (fun _ => True).
Proof. apply k_stat_test. Qed.
Lemma k_hostIsDir d p : path_ok p -> keeps (hostIsDir d p) (fun _ => True).
Proof. apply k_stat_test. Qed.
Lemma k_hostIsFile d p : path_ok p -> keeps (hostIsFile d p) (fun _ => True).
Proof. apply k_stat_test. Qed.
#[local] Hint Resolve k_hostExists k_hostIsDir k_hostIsFile : mountfs.
Lemma k_hostIsSymlink d p : path_ok p -> keeps (hostIsSymlink d p) (fun _ => True).
Proof. intros. unfold hostIsSymlink. keeps. Qed.
Lemma k_hostDirMtime d p : path_ok p -> keeps (hostDirMtime d p) (fun _ => True).
Proof. intros. unfold hostDirMtime. keeps. Qed.
Lemma k_rejectNonRegular d p v : path_ok p -> keeps (rejectNonRegular d p v) (fun _ => True).
Proof. intros. unfold rejectNonRegular. keeps. Qed.
Lemma k_openRegular d p v fl : path_ok p -> (writing (COpenFile d p fl) = true -> w = true) ->
  keeps (openRegular d p v fl) (fun _ => True).
Proof. intros H Hw. unfold openRegular. eapply keeps_seq; [by apply k_open_file|]. intros r _. keeps. Qed.
Lemma k_hostStat d p v : path_ok p -> keeps (hostStat d p v) no_content.
Proof. intros. unfold hostStat. keeps_step. destruct a; [keeps|]. apply keeps_mret. by destruct (IsDir f). Qed.
Lemma k_openDir d p : path_ok p -> keeps (openDir d p) (fun _ => True).
Proof. intros H. by apply k_open_file. Qed.
#[local] Hint Resolve k_hostIsSymlink k_hostDirMtime k_rejectNonRegular k_hostStat k_openDir : mountfs.

(** A read never yields more than the limit it was given. *)
Lemma k_read_loop n f buf cap limit : len buf <= limit ->
  keeps (read_loop n f buf cap limit) (fun r => len r.1 <= limit).
Proof.
  revert buf cap. induction n as [|n IH]; intros buf cap Hb; cbn [read_loop]; [keeps|].
  destruct (Z.ltb_spec (len buf) limit); [|by apply keeps_mret].
  eapply keeps_seq; [keeps_known|]. intros [data err] _.
  match goal with |- context[take (Z.to_nat ?r) data] => set (room := r) end.
  assert (len (buf ++ take (Z.to_nat room) data) <= limit) as Hl.
  { rewrite len_app. unfold len. rewrite length_take. unfold len in *. subst room.
    match goal with |- context[Z.min (?c - _) _] => generalize c end. intros c. unfold len in *. lia. }
  keeps; first [done|by apply IH].
Qed.

Lemma k_readFileLimited d p v b : path_ok p -> 0 <= mb_available b < MaxUint64 ->
  keeps (readFileLimited fuel d p v b) (fun c => len c <= mb_available b).
Proof.
  intros Hp Hb. unfold readFileLimited. eapply keeps_seq; [keeps_known|]. intros _ _.
  eapply keeps_seq; [by apply k_openRegular|]. intros f _. eapply keeps_deferring; [keeps_known|].
  keeps_step. keeps_step; [keeps|]. cbv zeta. keeps_step. eapply keeps_seq; [apply k_read_loop|].
  { rewrite satAdd_min by (unfold MaxUint64 in *; lia). rewrite len_nil. unfold MaxUint64 in *. lia. }
  intros [content err] Hc. destruct err; [keeps|]. eapply keeps_seq; [apply keeps_check|].
  intros ? Hk. apply keeps_mret. unfold mb_check in Hk. by destruct (Z.ltb_spec (mb_available b) (len content)).
Qed.

Section each.
Context {S : Type} (fn : S -> direntry -> X (S * bool)) (I : S -> Prop).
Hypothesis Hfn : forall acc e, I acc -> name_ok (de_name e) -> keeps (fn acc e) (fun r => I r.1).

Lemma k_each_entry batch acc : I acc -> Forall (fun e => name_ok (de_name e)) batch -> keeps (each_entry fn batch acc) (fun r => I r.1).
Proof.
  intros Hi Hb. revert acc Hi. induction Hb as [|e batch He _ IH]; intros acc Hi; cbn [each_entry]; [by apply keeps_mret|].
  eapply keeps_seq; [by apply Hfn|]. intros [acc' stop] Ha. destruct stop; [by apply keeps_mret|by apply IH].
Qed.

Lemma k_each_batch n f v acc : I acc -> keeps (each_batch fn n f v acc) I.
Proof.
  revert acc. induction n as [|n IH]; intros acc Hi; cbn [each_batch]; [keeps|].
  eapply keeps_seq; [keeps_known|]. intros [batch err] Hb. eapply keeps_seq; [by apply k_each_entry|].
  intros [acc' stop] Ha. keeps; first [done|by apply IH].
Qed.
End each.

Lemma k_list_names d p v b : path_ok p -> keeps (hostListVisibleDirEntryNames fuel d p v b) (fun _ => True).
Proof.
  intros Hp. unfold hostListVisibleDirEntryNames. do 4 (keeps_step; try done).
  eapply keeps_deferring; [keeps_known|]. eapply keeps_seq; [apply (k_each_batch _ (fun _ => True)); [|done]|].
  - intros [names usage] e _ [He _]. unfold visible_entry. keeps.
  - intros [names usage] _. keeps.
Qed.

Lemma k_hostIterdir d p v b : path_ok p -> keeps (hostIterdir fuel d p v b) no_content.
Proof.
  intros Hp. unfold hostIterdir. eapply keeps_seq; [by apply k_list_names|]. intros names _. cbv zeta. keeps_step. by apply keeps_mret.
Qed.
#[local] Hint Resolve k_readFileLimited k_list_names k_hostIterdir k_openRegular : mountfs.

(** *** Overlay mounts *)

Hypothesis overlay0 : m_mode m0 = Overlay.

(** A store that the mount may have now. *)
Definition stored (s : overlayState) : Prop := exists m, P m /\ m_overlay m = Some s.

Lemma stored_ok s : stored s -> store_ok (m_memory_limit m0) s.
Proof.
  intros (m & Hm & Hs). pose proof (P_ok m Hm) as Hok. destruct (mo_store _ _ Hok) as (s' & Hs' & H).
  - by rewrite (mo_mode _ _ Hok).
  - rewrite Hs in Hs'. injection Hs' as <-. by rewrite <- (mo_mlimit _ _ Hok).
Qed.

Lemma memory0 m : P m -> 0 <= m_memory_limit m0 <= 2 ^ 40.
Proof. intros Hm. pose proof (mo_memory _ _ (P_ok m Hm)) as H. by rewrite (mo_mlimit _ _ (P_ok m Hm)) in H. Qed.

Lemma k_get_store : keeps get_store stored.
Proof.
  unfold get_store. eapply keeps_seq; [apply keeps_get_mount|]. intros m Hm. pose proof (P_ok m Hm) as Hok.
  destruct (mo_store _ _ Hok) as (s & Hs & _); [by rewrite (mo_mode _ _ Hok)|]. rewrite Hs. apply keeps_mret. by exists m.
Qed.

Lemma k_entry_at key : keeps (entry_at key) (fun e => exists s, stored s /\ e = os_get s key).
Proof. unfold entry_at. eapply keeps_seq; [apply k_get_store|]. intros s Hs. apply keeps_mret. eauto. Qed.
#[local] Hint Resolve k_get_store k_entry_at : mountfs.

Lemma entry_ref s key e : stored s -> Some e = os_get s key -> ref_ok e.
Proof. intros Hs He. by eapply (so_refs _ _ (stored_ok s Hs)). Qed.

Lemma entry_len s key e : stored s -> Some e = os_get s key -> len (oe_content e) <= MaxUint64.
Proof. intros Hs He. by eapply (ov_fits _ (so_inv _ _ (stored_ok s Hs))). Qed.

Lemma k_classifyTarget d p v : path_ok p -> keeps (classifyTarget d p v) (fun _ => True).
Proof. intros. unfold classifyTarget. keeps. Qed.
#[local] Hint Resolve k_classifyTarget : mountfs.

Lemma k_walk_close cw : keeps (walk_close cw) (fun _ => True).
Proof. unfold walk_close. keeps. Qed.
#[local] Hint Resolve k_walk_close : mountfs.

Lemma k_step cw c v : path_ok c -> keeps (step cw c v) (fun _ => True).
Proof. intros Hc. unfold step. keeps. Qed.

Lemma k_walk {S} (I : list bytes -> S -> Prop) body vpath_of cw acc components :
  (forall acc c rest t, I (c :: rest) acc ->
     keeps (body acc c t) (fun r => match r with inl acc => I rest acc | inr _ => True end)) ->
  I components acc -> Forall path_ok components -> keeps (walk_components body vpath_of cw acc components) (fun _ => True).
Proof.
  intros Hb Hi Hc. revert cw acc Hi. induction Hc as [|c components Hc _ IH]; intros cw acc Hi; cbn [walk_components]; [keeps|].
  eapply keeps_seq; [by apply k_step|]. intros [cw' t] _. destruct t as [target|e]; [|keeps].
  eapply keeps_seq; [apply keeps_catch; by apply (Hb _ _ components)|]. intros [e|[acc'|[]]] Hr; [keeps|by apply IH|keeps].
Qed.

Lemma k_rejectSymlinkChain d p v : clean p \/ path_ok p -> keeps (rejectSymlinkChain d p v) (fun _ => True).
Proof.
  intros Hp. unfold rejectSymlinkChain. destruct (_ || _) eqn:E; [keeps|].
  apply orb_false_iff in E as [E1 E2]. apply bool_decide_eq_false in E1, E2.
  apply (k_walk (fun _ _ => True)); [intros [] c rest t _; keeps|done|].
  apply components_ok. destruct Hp as [Hp|[Hp|Hp]]; done.
Qed.

Lemma k_resolveReal v : keeps (resolveReal v) clean.
Proof.
  unfold resolveReal. eapply keeps_seq; [apply k_resolve_path|]. intros rel Hr. keeps_step.
  eapply keeps_seq; [apply k_rejectSymlinkChain; auto with mountfs|]. intros _ _. by apply keeps_mret.
Qed.
#[local] Hint Resolve k_resolveReal : mountfs.

Lemma k_checkedRefPath e v : path_ok (oe_relative e) -> keeps (checkedRefPath e v) path_ok.
Proof.
  intros Hp. unfold checkedRefPath. keeps_step. eapply keeps_seq; [apply k_rejectSymlinkChain; auto|]. intros _ _. by apply keeps_mret.
Qed.

(** What is left of the memory limit. *)
Lemma k_availableMemory :
  keeps availableMemory (fun b => exists s, stored s /\ b = MemoryBudget (m_memory_limit m0 - os_usage s) (m_memory_limit m0)).
Proof.
  unfold availableMemory. eapply keeps_seq; [apply k_get_store|]. intros s Hs. eapply keeps_seq; [apply keeps_get_mount|]. intros m Hm.
  cbv zeta. rewrite (mo_mlimit _ _ (P_ok m Hm)). keeps_step; [keeps|]. apply keeps_mret. eauto.
Qed.
#[local] Hint Resolve k_availableMemory : mountfs.

Lemma usage_nonneg s : stored s -> 0 <= os_usage s <= m_memory_limit m0.
Proof.
  intros Hs. pose proof (stored_ok s Hs) as [Hi Hl _ _]. split; [|done]. rewrite (ov_usage _ Hi).
  unfold os_total. apply zsum_nonneg, Forall_forall. intros x _. apply old_usage_range.
Qed.

Lemma budget_range b s : stored s -> b = MemoryBudget (m_memory_limit m0 - os_usage s) (m_memory_limit m0) ->
  0 <= mb_available b <= 2 ^ 40 /\ 0 <= mb_available b < MaxUint64.
Proof.
  intros Hs ->. pose proof (usage_nonneg s Hs). destruct Hs as (m & Hm & _). pose proof (memory0 m Hm). cbn. unfold MaxUint64. lia.
Qed.

Lemma k_resolveRealPathState v f : keeps (resolveRealPathState v f) (fun r => forall p, r = Some p -> path_ok p).
Proof.
  unfold resolveRealPathState. keeps_step.
  - keeps. intros ? [=].
  - keeps; intros ? [= <-]; auto with mountfs.
Qed.
#[local] Hint Resolve k_resolveRealPathState : mountfs.

Lemma k_overlayPredicate rel v by_kind q : (forall d p, path_ok p -> keeps (q d p) (fun _ => True)) ->
  keeps (overlayPredicate rel v by_kind q) (fun _ => True).
Proof. intros Hq. unfold overlayPredicate. do 5 (keeps_step; try done). eapply keeps_seq; [apply Hq; auto|]. keeps. Qed.

Lemma k_overlayIsSymlink rel v : keeps (overlayIsSymlink rel v) (fun _ => True).
Proof.
  unfold overlayIsSymlink. keeps_step. destruct a as [|]; [keeps|].
  eapply keeps_seq; [apply keeps_catch, k_resolve_path|]. intros [?|target] Ht; [keeps|]. cbv zeta. keeps_step.
  eapply keeps_seq; [apply keeps_catch, k_rejectSymlinkChain; left; auto with mountfs|]. intros [?|?] _; keeps.
Qed.

(** Reading a file of an overlay mount never yields more than the memory left. *)
Lemma k_overlayRead rel v : keeps (overlayRead fuel rel v) (fun c => len c <= m_memory_limit m0).
Proof.
  assert (forall d p, path_ok p -> keeps (availableMemory ≫= readFileLimited fuel d p v) (fun c => len c <= m_memory_limit m0)) as Hread.
  { intros d p Hp. eapply keeps_seq; [keeps_known|]. intros b (s & Hs & Hb). destruct (budget_range b s Hs Hb) as [_ Hr].
    eapply keeps_mono; [by apply k_readFileLimited|]. intros c Hc. pose proof (usage_nonneg s Hs). subst b. cbn in Hc. cbn. lia. }
  unfold overlayRead. eapply keeps_seq; [keeps_known|]. intros e (s & Hs & He). keeps_step.
  destruct e as [entry|]; [|keeps_step; apply Hread; auto with mountfs].
  destruct (oe_kind entry) eqn:Ek; [| |keeps..].
  - eapply keeps_seq; [keeps_known|]. intros b (s' & Hs' & Hb). eapply keeps_seq; [apply keeps_check|].
    intros ? Hc. apply keeps_mret. unfold mb_check in Hc. pose proof (usage_nonneg s' Hs'). subst b. cbn in Hc.
    destruct (Z.ltb_spec (m_memory_limit m0 - os_usage s') (len (oe_content entry))); [done|lia].
  - eapply keeps_seq; [apply k_checkedRefPath; by eapply entry_ref|]. intros ref Hr. by apply Hread.
Qed.

Lemma k_hostFileLen p v : path_ok p -> keeps (hostFileLen p v) (fun n => 0 <= n).
Proof. intros. unfold hostFileLen. keeps. lia. Qed.
#[local] Hint Resolve k_hostFileLen : mountfs.

Lemma k_existingFileLen rel v : keeps (existingFileLen rel v) (fun n => 0 <= n).
Proof.
  unfold existingFileLen. eapply keeps_seq; [keeps_known|]. intros e (s & Hs & He). destruct e as [entry|].
  - destruct (oe_kind entry) eqn:Ek; [apply keeps_mret, len_nonneg| |keeps|by apply keeps_mret].
    eapply keeps_seq; [apply k_checkedRefPath; by eapply entry_ref|]. keeps.
  - keeps_step. keeps_step; [keeps|]. by apply keeps_mret.
Qed.

Lemma k_existingFileBytes rel v b : 0 <= mb_available b < MaxUint64 ->
  keeps (existingFileBytes fuel rel v b) (fun c => len c <= mb_available b).
Proof.
  intros Hb. unfold existingFileBytes. eapply keeps_seq; [keeps_known|]. intros e (s & Hs & He). keeps_step. destruct e as [entry|].
  - destruct (oe_kind entry) eqn:Ek; [| |keeps|apply keeps_mret; rewrite len_nil; lia].
    + eapply keeps_seq; [apply keeps_check|]. intros ? Hc. apply keeps_mret. unfold mb_check in Hc.
      by destruct (Z.ltb_spec (mb_available b) (len (oe_content entry))).
    + eapply keeps_seq; [apply k_checkedRefPath; by eapply entry_ref|]. intros ref Hr. by apply k_readFileLimited.
  - keeps_step. keeps_step; [|apply keeps_mret; rewrite len_nil; lia]. apply k_readFileLimited; auto.
Qed.

Lemma k_classify_real v : keeps (classify_real v) (fun _ => True).
Proof. unfold classify_real. keeps. Qed.
#[local] Hint Resolve k_classify_real : mountfs.

Lemma k_rejectDirectoryTarget rel v : keeps (rejectDirectoryTarget rel v) (fun _ => True).
Proof. unfold rejectDirectoryTarget. keeps. Qed.

Lemma k_ensureParentExists rel v : clean rel -> keeps (ensureParentExists rel v) (fun _ => True).
Proof.
  intros Hr. unfold ensureParentExists. cbv zeta. destruct (Z.ltb_spec (LastIndexByte rel slash) 0); [keeps|]. keeps_step.
  apply (k_walk (fun _ _ => True)); [|done|].
  - intros current c rest t _. cbv zeta. keeps.
  - destruct Hr as [->|Hr]; [done|]. destruct (segmented_cut rel Hr) as [[E _]|[_ Hs]]; [lia|by apply components_ok; right].
Qed.
#[local] Hint Resolve k_rejectDirectoryTarget k_ensureParentExists : mountfs.

Lemma k_children rel : keeps (overlayDirectoryHasChildren rel) (fun _ => True).
Proof. unfold overlayDirectoryHasChildren. keeps. Qed.

Lemma k_visible_loop n f p : keeps (visible_loop n f p) (fun _ => True).
Proof.
  induction n as [|n IH]; cbn [visible_loop]; [keeps|]. eapply keeps_seq; [keeps_known|]. intros [batch err] _. keeps; by apply IH.
Qed.

Lemma k_visible_children rel p v : path_ok p -> keeps (realDirectoryHasVisibleChildren fuel rel p v) (fun _ => True).
Proof.
  intros Hp. unfold realDirectoryHasVisibleChildren. do 3 (keeps_step; try done).
  eapply keeps_deferring; [keeps_known|apply k_visible_loop].
Qed.
#[local] Hint Resolve k_children k_visible_children : mountfs.

Lemma k_overlayStat rel v : keeps (overlayStat rel v) no_content.
Proof.
  unfold overlayStat. eapply keeps_seq; [keeps_known|]. intros e (s & Hs & He).
  destruct e as [entry|]; [|keeps_step; keeps_step; eauto with mountfs].
  destruct (oe_kind entry) eqn:Ek; [by apply keeps_mret| |by apply keeps_mret|keeps].
  eapply keeps_seq; [apply k_checkedRefPath; by eapply entry_ref|]. intros _ _. by apply keeps_mret.
Qed.

Lemma k_overlayIterdir rel v : keeps (overlayIterdir fuel rel v) no_content.
Proof.
  unfold overlayIterdir. keeps_step. keeps_step.
  eapply (keeps_seq _ _ _ _ (fun r => forall p, r = Some p -> path_ok p)).
  { keeps; try (intros ? [=]); subst; auto with mountfs. }
  intros hd Hd. cbv zeta. keeps_step. keeps_step. eapply keeps_seq; [apply keeps_lift; intros ? ?; exact I|].
  intros [[usage seen] entries] _. destruct hd as [hd|]; [|by apply keeps_mret]. keeps_step. eapply keeps_seq; [apply k_list_names; auto|].
  intros names _. cbv zeta. keeps_step. by apply keeps_mret.
Qed.

(** *** Planning a rename *)

Lemma k_resolve_to vpath : keeps (resolve_path vpath)
  (fun rel => resolveVirtualPath vpath (m_virtual m0) = inl rel /\ clean rel /\ len rel <= len vpath + 1).
Proof.
  unfold resolve_path. eapply keeps_seq; [apply keeps_get_mount|]. intros m Hm. apply keeps_lift. intros rel Hr.
  pose proof (mo_normal _ _ (P_ok m Hm)) as Hn. rewrite (mo_virtual _ _ (P_ok m Hm)) in *. split; [done|]. by eapply resolve_clean.
Qed.

Lemma k_resolve_len vpath : keeps (resolve_path vpath) (fun rel => clean rel /\ len rel <= len vpath + 1).
Proof. eapply keeps_mono; [apply k_resolve_to|]. by intros rel [_ ?]. Qed.

Lemma k_resolveReal_len v : keeps (resolveReal v) (fun rel => clean rel /\ len rel <= len v + 1).
Proof.
  unfold resolveReal. eapply keeps_seq; [apply k_resolve_len|]. intros rel [Hr Hl]. keeps_step.
  eapply keeps_seq; [apply k_rejectSymlinkChain; auto with mountfs|]. intros _ _. by apply keeps_mret.
Qed.

Lemma k_rejectRenameTypeMismatch rel b v : keeps (rejectRenameTypeMismatch rel b v) (fun _ => True).
Proof.
  unfold rejectRenameTypeMismatch. keeps_step. keeps_step.
  eapply (keeps_seq _ _ _ _ (fun _ => True)); [destruct a as [e|]; keeps|]. keeps.
Qed.

Lemma k_host_dir_at v : keeps (host_dir_at v) (fun r => forall p, r = Some p -> path_ok p).
Proof.
  unfold host_dir_at. eapply keeps_seq; [apply keeps_catch, k_resolve_path|]. intros [?|t] Ht; [apply keeps_mret; intros ? [=]|].
  keeps_step. keeps_step. apply keeps_mret. intros p Hp. destruct a0; [|done]. injection Hp as <-. auto with mountfs.
Qed.
#[local] Hint Resolve k_rejectRenameTypeMismatch k_host_dir_at : mountfs.

Lemma k_rejectRenameOntoNonemptyDir rel v : keeps (rejectRenameOntoNonemptyDir fuel rel v) (fun _ => True).
Proof.
  unfold rejectRenameOntoNonemptyDir. keeps_step. eapply (keeps_seq _ _ _ _ (fun _ => True)); [destruct a; keeps|].
  intros b _. keeps_step; [keeps|]. keeps_step. keeps_step; [keeps|]. keeps_step. keeps_step; [|keeps].
  eapply keeps_seq; [apply k_visible_children; auto|]. keeps.
Qed.
#[local] Hint Resolve k_rejectRenameOntoNonemptyDir : mountfs.

(** An entry made from the host: no content of its own. *)
Definition bare (e : overlayEntry) : Prop := ref_ok e /\ oe_content e = [].

Lemma k_fileRef d p : path_ok p ->
  keeps (fileRefFromRelative d p) (fun r => forall e, r = Some e -> bare e /\ oe_relative e = p).
Proof.
  intros Hp. unfold fileRefFromRelative. keeps_step. apply keeps_mret. intros e He.
  destruct a as [|fi]; [done|]. destruct (IsRegular fi); [|done]. injection He as <-. split; [split|]; [intros _; exact Hp|done|done].
Qed.

(** What a collected move was charged at least. *)
Definition move_weight (mv : plannedMove) : Z := 512 + len (pm_old mv) + len (oe_relative (pm_entry mv)).

Lemma weights_snoc mvs mv : zsum (map move_weight (mvs ++ [mv])) = zsum (map move_weight mvs) + move_weight mv.
Proof. rewrite map_app, zsum_app. cbn [map]. rewrite zsum_cons. cbn. lia. Qed.

Record collected_ok (avail : Z) (acc : collected) : Prop := {
  co_bare : Forall (fun mv => bare (pm_entry mv)) (cd_result acc);
  co_dirs : Forall (fun d => path_ok d.1 /\ len d.1 <= 2 ^ 41 /\ len d.2 <= 2 ^ 41) (cd_dirs acc);
  co_usage : 0 <= cd_usage acc <= MaxUint64;
  co_sum : zsum (map move_weight (cd_result acc)) <= cd_usage acc;
  co_avail : zsum (map move_weight (cd_result acc)) <= avail }.

(** A sum that passed a check did not saturate. *)
Lemma sat_exact a b l : 0 <= a <= MaxUint64 -> 0 <= b <= MaxUint64 -> satAdd a b <= l -> l < MaxUint64 -> a + b = satAdd a b.
Proof. intros Ha Hb. rewrite satAdd_min by done. lia. Qed.

Lemma sat_sum3 u a b c l : 0 <= u <= MaxUint64 -> 0 <= a <= MaxUint64 -> 0 <= b <= MaxUint64 -> 0 <= c <= MaxUint64 ->
  satAdd (satAdd (satAdd u a) b) c <= l -> l < MaxUint64 -> u + a + b + c = satAdd (satAdd (satAdd u a) b) c.
Proof.
  intros Hu Ha Hb Hc Hl Hm. pose proof (satAdd_range u a) as R1. pose proof (satAdd_range (satAdd u a) b) as R2.
  rewrite (satAdd_min _ c R2 Hc) in *. rewrite (satAdd_min _ b R1 Hb) in *. rewrite (satAdd_min u a Hu Ha) in *. lia.
Qed.

Lemma satMul_ge a : 0 <= a <= MaxUint64 -> a <= satMul a 2 <= MaxUint64.
Proof.
  intros Ha. unfold satMul. destruct (Z.eqb_spec a 0) as [->|]; [done|]. cbn [negb andb].
  destruct (Z.ltb_spec (MaxUint64 / a) 2) as [H|H]; [lia|]. split; [lia|].
  assert (2 * a <= MaxUint64 / a * a) by nia. pose proof (Z.mul_div_le MaxUint64 a ltac:(lia)). lia.
Qed.

Lemma len_joinMount p n : len (joinMountRelative p n) <= len p + 1 + len n.
Proof.
  unfold joinMountRelative. pose proof (len_nonneg p). pose proof (len_nonneg n). destruct (_ || _); [lia|].
  rewrite !len_app. change (len [slash]) with 1. lia.
Qed.

Lemma mb_checked b n : mb_check b n = None -> n <= mb_available b.
Proof. unfold mb_check. destruct (Z.ltb_spec (mb_available b) n); [done|lia]. Qed.

Lemma shrink_spec b n b' : shrink b n = inl b' -> mb_available b' = mb_available b - n /\ n <= mb_available b.
Proof. unfold shrink. destruct (Z.ltb_spec (mb_available b) n); [done|]. by intros [= <-]. Qed.

Lemma k_collect_entry d curRel curPrefix handled v b acc e :
  path_ok curRel -> len curRel <= 2 ^ 41 -> len curPrefix <= 2 ^ 41 -> 0 <= mb_available b <= 2 ^ 40 ->
  collected_ok (mb_available b) acc -> name_ok (de_name e) ->
  keeps (collect_entry d curRel curPrefix handled v b acc e) (fun r => collected_ok (mb_available b) r.1).
Proof.
  intros Hp Hl1 Hl2 Hb Hacc [Hn Hln]. unfold collect_entry. keeps_step; [keeps|]. cbv zeta.
  eapply keeps_seq; [apply k_entry_at|]. intros known _. keeps_step; [by apply keeps_mret|].
  pose proof (join_child curRel (de_name e) Hp Hn) as Hj. pose proof (len_joinMount curRel (de_name e)) as Hlj.
  pose proof (len_nonneg curRel). pose proof (len_nonneg curPrefix). pose proof (len_nonneg (de_name e)).
  set (key := curPrefix ++ de_name e). set (child := joinMountRelative curRel (de_name e)) in *.
  assert (len key = len curPrefix + len (de_name e)) as Hk by apply len_app. pose proof (len_nonneg child).
  destruct Hacc as [A1 A2 A3 A4 A5]. unfold MaxUint64 in *.
  destruct (de_type e); [..|by apply keeps_mret].
  - eapply keeps_seq; [apply keeps_check|]. intros ? Hc%mb_checked. eapply keeps_seq; [apply k_hostDirMtime; auto with mountfs|].
    intros mt _. apply keeps_mret. cbn [fst]. pose proof (satMul_ge (len key) ltac:(unfold MaxUint64; lia)) as [M1 M2]. unfold MaxUint64 in *.
    pose proof (sat_sum3 (cd_usage acc) (satMul (len key) 2) (len child) realDescendantMemoryUsage (mb_available b)
      ltac:(done) ltac:(unfold MaxUint64; lia) ltac:(unfold MaxUint64; lia) ltac:(done) Hc ltac:(unfold MaxUint64; lia)) as E.
    rewrite <- E in *. unfold realDescendantMemoryUsage in *.
    constructor; cbn [cd_result cd_dirs cd_usage].
    + apply Forall_app. split; [done|]. constructor; [|constructor]. split; [by intros [=]|done].
    + apply Forall_app. split; [done|]. constructor; [|constructor]. cbn [fst snd].
      rewrite len_app. change (len [slash]) with 1. split; [auto with mountfs|]. lia.
    + unfold MaxUint64. lia.
    + rewrite weights_snoc. unfold move_weight at 2. cbn [pm_old pm_entry directoryEntry oe_relative]. fold key. rewrite len_nil. lia.
    + rewrite weights_snoc. unfold move_weight at 2. cbn [pm_old pm_entry directoryEntry oe_relative]. fold key. rewrite len_nil. lia.
  - eapply keeps_seq; [apply k_fileRef; auto with mountfs|]. intros ref Href. destruct ref as [ref|]; [|by apply keeps_mret].
    destruct (Href ref eq_refl) as [Hbare Hrel]. fold child in Hrel. eapply keeps_seq; [apply keeps_check|]. intros ? Hc%mb_checked.
    apply keeps_mret. cbn [fst]. rewrite Hrel in *.
    pose proof (sat_sum3 (cd_usage acc) (len key) (len child) realDescendantMemoryUsage (mb_available b)
      ltac:(done) ltac:(unfold MaxUint64; lia) ltac:(unfold MaxUint64; lia) ltac:(done) Hc ltac:(unfold MaxUint64; lia)) as E.
    rewrite <- E in *. unfold realDescendantMemoryUsage in *. constructor; cbn [cd_result cd_dirs cd_usage].
    + apply Forall_app. split; [done|]. by constructor.
    + done.
    + unfold MaxUint64. lia.
    + rewrite weights_snoc. unfold move_weight at 2. cbn [pm_old pm_entry]. fold key. rewrite Hrel. lia.
    + rewrite weights_snoc. unfold move_weight at 2. cbn [pm_old pm_entry]. fold key. rewrite Hrel. lia.
  - keeps.
Qed.

Definition moves_ok (avail : Z) (mvs : list plannedMove) : Prop :=
  Forall (fun mv => bare (pm_entry mv)) mvs /\ zsum (map move_weight mvs) <= avail.

Lemma k_collect_loop n d handled v b acc : 0 <= mb_available b <= 2 ^ 40 -> collected_ok (mb_available b) acc ->
  keeps (collect_loop fuel n d handled v b acc) (moves_ok (mb_available b)).
Proof.
  intros Hb. revert acc. induction n as [|n IH]; intros acc Hacc; cbn [collect_loop];
    destruct (last (cd_dirs acc)) as [[curRel curPrefix]|] eqn:El; try by apply keeps_mret; split; apply Hacc.
  - keeps.
  - cbv zeta. destruct Hacc as [A1 A2 A3 A4 A5].
    assert (exists l, cd_dirs acc = l ++ [(curRel, curPrefix)]) as [l Hl].
    { destruct (cd_dirs acc) as [|x l _] using rev_ind; [done|]. rewrite last_snoc in El. injection El as ->. eauto. }
    rewrite Hl in A2 |- *. rewrite removelast_last. apply Forall_app in A2 as [A2 A2']. inv A2'. cbn [fst snd] in *. destruct H1 as (B1 & B2 & B3).
    eapply keeps_seq; [by apply k_openDir|]. intros r _. destruct r as [err|f]; [keeps|].
    eapply keeps_seq; [apply keeps_catch, (k_each_batch _ (collected_ok (mb_available b)))|].
    + intros acc' e Ha He. by apply k_collect_entry.
    + by constructor.
    + intros r Hr. keeps_step. destruct r as [e|acc']; [keeps|]. by apply IH.
Qed.

Lemma k_collectRealDescendants rootRel prefix handled v b : path_ok rootRel -> len rootRel <= 2 ^ 41 -> len prefix <= 2 ^ 41 ->
  0 <= mb_available b <= 2 ^ 40 -> keeps (collectRealDescendants fuel rootRel prefix handled v b) (moves_ok (mb_available b)).
Proof.
  intros Hp Hl1 Hl2 Hb. unfold collectRealDescendants. keeps_step. apply k_collect_loop; [done|].
  pose proof (satAdd_range (len rootRel) (len prefix)). constructor; cbn; try lia; try done.
  constructor; [done|constructor].
Qed.

(** What a plan of a rename says, relative to the store it was made for. *)
Definition moved (src dst old : bytes) : bytes := (dst ++ [slash]) ++ drop (length (src ++ [slash])) old.
Definition moved_real (src dst old : bytes) : bytes := (dst ++ [slash]) ++ TrimPrefix old (src ++ [slash]).

Record moves_planned (s : overlayState) (src dst : bytes) (moves : list (bytes * bytes)) (real : list plannedMove) : Prop := {
  mp_moves : exists keys, (keys = [] \/ keys = prefixKeys s (src ++ [slash])) /\ moves = map (fun key => (key, moved src dst key)) keys;
  mp_real : exists children, moves_ok (2 ^ 40) children
    /\ real = map (fun c => PlannedMove (pm_old c) (moved_real src dst (pm_old c)) (pm_entry c)) children }.

Record plan_ok (s : overlayState) (p : rename_plan) : Prop := {
  po_src : len (rp_src p) <= 2 ^ 13;
  po_dst : len (rp_dst p) <= 2 ^ 13;
  po_source : if rp_overlay p then os_get s (rp_src p) = Some (rp_source p)
              else bare (rp_source p) /\ len (oe_relative (rp_source p)) <= 2 ^ 13;
  po_moves : moves_planned s (rp_src p) (rp_dst p) (rp_moves p) (rp_real p) }.

(** Of a path below the limit of the table. *)
Lemma len_dirOp rel : len (dirOp rel) <= len rel + 1.
Proof. unfold dirOp. destruct (bool_decide _); [|lia]. pose proof (len_nonneg rel). change (len (go ".")) with 1. lia. Qed.

Lemma k_plan_moves s1 src dst srcV : (forall s, stored s -> s = s1) -> len srcV <= 4096 -> len src <= 2 ^ 13 -> len dst <= 2 ^ 13 ->
  keeps (plan_moves fuel src dst srcV) (fun r => moves_planned s1 src dst r.1 r.2).
Proof.
  intros H1 Hv Hs Hd. unfold plan_moves. eapply keeps_seq; [apply k_get_store|]. intros s Hst. rewrite (H1 s Hst).
  assert (moves_planned s1 src dst (map (fun key => (key, moved src dst key)) (prefixKeys s1 (src ++ [slash]))) []) as Hnone.
  { split; [eauto|]. exists []. split; [split; [constructor|done]|done]. }
  keeps_step. cbv zeta. eapply keeps_seq; [apply k_availableMemory|]. intros b (s' & Hst' & Hb).
  destruct (budget_range b s' Hst' Hb) as [Hr _]. keeps_step. eapply keeps_seq; [apply keeps_catch, k_resolveReal_len|].
  intros [e|target] Ht; [by apply keeps_mret|]. destruct Ht as [Ht Hlt]. keeps_step. keeps_step; [by apply keeps_mret|].
  assert (0 <= mb_available a0 <= 2 ^ 40) as Ha.
  { apply shrink_spec in H0. 
    match goal with _ : context[fold_left ?f ?l 0] |- _ => assert (0 <= fold_left f l 0) end; [|lia].
    generalize (prefixKeys s1 (src ++ [slash])) as l. intros l. destruct l as [|x l _] using rev_ind; [done|].
    rewrite fold_left_app. cbn. apply satAdd_range. }
  pose proof (len_dirOp target). eapply keeps_seq; [apply keeps_catch, k_collectRealDescendants|].
  - auto with mountfs.
  - lia.
  - rewrite len_app. change (len [slash]) with 1. lia.
  - done.
  - intros [e|children] Hc; [destruct (fatal e); [keeps|by apply keeps_mret]|]. apply keeps_mret. split; [apply Hnone|].
    exists children. split; [|done]. destruct Hc as [Hc1 Hc2]. split; [done|]. lia.
Qed.

Lemma k_real_source srcV : len srcV <= 4096 ->
  keeps (real_source srcV) (fun e => bare e /\ len (oe_relative e) <= 2 ^ 13).
Proof.
  intros Hv. unfold real_source. eapply keeps_seq; [apply k_resolveReal_len|]. intros target [Ht Hl]. pose proof (len_dirOp target).
  keeps_step. cbv zeta. keeps_step. destruct a0; [|  |keeps..].
  - eapply keeps_seq; [apply k_hostDirMtime; auto with mountfs|]. intros mt _. apply keeps_mret. split; [split; [by intros [=]|done]|done].
  - eapply keeps_seq; [apply k_fileRef; auto with mountfs|]. intros [ref|] Hr; [|keeps].
    destruct (Hr ref eq_refl) as [Hb Hrel]. apply keeps_mret. split; [done|]. rewrite Hrel. lia.
Qed.

Lemma k_plan_rename s1 srcV dstV : (forall s, stored s -> s = s1) -> len srcV <= 4096 -> len dstV <= 4096 ->
  keeps (plan_rename fuel srcV dstV) (fun p => plan_ok s1 p
    /\ resolveVirtualPath srcV (m_virtual m0) = inl (rp_src p) /\ resolveVirtualPath dstV (m_virtual m0) = inl (rp_dst p)).
Proof.
  intros H1 Hs Hd. unfold plan_rename. eapply keeps_seq; [apply k_resolve_to|]. intros src (Rsrc & Hsrc & Hls).
  eapply keeps_seq; [apply k_resolve_to|]. intros dst (Rdst & Hdst & Hld). keeps_step; [keeps|]. keeps_step; [keeps|].
  keeps_step. keeps_step. eapply (keeps_seq _ _ _ _ (fun _ => True)); [destruct a0; keeps|]. intros _ _. keeps_step.
  eapply keeps_seq; [apply k_entry_at|]. intros e (s & Hst & He). rewrite (H1 s Hst) in He.
  keeps_step; [keeps|]. eapply (keeps_seq _ _ _ _ (fun _ => True)); [destruct e; keeps|]. intros isdir _. keeps_step.
  eapply (keeps_seq _ _ _ _ (fun _ => True)); [destruct isdir; keeps|]. intros _ _.
  eapply (keeps_seq _ _ _ _ (fun r => e = Some r \/ e = None /\ bare r /\ len (oe_relative r) <= 2 ^ 13)).
  { destruct e as [e|]; [apply keeps_mret; by left|]. eapply keeps_mono; [by apply k_real_source|]. auto. }
  intros source Hsource. eapply (keeps_seq _ _ _ _ (fun r => moves_planned s1 src dst r.1 r.2)).
  { destruct isdir; [apply k_plan_moves; done || lia|]. apply keeps_mret. split; [exists []; auto|]. exists []. split; [split; [constructor|done]|done]. }
  intros [moves real] Hm. apply keeps_mret. cbn. split; [|done]. constructor; cbn; [lia|lia| |done].
  destruct Hsource as [->|(-> & ? & ?)]; [by rewrite bool_decide_eq_false_2|done].
Qed.
End reading.

#[export] Hint Resolve k_stat k_lstat k_opened k_open_root k_open_file k_fstat k_read k_close k_read_dir k_the_dir
  k_resolve_path k_hostExists k_hostIsDir k_hostIsFile k_hostIsSymlink k_hostDirMtime k_rejectNonRegular
  k_openRegular k_hostStat k_openDir k_readFileLimited k_list_names k_hostIterdir k_get_store k_entry_at
  k_classifyTarget k_walk_close k_resolveReal k_checkedRefPath k_availableMemory k_resolveRealPathState
  k_overlayIsSymlink k_overlayRead k_hostFileLen k_existingFileLen k_existingFileBytes k_classify_real
  k_rejectDirectoryTarget k_ensureParentExists k_children k_visible_loop k_visible_children k_overlayStat
  k_overlayIterdir k_rejectRenameTypeMismatch k_host_dir_at k_rejectRenameOntoNonemptyDir : mountfs.
