(* ===== verification/MountWriting.v ===== *)
(** Mounts under calls that change them, and the guarantees of a whole table:
    whatever the host answers, a call keeps every mount in order. *)

From S2P Require Import Prelude Utf8 GoStrings VPath Protowire Proto Values ValueCodec CodecSpec Exceptions.
From S2P Require Import Events MountPath Utf8Facts OverlayState MountTable HostFs Direct Overlay OverlayRename MountLogic MountSafety.

(** ** Renaming in the store *)

Section rename.
(** An entry of a store in order, with its key. *)
Record update_ok (r : bytes * overlayEntry) : Prop := {
  uo_ref : ref_ok r.2;
  uo_content : len (oe_content r.2) <= MaxUint64;
  uo_key : len r.1 <= 2 ^ 41;
  uo_relative : len (oe_relative r.2) <= 2 ^ 41 }.

Lemma store_update limit s k e : store_ok limit s -> os_entries s !! k = Some e -> update_ok (k, e).
Proof.
  intros [Hi _ Hr Hs] He. destruct (Hs k e He). constructor; cbn; [by eapply Hr|by eapply (ov_fits _ Hi)|done|done].
Qed.

Lemma deleted_update k : len k <= 2 ^ 41 -> update_ok (k, deletedEntry).
Proof. intros. constructor; cbn; [by intros [=]|done|done|done]. Qed.

(** Below the limit nothing saturates. *)
Lemma usage_exact limit s k e : limit <= 2 ^ 40 -> store_ok limit s -> os_entries s !! k = Some e ->
  old_usage s k = entry_cost (k, e) /\ entry_cost (k, e) <= 2 ^ 40.
Proof.
  intros Hl Hs He. destruct (store_update _ _ _ _ Hs He) as [_ Hc Hk Hr]. cbn in *. destruct Hs as [Hi Hu _ _].
  pose proof (old_usage_le s k Hi) as Ho. rewrite <- (ov_usage _ Hi) in Ho. unfold old_usage in *. rewrite He in *.
  revert Ho. unfold entryUsage, baseEntryUsage, entry_cost. cbn [fst snd].
  set (v := match oe_kind e with entFile => _ | entRealFileRef => _ | _ => 0 end).
  assert (0 <= v <= MaxUint64) as Hv.
  { subst v. unfold MaxUint64 in *. destruct (oe_kind e); try lia; [pose proof (len_nonneg (oe_content e))|pose proof (len_nonneg (oe_relative e))]; lia. }
  pose proof (len_nonneg k). intros Ho. unfold MaxUint64 in *.
  pose proof (sat_sum3 entryMemoryUsage (len k) overlayEntrySize v (2 ^ 40) ltac:(done) ltac:(unfold MaxUint64; lia) ltac:(done)
    Hv ltac:(lia) ltac:(unfold MaxUint64; lia)) as E.
  unfold entryMemoryUsage, overlayEntrySize in *. lia.
Qed.

Lemma entry_cost_app l1 l2 : zsum (map entry_cost (l1 ++ l2)) = zsum (map entry_cost l1) + zsum (map entry_cost l2).
Proof. by rewrite map_app, zsum_app. Qed.

Lemma zsum_le {A} (f g : A -> Z) l : (forall x, x ∈ l -> f x <= g x) -> zsum (map f l) <= zsum (map g l).
Proof.
  induction l as [|x l IH]; intros H; [done|]. cbn [map]. rewrite !zsum_cons.
  specialize (H x ltac:(by left)) as Hx. assert (zsum (map f l) <= zsum (map g l)) by (apply IH; intros; apply H; by right). lia.
Qed.

Lemma zsum_scale {A} c (f : A -> Z) l : zsum (map (fun x => c * f x) l) = c * zsum (map f l).
Proof. induction l as [|x l IH]; cbn [map]; rewrite ?zsum_cons; [cbn; lia|]. rewrite IH. lia. Qed.

Lemma cost_flat {A} (f : A -> list (bytes * overlayEntry)) l :
  zsum (map entry_cost (flat_map f l)) = zsum (map (fun x => zsum (map entry_cost (f x))) l).
Proof. induction l as [|x l IH]; [done|]. cbn [flat_map map]. by rewrite entry_cost_app, zsum_cons, IH. Qed.

Lemma filter_sum (f : bytes -> Z) (test : bytes -> bool) l : (forall x, 0 <= f x) ->
  zsum (map f (List.filter test l)) <= zsum (map f l).
Proof.
  intros Hf. induction l as [|x l IH]; [done|]. specialize (Hf x). cbn [List.filter map]. rewrite zsum_cons.
  destruct (test x); cbn [map]; rewrite ?zsum_cons; lia.
Qed.

Lemma len_slashed (d : bytes) : len (d ++ [slash]) = len d + 1.
Proof. by rewrite len_app. Qed.

Lemma len_drop {A} n (l : list A) : len (drop n l) <= len l.
Proof. unfold len. rewrite length_drop. lia. Qed.

Lemma len_trim a b : len (TrimPrefix a b) <= len a.
Proof. unfold TrimPrefix. destruct (HasPrefix a b); [apply len_drop|lia]. Qed.

Section plan.
Context (limit : Z) (s : overlayState) (p : rename_plan).
Hypothesis (Hlimit : 0 <= limit <= 2 ^ 40) (Hs : store_ok limit s) (Hp : plan_ok s p).
Let batch := rename_batch s (rp_src p) (rp_dst p) (rp_source p) (rp_moves p) (rp_real p).

Lemma source_ok : update_ok (rp_dst p, rp_source p) /\ entry_cost (rp_dst p, rp_source p) <= 2 ^ 42.
Proof.
  destruct Hp as [Hl1 Hl2 Hsrc _]. pose proof (len_nonneg (rp_src p)). destruct (rp_overlay p).
  - destruct (store_update _ _ _ _ Hs Hsrc) as [? ? ? ?]. destruct (usage_exact limit s _ _ ltac:(lia) Hs Hsrc) as [_ Hc].
    cbn in *. split; [constructor; cbn; done || lia|]. unfold entry_cost in *. cbn in *. lia.
  - destruct Hsrc as [[Hr Hc] Hrel]. split; [constructor; cbn; [done|by rewrite Hc|lia|lia]|]. unfold entry_cost. cbn.
    rewrite Hc, len_nil. destruct (oe_kind (rp_source p)); lia.
Qed.

Lemma moves_cost keys : (keys = [] \/ keys = prefixKeys s (rp_src p ++ [slash])) ->
  let upd key := [(key, deletedEntry); (moved (rp_src p) (rp_dst p) key, default deletedEntry (os_get s key))] in
  Forall update_ok (flat_map upd keys) /\ zsum (map entry_cost (flat_map upd keys)) <= 40 * 2 ^ 40.
Proof.
  intros Hk upd. pose proof (so_inv _ _ Hs) as Hi.
  assert (forall key, key ∈ keys -> exists e, os_entries s !! key = Some e) as Hstored.
  { intros key Hin. apply (ov_dom _ Hi). destruct Hk as [->| ->]; [by apply not_elem_of_nil in Hin|].
    rewrite prefix_keys_filter in Hin by apply Hi. apply list_elem_of_In, filter_In in Hin as [Hin _]. by apply list_elem_of_In. }
  assert (forall key, key ∈ keys -> Forall update_ok (upd key) /\ zsum (map entry_cost (upd key)) <= 40 * old_usage s key) as Hone.
  { intros key Hin. destruct (Hstored key Hin) as [e He]. destruct (store_update _ _ _ _ Hs He) as [U1 U2 U3 U4].
    destruct (usage_exact limit s _ _ ltac:(lia) Hs He) as [Hu Hc]. pose proof (po_dst _ _ Hp). cbn in *.
    unfold upd, os_get. rewrite He. cbn [default]. assert (len (moved (rp_src p) (rp_dst p) key) <= 2 ^ 13 + 1 + len key) as Hm.
    { unfold moved. rewrite len_app, len_slashed. pose proof (len_drop (length (rp_src p ++ [slash])) key). lia. }
    rewrite Hu. set (new := moved _ _ key) in *. unfold entry_cost in *. cbn in *.
    pose proof (len_nonneg key). pose proof (len_nonneg new). pose proof (len_nonneg (oe_content e)). pose proof (len_nonneg (oe_relative e)).
    split.
    - constructor; [by apply deleted_update|]. constructor; [|constructor]. constructor; cbn; try done. destruct (oe_kind e); lia.
    - destruct (oe_kind e); lia. }
  split.
  - apply Forall_flat_map, Forall_forall. intros key Hin. by apply Hone.
  - rewrite cost_flat. transitivity (zsum (map (fun k => 40 * old_usage s k) keys)).
    { apply zsum_le. intros key Hin. by apply Hone. }
    rewrite zsum_scale. assert (zsum (map (old_usage s) keys) <= os_total s) as Ht.
    { destruct Hk as [->| ->]; [apply zsum_nonneg, Forall_forall; intros; apply old_usage_range|]. rewrite prefix_keys_filter by apply Hi.
      apply filter_sum. intros. apply old_usage_range. }
    pose proof (so_limit _ _ Hs). rewrite (ov_usage _ Hi) in *. lia.
Qed.

Lemma real_cost children : moves_ok (2 ^ 40) children ->
  let upd c := [(pm_old c, deletedEntry); (moved_real (rp_src p) (rp_dst p) (pm_old c), pm_entry c)] in
  Forall update_ok (flat_map upd children) /\ zsum (map entry_cost (flat_map upd children)) <= 40 * 2 ^ 40.
Proof.
  intros [Hb Hsum] upd.
  assert (forall c, 0 <= move_weight c) as Hnn.
  { intros c. unfold move_weight. pose proof (len_nonneg (pm_old c)). pose proof (len_nonneg (oe_relative (pm_entry c))). lia. }
  assert (forall c, c ∈ children -> Forall update_ok (upd c) /\ zsum (map entry_cost (upd c)) <= 40 * move_weight c) as Hone.
  { intros c Hin. rewrite Forall_forall in Hb. destruct (Hb c Hin) as [Hr Hc].
    assert (move_weight c <= 2 ^ 40) as Hw.
    { etrans; [|exact Hsum]. apply list_elem_of_split in Hin as (a & b & ->). rewrite map_app, zsum_app. cbn [map]. rewrite zsum_cons.
      assert (forall l, 0 <= zsum (map move_weight l)) as Hz by (intros l; apply zsum_nonneg, Forall_forall; auto).
      pose proof (Hz a). pose proof (Hz b). lia. }
    assert (len (moved_real (rp_src p) (rp_dst p) (pm_old c)) <= 2 ^ 13 + 1 + len (pm_old c)) as Hm.
    { unfold moved_real. rewrite len_app, len_slashed. pose proof (po_dst _ _ Hp). pose proof (len_trim (pm_old c) (rp_src p ++ [slash])). lia. }
    unfold upd. set (new := moved_real _ _ _) in *. unfold move_weight, entry_cost in *. cbn in *.
    pose proof (len_nonneg (pm_old c)). pose proof (len_nonneg new). pose proof (len_nonneg (oe_relative (pm_entry c))). rewrite ?Hc, ?len_nil.
    split.
    - constructor; [apply deleted_update; lia|]. constructor; [|constructor]. constructor; cbn; [done|by rewrite Hc|lia|lia].
    - destruct (oe_kind (pm_entry c)); try change (len (@nil byte)) with 0; lia. }
  split.
  - apply Forall_flat_map, Forall_forall. intros c Hin. by apply Hone.
  - rewrite cost_flat. transitivity (zsum (map (fun c => 40 * move_weight c) children)); [apply zsum_le; intros c Hin; by apply Hone|].
    rewrite zsum_scale. lia.
Qed.

Lemma batch_ok : Forall update_ok batch /\ os_total s + zsum (map entry_cost batch) <= MaxUint64.
Proof.
  destruct source_ok as [S1 S2]. destruct Hp as [Hl1 Hl2 _ [(keys & Hk & Em) (children & Hc & Er)]].
  destruct (moves_cost keys Hk) as [M1 M2]. destruct (real_cost children Hc) as [R1 R2].
  assert (batch = [(rp_src p, deletedEntry); (rp_dst p, rp_source p)]
    ++ flat_map (fun key => [(key, deletedEntry); (moved (rp_src p) (rp_dst p) key, default deletedEntry (os_get s key))]) keys
    ++ flat_map (fun c => [(pm_old c, deletedEntry); (moved_real (rp_src p) (rp_dst p) (pm_old c), pm_entry c)]) children) as Eb.
  { unfold batch, rename_batch. rewrite Em, Er. rewrite !flat_map_concat_map, !map_map. done. }
  rewrite Eb, !Forall_app, !entry_cost_app. split.
  - split_and!; [|done|done]. constructor; [apply deleted_update; lia|]. by constructor.
  - pose proof (so_limit _ _ Hs). rewrite (ov_usage _ (so_inv _ _ Hs)) in *. cbn [map]. rewrite !zsum_cons.
    assert (entry_cost (rp_src p, deletedEntry) <= 2 ^ 20) by (unfold entry_cost; cbn; lia). cbn [map] in *. unfold MaxUint64. cbn [zsum foldr]. lia.
Qed.

(** What the moves take out of the store. *)
Lemma moves_nodup : NoDup (rp_moves p).*1 /\ rp_src p ∉ (rp_moves p).*1.
Proof.
  destruct (po_moves _ _ Hp) as [(keys & Hk & ->) _]. assert ((map (fun key => (key, moved (rp_src p) (rp_dst p) key)) keys).*1 = keys) as ->.
  { rewrite <- list_fmap_compose. apply list_fmap_id. }
  destruct Hk as [->| ->]; [split; [constructor|apply not_elem_of_nil]|]. rewrite prefix_keys_filter by apply Hs. split.
  - apply NoDup_ListNoDup, List.NoDup_filter, NoDup_ListNoDup, sorted_nodup, Hs.
  - intros Hin. apply list_elem_of_In, filter_In in Hin as [_ Hin]. unfold HasPrefix in Hin.
    apply bool_decide_eq_true, (f_equal length) in Hin. rewrite length_take, length_app in Hin. cbn in Hin. lia.
Qed.

(** The update that a plan makes. *)
Lemma rename_store : checkReplacements batch limit s = None ->
  let s' := apply_rename (rp_src p) (rp_dst p) (rp_overlay p) (rp_source p) (rp_moves p) (rp_real p) s in
  store_ok limit s' /\ os_entries s' = list_to_map (rev batch) ∪ os_entries s.
Proof.
  intros Hcheck. destruct batch_ok as [B1 B2]. destruct moves_nodup as [N1 N2].
  destruct (apply_rename_spec s (rp_src p) (rp_dst p) (rp_overlay p) (rp_source p) (rp_moves p) (rp_real p)) as (I & E & U).
  - apply Hs.
  - intros Ho. pose proof (po_source _ _ Hp) as H. by rewrite Ho in H.
  - done.
  - done.
  - eapply Forall_impl; [exact B1|]. by intros r [_ ? _ _].
  - exact B2.
  - cbv zeta. split; [|exact E]. rewrite check_replacements_exact in Hcheck.
    assert (forall k e, os_entries (apply_rename (rp_src p) (rp_dst p) (rp_overlay p) (rp_source p) (rp_moves p) (rp_real p) s) !! k = Some e ->
      update_ok (k, e)) as Hall.
    { intros k e. rewrite E. intros [He|[_ He]]%lookup_union_Some_raw; [|by eapply store_update].
      apply elem_of_list_to_map_2 in He. rewrite Forall_forall in B1. apply B1. apply list_elem_of_In in He. rewrite <- in_rev in He.
      by apply list_elem_of_In. }
    constructor; [done| |intros k e He; apply (uo_ref _ (Hall k e He))|intros k e He; by destruct (Hall k e He)].
    rewrite U. unfold inserts. fold batch. by destruct (Z.ltb_spec limit (os_usage (fold_left (fun s r => insertUnchecked r.1 r.2 s) batch s))).
Qed.
End plan.
End rename.

(** ** Stores under inserts and appends *)

Section stores.
Context (limit : Z) (s : overlayState).
Hypothesis (Hlimit : 0 <= limit <= 2 ^ 40) (Hs : store_ok limit s).

Lemma insert_store k e : len k <= 2 ^ 41 -> len (oe_relative e) <= 2 ^ 41 -> len (oe_content e) < 2 ^ 63 -> ref_ok e ->
  store_ok limit (os_insert k e limit s).2.
Proof.
  intros Hk Hr Hc He. pose proof (insert_cases s k e limit (so_inv _ _ Hs) ltac:(unfold MaxUint64; lia) Hc) as H.
  unfold os_insert in *. destruct (limit <? _); [done|]. cbn [snd]. destruct H as (H1 & H2 & _).
  constructor; [done|done|..]; intros k' e'; cbn [set_usage os_put os_entries]; destruct (decide (k' = k)) as [->|Hne];
    rewrite ?lookup_insert_eq, ?lookup_insert_ne by done; [by intros [= <-]| |by intros [= <-]|]; apply Hs.
Qed.

Lemma append_store k data mt : len data < 2 ^ 63 -> store_ok limit (appendFile k data mt limit s).2.
Proof.
  intros Hd. pose proof (append_cases s k data mt limit (so_inv _ _ Hs) ltac:(unfold MaxUint64; lia) Hd) as H.
  unfold appendFile in *. destruct (os_entries s !! k) as [[[| | |] c mt0 rel size]|] eqn:E; try done.
  destruct (limit <? _); [done|]. cbn [snd]. destruct H as (H1 & H2 & H3 & _).
  destruct (so_sizes _ _ Hs _ _ E) as [E1 E2]. cbn in E2.
  constructor; [done|done|..]; intros k' e'; cbn [os_entries]; destruct (decide (k' = k)) as [->|Hne];
    rewrite ?lookup_insert_eq, ?lookup_insert_ne by done; [by intros [= <-]; intros [=]| |by intros [= <-]|]; apply Hs.
Qed.
End stores.

(** ** Changing a mount *)

Section writing.
Context `{HO : Host} `{!HostNames HO} (fuel : nat) (m0 : mount) (P : mount -> Prop) (w : bool).
Hypothesis P_ok : forall m, P m -> mount_ok m0 m.
Hypothesis P_store : forall m s, P m -> store_ok (m_memory_limit m0) s -> P (set_overlay s m).
Hypothesis overlay0 : m_mode m0 = Overlay.
Abbreviation keeps := (keeps P (good w)).

Lemma k_put_store s : store_ok (m_memory_limit m0) s -> keeps (put_store s) (fun _ => True).
Proof. intros Hs. unfold put_store. eapply keeps_seq; [apply keeps_get_mount|]. intros m Hm. apply keeps_put. by apply P_store. Qed.

Lemma k_insert_entry k e : len k <= 2 ^ 41 -> len (oe_relative e) <= 2 ^ 41 -> len (oe_content e) < 2 ^ 63 -> ref_ok e ->
  keeps (insert_entry k e) (fun _ => True).
Proof.
  intros Hk Hr Hc He. unfold insert_entry. eapply keeps_seq; [by apply (k_get_store m0)|]. intros s Hs.
  eapply keeps_seq; [apply keeps_get_mount|]. intros m Hm. rewrite (mo_mlimit _ _ (P_ok m Hm)).
  pose proof (insert_store (m_memory_limit m0) s (memory0 m0 P P_ok m Hm) (stored_ok m0 P P_ok overlay0 s Hs) k e Hk Hr Hc He) as H.
  destruct (os_insert _ _ _ _) as [err s']. eapply keeps_seq; [by apply k_put_store|]. keeps.
Qed.
#[local] Hint Resolve k_put_store k_insert_entry : mountfs.

Lemma extend_len current c : len (extend current c) <= len current + 1 + len c.
Proof.
  unfold extend. rewrite len_app. pose proof (len_nonneg current). destruct (bool_decide _); [change (len (@nil byte)) with 0; lia|].
  rewrite len_slashed. lia.
Qed.

Lemma k_make k : len k <= 2 ^ 41 -> keeps (now ← currentTimestamp; insert_entry k (directoryEntry now)) (fun _ => True).
Proof. intros Hk. keeps_step. apply k_insert_entry; done. Qed.

Lemma k_createOverlayParents rel : clean rel -> len rel <= 2 ^ 13 -> keeps (createOverlayParents rel) (fun _ => True).
Proof.
  intros Hc Hl. unfold createOverlayParents. keeps_step. keeps_step. cbv zeta.
  apply (k_walk P w (fun rest current => len current + segs_len rest <= 2 ^ 14)).
  - intros current c rest t Hi. change (c :: rest) with ([c] ++ rest) in Hi. rewrite segs_len_app in Hi.
    pose proof (extend_len current c). pose proof (segs_len_nonneg rest).
    assert (segs_len [c] = 1 + len c) as Hone by (unfold segs_len; cbn; lia).
    assert (len (extend current c) + segs_len rest <= 2 ^ 14) as Hi' by lia. pose proof (len_nonneg (extend current c)).
    keeps_step. destruct a1 as [entry|]; [destruct (oe_kind entry)|destruct t]; try (by apply keeps_mret); try (by apply keeps_failing);
      (eapply keeps_seq; [apply k_make; lia|intros _ _; by apply keeps_mret]).
  - rewrite len_split. change (len (@nil byte)) with 0. lia.
  - by apply components_ok.
Qed.

(** Paths no longer than the table lets through. *)
Lemma k_resolve v : len v <= 4096 -> keeps (resolve_path v) (fun rel => clean rel /\ len rel <= 2 ^ 13).
Proof. intros Hv. eapply keeps_mono; [by eapply k_resolve_len|]. intros rel [? ?]. split; [done|lia]. Qed.

Lemma k_delete rel : len rel <= 2 ^ 13 -> keeps (insert_entry rel deletedEntry) (fun _ => True).
Proof. intros Hl. apply k_insert_entry; cbn; [lia|done|done|by intros [=]]. Qed.
#[local] Hint Resolve k_createOverlayParents k_delete : mountfs.

Section path.
Context (rel vpath : bytes) (Hclean : clean rel) (Hlen : len rel <= 2 ^ 13).

Lemma k_overlayMkdir parents existOK : keeps (overlayMkdir rel parents existOK vpath) (fun _ => True).
Proof.
  unfold overlayMkdir. keeps_step. cbv zeta.
  match goal with |- context[mbind ?f (if parents then ?x else ?y)] => assert (keeps (mbind f (if parents then x else y)) (fun _ => True)) as Hmake end.
  { eapply (keeps_seq _ _ _ _ (fun _ => True)); [destruct parents; keeps|]. intros _ _. apply k_make. lia. }
  destruct a as [entry|]; [destruct (oe_kind entry)|keeps_step; destruct a]; try exact Hmake; keeps.
Qed.

Lemma k_overlayUnlink : keeps (overlayUnlink rel vpath) (fun _ => True).
Proof. unfold overlayUnlink. keeps. Qed.

Lemma k_overlayRmdir : keeps (overlayRmdir fuel rel vpath) (fun _ => True).
Proof.
  unfold overlayRmdir. keeps_step; [keeps|]. keeps_step. destruct a as [entry|]; [keeps|].
  do 4 keeps_step. keeps_step; [keeps|]. keeps_step.
  eapply (keeps_seq _ _ _ _ (fun _ => True)); [destruct a3; keeps|]. keeps.
Qed.
End path.

Lemma k_ensureAppendTargetExists v : len v <= 4096 -> keeps (ensureAppendTargetExists v) (fun _ => True).
Proof.
  intros Hv. unfold ensureAppendTargetExists. eapply keeps_seq; [by apply k_resolve|]. intros rel [Hc Hl]. cbv zeta.
  match goal with |- context[mbind ?f (ensureParentExists rel v)] => assert (keeps (mbind f (ensureParentExists rel v)) (fun _ => True)) as Hmake end.
  { keeps_step. keeps_step. apply k_insert_entry; cbn; [lia|done|done|by intros [=]]. }
  keeps_step. destruct a as [entry|]; [destruct (oe_kind entry)|keeps_step; destruct a]; try exact Hmake; keeps.
Qed.
#[local] Hint Resolve k_overlayMkdir k_overlayUnlink k_overlayRmdir k_ensureAppendTargetExists : mountfs.
End writing.

(** ** Counting the bytes written

    Between the check of the write limit and the commit of what was checked, the
    count does not change. *)

(** [ends P Q G m V]: from [P], [m] ends in [Q]. *)
Definition ends `{HO : Host} (P Q : mount -> Prop) (G : hcall -> Prop) {A} (m : X A) (V : A -> Prop) : Prop :=
  forall s, P (st_mount s) -> let '(r, s') := m s in Q (st_mount s') /\ good_log G s s' /\ post V r.

Section counting.
Context `{HO : Host} `{!HostNames HO} (fuel : nat) (m0 : mount) (w : bool).
Abbreviation keeps := (keeps (mount_ok m0) (good w)).

(** A mount of [m0] that has written [u] bytes. *)
Definition counted (u : Z) (m : mount) : Prop := mount_ok m0 m /\ m_write_used m = u.

Lemma counted_ok u m : counted u m -> mount_ok m0 m.
Proof. by intros []. Qed.

Lemma mount_store m s : mount_ok m0 m -> store_ok (m_memory_limit m0) s -> mount_ok m0 (set_overlay s m).
Proof.
  intros [A1 A2 A3 A4 A5 A6 A7 A8 A9] Hs. constructor; cbn; try done. intros _. exists s. split; [done|]. by rewrite A5.
Qed.

Lemma counted_store u m s : counted u m -> store_ok (m_memory_limit m0) s -> counted u (set_overlay s m).
Proof. intros [Hm Hu] Hs. split; [by apply mount_store|done]. Qed.

Lemma ends_start {A} (m : X A) V : (forall u, ends (counted u) (mount_ok m0) (good w) m V) -> keeps m V.
Proof. intros H s Hs. by apply (H (m_write_used (st_mount s))). Qed.

Lemma ends_bind {A B} u (m : X A) (f : A -> X B) V W : MountLogic.keeps (counted u) (good w) m V ->
  (forall a, V a -> ends (counted u) (mount_ok m0) (good w) (f a) W) -> ends (counted u) (mount_ok m0) (good w) (m ≫= f) W.
Proof.
  intros Hm Hf s Hs. specialize (Hm s Hs). unfold mbind, X_bind.
  destruct (m s) as [[a|e| |] s1]; destruct Hm as (H1 & H2 & H3); try (split_and!; [apply H1|done|done]).
  specialize (Hf a H3 s1 H1). destruct (f a s1) as [r s2]. destruct Hf as (H4 & H5 & H6). split_and!; [done|by etrans|done].
Qed.

Lemma ends_keeps {A} u (m : X A) V : MountLogic.keeps (counted u) (good w) m V -> ends (counted u) (mount_ok m0) (good w) m V.
Proof. intros H s Hs. specialize (H s Hs). destruct (m s). destruct H as ([? _] & ? & ?). by split_and!. Qed.

(** What the check of the limit has let through. *)
Definition allowed (u n : Z) : Prop := forall l, m_write_limit m0 = Some l -> satAdd u n <= l.

Lemma k_check_write u n : MountLogic.keeps (counted u) (good w) (check_write n) (fun _ => allowed u n).
Proof.
  unfold check_write. eapply keeps_seq; [apply keeps_get_mount|]. intros m [Hm Hu]. eapply keeps_mono; [apply keeps_check|].
  intros ? Hc l Hl. unfold checkWriteLimit in Hc. rewrite (mo_wlimit _ _ Hm), Hl, Hu in Hc. destruct (Z.ltb_spec l (satAdd u n)); [done|lia].
Qed.

Lemma ends_commit u n : allowed u n -> ends (counted u) (mount_ok m0) (good w) (commit_write n) (fun _ => True).
Proof.
  intros Hn s [Hm Hu]. cbn. split_and!; [|by exists []; rewrite app_nil_r|done].
  unfold commitWriteBytes. destruct (m_write_limit (st_mount s)) as [l|] eqn:El; [|done].
  destruct Hm as [A1 A2 A3 A4 A5 A6 A7 A8 A9]. constructor; cbn; try done; [by rewrite <- El|]. intros l' [= <-]. rewrite Hu.
  destruct (A8 l El) as [_ Hl]. pose proof (satAdd_range u n). rewrite A4 in El. specialize (Hn l El). lia.
Qed.

Lemma ends_then {A B} u (m : X A) (f : A -> X B) V W : ends (counted u) (mount_ok m0) (good w) m V ->
  (forall a, V a -> keeps (f a) W) -> ends (counted u) (mount_ok m0) (good w) (m ≫= f) W.
Proof.
  intros Hm Hf s Hs. specialize (Hm s Hs). unfold mbind, X_bind.
  destruct (m s) as [[a|e| |] s1]; destruct Hm as (H1 & H2 & H3); try (by split_and!).
  specialize (Hf a H3 s1 H1). destruct (f a s1) as [r s2]. destruct Hf as (H4 & H5 & H6). split_and!; [done|by etrans|done].
Qed.

Hypothesis overlay0 : m_mode m0 = Overlay.

Lemma k_overlayWrite v data result : len v <= 4096 -> len data < 2 ^ 62 -> keeps (overlayWrite v data result) (fun r => r = VInt KInt64 result).
Proof.
  intros Hv Hd. unfold overlayWrite. cbv zeta. apply ends_start. intros u. pose proof (counted_ok u) as C1. pose proof (counted_store u) as C2.
  eapply ends_bind; [apply k_check_write|]. intros [] Hal. cbn beta in Hal.
  eapply ends_bind; [by eapply k_resolve|]. intros rel [Hc Hl].
  do 2 (eapply ends_bind; [keeps_known|]; intros _ _). eapply ends_bind; [keeps_known|]. intros s Hs.
  eapply ends_bind; [apply keeps_get_mount|]. intros m Hm. eapply ends_bind; [eapply keeps_any, keeps_check|]. intros _ _.
  eapply ends_bind; [apply keeps_now|]. intros now _.
  eapply ends_bind; [eapply k_insert_entry; cbn; [done..|lia|done|lia|by intros [=]]|]. intros _ _.
  eapply ends_then; [by apply ends_commit|]. intros _ _. by apply keeps_mret.
Qed.

Lemma k_overlayAppend v data : len v <= 4096 -> len data < 2 ^ 62 -> keeps (overlayAppend fuel v data) (fun _ => True).
Proof.
  intros Hv Hd. unfold overlayAppend. apply ends_start. intros u. pose proof (counted_ok u) as C1. pose proof (counted_store u) as C2.
  eapply ends_bind; [by eapply k_resolve|]. intros rel [Hc Hl].
  do 2 (eapply ends_bind; [keeps_known|]; intros _ _). eapply ends_bind; [keeps_known|]. intros current _. cbv zeta.
  eapply ends_bind; [by eapply k_existingFileLen|]. intros n Hn.
  eapply ends_bind; [apply keeps_get_mount|]. intros m Hm. set (charged := if _ && _ then _ else _).
  eapply ends_bind; [apply k_check_write|]. intros [] Hal. cbn beta in Hal.
  eapply ends_bind; [apply keeps_now|]. intros now _.
  eapply ends_bind; [by eapply k_get_store|]. intros s Hs. pose proof (memory0 m0 _ C1 m Hm) as Hmem.
  pose proof (append_store (m_memory_limit m0) s Hmem (stored_ok m0 _ C1 overlay0 s Hs) rel data now ltac:(lia)) as Happ.
  rewrite (mo_mlimit _ _ (C1 m Hm)). destruct (appendFile _ _ _ _ _) as [r s'].
  eapply (ends_bind _ _ _ (fun _ => True)); [by apply keeps_lift|]. intros appended _.
  eapply ends_bind; [by eapply k_put_store|]. intros _ _.
  eapply (ends_bind _ _ _ (fun _ => True)); [|intros ? _; by apply ends_commit]. destruct appended; [by apply keeps_mret|].
  keeps_step. eapply keeps_seq; [eapply keeps_any, keeps_check|]. intros _ _.
  eapply keeps_seq; [by eapply k_availableMemory|]. intros b (s2 & Hs2 & Hb). destruct (budget_range m0 _ C1 overlay0 b s2 Hs2 Hb) as [Hr _].
  eapply keeps_seq; [eapply keeps_any, keeps_check|]. intros _ _. keeps_step. apply shrink_spec in H0 as [S1 S2]. pose proof (len_nonneg data).
  eapply keeps_seq; [eapply k_existingFileBytes; [done..|unfold MaxUint64; lia]|]. intros content Hcontent. cbn beta in Hcontent.
  keeps_step. eapply k_insert_entry; cbn; [done..|lia|done|rewrite len_app; lia|by intros [=]].
Qed.
#[local] Hint Resolve k_overlayWrite k_overlayAppend : mountfs.

(** The store only changes at the end of a rename, to what was checked. *)
Lemma k_overlayRename v dst : len v <= 4096 -> len dst <= 4096 -> keeps (overlayRename fuel v dst) (fun _ => True).
Proof.
  intros Hv Hdst s Hs. destruct (mo_store _ _ Hs) as (s1 & Es1 & Hs1); [by rewrite (mo_mode _ _ Hs)|].
  rewrite (mo_mlimit _ _ Hs) in Hs1. pose proof (mo_memory _ _ Hs) as Hmem. rewrite (mo_mlimit _ _ Hs) in Hmem.
  pose proof (k_plan_rename fuel m0 (fun m => m = st_mount s) w) as Hplan.
  specialize (Hplan ltac:(by intros m ->) overlay0 s1 v dst ltac:(intros ? (? & -> & ?); congruence) Hv Hdst s eq_refl).
  unfold overlayRename, mbind, X_bind. destruct (plan_rename fuel v dst s) as [[p|e| |] s2]; destruct Hplan as (E2 & HG & Hp);
    try (split_and!; [by rewrite E2|done|done]). destruct Hp as [Hp _].
  unfold get_store, get_mount, mbind, X_bind. rewrite E2, Es1. cbn [mret X_ret].
  set (batch := rename_batch s1 _ _ _ _ _). destruct (checkReplacements batch _ s1) eqn:Ec; cbn; [split_and!; [by rewrite E2|exact HG|exact I]|].
  rewrite E2 in *. rewrite (mo_mlimit _ _ Hs) in Ec.
  destruct (rename_store (m_memory_limit m0) s1 p Hmem Hs1 Hp Ec) as [Hs' _].
  split_and!; [cbn; rewrite E2; by apply mount_store|done|done].
Qed.
#[local] Hint Resolve k_overlayRename : mountfs.

Lemma mount_P : forall m, mount_ok m0 m -> mount_ok m0 m.
Proof. done. Qed.

Lemma k_overlayOpen v mode : len v <= 4096 -> mode <> [] -> keeps (overlayOpen v mode) (fun r => exists f, r = VFileHandlePtr f).
Proof.
  intros Hv Hm. unfold overlayOpen. pose proof mount_P as C1. pose proof mount_store as C2.
  eapply (keeps_seq _ _ _ _ (fun _ => True)); [|intros _ _; apply keeps_mret; eauto]. destruct mode as [|c mode]; [done|].
  keeps_step; [keeps|]. keeps_step.
  - eapply keeps_seq; [by apply k_overlayWrite|]. keeps.
  - keeps_step; [by eapply k_ensureAppendTargetExists|keeps].
Qed.

(** What a call may answer with: contents within the memory limit. *)
Definition answer_ok (v : value) : Prop :=
  match v with VBytes c | VStr c => len c <= m_memory_limit m0 | _ => True end.

(** A call within what the table lets through and Go strings can hold. *)
Record call_fits (call : oscall) (mode : bytes) : Prop := {
  cf_path : len (oc_path call) <= 4096;
  cf_dst : oc_op call = OpRename -> len (oc_dst call) <= 4096;
  cf_text : len (oc_text call) < 2 ^ 62;
  cf_data : len (oc_data call) < 2 ^ 62;
  cf_mode : oc_op call = OpOpen -> mode <> [] }.

Lemma no_content_answer v : no_content v -> answer_ok v.
Proof. by destruct v. Qed.

Lemma answer_unit (m : X ()) : keeps m (fun _ => True) -> keeps (unit_result m) answer_ok.
Proof. intros H. eapply keeps_seq; [exact H|]. intros _ _. by apply keeps_mret. Qed.

Lemma utf8_same c t : bytesToUTF8 c = inl t -> t = c.
Proof. unfold bytesToUTF8. destruct (utf8Check c) as [[start n] []]; [by intros [= <-]|done]. Qed.

Lemma k_overlay_execute call mode : call_fits call mode -> keeps (overlay_execute fuel call mode) answer_ok.
Proof.
  intros [Hp Hdst Ht Hd Hmode]. unfold overlay_execute. cbv zeta. pose proof mount_P as C1. pose proof mount_store as C2.
  keeps_step; [by apply keeps_mret|].
  do 2 (keeps_step; [eapply keeps_mono; [by apply k_overlayWrite|]; by intros ? ->|]).
  do 2 (keeps_step; [eapply keeps_seq; [by apply k_overlayAppend|]; intros _ _; by apply keeps_mret|]).
  keeps_step; [apply answer_unit, k_overlayRename; [done|by apply Hdst, Z.eqb_eq]|].
  keeps_step; [eapply keeps_mono; [apply k_overlayOpen; [done|by apply Hmode, Z.eqb_eq]|]; by intros ? [f ->]|].
  eapply keeps_seq; [by eapply k_resolve|]. intros rel [Hc Hl].
  assert (forall by_kind q, (forall d p, path_ok p -> keeps (q d p) (fun _ => True)) ->
    keeps (overlayPredicate rel (oc_path call) by_kind q) answer_ok) as Hpred.
  { intros by_kind q Hq. eapply keeps_seq; [by eapply k_entry_at|]. intros [e|] _; [by apply keeps_mret|].
    keeps_step. destruct a; [|by apply keeps_mret]. keeps_step. eapply keeps_seq; [apply Hq; auto|]. intros b _. by apply keeps_mret. }
  do 3 (keeps_step; [apply Hpred; intros; keeps|]).
  keeps_step; [keeps_step; by apply keeps_mret|].
  keeps_step; [eapply keeps_seq; [by eapply k_overlayRead|]; intros c Hlen; keeps_step;
    match goal with H : bytesToUTF8 _ = inl _ |- _ => apply utf8_same in H as -> end; by apply keeps_mret|].
  keeps_step; [eapply keeps_seq; [by eapply k_overlayRead|]; intros c Hlen; by apply keeps_mret|].
  keeps_step; [apply answer_unit; by eapply k_overlayMkdir|].
  keeps_step; [apply answer_unit; by eapply k_overlayUnlink|].
  keeps_step; [apply answer_unit; by eapply k_overlayRmdir|].
  keeps_step; [eapply keeps_mono; [by eapply k_overlayIterdir|apply no_content_answer]|].
  keeps_step; [eapply keeps_mono; [by eapply k_overlayStat|apply no_content_answer]|by apply keeps_mret].
Qed.
End counting.

(** ** Read-only and read-write mounts *)

Section direct.
Context `{HO : Host} `{!HostNames HO} (fuel : nat) (m0 : mount) (w : bool).
Abbreviation keeps := (keeps (mount_ok m0) (good w)).

Section host_writes.
Variables (P : mount -> Prop) (writes : w = true).
Abbreviation keepsP := (MountLogic.keeps P (good w)).

Ltac good := split; [cbn; repeat (apply Forall_cons_2; [assumption|]); apply Forall_nil_2|by intros _].

Lemma k_fwrite f data : keepsP (fwrite f data) (fun _ => True).
Proof. apply keeps_asking; [good|done]. Qed.
Lemma k_mkdir d p : path_ok p -> keepsP (mkdir d p) (fun _ => True).
Proof. intros. apply keeps_asking; [good|done]. Qed.
Lemma k_remove d p : path_ok p -> keepsP (remove d p) (fun _ => True).
Proof. intros. apply keeps_asking; [good|done]. Qed.
Lemma k_rename d p q : path_ok p -> path_ok q -> keepsP (rename d p q) (fun _ => True).
Proof. intros. apply keeps_asking; [good|done]. Qed.
#[local] Hint Resolve k_fwrite k_mkdir k_remove k_rename : mountfs.

Lemma k_writeWithFlags d p data v flag : path_ok p -> keepsP (writeWithFlags d p data v flag) (fun _ => True).
Proof.
  intros Hp. unfold writeWithFlags. keeps_step. eapply keeps_seq; [by apply k_openRegular|]. intros f _.
  eapply keeps_deferring; [keeps_known|]. keeps.
Qed.

Lemma k_create_dirs n d p : path_ok p -> keepsP (create_dirs n d p) (fun _ => True).
Proof.
  revert p. induction n as [|n IH]; intros p Hp; cbn [create_dirs]; [keeps|]. keeps_step; [keeps|]. keeps_step. destruct a; [|keeps].
  keeps_step; [keeps|]. eapply keeps_seq; [apply IH; auto with mountfs|]. keeps.
Qed.

Lemma k_hostMkdir d p parents existOK v : path_ok p -> keepsP (hostMkdir d p parents existOK v) (fun _ => True).
Proof.
  intros Hp. unfold hostMkdir. cbv zeta.
  assert (forall err, keepsP match err with
    | None => mret tt
    | Some err =>
      d ← (if negb (isPathEscape err) && match ioKindOf err with ioAlreadyExists => true | _ => false end && existOK then hostIsDir d p else mret false);
      if d : bool then mret tt else fail (mapIO err v)
    end (fun _ => True)) as Hfin.
  { intros [err|]; [|keeps]. eapply (keeps_seq _ _ _ _ (fun _ => True)); [keeps|]. keeps. }
  destruct parents.
  - keeps_step. destruct a; [|keeps]. eapply keeps_seq; [by apply k_create_dirs|]. intros err _. apply Hfin.
  - eapply keeps_seq; [by apply k_mkdir|]. intros err _. apply Hfin.
Qed.

Lemma k_hostUnlink d p v : path_ok p -> keepsP (hostUnlink d p v) (fun _ => True).
Proof. intros Hp. unfold hostUnlink. keeps. Qed.
Lemma k_hostRmdir d p v : path_ok p -> keepsP (hostRmdir d p v) (fun _ => True).
Proof. intros Hp. unfold hostRmdir. keeps. Qed.
End host_writes.

Lemma k_directWrite v data result app : w = true -> keeps (directWrite v data result app) (fun r => r = VInt KInt64 result).
Proof.
  intros Hw. unfold directWrite. cbv zeta. apply ends_start. intros u. pose proof (counted_ok m0 u) as C1.
  eapply ends_bind; [apply k_check_write|]. intros [] Hal. cbn beta in Hal. eapply ends_bind; [by eapply k_resolve_path|]. intros rel Hc.
  eapply ends_bind; [keeps_known|]. intros d _.
  eapply (ends_bind _ _ _ _ _ (fun _ => True)); [destruct app; apply k_writeWithFlags; auto with mountfs|]. intros _ _.
  eapply ends_then; [by apply ends_commit|]. intros _ _. by apply keeps_mret.
Qed.

Lemma k_directRename v dst : w = true -> keeps (directRename v dst) (fun r => r = VNil).
Proof.
  intros Hw. unfold directRename. pose proof (mount_P m0) as C1. do 2 keeps_step. do 2 (keeps_step; [keeps|]). keeps_step.
  eapply keeps_seq; [apply k_rename; auto with mountfs|]. intros err _. destruct err; [keeps|]. by apply keeps_mret.
Qed.

Lemma k_directOpen v mode : mode <> [] -> (ModeCreates mode = true -> w = true) ->
  keeps (directOpen v mode) (fun r => exists f, r = VFileHandlePtr f).
Proof.
  intros Hm Hw. unfold directOpen. pose proof (mount_P m0) as C1. keeps_step. keeps_step. cbv zeta.
  eapply (keeps_seq _ _ _ _ (fun _ => True)); [|intros _ _; apply keeps_mret; eauto].
  destruct mode as [|c mode]; [done|]. keeps_step; [keeps|]. cbn [ModeCreates] in Hw.
  destruct (Byte.eqb c "w") eqn:Ew; [|destruct (Byte.eqb c "a") eqn:Ea; [|keeps]].
  - apply Byte.byte_dec_bl in Ew. subst c. specialize (Hw eq_refl). apply ends_start. intros u. pose proof (counted_ok m0 u) as C2.
    eapply ends_bind; [apply k_check_write|]. intros [] Hal. cbn beta in Hal.
    eapply ends_bind; [apply k_writeWithFlags; auto with mountfs|]. intros _ _. by apply ends_commit.
  - apply Byte.byte_dec_bl in Ea. subst c. specialize (Hw eq_refl). apply k_writeWithFlags; auto with mountfs.
Qed.

Lemma k_boolQuery v q : (forall d p, path_ok p -> keeps (q d p) (fun _ => True)) -> keeps (boolQuery v q) (answer_ok m0).
Proof.
  intros Hq. unfold boolQuery. pose proof (mount_P m0) as C1. keeps_step. keeps_step. eapply keeps_seq; [apply Hq; auto with mountfs|].
  intros b _. by apply keeps_mret.
Qed.

Ltac permit := assert (w = true) by (match goal with Hw : isWriteCall ?c _ = true -> _ |- _ =>
  apply Hw; unfold isWriteCall, IsWrite; match goal with E : (oc_op c =? _) = true |- _ => apply Z.eqb_eq in E; rewrite E end; reflexivity end).

(** Calls that write need the permission to. *)
Lemma k_direct_execute call mode : call_fits call mode -> (isWriteCall call mode = true -> w = true) ->
  keeps (direct_execute fuel call mode) (answer_ok m0).
Proof.
  intros [Hp Hdst Ht Hd Hmode] Hw. unfold direct_execute. cbv zeta. pose proof (mount_P m0) as C1.
  do 4 (keeps_step; [apply k_boolQuery; intros; keeps|]).
  keeps_step; [by apply keeps_mret|].
  do 4 (keeps_step; [permit; eapply keeps_mono; [by apply k_directWrite|]; by intros ? ->|]).
  keeps_step; [permit; eapply keeps_mono; [by apply k_directRename|]; by intros ? ->|].
  keeps_step.
  { eapply keeps_mono; [apply k_directOpen; [by apply Hmode, Z.eqb_eq|]|by intros ? [f ->]].
    intros Hc. apply Hw. unfold isWriteCall. by rewrite Heqb9. }
  keeps_step. assert (0 <= mb_available (fullBudget (m_memory_limit a)) < MaxUint64 /\ m_memory_limit a = m_memory_limit m0) as [Hb Hlim].
  { pose proof (mo_memory _ _ H). split; [cbn; unfold MaxUint64; lia|by apply mo_mlimit]. }
  keeps_step.
  assert (forall d v, keeps (readFileLimited fuel d (dirOp a0) v (fullBudget (m_memory_limit a))) (fun c => len c <= m_memory_limit m0)) as Hread.
  { intros d v. eapply keeps_mono; [apply k_readFileLimited; [auto with mountfs|done]|]. intros c. cbn. by rewrite Hlim. }
  keeps_step; [eapply keeps_seq; [apply Hread|]; intros c Hlen; keeps_step;
    match goal with H : bytesToUTF8 _ = inl _ |- _ => apply utf8_same in H as -> end; by apply keeps_mret|].
  keeps_step; [eapply keeps_seq; [apply Hread|]; intros c Hlen; by apply keeps_mret|].
  keeps_step; [permit; apply answer_unit, k_hostMkdir; auto with mountfs|].
  keeps_step; [permit; apply answer_unit, k_hostUnlink; auto with mountfs|].
  keeps_step; [permit; keeps_step; [keeps|apply answer_unit, k_hostRmdir; auto with mountfs]|].
  keeps_step; [eapply keeps_mono; [apply k_hostIterdir; auto with mountfs|apply no_content_answer]|].
  keeps_step; [eapply keeps_mono; [apply k_hostStat; auto with mountfs|apply no_content_answer]|by apply keeps_mret].
Qed.
End direct.
