(* ===== verification/TreeHost.v ===== *)
(** A host held in a map: the files and directories below a few descriptors.

    An instance of the class [Host] on which the programs of Direct.v and
    Overlay.v can be run. Its symbolic links lead out of the directory. *)

From S2P Require Import Prelude Utf8 GoStrings VPath Protowire Proto Values ValueCodec CodecSpec Exceptions.
From S2P Require Import Events MountPath Utf8Facts OverlayState MountTable HostFs Direct Overlay OverlayRename MountLogic MountSafety.

Inductive tnode := TDir | TFile (content : bytes) | TLink.

(** What a descriptor stands for: a path, and how far it has been read. *)
Record tfd := TFd { tf_path : bytes; tf_offset : nat; tf_listed : bool }.

(** Paths are relative to the root of the tree, whose path is empty. *)
Record tree := Tree { tr_nodes : gmap bytes tnode; tr_fds : gmap Z tfd; tr_next : Z }.

Definition errno (text : string) (n : Z) : oserr := [ErrLayer (go text) (Some n)].
Definition enoent : oserr := errno "no such file or directory" ENOENT.
Definition eexist : oserr := errno "file exists" EEXIST.
Definition enotdir : oserr := errno "not a directory" ENOTDIR.
Definition eisdir : oserr := errno "is a directory" EISDIR.
Definition enotempty : oserr := errno "directory not empty" ENOTEMPTY.
Definition ebadf : oserr := errno "bad file descriptor" 9.
Definition escape : oserr := [ErrLayer pathEscapesText None].

Definition node_at (p : bytes) (t : tree) : option tnode := if bool_decide (p = []) then Some TDir else tr_nodes t !! p.

(** The path of [rel] below a descriptor. *)
Definition below (d : Z) (rel : bytes) (t : tree) : option bytes :=
  fd ← tr_fds t !! d;
  Some (if bool_decide (rel = go ".") || bool_decide (rel = []) then tf_path fd
        else if bool_decide (tf_path fd = []) then rel else tf_path fd ++ [slash] ++ rel).

Definition info (n : tnode) : fileinfo :=
  match n with TDir => FileInfo FDir 4096 7 | TFile c => FileInfo FRegular (len c) 7 | TLink => FileInfo FSymlink 4 7 end.

Definition at_path {A} (d : Z) (rel : bytes) (t : tree) (f : bytes -> option tnode -> oserr + A) : oserr + A :=
  match below d rel t with None => inl ebadf | Some p => f p (node_at p t) end.

Definition tlstat (d : Z) (rel : bytes) (t : tree) : oserr + fileinfo :=
  at_path d rel t (fun _ n => match n with None => inl enoent | Some n => inr (info n) end).
Definition tstat (d : Z) (rel : bytes) (t : tree) : oserr + fileinfo :=
  at_path d rel t (fun _ n => match n with None => inl enoent | Some TLink => inl escape | Some n => inr (info n) end).

Definition set_node (p : bytes) (n : tnode) (t : tree) : tree := Tree (<[p := n]> (tr_nodes t)) (tr_fds t) (tr_next t).
Definition del_node (p : bytes) (t : tree) : tree := Tree (delete p (tr_nodes t)) (tr_fds t) (tr_next t).
Definition set_fd (d : Z) (fd : tfd) (t : tree) : tree := Tree (tr_nodes t) (<[d := fd]> (tr_fds t)) (tr_next t).
Definition new_fd (p : bytes) (t : tree) : (oserr + Z) * tree :=
  (inr (tr_next t), Tree (tr_nodes t) (<[tr_next t := TFd p O false]> (tr_fds t)) (tr_next t + 1)).

Definition parent_is_dir (p : bytes) (t : tree) : bool :=
  match node_at (before_slash p) t with Some TDir => true | _ => false end.

Definition topen_root (d : Z) (rel : bytes) (t : tree) : (oserr + Z) * tree :=
  match at_path d rel t (fun p n => match n with None => inl enoent | Some TDir => inr p | Some TLink => inl escape | Some _ => inl enotdir end) with
  | inl e => (inl e, t)
  | inr p => new_fd p t
  end.

Definition topen (d : Z) (rel : bytes) (flag : openflag) (t : tree) : (oserr + Z) * tree :=
  match at_path d rel t (fun p n => inr (p, n)) with
  | inl e => (inl e, t)
  | inr (p, n) =>
    match n, flag with
    | Some TLink, _ => (inl escape, t)
    | Some TDir, (ORead | ODirectory) => new_fd p t
    | Some TDir, _ => (inl eisdir, t)
    | Some (TFile _), ODirectory => (inl enotdir, t)
    | Some (TFile _), OCreateTrunc => new_fd p (set_node p (TFile []) t)
    | Some (TFile _), _ => new_fd p t
    | None, (ORead | ODirectory) => (inl enoent, t)
    | None, _ => if parent_is_dir p t then new_fd p (set_node p (TFile []) t) else (inl enoent, t)
    end
  end.

Definition tfstat (d : Z) (t : tree) : oserr + fileinfo :=
  match tr_fds t !! d with
  | None => inl ebadf
  | Some fd => match node_at (tf_path fd) t with None => inl enoent | Some n => inr (info n) end
  end.

Definition tread (d room : Z) (t : tree) : bytes * option readend * tree :=
  match tr_fds t !! d with
  | None => ([], Some (RErr ebadf), t)
  | Some fd =>
    match node_at (tf_path fd) t with
    | Some (TFile c) =>
      match take (Z.to_nat room) (drop (tf_offset fd) c) with
      | [] => ([], Some REof, t)
      | data => (data, None, set_fd d (TFd (tf_path fd) (tf_offset fd + length data) (tf_listed fd)) t)
      end
    | _ => ([], Some (RErr eisdir), t)
    end
  end.

(** Every file is opened for appending or empty. *)
Definition twrite (d : Z) (data : bytes) (t : tree) : option oserr * tree :=
  match tr_fds t !! d with
  | None => (Some ebadf, t)
  | Some fd =>
    match node_at (tf_path fd) t with
    | Some (TFile c) => (None, set_node (tf_path fd) (TFile (c ++ data)) t)
    | _ => (Some eisdir, t)
    end
  end.

Definition prefix_of (p : bytes) : bytes := if bool_decide (p = []) then [] else p ++ [slash].

(** The entries of a directory, all at the first call. *)
Definition children (p : bytes) (t : tree) : list direntry :=
  let q := prefix_of p in
  flat_map (fun kn : bytes * tnode =>
    let name := drop (length q) kn.1 in
    if HasPrefix kn.1 q && bool_decide (seg_ok name) && (len name <? 2 ^ 62)
    then [DirEntry name (fi_kind (info kn.2))] else []) (map_to_list (tr_nodes t)).

Definition treaddir (d : Z) (t : tree) : list direntry * option readend * tree :=
  match tr_fds t !! d with
  | None => ([], Some (RErr ebadf), t)
  | Some fd =>
    if tf_listed fd then ([], Some REof, t)
    else match node_at (tf_path fd) t with
         | Some TDir => (children (tf_path fd) t, None, set_fd d (TFd (tf_path fd) (tf_offset fd) true) t)
         | _ => ([], Some (RErr enotdir), t)
         end
  end.

Definition tmkdir (d : Z) (rel : bytes) (t : tree) : option oserr * tree :=
  match at_path d rel t (fun p n => inr (p, n)) with
  | inl e => (Some e, t)
  | inr (p, Some _) => (Some eexist, t)
  | inr (p, None) => if parent_is_dir p t then (None, set_node p TDir t) else (Some enoent, t)
  end.

Definition tremove (d : Z) (rel : bytes) (t : tree) : option oserr * tree :=
  match at_path d rel t (fun p n => inr (p, n)) with
  | inl e => (Some e, t)
  | inr (p, None) => (Some enoent, t)
  | inr (p, Some TDir) => if bool_decide (children p t = []) then (None, del_node p t) else (Some enotempty, t)
  | inr (p, Some _) => (None, del_node p t)
  end.

(** Files only. *)
Definition trename (d : Z) (src dst : bytes) (t : tree) : option oserr * tree :=
  match at_path d src t (fun p n => inr (p, n)), at_path d dst t (fun p n => inr (p, n)) with
  | inr (p, Some (TFile c)), inr (q, (None | Some (TFile _))) =>
    if parent_is_dir q t then (None, set_node q (TFile c) (del_node p t)) else (Some enoent, t)
  | inr (_, None), _ => (Some enoent, t)
  | _, _ => (Some eisdir, t)
  end.

#[export] Instance tree_host : Host := {
  host := tree;
  Stat d rel t := (tstat d rel t, t);
  Lstat d rel t := (tlstat d rel t, t);
  OpenRoot := topen_root;
  OpenFile := topen;
  FStat d t := (tfstat d t, t);
  Read := tread;
  WriteTo := twrite;
  ReadDir := treaddir;
  Mkdir := tmkdir;
  Remove := tremove;
  RenameIn := trename;
  Close d t := Tree (tr_nodes t) (delete d (tr_fds t)) (tr_next t);
  Now t := (7, t);
  append_cap l c n := l + n;
  unlinkDirErrno := 21;
  errno_text n := go "error" }.

#[export] Instance tree_names : HostNames tree_host.
Proof.
  intros d t. cbn. unfold treaddir. destruct (tr_fds t !! d) as [fd|]; [|constructor]. destruct (tf_listed fd); [constructor|].
  destruct (node_at (tf_path fd) t) as [[]|]; try constructor. cbn. unfold children. apply Forall_flat_map, Forall_forall.
  intros [k n] _. cbn. destruct (_ && _) eqn:E; [|constructor]. rewrite !andb_true_iff in E. destruct E as [[_ E1] E2].
  constructor; [|constructor]. split; [by apply bool_decide_eq_true in E1|cbn; lia].
Qed.

(** A directory open as descriptor 3. *)
Definition sample_tree : tree :=
  Tree (list_to_map [(go "a.txt", TFile (go "host file")); (go "dir", TDir); (go "dir/b.txt", TFile (go "below"));
                     (go "link", TLink)])
    {[3 := TFd [] O false]} 4.
