(* ===== verification/MountServe.v ===== *)
(** A table serving calls: the guarantees of its mounts, over any host.

    [serve] is [Table.HandleOsCall] with the executors of Direct.v and
    Overlay.v; [serve_all] serves one call after the other. *)

From S2P Require Import Prelude Utf8 GoStrings VPath Protowire Proto Values ValueCodec CodecSpec Exceptions.
From S2P Require Import Events ValueFacts MountPath Utf8Facts OverlayState MountTable HostFs Direct Overlay OverlayRename MountLogic.
From S2P Require Import MountSafety MountWriting TreeHost.

Section serve.
Context `{HO : Host} (fuel : nat).

Definition run (m : mount) (call : oscall) (h : host * list hcall) : xres value * (mount * (host * list hcall)) :=
  execute (directExecute fuel) (overlayExecute fuel) m call h.

Definition serve (t : table) (call : option oscall) (h : host * list hcall) : option (xres value) * (table * (host * list hcall)) :=
  handle (directExecute fuel) (overlayExecute fuel) t call h.

Fixpoint serve_all (calls : list oscall) (t : table) (h : host * list hcall)
    : list (option (xres value)) * (table * (host * list hcall)) :=
  match calls with
  | [] => ([], (t, h))
  | call :: calls =>
    let '(r, (t, h)) := serve t (Some call) h in
    let '(rs, (t, h)) := serve_all calls t h in
    (r :: rs, (t, h))
  end.
End serve.

(** ** What is asked of specs and calls *)

(** A root with a normalised virtual path, and limits: memory at most a
    tebibyte, bytes written at most a uint64. *)
Record spec_ok (s : spec) : Prop := {
  sk_virtual : isNormalizedVirtualPath (sp_virtual s) = true;
  sk_memory : 0 <= sp_memory_limit s <= 2 ^ 40;
  sk_written : forall l, sp_write_limit s = Some l -> 0 <= l <= MaxUint64 }.

(** Texts and data are Go strings. *)
Definition call_sized (call : oscall) : Prop := len (oc_text call) < 2 ^ 62 /\ len (oc_data call) < 2 ^ 62.

Definition mount_self (m : mount) : Prop := mount_ok m m.

Section lemmas.
Lemma mount_of_ok s : spec_ok s -> mount_self (mount_of s).
Proof.
  intros [A B C]. constructor; cbn; try done.
  - intros l Hl. specialize (C l Hl). lia.
  - intros ->. exists newOverlayState. split; [done|]. constructor; cbn; try done; [|lia].
    apply (reach_inv 0); [done|constructor].
Qed.

Lemma mount_ok_trans m0 m1 m2 : mount_ok m0 m1 -> mount_ok m1 m2 -> mount_ok m0 m2.
Proof. intros A B. destruct A, B. constructor; congruence || done. Qed.

Lemma mount_ok_self m0 m : mount_ok m0 m -> mount_self m.
Proof. intros []. by constructor. Qed.

Context `{HO : Host} `{!HostNames HO} (fuel : nat).

Definition is_rw (m : mount) : bool := bool_decide (m_mode m = ReadWrite).

Lemma as_executor_ok w m call mode h cs p :
  keeps (mount_ok m) (good w) (p call mode) (answer_ok m) -> mount_self m ->
  let '(r, (m', (h', cs'))) := as_executor p m call mode (h, cs) in
  mount_ok m m' /\ (exists new, cs' = cs ++ new /\ Forall (good w) new) /\ post (answer_ok m) r.
Proof.
  intros Hk Hm. specialize (Hk (St m h cs) Hm). unfold as_executor. cbn [fst snd].
  destruct (p call mode (St m h cs)) as [r s]. exact Hk.
Qed.

Lemma canonical_nonempty mode c : CanonicalFileMode mode = Ok c -> c <> [].
Proof. intros Hc%CanonicalFileMode_mode_spec%mode_spec_canonical ->. vm_compute in Hc. set_solver. Qed.

Lemma run_ok m call h cs : mount_self m -> call_sized call -> len (oc_path call) <= 4096 ->
  (oc_op call = OpRename -> len (oc_dst call) <= 4096) ->
  let '(r, (m', (h', cs'))) := run fuel m call (h, cs) in
  mount_ok m m' /\ (exists new, cs' = cs ++ new /\ Forall (good (is_rw m)) new) /\ post (answer_ok m) r.
Proof.
  intros Hm [Ht Hd] Hp Hdst. unfold run, execute.
  assert (forall e, mount_ok m m /\ (exists new, cs = cs ++ new /\ Forall (good (is_rw m)) new) /\ post (answer_ok m) (XFail e)) as Hfail.
  { intros e. split_and!; [done|exists []; split; [by rewrite app_nil_r|constructor]|done]. }
  assert (forall mode, (oc_op call = OpOpen -> mode <> []) ->
    let '(r, (m', (h', cs'))) := if bool_decide (m_mode m = ReadOnly) && isWriteCall call mode
      then (XFail (MReadOnly (oc_path call)), (m, (h, cs)))
      else if bool_decide (m_mode m = Overlay) then overlayExecute fuel m call mode (h, cs)
      else directExecute fuel m call mode (h, cs) in
    mount_ok m m' /\ (exists new, cs' = cs ++ new /\ Forall (good (is_rw m)) new) /\ post (answer_ok m) r) as Hrun.
  { intros mode Hmode. assert (call_fits call mode) as Hfits by by constructor.
    destruct (bool_decide (m_mode m = ReadOnly) && isWriteCall call mode) eqn:Ero; [apply Hfail|].
    destruct (bool_decide (m_mode m = Overlay)) eqn:Eo; [apply bool_decide_eq_true in Eo|apply bool_decide_eq_false in Eo].
    - apply as_executor_ok; [|done]. by apply k_overlay_execute.
    - apply as_executor_ok; [|done]. apply k_direct_execute; [done|]. intros Hw. rewrite Hw, andb_true_r in Ero.
      apply bool_decide_eq_false in Ero. apply bool_decide_eq_true. by destruct (m_mode m). }
  destruct (Z.eqb_spec (oc_op call) OpOpen) as [Eop|Eop]; [|by apply Hrun].
  destruct (CanonicalFileMode (oc_mode call)) as [c|e] eqn:Ec; [|apply Hfail]. apply Hrun. intros _. by eapply canonical_nonempty.
Qed.

Lemma overlong_len p : rejectOverlongPath p = None -> len p <= 4096.
Proof.
  unfold rejectOverlongPath, isOverlong, pathMax. destruct (Z.ltb_spec 4096 (len p)); [done|lia].
Qed.

Lemma route_found t p call i : route t p call = RouteTo i -> i = findMount t p /\ 0 <= i
  /\ (oc_op call = OpRename -> rejectOverlongPath (oc_dst call) = None).
Proof.
  unfold route. destruct (Z.eqb_spec (oc_op call) OpRename); cbn [negb].
  - destruct (rejectOverlongPath (oc_dst call)); [done|]. destruct (containsNullByte _); [done|].
    destruct (_ && _); [done|]. destruct (_ && _) eqn:E; [|done]. intros [= <-]. split_and!; [done|lia|done].
  - destruct (Z.leb_spec 0 (findMount t p)); [|done]. by intros [= <-].
Qed.

Lemma found_mount t p : 0 <= findMount t p -> exists m, t_mounts t !! Z.to_nat (findMount t p) = Some m.
Proof.
  unfold findMount. destruct (find_loop_spec (NormalizeVirtualPath p) (t_mounts t) 0 ltac:(done)) as [[-> _]|(_ & m & Hm & _)]; [lia|].
  rewrite Z.sub_0_r in Hm. eauto.
Qed.

(** The mount a call is about. *)
Definition target (t : table) (call : oscall) : option mount := t_mounts t !! Z.to_nat (findMount t (oc_path call)).

Lemma serve_ok t call h cs : Forall mount_self (t_mounts t) -> call_sized call ->
  let '(r, (t', (h', cs'))) := serve fuel t (Some call) (h, cs) in
  Forall2 mount_ok (t_mounts t) (t_mounts t')
  /\ (exists new, cs' = cs ++ new /\ (new = [] \/ exists m, target t call = Some m /\ Forall (good (is_rw m)) new))
  /\ match r with Some r => exists limit, post (fun v => match v with VBytes c | VStr c => len c <= limit | _ => True end) r
                            /\ (limit = 0 \/ exists m, target t call = Some m /\ limit = m_memory_limit m)
     | None => True end.
Proof.
  intros Ht Hc. assert (Forall2 mount_ok (t_mounts t) (t_mounts t)) as Hrefl by (apply Forall_Forall2_diag; exact Ht).
  assert (forall r : option (xres value), match r with Some (XRet (VBytes _ | VStr _)) | Some XPanics => False | _ => True end ->
    Forall2 mount_ok (t_mounts t) (t_mounts t)
    /\ (exists new, cs = cs ++ new /\ (new = [] \/ exists m, target t call = Some m /\ Forall (good (is_rw m)) new))
    /\ match r with Some r => exists limit, post (fun v => match v with VBytes c | VStr c => len c <= limit | _ => True end) r
                            /\ (limit = 0 \/ exists m, target t call = Some m /\ limit = m_memory_limit m)
       | None => True end) as Hsame.
  { intros r Hr. split_and!; [done|exists []; rewrite app_nil_r; auto|]. destruct r as [[v|e| |]|]; try done; exists 0; split; auto.
    by destruct v. }
  unfold serve, handle. destruct (IsFS call) eqn:Ef; cbn [negb]; [|by apply (Hsame None)].
  destruct (match rejectOverlongPath (oc_path call) with Some _ => _ | None => _ end) as [e|] eqn:Er.
  { destruct (IsExistenceCheck call); apply (Hsame (Some _)); done. }
  destruct (rejectOverlongPath (oc_path call)) eqn:Eo; [done|]. apply overlong_len in Eo.
  destruct (route t (oc_path call) call) as [i|e|] eqn:Eroute; [|by apply (Hsame (Some _))|by apply (Hsame None)].
  apply route_found in Eroute as (-> & Hi & Hdst). destruct (found_mount t _ Hi) as [m Hm]. rewrite Hm.
  pose proof (run_ok m call h cs) as Hrun. rewrite Forall_forall in Ht.
  specialize (Hrun (Ht m ltac:(by eapply list_elem_of_lookup_2)) Hc Eo ltac:(intros; by apply overlong_len, Hdst)). unfold run in Hrun.
  destruct (execute (directExecute fuel) (overlayExecute fuel) m call (h, cs)) as [r [m' [h' cs']]].
  destruct Hrun as (Hok & (new & -> & Hnew) & Hr). split_and!.
  - cbn [t_mounts]. rewrite <- (list_insert_id (t_mounts t) _ m Hm) at 1. by apply Forall2_insert.
  - exists new. split; [done|]. right. by exists m.
  - exists (m_memory_limit m). split; [done|]. right. by exists m.
Qed.
End lemmas.

(** ** Guarantees *)

Section sequences.
Context `{HO : Host} `{!HostNames HO} (fuel : nat).

Lemma forall2_trans t0 t1 t2 : Forall2 mount_ok t0 t1 -> Forall2 mount_ok t1 t2 -> Forall2 mount_ok t0 t2.
Proof. intros H. revert t2. induction H as [|a b l k Hab _ IH]; intros t2 H2; inv H2; constructor; [by eapply mount_ok_trans|auto]. Qed.

Lemma forall2_self t0 t1 : Forall2 mount_ok t0 t1 -> Forall mount_self t1.
Proof. intros H. induction H as [|a b l k Hab _ IH]; constructor; [by eapply mount_ok_self|done]. Qed.

Lemma serve_all_ok calls t h cs : Forall mount_self (t_mounts t) -> Forall call_sized calls ->
  let '(rs, (t', _)) := serve_all fuel calls t (h, cs) in
  Forall2 mount_ok (t_mounts t) (t_mounts t') /\ Forall (fun r => r <> Some XPanics) rs.
Proof.
  intros Ht Hc. revert t h cs Ht. induction Hc as [|call calls Hcall _ IH]; intros t h cs Ht; cbn [serve_all].
  { split; [by apply Forall_Forall2_diag|constructor]. }
  pose proof (serve_ok fuel t call h cs Ht Hcall) as H1. destruct (serve fuel t (Some call) (h, cs)) as [r [t1 [h1 cs1]]].
  destruct H1 as (H1 & _ & Hr). specialize (IH t1 h1 cs1 (forall2_self _ _ H1)).
  destruct (serve_all fuel calls t1 (h1, cs1)) as [rs [t2 [h2 cs2]]]. destruct IH as [H2 Hrs]. split; [by eapply forall2_trans|].
  constructor; [|done]. intros ->. by destruct Hr as (? & [] & _).
Qed.

Lemma new_table_self specs : Forall spec_ok specs -> Forall mount_self (t_mounts (NewTable specs)).
Proof.
  intros Hs. apply Forall_forall. intros m Hm. apply table_elem in Hm as [?%not_elem_of_nil|(s & Hin & ->)]; [done|].
  apply mount_of_ok. rewrite Forall_forall in Hs. auto.
Qed.
End sequences.

(** C14. Limits hold and nothing panics, whatever the host answers. A table
    built from any specs serves any sequence of calls: at the end every mount is
    still at its virtual path, on its directory, in its mode and with its
    limits; the bytes it counted as written are within its write limit; and the
    store of an overlay mount costs, by an exact account, no more than its
    memory limit, while every file it refers to on the host is below the
    mount's directory. No call ends in a run-time panic. *)
Theorem mounts_within_limits `{HO : Host} `{!HostNames HO} (fuel : nat) (specs : list spec) (calls : list oscall) (h : host) :
  Forall spec_ok specs -> Forall call_sized calls ->
  let '(answers, (t, _)) := serve_all fuel calls (NewTable specs) (h, []) in
  Forall2 (fun m0 m =>
    m_virtual m = m_virtual m0 /\ m_dir m = m_dir m0 /\ m_mode m = m_mode m0
    /\ m_write_limit m = m_write_limit m0 /\ m_memory_limit m = m_memory_limit m0
    /\ (forall l, m_write_limit m0 = Some l -> 0 <= m_write_used m <= l)
    /\ (m_mode m0 = Overlay -> exists s, m_overlay m = Some s /\ os_usage s = os_total s /\ os_total s <= m_memory_limit m0
        /\ forall k e, os_entries s !! k = Some e -> oe_kind e = entRealFileRef -> path_ok (oe_relative e)))
    (t_mounts (NewTable specs)) (t_mounts t)
  /\ Forall (fun r => r <> Some XPanics) answers.
Proof.
  intros Hs Hc. pose proof (serve_all_ok fuel calls (NewTable specs) h [] (new_table_self specs Hs) Hc) as H.
  destruct (serve_all fuel calls (NewTable specs) (h, [])) as [rs [t [h' cs]]]. destruct H as [H Hr]. split; [|done].
  eapply Forall2_impl; [exact H|]. intros m0 m Hm. split_and!; [apply Hm..| |].
  - intros l Hl. apply (mo_written _ _ Hm). by rewrite (mo_wlimit _ _ Hm).
  - intros Ho. destruct (mo_store _ _ Hm) as (s & Es & [S1 S2 S3 _]); [by rewrite (mo_mode _ _ Hm)|]. exists s.
    rewrite (mo_mlimit _ _ Hm) in S2. rewrite <- (ov_usage _ S1). split_and!; [done|done|done|exact S3].
Qed.

(** A tree before any call. *)
Definition start : host * list hcall := (sample_tree : host (Host := tree_host), []).

(** Calls of a program that writes, reads and moves files below an overlay. *)
Definition sample_call (op : Z) (path dst text : string) : oscall :=
  set_oc_text (go text) (set_oc_dst (go dst) (set_oc_path (go path) (set_oc_op op new_oscall))).

Definition sample_specs : list spec := [Spec (go "/data") 3 Overlay (Some 100) 10000].

Definition sample_calls : list oscall :=
  [sample_call OpWriteText "/data/dir/new.txt" "" "hello"; sample_call OpReadText "/data/dir/new.txt" "" "";
   sample_call OpRename "/data/dir" "/data/moved" ""; sample_call OpReadText "/data/moved/b.txt" "" "";
   sample_call OpUnlink "/data/a.txt" "" ""; sample_call OpExists "/data/a.txt" "" "";
   sample_call OpReadText "/data/link" "" ""].

(** What the calls answer. *)
Example sample_answers : (serve_all 10 sample_calls (NewTable sample_specs) start).1
  = [Some (XRet (VInt KInt64 5)); Some (XRet (VStr (go "hello"))); Some (XRet VNil); Some (XRet (VStr (go "below")));
     Some (XRet VNil); Some (XRet (VBool false)); Some (XFail (MPathEscape (go "/data/link")))].
Proof. vm_compute. reflexivity. Qed.

Lemma sample_specs_ok : Forall spec_ok sample_specs.
Proof.
  constructor; [|constructor]. constructor; [reflexivity|cbn; lia|]. intros l [= <-]. unfold MaxUint64. lia.
Qed.

Lemma sample_calls_sized : Forall call_sized sample_calls.
Proof. repeat (constructor; [split; reflexivity|]). constructor. Qed.

Lemma mounts_within_limits_witness :
  Forall (fun r => r <> Some XPanics) (serve_all 10 sample_calls (NewTable sample_specs) start).1.
Proof.
  pose proof (mounts_within_limits 10 sample_specs sample_calls sample_tree sample_specs_ok sample_calls_sized) as H. unfold start.
  destruct (serve_all 10 sample_calls (NewTable sample_specs) _) as [answers [t h]]. apply H.
Defined.

(** C15. Calls to the host are confined. Whatever a call is and whatever
    the host answers: every path handed to a directory descriptor is the
    directory itself or made of ordinary components (none of them [.], [..] or
    empty, so that nothing outside is named); the host is only told to create,
    write, remove or rename something when the mount that covers the call's path
    is a read-write one; and no contents larger than that mount's memory limit
    are answered. So overlay and read-only mounts never change the host. *)
Theorem host_calls_confined `{HO : Host} `{!HostNames HO} (fuel : nat) (specs : list spec) (calls : list oscall) (call : oscall) (h : host) :
  Forall spec_ok specs -> Forall call_sized calls -> call_sized call ->
  let '(_, (t, (h1, before))) := serve_all fuel calls (NewTable specs) (h, []) in
  let '(answer, (_, (_, after))) := serve fuel t (Some call) (h1, before) in
  exists made, after = before ++ made
  /\ Forall (fun c => Forall path_ok (call_paths c)) made
  /\ (Exists (fun c => writing c = true) made -> exists m, target t call = Some m /\ m_mode m = ReadWrite)
  /\ (forall c, answer = Some (XRet (VBytes c)) \/ answer = Some (XRet (VStr c)) ->
      c = [] \/ exists m, target t call = Some m /\ len c <= m_memory_limit m).
Proof.
  intros Hs Hc Hcall. pose proof (serve_all_ok fuel calls (NewTable specs) h [] (new_table_self specs Hs) Hc) as H.
  destruct (serve_all fuel calls (NewTable specs) (h, [])) as [rs [t [h1 before]]]. destruct H as [H _].
  pose proof (serve_ok fuel t call h1 before (forall2_self _ _ H) Hcall) as H1.
  destruct (serve fuel t (Some call) (h1, before)) as [answer [t' [h' after]]]. destruct H1 as (_ & (made & -> & Hmade) & Ha).
  exists made. split; [done|]. split_and!.
  - destruct Hmade as [->|(m & _ & Hm)]; [constructor|]. eapply Forall_impl; [exact Hm|]. by intros c [? _].
  - intros Hw. destruct Hmade as [->|(m & Ht & Hm)]; [by apply Exists_nil in Hw|]. exists m. split; [done|].
    apply Exists_exists in Hw as (c & Hin & Hw). rewrite Forall_forall in Hm. destruct (Hm c Hin) as [_ Hrw].
    specialize (Hrw Hw). by apply bool_decide_eq_true in Hrw.
  - intros c [->| ->]; destruct Ha as (limit & Hl & [->|(m & Ht & ->)]); cbn in Hl; eauto; left; destruct c; [done| |done|];
      rewrite len_cons in Hl; pose proof (len_nonneg c); lia.
Qed.

(** Writing to an overlay. *)
Lemma host_calls_confined_witness :
  let call := sample_call OpWriteText "/data/dir/b.txt" "" "new" in
  let '(answer, (_, (_, after))) := serve 10 (NewTable sample_specs) (Some call) start in
  answer = Some (XRet (VInt KInt64 3)) /\ Forall (fun c => Forall path_ok (call_paths c)) after
  /\ Forall (fun c => writing c = false) after.
Proof.
  intros call. pose proof (host_calls_confined 10 sample_specs [] call sample_tree sample_specs_ok ltac:(constructor) ltac:(split; reflexivity)) as H.
  cbn [serve_all] in H.
  assert ((serve 10 (NewTable sample_specs) (Some call) start).1 = Some (XRet (VInt KInt64 3))) as Ea by (vm_compute; reflexivity).
  unfold start in *. destruct (serve 10 (NewTable sample_specs) (Some call) _) as [answer [t' [h' after]]].
  destruct H as (made & -> & Hp & Hw & _). cbn [app] in *. split_and!; [exact Ea|exact Hp|].
  apply Forall_forall. intros c Hin. destruct (writing c) eqn:E; [|reflexivity]. exfalso.
  destruct Hw as (m & Hm & Hrw); [apply Exists_exists; eauto|]. vm_compute in Hm. injection Hm as <-. discriminate Hrw.
Defined.
