(* ===== verification/OverlayEffects.v ===== *)
(** What calls on an overlay mount do to its store: one that fails leaves the
    mount as it was, one that succeeds makes a definite update. *)

From S2P Require Import Prelude Utf8 GoStrings VPath Protowire Proto Values ValueCodec CodecSpec Exceptions.
From S2P Require Import Events ValueFacts MountPath Utf8Facts OverlayState MountTable HostFs Direct Overlay OverlayRename MountLogic.
From S2P Require Import MountSafety MountWriting TreeHost MountServe.

Section transactions.
Context `{HO : Host} `{!HostNames HO} (fuel : nat) (m1 : mount) (s1 : overlayState).
Hypotheses (m1_ok : mount_self m1) (overlay1 : m_mode m1 = Overlay) (store1 : m_overlay m1 = Some s1).

(** The mount has not changed. *)
Definition same (m : mount) : Prop := m = m1.
Abbreviation reads := (keeps same (good false)).

Lemma same_ok m : same m -> mount_ok m1 m.
Proof. intros ->. exact m1_ok. Qed.

Lemma same_stored s : stored same s -> s = s1.
Proof. intros (m & -> & Hs). rewrite store1 in Hs. by injection Hs. Qed.

Lemma limit1 : 0 <= m_memory_limit m1 <= 2 ^ 40.
Proof. apply m1_ok. Qed.

(** [tx p E]: when [p] returns, the mount it leaves is as [E] says; otherwise it
    has not changed. *)
Definition tx {A} (p : X A) (E : A -> mount -> Prop) : Prop := forall s, st_mount s = m1 ->
  match p s with (XRet a, s') => E a (st_mount s') | (_, s') => st_mount s' = m1 end.

(** From the mount [m], [p] returns a value. *)
Definition returns {A} (p : X A) (m : mount) (E : A -> mount -> Prop) : Prop := forall s, st_mount s = m ->
  exists a s', p s = (XRet a, s') /\ E a (st_mount s').

Lemma tx_read {A B} (p : X A) (f : A -> X B) V E : reads p V -> (forall a, V a -> tx (f a) E) -> tx (p ≫= f) E.
Proof.
  intros Hp Hf s Hs. specialize (Hp s Hs). unfold mbind, X_bind. destruct (p s) as [[a|e| |] s']; destruct Hp as (H1 & _ & H3); try done.
  by apply Hf.
Qed.

Lemma tx_reads {A} (p : X A) V (E : A -> mount -> Prop) : reads p V -> (forall a, V a -> E a m1) -> tx p E.
Proof.
  intros Hp HE s Hs. specialize (Hp s Hs). destruct (p s) as [[a|e| |] s']; destruct Hp as (H1 & _ & H3); try done.
  rewrite H1. by apply HE.
Qed.

Lemma tx_then {A B} (p : X A) (f : A -> X B) E F : tx p E -> (forall a m, E a m -> returns (f a) m F) -> tx (p ≫= f) F.
Proof.
  intros Hp Hf s Hs. specialize (Hp s Hs). unfold mbind, X_bind. destruct (p s) as [[a|e| |] s']; try done.
  destruct (Hf a _ Hp s' eq_refl) as (b & s2 & -> & HF). done.
Qed.

Lemma tx_mret {A B} (a : A) (f : A -> X B) E : tx (f a) E -> tx (mret a ≫= f) E.
Proof. intros H s Hs. exact (H s Hs). Qed.

Lemma tx_mono {A} (p : X A) (E F : A -> mount -> Prop) : tx p E -> (forall a m, E a m -> F a m) -> tx p F.
Proof. intros Hp HEF s Hs. specialize (Hp s Hs). destruct (p s) as [[a|e| |] s']; auto. Qed.

Lemma tx_fail {A} e (E : A -> mount -> Prop) : tx (fail e) E.
Proof. by intros s Hs. Qed.

Lemma tx_ret {A} (a : A) (E : A -> mount -> Prop) : E a m1 -> tx (mret a) E.
Proof. intros H s Hs. cbn. by rewrite Hs. Qed.

Lemma returns_ret {A} (a : A) m (E : A -> mount -> Prop) : E a m -> returns (mret a) m E.
Proof. intros H s Hs. exists a, s. split; [done|]. by rewrite Hs. Qed.

Lemma returns_commit n m (E : () -> mount -> Prop) : E tt (commitWriteBytes m n) -> returns (commit_write n) m E.
Proof. intros H s Hs. eexists _, _. split; [reflexivity|]. cbn. by rewrite Hs. Qed.

Lemma returns_bind {A B} (p : X A) (f : A -> X B) m E F :
  returns p m E -> (forall a m, E a m -> returns (f a) m F) -> returns (p ≫= f) m F.
Proof.
  intros Hp Hf s Hs. destruct (Hp s Hs) as (a & s' & Ep & HE). destruct (Hf a _ HE s' eq_refl) as (b & s2 & Ef & HF).
  exists b, s2. split; [|done]. unfold mbind, X_bind. by rewrite Ep.
Qed.

(** A checked insert is all or nothing. *)
Lemma tx_insert k e (E : () -> mount -> Prop) :
  (forall s', os_insert k e (m_memory_limit m1) s1 = (None, s') -> E tt (set_overlay s' m1)) -> tx (insert_entry k e) E.
Proof.
  intros H s Hs. unfold insert_entry, get_store, get_mount, put_store, put_mount, mbind, X_bind, mret, X_ret. rewrite Hs, store1.
  destruct (os_insert k e (m_memory_limit m1) s1) as [err s'] eqn:E1. cbn. rewrite Hs, E1. cbn. rewrite Hs.
  destruct err as [err|]; cbn; [|by apply H]. unfold os_insert in E1. destruct (_ <? _); [|done]. injection E1 as <- <-.
  unfold set_overlay. rewrite <- store1. by destruct m1.
Qed.

Definition relative_to (path rel : bytes) : Prop := resolveVirtualPath path (m_virtual m1) = inl rel.

Lemma r_resolve v : reads (resolve_path v) (fun rel => relative_to v rel /\ clean rel).
Proof.
  unfold resolve_path. eapply keeps_seq; [apply keeps_get_mount|]. intros m ->. apply keeps_lift. intros rel Hr. split; [done|].
  by eapply resolve_clean; [apply m1_ok|].
Qed.

Lemma r_check_write n : reads (check_write n) (fun _ => True).
Proof. unfold check_write. eapply keeps_seq; [apply keeps_get_mount|]. intros m _. eapply keeps_any, keeps_check. Qed.

Lemma r_store : reads get_store (fun s => s = s1).
Proof. eapply keeps_mono; [apply (k_get_store m1); [apply same_ok|done]|]. apply same_stored. Qed.

Lemma r_mount : reads get_mount (fun m => m = m1).
Proof. apply keeps_get_mount. Qed.

(** The reading part of a program, up to what it does next. *)
Ltac r_known := first [eassumption | solve [eapply keeps_any; eauto using same_ok with mountfs]].
Ltac tx_step := eapply tx_read; [r_known|intros ? _].

(** An update of one entry. *)
Definition stores (rel : bytes) (e : overlayEntry) (m : mount) : Prop :=
  exists s', os_insert rel e (m_memory_limit m1) s1 = (None, s') /\ m = set_overlay s' m1.

Lemma tx_stores rel e : tx (insert_entry rel e) (fun _ => stores rel e).
Proof. apply tx_insert. intros s' Hs'. by exists s'. Qed.

Lemma tx_write v data result : tx (overlayWrite v data result)
  (fun r m => r = VInt KInt64 result /\ exists rel now m', relative_to v rel /\ stores rel (fileEntry data now) m'
     /\ m = commitWriteBytes m' (len data)).
Proof.
  unfold overlayWrite. cbv zeta. pose proof same_ok as C. eapply tx_read; [apply r_check_write|intros _ _].
  eapply tx_read; [apply r_resolve|]. intros rel [Hrel Hc].
  do 3 tx_step. eapply tx_read; [apply r_mount|]. intros m _. do 1 tx_step.
  eapply tx_read; [apply keeps_now|]. intros now _. eapply tx_then; [apply tx_stores|]. intros [] m' Hm'. cbn beta in Hm'.
  eapply returns_bind; [apply (returns_commit _ _ (fun _ m => m = commitWriteBytes m' (len data))); done|]. intros _ ? ->.
  apply returns_ret. split; [done|]. by exists rel, now, m'.
Qed.

(** A path that stands for [rel]. *)
Section at_rel.
Context (rel vpath : bytes) (Hclean : clean rel).

Lemma tx_mkdir existOK : tx (overlayMkdir rel false existOK vpath)
  (fun _ m => m = m1 \/ exists now, stores rel (directoryEntry now) m).
Proof.
  unfold overlayMkdir. pose proof same_ok as C. cbv zeta. tx_step.
  assert (tx (_ ← ensureParentExists rel vpath; now ← currentTimestamp; insert_entry rel (directoryEntry now))
    (fun _ m => m = m1 \/ exists now, stores rel (directoryEntry now) m)) as Hmake.
  { tx_step. eapply tx_read; [apply keeps_now|]. intros now _. eapply tx_mono; [apply tx_stores|]. intros [] m Hm. right. by exists now. }
  destruct a as [entry|]; [destruct (oe_kind entry)|tx_step; destruct a]; try exact Hmake; try apply tx_fail;
    destruct existOK; try apply tx_fail; apply tx_ret; by left.
Qed.

Lemma tx_unlink : tx (overlayUnlink rel vpath) (fun _ => stores rel deletedEntry).
Proof.
  unfold overlayUnlink. pose proof same_ok as C. tx_step.
  destruct a as [entry|]; [destruct (oe_kind entry)|do 2 tx_step; destruct a0]; try apply tx_fail; apply tx_stores.
Qed.

Lemma tx_rmdir : tx (overlayRmdir fuel rel vpath) (fun _ => stores rel deletedEntry).
Proof.
  unfold overlayRmdir. pose proof same_ok as C. destruct (bool_decide (rel = [])); [apply tx_fail|]. tx_step.
  destruct a as [entry|].
  - destruct (oe_kind entry); try apply tx_fail. tx_step. destruct a; [apply tx_fail|apply tx_stores].
  - tx_step. eapply tx_read; [eauto using same_ok with mountfs|]. intros target Ht. do 2 tx_step.
    destruct (negb a1); [tx_step; destruct a2; apply tx_fail|]. tx_step.
    eapply (tx_read _ _ (fun _ => True)); [destruct a2; [by apply keeps_mret|r_known]|]. intros c _.
    destruct c; [apply tx_fail|apply tx_stores].
Qed.
End at_rel.

Lemma r_entry key : reads (entry_at key) (fun e => e = os_get s1 key).
Proof. unfold entry_at. eapply keeps_seq; [apply r_store|]. intros s ->. by apply keeps_mret. Qed.

(** What appending extends: the file in the store, nothing when it was deleted,
    and otherwise what the host has. *)
Definition extends (rel old : bytes) : Prop :=
  match os_get s1 rel with
  | Some e => match oe_kind e with entFile => old = oe_content e | entDeleted => old = [] | _ => True end
  | None => True
  end.

Lemma r_existing rel v b : 0 <= mb_available b < MaxUint64 -> reads (existingFileBytes fuel rel v b) (extends rel).
Proof.
  intros Hb. unfold existingFileBytes, extends. pose proof same_ok as C. eapply keeps_seq; [apply r_entry|]. intros e ->. keeps_step.
  destruct (os_get s1 rel) as [entry|] eqn:E.
  - destruct (oe_kind entry) eqn:Ek; [| |keeps|by apply keeps_mret].
    + eapply keeps_seq; [apply keeps_check|]. intros _ _. by apply keeps_mret.
    + assert (path_ok (oe_relative entry)) as Hp.
      { destruct (mo_store _ _ m1_ok overlay1) as (s & Es & Hs). rewrite store1 in Es. injection Es as <-. by apply (so_refs _ _ Hs rel). }
      eapply keeps_seq; [by eapply k_checkedRefPath|]. intros r Hr. eapply keeps_mono; [by apply k_readFileLimited|done].
  - keeps_step. destruct a0; [|by apply keeps_mret]. eapply keeps_mono; [apply k_readFileLimited; auto|done].
Qed.

Definition appends (rel data : bytes) (m : mount) : Prop := exists old e s' charged,
  extends rel old /\ oe_kind e = entFile /\ oe_content e = old ++ data /\ os_entries s' = <[rel := e]> (os_entries s1)
  /\ m = commitWriteBytes (set_overlay s' m1) charged.

Lemma insert_entries k e s' : os_insert k e (m_memory_limit m1) s1 = (None, s') -> os_entries s' = <[k := e]> (os_entries s1).
Proof. unfold os_insert. destruct (_ <? _); [done|]. by intros [= <-]. Qed.

Lemma set_same : set_overlay s1 m1 = m1.
Proof. unfold set_overlay. rewrite <- store1. by destruct m1. Qed.

Lemma r_put_same : reads (put_store s1) (fun _ => True).
Proof. unfold put_store. eapply keeps_seq; [apply keeps_get_mount|]. intros m ->. apply keeps_put, set_same. Qed.

Lemma tx_put s' : tx (put_store s') (fun _ m => m = set_overlay s' m1).
Proof. intros s <-. reflexivity. Qed.

Lemma append_result rel data now :
  match appendFile rel data now (m_memory_limit m1) s1 with
  | (inl true, s') => exists e, extends rel (oe_content e)
      /\ os_entries s' = <[rel := OverlayEntry entFile (oe_content e ++ data) now (oe_relative e) (oe_size e)]> (os_entries s1)
  | (inl false, s') => s' = s1
  | (inr _, _) => True
  end.
Proof.
  unfold appendFile, extends, os_get. destruct (os_entries s1 !! rel) as [[[| | |] c mt0 r0 size]|] eqn:Ee; try done.
  destruct (_ <? _); [done|]. exists (OverlayEntry entFile c mt0 r0 size). by split_and!.
Qed.

Lemma tx_append v data : tx (overlayAppend fuel v data) (fun _ m => exists rel, relative_to v rel /\ appends rel data m).
Proof.
  unfold overlayAppend. pose proof same_ok as C. eapply tx_read; [apply r_resolve|]. intros rel [Hrel Hc].
  do 3 tx_step. cbv zeta. tx_step. eapply tx_read; [apply r_mount|]. intros m ->. set (charged := if _ && _ then _ else _).
  eapply tx_read; [apply r_check_write|]. intros _ _. eapply tx_read; [apply keeps_now|]. intros now _.
  eapply tx_read; [apply r_store|]. intros s ->.
  pose proof (append_result rel data now) as Ha.
  destruct (appendFile rel data now (m_memory_limit m1) s1) as [[[|]|e] s']; cbn [lift]; [..|apply tx_fail]; apply tx_mret.
  - destruct Ha as (e & He1 & He2). eapply tx_then; [apply tx_put|].
    intros [] ? ->. eapply returns_bind; [by apply (returns_ret _ _ (fun _ m => m = set_overlay s' m1))|]. intros [] ? ->.
    apply returns_commit. exists rel. split; [done|]. 
    by exists (oe_content e), (OverlayEntry entFile (oe_content e ++ data) now (oe_relative e) (oe_size e)), s', charged.
  - subst s'. eapply tx_read; [apply r_put_same|]. intros _ _.
    eapply (tx_then _ _ (fun _ m => exists old e s', extends rel old /\ oe_kind e = entFile /\ oe_content e = old ++ data
      /\ os_entries s' = <[rel := e]> (os_entries s1) /\ m = set_overlay s' m1)).
    + eapply tx_read; [apply r_store|]. intros s ->. tx_step. eapply tx_read; [by eapply k_availableMemory|]. intros b (s2 & Hs2 & Hb).
      destruct (budget_range m1 _ C overlay1 b s2 Hs2 Hb) as [Hr _]. tx_step. destruct (shrink b (len data)) as [b'|e] eqn:Es; cbn [lift]; [|apply tx_fail].
      apply tx_mret. apply shrink_spec in Es as [S1 S2]. pose proof (len_nonneg data).
      eapply tx_read; [apply r_existing; unfold MaxUint64; lia|]. intros content Hcontent. eapply tx_read; [apply keeps_now|]. intros now' _.
      apply tx_insert. intros s' Hs'. exists content, (fileEntry (content ++ data) now'), s'. split_and!; try done. by apply insert_entries.
    + intros [] ? (old & e & s' & H1 & H2 & H3 & H4 & ->). apply returns_commit. exists rel. split; [done|]. by exists old, e, s', charged.
Qed.

(** A rename makes the updates of a plan for the store it started from. *)
Definition renames (src dst : bytes) (m : mount) : Prop := exists p,
  relative_to src (rp_src p) /\ relative_to dst (rp_dst p) /\
  let batch := rename_batch s1 (rp_src p) (rp_dst p) (rp_source p) (rp_moves p) (rp_real p) in
  plan_ok s1 p /\ exists s', os_entries s' = list_to_map (rev batch) ∪ os_entries s1 /\ m = set_overlay s' m1.

Lemma store1_ok : store_ok (m_memory_limit m1) s1.
Proof. destruct (mo_store _ _ m1_ok overlay1) as (s & Es & Hs). rewrite store1 in Es. by injection Es as <-. Qed.

Lemma tx_rename v dst : len v <= 4096 -> len dst <= 4096 -> tx (overlayRename fuel v dst) (fun _ => renames v dst).
Proof.
  intros Hv Hd. unfold overlayRename. pose proof same_ok as C.
  eapply tx_read; [by apply (k_plan_rename fuel m1 same false C overlay1 s1); [apply same_stored|..]|]. intros p (Hp & Hsrc & Hdst).
  eapply tx_read; [apply r_store|]. intros s ->. eapply tx_read; [apply r_mount|]. intros m ->.
  eapply tx_read; [apply keeps_check|]. intros [] Hcheck. cbn beta in Hcheck. eapply tx_mono; [apply tx_put|]. intros [] m ->.
  exists p. cbv zeta. do 3 (split; [done|]). eexists. split; [|reflexivity].
  by apply (rename_store (m_memory_limit m1) s1 p limit1 store1_ok Hp).
Qed.

(** Opening for appending creates a file that is not there. *)
Definition creates (rel : bytes) (m : mount) : Prop := m = m1 \/ exists now, stores rel (fileEntry [] now) m.

Lemma tx_append_target v : tx (ensureAppendTargetExists v) (fun _ m => exists rel, relative_to v rel /\ creates rel m).
Proof.
  unfold ensureAppendTargetExists. pose proof same_ok as C. eapply tx_read; [apply r_resolve|]. intros rel [Hrel Hc]. cbv zeta.
  assert (tx (_ ← ensureParentExists rel v; now ← currentTimestamp; insert_entry rel (fileEntry [] now))
    (fun _ m => exists rel, relative_to v rel /\ creates rel m)) as Hmake.
  { tx_step. eapply tx_read; [apply keeps_now|]. intros now _. eapply tx_mono; [apply tx_stores|]. intros [] m Hm.
    exists rel. split; [done|]. right. by exists now. }
  assert (exists rel, relative_to v rel /\ creates rel m1) as Hsame by (exists rel; split; [done|by left]).
  tx_step. destruct a as [entry|]; [destruct (oe_kind entry)|tx_step; destruct a]; try exact Hmake; try apply tx_fail; try by apply tx_ret.
  eapply tx_reads; [r_known|]. intros [] _. exact Hsame.
Qed.

(** ** The effect of a call that succeeds *)

Definition written (path data : bytes) (m : mount) : Prop := exists rel now m',
  relative_to path rel /\ stores rel (fileEntry data now) m' /\ m = commitWriteBytes m' (len data).
Definition appended (path data : bytes) (m : mount) : Prop := exists rel, relative_to path rel /\ appends rel data m.

Definition effect (call : oscall) (mode : bytes) (m : mount) : Prop :=
  let path := oc_path call in
  let op := oc_op call in
  if op =? OpWriteText then written path (oc_text call) m
  else if op =? OpWriteBytes then written path (oc_data call) m
  else if op =? OpAppendText then appended path (oc_text call) m
  else if op =? OpAppendBytes then appended path (oc_data call) m
  else if op =? OpRename then renames path (oc_dst call) m
  else if op =? OpOpen then
    match mode with
    | c :: _ => if Byte.eqb c "w" then written path [] m
                else if Byte.eqb c "a" then exists rel, relative_to path rel /\ creates rel m
                else m = m1
    | [] => False
    end
  else if op =? OpMkdir then exists rel, relative_to path rel /\ (m = m1 \/ exists now, stores rel (directoryEntry now) m)
  else if (op =? OpUnlink) || (op =? OpRmdir) then exists rel, relative_to path rel /\ stores rel deletedEntry m
  else m = m1.

(** Making missing parents is the one call that is not all or nothing. *)
Definition makes_parents (call : oscall) : bool := (oc_op call =? OpMkdir) && oc_parents call.

Lemma tx_open v mode : mode <> [] -> tx (overlayOpen v mode) (fun _ m =>
  match mode with
  | c :: _ => if Byte.eqb c "w" then written v [] m
              else if Byte.eqb c "a" then exists rel, relative_to v rel /\ creates rel m
              else m = m1
  | [] => False
  end).
Proof.
  intros Hm. unfold overlayOpen. pose proof same_ok as C. destruct mode as [|c mode]; [done|].
  assert (forall (p : X ()) E, tx p (fun _ => E) -> tx (_ ← p; mret (VFileHandlePtr (fileHandle v (c :: mode)))) (fun _ => E)) as Hret.
  { intros p E Hp. eapply tx_then; [exact Hp|]. intros a m HE. by apply returns_ret. }
  apply Hret. destruct (Byte.eqb c "r") eqn:Er.
  - apply Byte.byte_dec_bl in Er. subst c. cbn. eapply (tx_reads _ (fun _ => True)); [|done]. keeps.
  - destruct (Byte.eqb c "w"); [|destruct (Byte.eqb c "a"); [apply tx_append_target|by apply tx_ret]].
    eapply tx_then; [apply tx_write|]. intros _ m (_ & rel & now & m' & H). apply returns_ret. by exists rel, now, m'.
Qed.

Lemma tx_unit (p : X ()) E : tx p (fun _ => E) -> tx (unit_result p) (fun _ => E).
Proof. intros Hp. eapply tx_then; [exact Hp|]. intros a m HE. by apply returns_ret. Qed.

(** The next test of a chain, for an operation that only reads. *)
Ltac next_op := match goal with |- tx (if ?b then _ else _) _ => destruct b eqn:? end.
Ltac quiet := next_op; [match goal with E : (oc_op _ =? _) = true |- _ =>
  eapply (tx_reads _ (fun _ => True)); [|intros _ _; apply Z.eqb_eq in E; rewrite E; reflexivity] end|].

Lemma tx_execute call mode : call_fits call mode -> makes_parents call = false ->
  tx (overlay_execute fuel call mode) (fun _ => effect call mode).
Proof.
  intros [Hp Hdst Ht Hd Hmode] Hparents. unfold overlay_execute, effect, makes_parents in *. cbv zeta. pose proof same_ok as C.
  destruct ((oc_op call =? OpResolve) || (oc_op call =? OpAbsolute)) eqn:E.
  { apply tx_ret. apply orb_true_iff in E as [E|E]; apply Z.eqb_eq in E; rewrite E; reflexivity. }
  destruct (oc_op call =? OpWriteText); [eapply tx_mono; [apply tx_write|]; by intros v m [_ H]|].
  destruct (oc_op call =? OpWriteBytes); [eapply tx_mono; [apply tx_write|]; by intros v m [_ H]|].
  destruct (oc_op call =? OpAppendText); [eapply tx_then; [apply tx_append|]; intros [] m H; by apply returns_ret|].
  destruct (oc_op call =? OpAppendBytes); [eapply tx_then; [apply tx_append|]; intros [] m H; by apply returns_ret|].
  destruct (oc_op call =? OpRename) eqn:Er; [apply tx_unit, tx_rename; [done|by apply Hdst, Z.eqb_eq]|].
  destruct (oc_op call =? OpOpen) eqn:Eo; [apply tx_open; by apply Hmode, Z.eqb_eq|].
  eapply tx_read; [apply r_resolve|]. intros rel [Hrel Hc].
  do 3 (quiet; [eapply k_overlayPredicate; [exact C|exact overlay1|intros; keeps]|]).
  quiet; [keeps|].
  quiet; [eapply keeps_seq; [by eapply k_overlayRead|]; intros c _; keeps|].
  quiet; [eapply keeps_seq; [by eapply k_overlayRead|]; intros c _; keeps|].
  next_op.
  { cbn [andb] in Hparents. rewrite Hparents. apply tx_unit. eapply tx_mono; [by apply tx_mkdir|]. intros [] m H. by exists rel. }
  next_op; [cbn [orb]; apply tx_unit; eapply tx_mono; [by apply tx_unlink|]; intros [] m H; by exists rel|].
  next_op; [cbn [orb]; apply tx_unit; eapply tx_mono; [by apply tx_rmdir|]; intros [] m H; by exists rel|]. cbn [orb].
  next_op; [eapply tx_reads; [by eapply k_overlayIterdir|done]|].
  next_op; [eapply tx_reads; [by eapply k_overlayStat|done]|by apply tx_ret].
Qed.
End transactions.

(** ** Theorems *)

(** The mode an executor gets. *)
Definition runs_with (call : oscall) (mode : bytes) : Prop :=
  if oc_op call =? OpOpen then CanonicalFileMode (oc_mode call) = Ok mode else mode = [].

Lemma run_overlay `{HO : Host} fuel m call mode h : m_mode m = Overlay -> runs_with call mode ->
  run fuel m call h = overlayExecute fuel m call mode h.
Proof.
  intros Hm Hmode. unfold run, execute, runs_with in *. rewrite (bool_decide_eq_false_2 (m_mode m = ReadOnly)) by by rewrite Hm.
  rewrite (bool_decide_eq_true_2 (m_mode m = Overlay)) by done. cbn [andb].
  destruct (oc_op call =? OpOpen); [by rewrite Hmode|by rewrite Hmode].
Qed.

Section calls.
Context `{HO : Host} `{!HostNames HO} (fuel : nat) (m : mount) (s : overlayState) (call : oscall).
Hypotheses (Hm : mount_self m) (Hmode : m_mode m = Overlay) (Hs : m_overlay m = Some s)
  (Hsized : call_sized call) (Hpath : len (oc_path call) <= 4096) (Hdst : oc_op call = OpRename -> len (oc_dst call) <= 4096).

Lemma run_effect h log : makes_parents call = false ->
  let '(r, (m', _)) := run fuel m call (h, log) in
  match r with XRet _ => exists mode, runs_with call mode /\ effect m s call mode m' | _ => m' = m end.
Proof.
  intros Hp. assert ((exists e, oc_op call = OpOpen /\ CanonicalFileMode (oc_mode call) = Err e) \/ exists mode, runs_with call mode) as [(e & Ho & He)|[mode Hr]].
  { unfold runs_with. destruct (Z.eqb_spec (oc_op call) OpOpen); [|eauto]. destruct (CanonicalFileMode (oc_mode call)); eauto. }
  { unfold run, execute. rewrite Ho, He. reflexivity. }
  rewrite (run_overlay fuel m call mode) by done. unfold overlayExecute, as_executor. cbn [fst snd].
  assert (call_fits call mode) as Hfits.
  { destruct Hsized as [H1 H2]. constructor; try done. intros Ho. unfold runs_with in Hr. rewrite Ho, Z.eqb_refl in Hr. by eapply canonical_nonempty. }
  pose proof (tx_execute fuel m s Hm Hmode Hs call mode Hfits Hp (St m h log) eq_refl) as H.
  destruct (overlay_execute fuel call mode (St m h log)) as [[v|e| |] s']; eauto.
Qed.
End calls.


Definition sample_mount : mount := mount_of (Spec (go "/data") 3 Overlay (Some 100) 10000).

Lemma sample_mount_ok : mount_self sample_mount.
Proof. apply mount_of_ok. exact (Forall_inv sample_specs_ok). Qed.


(** What the store alone answers about an entry; [None] where the host is asked. *)
Definition store_answer (limit usage : Z) (e : overlayEntry) (path : bytes) (op : Z) : option (xres value) :=
  let kind := oe_kind e in
  if op =? OpExists then Some (XRet (VBool (negb (bool_decide (kind = entDeleted)))))
  else if op =? OpIsFile then Some (XRet (VBool (bool_decide (kind = entFile) || bool_decide (kind = entRealFileRef))))
  else if op =? OpIsDir then Some (XRet (VBool (bool_decide (kind = entDirectory))))
  else if op =? OpIsSymlink then Some (XRet (VBool false))
  else if op =? OpReadBytes then
    match kind with
    | entFile => Some (if len (oe_content e) <=? limit - usage then XRet (VBytes (oe_content e)) else XFail (MMemoryLimit limit))
    | entRealFileRef => None
    | entDirectory => Some (XFail (isADirectory path))
    | entDeleted => Some (XFail (notFound path))
    end
  else if op =? OpStat then
    match kind with
    | entFile => Some (XRet (fileStat (len (oe_content e)) (oe_mtime e)))
    | entRealFileRef => None
    | entDirectory => Some (XRet (dirStat (oe_mtime e)))
    | entDeleted => Some (XFail (notFound path))
    end
  else None.

Section shadow.
Context `{HO : Host} (fuel : nat) (m : mount) (s : overlayState) (path rel : bytes) (e : overlayEntry) (st0 : st).
Hypotheses (Hm : st_mount st0 = m) (Hs : m_overlay m = Some s) (He : os_get s rel = Some e).

Lemma entry_at_stored : entry_at rel st0 = (XRet (Some e), st0).
Proof. unfold entry_at, get_store, get_mount, mbind, X_bind, mret, X_ret. by rewrite Hm, Hs, He. Qed.

Lemma predicate_stored p q : overlayPredicate rel path p q st0 = (XRet (VBool (p (oe_kind e))), st0).
Proof. unfold overlayPredicate, mbind, X_bind. by rewrite entry_at_stored. Qed.

Lemma symlink_stored : overlayIsSymlink rel path st0 = (XRet false, st0).
Proof. unfold overlayIsSymlink, mbind, X_bind. by rewrite entry_at_stored. Qed.

Lemma read_stored : oe_kind e <> entRealFileRef -> overlayRead fuel rel path st0 =
  (match oe_kind e with
   | entFile => if len (oe_content e) <=? m_memory_limit m - os_usage s then XRet (oe_content e) else XFail (MMemoryLimit (m_memory_limit m))
   | entDirectory => XFail (isADirectory path)
   | _ => XFail (notFound path)
   end, st0).
Proof.
  intros Hk. unfold overlayRead, availableMemory, the_dir, get_store, get_mount, mbind, X_bind. rewrite entry_at_stored. cbn.
  destruct (oe_kind e); try done. rewrite Hm, Hs. cbn. rewrite ?Hm. destruct (Z.ltb_spec (m_memory_limit m) (os_usage s)); cbn.
  - pose proof (len_nonneg (oe_content e)). by rewrite (proj2 (Z.leb_gt _ _)) by lia.
  - unfold mb_check. cbn. destruct (Z.ltb_spec (m_memory_limit m - os_usage s) (len (oe_content e))).
    + by rewrite (proj2 (Z.leb_gt _ _)) by lia.
    + by rewrite (proj2 (Z.leb_le _ _)) by lia.
Qed.

Lemma stat_stored : oe_kind e <> entRealFileRef -> overlayStat rel path st0 =
  (match oe_kind e with
   | entFile => XRet (fileStat (len (oe_content e)) (oe_mtime e))
   | entDirectory => XRet (dirStat (oe_mtime e))
   | _ => XFail (notFound path)
   end, st0).
Proof. intros Hk. unfold overlayStat, mbind, X_bind. rewrite entry_at_stored. cbn. destruct (oe_kind e); try done; reflexivity. Qed.
End shadow.

(** The branch of a known operation. *)
Ltac pick_op E := apply Z.eqb_eq in E; rewrite E;
  repeat match goal with |- context[Z.eqb ?a ?b] =>
    let r := eval vm_compute in (Z.eqb a b) in first [constr_eq r true | constr_eq r false]; change (Z.eqb a b) with r end;
  cbn [orb]; unfold mbind, X_bind.

Lemma run_stored `{HO : Host} fuel m s call rel e r h log : m_mode m = Overlay -> m_overlay m = Some s ->
  relative_to m (oc_path call) rel -> os_get s rel = Some e ->
  store_answer (m_memory_limit m) (os_usage s) e (oc_path call) (oc_op call) = Some r ->
  run fuel m call (h, log) = (r, (m, (h, log))).
Proof.
  intros Hmode Hs Hrel He Hr.
  assert (oc_op call <> OpOpen) as Hop by (intros E; rewrite E in Hr; discriminate Hr).
  rewrite (run_overlay fuel m call []); [|done|unfold runs_with; by rewrite (proj2 (Z.eqb_neq _ _))].
  unfold overlayExecute, as_executor. cbn [fst snd]. set (st0 := St m h log).
  assert (overlay_execute fuel call [] st0 = (r, st0)) as ->; [|done]. unfold overlay_execute, store_answer in *. cbv zeta in *.
  assert (resolve_path (oc_path call) st0 = (XRet rel, st0)) as Hres.
  { unfold resolve_path, get_mount, mbind, X_bind. cbn. unfold relative_to in Hrel. by rewrite Hrel. }
  destruct (oc_op call =? OpExists) eqn:E1; [pick_op E1; rewrite Hres, (predicate_stored m s _ rel e) by done; by injection Hr as <-|].
  destruct (oc_op call =? OpIsFile) eqn:E2; [pick_op E2; rewrite Hres, (predicate_stored m s _ rel e) by done; by injection Hr as <-|].
  destruct (oc_op call =? OpIsDir) eqn:E3; [pick_op E3; rewrite Hres, (predicate_stored m s _ rel e) by done; by injection Hr as <-|].
  destruct (oc_op call =? OpIsSymlink) eqn:E4; [pick_op E4; rewrite Hres, (symlink_stored m s _ rel e) by done; by injection Hr as <-|].
  destruct (oc_op call =? OpReadBytes) eqn:E5.
  { pick_op E5. rewrite Hres, (read_stored fuel m s _ _ e) by (done || by intros Ek; rewrite Ek in Hr).
    destruct (oe_kind e); try discriminate Hr; injection Hr as <-; try done. by destruct (_ <=? _). }
  destruct (oc_op call =? OpStat) eqn:E6; [|done].
  pick_op E6. rewrite Hres, (stat_stored m s _ _ e) by (done || by intros Ek; rewrite Ek in Hr).
  destruct (oe_kind e); try discriminate Hr; by injection Hr as <-.
Qed.

(** The store shadows the host: about a path that has an entry in the
    store of an overlay mount, every query is answered from the entry alone.
    Nothing is asked of the host and neither the mount nor the host changes,
    whatever the host has at that path. A deleted entry does not exist and its
    file is not found; a file's contents are returned when they fit into the
    memory that is left. Only the contents of a file that was renamed without
    being read are still taken from the host. *)
Theorem store_shadows_host `{HO : Host} (fuel : nat) (m : mount) (s : overlayState) (call : oscall) (rel : bytes)
    (e : overlayEntry) (r : xres value) (h : host) (log : list hcall) :
  m_mode m = Overlay -> m_overlay m = Some s -> resolveVirtualPath (oc_path call) (m_virtual m) = inl rel -> os_get s rel = Some e ->
  store_answer (m_memory_limit m) (os_usage s) e (oc_path call) (oc_op call) = Some r ->
  run fuel m call (h, log) = (r, (m, (h, log))).
Proof. apply run_stored. Qed.

(** A file of the host that is marked as deleted. *)
Lemma store_shadows_host_witness :
  let s := (os_insert (go "a.txt") deletedEntry 10000 newOverlayState).2 in
  let m := set_overlay s sample_mount in
  run 10 m (sample_call OpReadBytes "/data/a.txt" "" "") start = (XFail (notFound (go "/data/a.txt")), (m, start)).
Proof.
  intros s m. unfold start. apply (store_shadows_host (HO := tree_host) 10 m s _ (go "a.txt") deletedEntry _ sample_tree []); vm_compute; reflexivity.
Defined.

Section afterwards.
Context (m : mount) (s : overlayState).
Hypothesis Hs : m_overlay m = Some s.

Lemma stores_lookup rel e m' : stores m s rel e m' ->
  exists s', m_overlay m' = Some s' /\ os_get s' rel = Some e /\ m_virtual m' = m_virtual m /\ m_mode m' = m_mode m
    /\ m_memory_limit m' = m_memory_limit m.
Proof.
  intros (s' & Hi & ->). exists s'. split_and!; try done. unfold os_get. unfold os_insert in Hi. destruct (_ <? _); [done|].
  injection Hi as <-. cbn. apply lookup_insert_eq.
Qed.

Lemma commit_same m' n : m_overlay (commitWriteBytes m' n) = m_overlay m' /\ m_virtual (commitWriteBytes m' n) = m_virtual m'
  /\ m_mode (commitWriteBytes m' n) = m_mode m' /\ m_memory_limit (commitWriteBytes m' n) = m_memory_limit m'.
Proof. unfold commitWriteBytes. by destruct (m_write_limit m'). Qed.
End afterwards.

(** The data a write stores. *)
Definition write_data (call : oscall) : option bytes :=
  if oc_op call =? OpWriteText then Some (oc_text call)
  else if oc_op call =? OpWriteBytes then Some (oc_data call)
  else None.

(** C17. Reads see the last write. After a write to an overlay mount that
    succeeded, reading the same path returns exactly the data written, or the
    memory error when what is left of the memory limit is less than the data; and
    after an unlink or rmdir that succeeded the path does not exist. Both hold
    whatever the host answered to the first call and whatever it has become by
    the second. *)
Theorem overlay_reads_last_write `{HO : Host} `{!HostNames HO} (fuel : nat) (m : mount) (s : overlayState)
    (call query : oscall) (h : host) (log : list hcall) (v : value) (m' : mount) (hl hl2 : host * list hcall) :
  mount_self m -> m_mode m = Overlay -> m_overlay m = Some s -> call_sized call -> len (oc_path call) <= 4096 ->
  run fuel m call (h, log) = (XRet v, (m', hl)) -> oc_path query = oc_path call ->
  (forall data, write_data call = Some data -> oc_op query = OpReadBytes ->
     exists s', m_overlay m' = Some s' /\ run fuel m' query hl2 =
       (if len data <=? m_memory_limit m - os_usage s' then XRet (VBytes data) else XFail (MMemoryLimit (m_memory_limit m)), (m', hl2)))
  /\ ((oc_op call = OpUnlink \/ oc_op call = OpRmdir) -> oc_op query = OpExists -> run fuel m' query hl2 = (XRet (VBool false), (m', hl2))).
Proof.
  intros Hm Hmode Hs Hsized Hpath Hrun Hq. destruct hl2 as [h2 log2].
  assert (forall e r, (exists rel m1, relative_to m (oc_path call) rel /\ stores m s rel e m1 /\ (m' = m1 \/ m' = commitWriteBytes m1 (len (oe_content e)))) ->
    exists s', m_overlay m' = Some s' /\ (store_answer (m_memory_limit m) (os_usage s') e (oc_path query) (oc_op query) = Some (r s') ->
      run fuel m' query (h2, log2) = (r s', (m', (h2, log2))))) as Hafter.
  { intros e r (rel & m1 & Hrel & Hst & Hm'). destruct (stores_lookup m s rel e m1 Hst) as (s' & L1 & L2 & L3 & L4 & L5).
    exists s'. assert (m_overlay m' = Some s' /\ m_virtual m' = m_virtual m /\ m_mode m' = m_mode m /\ m_memory_limit m' = m_memory_limit m) as (M1 & M2 & M3 & M4).
    { destruct Hm' as [->| ->]; [by rewrite L1, L3, L4, L5|]. destruct (commit_same m1 (len (oe_content e))) as (-> & -> & -> & ->).
      by rewrite L1, L3, L4, L5. }
    split; [done|]. intros Ha. apply (run_stored fuel m' s' query rel e); [by rewrite M3|done| |done|by rewrite M4].
    unfold relative_to in *. by rewrite M2, Hq. }
  assert (oc_op call <> OpRename -> makes_parents call = false -> exists mode, runs_with call mode /\ effect m s call mode m') as Heff.
  { intros Hop Hp. pose proof (run_effect fuel m s call Hm Hmode Hs Hsized Hpath ltac:(done) h log Hp) as H. by rewrite Hrun in H. }
  split.
  - intros data Hdata Hread.
    assert (written m s (oc_path call) data m') as (rel & now & m1 & Hw).
    { unfold write_data in Hdata. destruct (oc_op call =? OpWriteText) eqn:E1; [|destruct (oc_op call =? OpWriteBytes) eqn:E2; [|done]];
        injection Hdata as <-; [pose proof E1 as E|pose proof E2 as E]; apply Z.eqb_eq in E;
        (destruct Heff as (mode & _ & Hw); [by rewrite E|unfold makes_parents; by rewrite E|]);
        unfold effect in Hw; rewrite ?E1, ?E2 in Hw; exact Hw. }
    destruct Hw as (Hrel & Hst & ->).
    destruct (Hafter (fileEntry data now) (fun s' => if len data <=? m_memory_limit m - os_usage s' then XRet (VBytes data)
      else XFail (MMemoryLimit (m_memory_limit m)))) as (s' & Hs' & Ha); [exists rel, m1; auto|]. exists s'. split; [done|].
    apply Ha. unfold store_answer. by rewrite Hread.
  - intros Hop Hex.
    assert (exists rel, relative_to m (oc_path call) rel /\ stores m s rel deletedEntry m') as (rel & Hrel & Hst).
    { destruct Heff as (mode & _ & Hw); [by destruct Hop as [-> | ->]|unfold makes_parents; by destruct Hop as [-> | ->]|].
      unfold effect in Hw. destruct Hop as [E|E]; rewrite E in Hw; exact Hw. }
    destruct (Hafter deletedEntry (fun _ => XRet (VBool false))) as (s' & Hs' & Ha); [exists rel, m'; auto|]. apply Ha.
    unfold store_answer. by rewrite Hex.
Qed.

Definition emptied : host * list hcall := (Tree ∅ ∅ 4 : host (Host := tree_host), []).

(** A write over a file of the host, read back after the host's file has gone. *)
Lemma overlay_reads_last_write_witness :
  let call := sample_call OpWriteText "/data/a.txt" "" "mine" in
  let '(_, (m', _)) := run 10 sample_mount call start in
  run 10 m' (sample_call OpReadBytes "/data/a.txt" "" "") emptied = (XRet (VBytes (go "mine")), (m', emptied)).
Proof.
  intros call. destruct (run 10 sample_mount call start) as [r [m' hl]] eqn:E.
  assert (r = XRet (VInt KInt64 4)) as -> by (apply (f_equal fst) in E; cbn [fst] in E; rewrite <- E; vm_compute; reflexivity).
  assert (m' = (run 10 sample_mount call start).2.1) as Em by (rewrite E; reflexivity).
  destruct (proj1 (overlay_reads_last_write (HO := tree_host) 10 sample_mount newOverlayState call (sample_call OpReadBytes "/data/a.txt" "" "") sample_tree []
    (VInt KInt64 4) m' hl emptied sample_mount_ok eq_refl eq_refl ltac:(split; reflexivity) ltac:(vm_compute; discriminate) E eq_refl)
    (go "mine") eq_refl eq_refl) as (s' & Hs' & H).
  rewrite H. assert (option_map os_usage (m_overlay m') = Some 313) as Hu by (rewrite Em; vm_compute; reflexivity).
  rewrite Hs' in Hu. cbn in Hu. injection Hu as ->. reflexivity.
Defined.

(** ** Renaming a directory that cannot be listed

    Errors of listing other than the three kinds [fatal] names are dropped: the
    rename succeeds without the host's descendants. The directory has moved, but
    what was in it is still at the old path and not at the new one. *)

Definition unlistable : Host := {|
  host := tree; Stat := @Stat tree_host; Lstat := @Lstat tree_host; OpenRoot := @OpenRoot tree_host; OpenFile := @OpenFile tree_host;
  FStat := @FStat tree_host; Read := @Read tree_host; WriteTo := @WriteTo tree_host;
  ReadDir d t := ([], Some (RErr (errno "permission denied" EACCES)), t);
  Mkdir := @Mkdir tree_host; Remove := @Remove tree_host; RenameIn := @RenameIn tree_host; Close := @Close tree_host; Now := @Now tree_host;
  append_cap := @append_cap tree_host; unlinkDirErrno := @unlinkDirErrno tree_host; errno_text := @errno_text tree_host |}.

Example rename_leaves_descendants :
  (serve_all (HO := unlistable) 10
    [sample_call OpRename "/data/dir" "/data/moved" ""; sample_call OpExists "/data/dir" "" ""; sample_call OpExists "/data/dir/b.txt" "" "";
     sample_call OpIsDir "/data/moved" "" ""; sample_call OpExists "/data/moved/b.txt" "" ""] (NewTable sample_specs) start).1
  = [Some (XRet VNil); Some (XRet (VBool false)); Some (XRet (VBool true)); Some (XRet (VBool true)); Some (XRet (VBool false))].
Proof. vm_compute. reflexivity. Qed.
