(* ===== verification/Descriptors.v ===== *)
(** Descriptors: what a call on a mount opens it also closes, on every path. *)

From S2P Require Import Prelude Utf8 GoStrings VPath Protowire Proto Values ValueCodec CodecSpec Exceptions.
From S2P Require Import Events ValueFacts MountPath Utf8Facts OverlayState MountTable HostFs Direct Overlay OverlayRename MountLogic.
From S2P Require Import MountSafety MountWriting TreeHost MountServe.

(** The descriptors opened and closed in a log. *)
Definition opened_in (cs : list hcall) : list Z := omap (fun c => match c with COpened fd => Some fd | _ => None end) cs.
Definition closed_in (cs : list hcall) : list Z := omap (fun c => match c with CClose fd => Some fd | _ => None end) cs.

Section tidy.
Context `{HO : Host}.

(** From the descriptors [held], the log from [s] to [s'] leaves [rest]. *)
Definition leaves (held rest : list Z) (s s' : st) : Prop :=
  exists cs, st_log s' = st_log s ++ cs /\ opened_in cs ++ held ≡ₚ closed_in cs ++ rest.

(** [tidy held m F]: [m], started with the descriptors [held] open, has [F a] open
    when it returns [a], and none when it fails. *)
Definition tidy {A} (held : list Z) (m : X A) (F : A -> list Z) : Prop := forall s,
  match m s with
  | (XRet a, s') => leaves held (F a) s s'
  | (XFail _, s') => leaves held [] s s'
  | _ => True
  end.

Lemma leaves_refl held s : leaves held held s s.
Proof. exists []. by rewrite app_nil_r. Qed.

Lemma leaves_trans a b c s1 s2 s3 : leaves a b s1 s2 -> leaves b c s2 s3 -> leaves a c s1 s3.
Proof.
  intros (cs & E1 & H1) (ds & E2 & H2). exists (cs ++ ds). rewrite E2, E1, app_assoc. split; [done|].
  assert (opened_in (cs ++ ds) = opened_in cs ++ opened_in ds) as -> by apply omap_app.
  assert (closed_in (cs ++ ds) = closed_in cs ++ closed_in ds) as -> by apply omap_app.
  rewrite (Permutation_app_comm (opened_in cs)), <- app_assoc, H1, app_assoc, (Permutation_app_comm (opened_in ds)), <- !app_assoc. by rewrite H2.
Qed.

Lemma leaves_frame held rest more s s' : leaves held rest s s' -> leaves (held ++ more) (rest ++ more) s s'.
Proof. intros (cs & E & H). exists cs. split; [done|]. by rewrite !app_assoc, H. Qed.

Lemma tidy_ret {A} (a : A) F : tidy (F a) (mret a) F.
Proof. intros s. apply leaves_refl. Qed.

Lemma tidy_returns {A} held (a : A) F : held = F a -> tidy held (mret a) F.
Proof. intros ->. apply tidy_ret. Qed.

Lemma tidy_fail {A} e (F : A -> list Z) : tidy [] (fail e) F.
Proof. intros s. apply leaves_refl. Qed.

Lemma tidy_hangs {A} held (F : A -> list Z) : tidy held hangs F.
Proof. by intros s. Qed.

Lemma tidy_panics {A} held (F : A -> list Z) : tidy held panics F.
Proof. by intros s. Qed.

Lemma tidy_bind {A B} held (m : X A) (f : A -> X B) F G : tidy held m F -> (forall a, tidy (F a) (f a) G) -> tidy held (m ≫= f) G.
Proof.
  intros Hm Hf s. specialize (Hm s). unfold mbind, X_bind. destruct (m s) as [[a|e| |] s1]; try done.
  specialize (Hf a s1). destruct (f a s1) as [[b|e| |] s2]; try done; by eapply leaves_trans.
Qed.

(** A program whose errors are looked at may run with other descriptors open. *)
Lemma tidy_catch {A} held (m : X A) F : tidy [] m F -> tidy held (catch m) (fun r => match r with inl _ => [] | inr a => F a end ++ held).
Proof.
  intros Hm s. specialize (Hm s). unfold catch. destruct (m s) as [[a|e| |] s']; try done; by apply (leaves_frame [] _ held) in Hm.
Qed.

Lemma tidy_ask {A} held c (op : host -> A * host) : (match c with COpened _ | CClose _ => False | _ => True end) ->
  tidy held (ask c op) (fun _ => held).
Proof. intros Hc s. unfold ask. destruct (op (st_host s)) as [a h]. exists [c]. split; [done|]. by destruct c. Qed.

Lemma tidy_opened r : tidy [] (opened r) (fun r => match r with inr fd => [fd] | inl _ => [] end).
Proof. intros s. destruct r as [e|fd]; [apply leaves_refl|]. exists [COpened fd]. by split. Qed.

Lemma tidy_close fd held : tidy (fd :: held) (close fd) (fun _ => held).
Proof. intros s. exists [CClose fd]. by split. Qed.

Lemma tidy_deferring {A} fd (m : X A) : tidy [] m (fun _ => []) -> tidy [fd] (deferring (close fd) m) (fun _ => []).
Proof.
  intros Hm. unfold deferring. eapply tidy_bind; [apply tidy_catch, Hm|]. intros r.
  eapply (tidy_bind _ _ _ (fun _ => [])); [destruct r; apply tidy_close|]. intros _. destruct r; [apply tidy_fail|apply (tidy_ret _ (fun _ => []))].
Qed.

(** Programs that leave nothing open. *)
Definition neat {A} (m : X A) : Prop := tidy [] m (fun _ => []).

Lemma neat_bind {A B} (m : X A) (f : A -> X B) : neat m -> (forall a, neat (f a)) -> neat (m ≫= f).
Proof. apply tidy_bind. Qed.
Lemma neat_ret {A} (a : A) : neat (mret a).
Proof. apply (tidy_ret a (fun _ => [])). Qed.
Lemma neat_fail {A} e : neat (A := A) (fail e).
Proof. apply tidy_fail. Qed.
Lemma neat_hangs {A} : neat (A := A) hangs.
Proof. apply tidy_hangs. Qed.
Lemma neat_panics {A} : neat (A := A) panics.
Proof. apply tidy_panics. Qed.
Lemma neat_lift {A} (r : mres A) : neat (lift r).
Proof. destruct r; [apply neat_ret|apply neat_fail]. Qed.
Lemma neat_check r : neat (check r).
Proof. destruct r; [apply neat_fail|apply neat_ret]. Qed.
Lemma neat_catch {A} (m : X A) : neat m -> neat (catch m).
Proof. intros Hm s. pose proof (tidy_catch [] m _ Hm s) as H. destruct (catch m s) as [[[e|a]|e| |] s']; done. Qed.
Lemma neat_get : neat get_mount.
Proof. intros s. apply leaves_refl. Qed.
Lemma neat_put m : neat (put_mount m).
Proof. intros s. exists []. by rewrite app_nil_r. Qed.
Lemma neat_now : neat currentTimestamp.
Proof. intros s. unfold currentTimestamp. destruct (Now (st_host s)). exists []. by rewrite app_nil_r. Qed.
Lemma neat_ask {A} c (op : host -> A * host) : (match c with COpened _ | CClose _ => False | _ => True end) -> neat (ask c op).
Proof. by apply tidy_ask. Qed.
End tidy.

Create HintDb descriptors.
#[export] Hint Resolve neat_ret neat_fail neat_hangs neat_panics neat_lift neat_check neat_catch neat_get neat_put neat_now : descriptors.

(** Steps through binds and branches, with the programs that are known. *)
Ltac neat_step :=
  lazymatch goal with
  | |- forall _, _ => intros ?
  | |- neat (mbind _ _) => apply neat_bind
  | |- neat (if ?b then _ else _) => destruct b
  | |- neat (match ?x with _ => _ end) => destruct x
  | |- neat (let _ := _ in _) => cbv zeta
  | |- neat (catch _) => apply neat_catch
  | |- neat _ => solve [auto with descriptors]
  end.
Ltac neat := repeat neat_step.

Section programs.
Context `{HO : Host} (fuel : nat).

Definition fds (r : oserr + Z) : list Z := match r with inr fd => [fd] | inl _ => [] end.

Lemma tidy_perm {A} held held' (m : X A) F : held ≡ₚ held' -> tidy held m F -> tidy held' m F.
Proof.
  intros Hp Hm s. specialize (Hm s). destruct (m s) as [[a|e| |] s']; try done; destruct Hm as (cs & E & H); exists cs; by rewrite <- Hp.
Qed.

Lemma tidy_opened_held held r : tidy held (opened r) (fun r => fds r ++ held).
Proof.
  intros s. pose proof (tidy_opened r s) as H. destruct (opened r s) as [[a|e| |] s'] eqn:E; try done; [by apply (leaves_frame [] _ held) in H|].
  by destruct r.
Qed.

Lemma tidy_open_root held d p : tidy held (open_root d p) (fun r => fds r ++ held).
Proof. eapply tidy_bind; [by apply tidy_ask|]. intros r. apply tidy_opened_held. Qed.

Lemma tidy_open_file d p fl : tidy [] (open_file d p fl) fds.
Proof.
  eapply tidy_bind; [by apply tidy_ask|]. intros r s. pose proof (tidy_opened_held [] r s) as H.
  destruct (opened r s) as [[a|e| |] s']; try done. by rewrite app_nil_r in H.
Qed.

(** *** Asking the host *)
Lemma n_stat d p : neat (stat d p).
Proof. by apply neat_ask. Qed.
Lemma n_lstat d p : neat (lstat d p).
Proof. by apply neat_ask. Qed.
Lemma n_fstat f : neat (fstat f).
Proof. by apply neat_ask. Qed.
Lemma n_read f n : neat (fread f n).
Proof. by apply neat_ask. Qed.
Lemma n_write f data : neat (fwrite f data).
Proof. by apply neat_ask. Qed.
Lemma n_read_dir f : neat (read_dir f).
Proof. by apply neat_ask. Qed.
Lemma n_mkdir d p : neat (mkdir d p).
Proof. by apply neat_ask. Qed.
Lemma n_remove d p : neat (remove d p).
Proof. by apply neat_ask. Qed.
Lemma n_rename d p q : neat (rename d p q).
Proof. by apply neat_ask. Qed.
#[local] Hint Resolve n_stat n_lstat n_fstat n_read n_write n_read_dir n_mkdir n_remove n_rename : descriptors.

Lemma n_stat_test d p t : neat (stat_test d p t).
Proof. unfold stat_test. neat. Qed.
Lemma n_hostExists d p : neat (hostExists d p).
Proof. apply n_stat_test. Qed.
Lemma n_hostIsDir d p : neat (hostIsDir d p).
Proof. apply n_stat_test. Qed.
Lemma n_hostIsFile d p : neat (hostIsFile d p).
Proof. apply n_stat_test. Qed.
Lemma n_hostIsSymlink d p : neat (hostIsSymlink d p).
Proof. unfold hostIsSymlink. neat. Qed.
Lemma n_hostDirMtime d p : neat (hostDirMtime d p).
Proof. unfold hostDirMtime. neat. Qed.
Lemma n_rejectNonRegular d p v : neat (rejectNonRegular d p v).
Proof. unfold rejectNonRegular. neat. Qed.
Lemma n_hostStat d p v : neat (hostStat d p v).
Proof. unfold hostStat. neat. Qed.
#[local] Hint Resolve n_hostExists n_hostIsDir n_hostIsFile n_hostIsSymlink n_hostDirMtime n_rejectNonRegular n_hostStat : descriptors.

(** *** Files *)
Lemma t_openRegular d p v fl : tidy [] (openRegular d p v fl) (fun f => [f]).
Proof.
  unfold openRegular. eapply tidy_bind; [apply tidy_open_file|]. intros [e|f]; cbn [fds]; [apply tidy_fail|].
  eapply tidy_bind; [by apply tidy_ask|]. intros [e|fi]; cbn.
  - eapply tidy_bind; [apply tidy_close|]. intros []. apply tidy_fail.
  - destruct (IsRegular fi); [apply (tidy_ret f (fun f => [f]))|]. eapply tidy_bind; [apply tidy_close|]. intros [].
    destruct (IsDir fi); apply tidy_fail.
Qed.

Lemma n_read_loop n f buf cap limit : neat (read_loop n f buf cap limit).
Proof.
  revert buf cap. induction n as [|n IH]; intros buf cap; cbn [read_loop]; [neat|]. destruct (_ <? _); [|neat]. cbv zeta.
  apply neat_bind; [neat|]. intros [data err]. neat; apply IH.
Qed.

Lemma n_with_file {A} d p v fl (m : Z -> X A) : (forall f, neat (m f)) -> neat (f ← openRegular d p v fl; deferring (close f) (m f)).
Proof. intros Hm. eapply tidy_bind; [apply t_openRegular|]. intros f. apply tidy_deferring, Hm. Qed.

Lemma n_readFileLimited d p v b : neat (readFileLimited fuel d p v b).
Proof.
  unfold readFileLimited. apply neat_bind; [neat|]. intros _. apply n_with_file. intros f. apply neat_bind; [neat|].
  intros [e|fi]; [neat|]. cbv zeta. apply neat_bind; [neat|]. intros _. apply neat_bind; [apply n_read_loop|]. intros [c err]. neat.
Qed.

Lemma n_writeWithFlags d p c v fl : neat (writeWithFlags d p c v fl).
Proof. unfold writeWithFlags. apply neat_bind; [neat|]. intros _. apply n_with_file. intros f. neat. Qed.

Lemma n_create_dirs n d p : neat (create_dirs n d p).
Proof. revert p. induction n as [|n IH]; intros p; cbn [create_dirs]; neat. Qed.

Lemma n_hostMkdir d p a b v : neat (hostMkdir d p a b v).
Proof. unfold hostMkdir, createDirAll. neat; apply n_create_dirs. Qed.
Lemma n_hostUnlink d p v : neat (hostUnlink d p v).
Proof. unfold hostUnlink. neat. Qed.
Lemma n_hostRmdir d p v : neat (hostRmdir d p v).
Proof. unfold hostRmdir. neat. Qed.
#[local] Hint Resolve n_readFileLimited n_writeWithFlags n_hostMkdir n_hostUnlink n_hostRmdir : descriptors.

(** *** Listings *)
Section each.
Context {S : Type} (fn : S -> direntry -> X (S * bool)) (Hfn : forall acc e, neat (fn acc e)).

Lemma n_each_entry batch acc : neat (each_entry fn batch acc).
Proof.
  revert acc. induction batch as [|e batch IH]; intros acc; cbn [each_entry]; [neat|]. apply neat_bind; [apply Hfn|].
  intros [acc' stop]. destruct stop; [neat|apply IH].
Qed.

Lemma n_each_batch n f v acc : neat (each_batch fn n f v acc).
Proof.
  revert acc. induction n as [|n IH]; intros acc; cbn [each_batch]; [neat|]. apply neat_bind; [neat|]. intros [batch err].
  apply neat_bind; [apply n_each_entry|]. intros [acc' stop]. neat; apply IH.
Qed.
End each.

Lemma n_with_dir {A} d p v (m : Z -> X A) : (forall f, neat (m f)) ->
  neat (r ← openDir d p; match r with inl err => fail (mapIO err v) | inr f => deferring (close f) (m f) end).
Proof.
  intros Hm. eapply tidy_bind; [apply tidy_open_file|]. intros [e|f]; cbn [fds]; [apply tidy_fail|]. apply tidy_deferring, Hm.
Qed.

Lemma n_list_names d p v b : neat (hostListVisibleDirEntryNames fuel d p v b).
Proof.
  unfold hostListVisibleDirEntryNames. apply neat_bind; [neat|]. intros [e|_]; [neat|]. apply n_with_dir. intros f.
  apply neat_bind; [apply n_each_batch|intros [names usage]; neat]. intros [names usage] e. unfold visible_entry. neat.
Qed.
#[local] Hint Resolve n_list_names : descriptors.

Lemma n_hostIterdir d p v b : neat (hostIterdir fuel d p v b).
Proof. unfold hostIterdir. neat. Qed.
#[local] Hint Resolve n_hostIterdir : descriptors.

(** *** Read-only and read-write mounts *)
Lemma n_check_write n : neat (check_write n).
Proof. unfold check_write. neat. Qed.
Lemma n_commit_write n : neat (commit_write n).
Proof. unfold commit_write. neat. Qed.
Lemma n_resolve_path v : neat (resolve_path v).
Proof. unfold resolve_path. neat. Qed.
Lemma n_the_dir : neat the_dir.
Proof. unfold the_dir. neat. Qed.
#[local] Hint Resolve n_check_write n_commit_write n_resolve_path n_the_dir : descriptors.

Lemma n_directWrite v data r a : neat (directWrite v data r a).
Proof. unfold directWrite, writeBytesToFile, appendBytesToFile. neat. Qed.
Lemma n_directOpen v mode : neat (directOpen v mode).
Proof. unfold directOpen, writeBytesToFile, appendBytesToFile. neat. Qed.
Lemma n_directRename v dst : neat (directRename v dst).
Proof. unfold directRename. neat. Qed.
Lemma n_boolQuery v q : (forall d p, neat (q d p)) -> neat (boolQuery v q).
Proof. intros Hq. unfold boolQuery. neat. Qed.
#[local] Hint Resolve n_directWrite n_directOpen n_directRename n_boolQuery : descriptors.

Lemma n_direct_execute call mode : neat (direct_execute fuel call mode).
Proof. unfold direct_execute, unit_result. neat. Qed.

(** *** Walking components *)
Definition current (w : componentWalk) : list Z := option_list (cw_current w).

Lemma n_classifyTarget d p v : neat (classifyTarget d p v).
Proof. unfold classifyTarget. neat. Qed.

Lemma t_walk_close w held : tidy (current w ++ held) (walk_close w) (fun _ => held).
Proof. unfold walk_close, current. destruct (cw_current w); cbn; [apply tidy_close|apply (tidy_ret tt (fun _ => held))]. Qed.

Lemma t_step w c v : tidy (current w) (step w c v) (fun r => current r.1).
Proof.
  unfold step. destruct (cw_exhausted w); [by apply tidy_returns|].
  eapply tidy_bind; [apply tidy_catch, n_classifyTarget|]. intros [e|target]; cbn [app]; [by apply tidy_returns|].
  destruct (negb _); [by apply tidy_returns|].
  eapply tidy_bind; [apply tidy_open_root|]. intros [e|next]; cbn [fds app]; [destruct (missing e); by apply tidy_returns|].
  eapply tidy_bind; [eapply tidy_perm; [|apply (t_walk_close w [next])]; by rewrite Permutation_app_comm|]. intros []. by apply tidy_returns.
Qed.

Lemma t_close_fail {A} w e : tidy (current w) (_ ← walk_close w; fail (A := A) e) (fun _ => []).
Proof.
  eapply tidy_bind; [eapply tidy_perm; [|apply (t_walk_close w [])]; by rewrite app_nil_r|]. intros []. apply tidy_fail.
Qed.

Lemma t_walk_done w : tidy (current w) (walk_close w) (fun _ => []).
Proof. eapply tidy_perm; [|apply (t_walk_close w [])]. by rewrite app_nil_r. Qed.

Lemma t_walk {S} (body : S -> bytes -> realTarget -> X (S + ())) vpath_of w acc components :
  (forall acc c t, neat (body acc c t)) -> tidy (current w) (walk_components body vpath_of w acc components) (fun _ => []).
Proof.
  intros Hb. revert w acc. induction components as [|c components IH]; intros w acc; cbn [walk_components]; [apply t_walk_done|].
  eapply tidy_bind; [apply t_step|]. intros [w' [target|e]]; cbn [fst]; [|apply t_close_fail].
  eapply tidy_bind; [apply tidy_catch, Hb|]. intros [e|[acc'|[]]]; cbn [app]; [apply t_close_fail|apply IH|apply t_walk_done].
Qed.

Lemma n_walk {S} (body : S -> bytes -> realTarget -> X (S + ())) vpath_of d acc components :
  (forall acc c t, neat (body acc c t)) -> neat (walk_components body vpath_of (ComponentWalk d None false) acc components).
Proof. intros Hb. by apply (t_walk body vpath_of (ComponentWalk d None false)). Qed.
#[local] Hint Resolve n_classifyTarget n_walk : descriptors.

(** *** Overlay mounts *)
Lemma n_rejectSymlinkChain d p v : neat (rejectSymlinkChain d p v).
Proof. unfold rejectSymlinkChain. destruct (_ || _); [neat|]. apply n_walk. neat. Qed.
Lemma n_get_store : neat get_store.
Proof. unfold get_store. neat. Qed.
Lemma n_put_store s : neat (put_store s).
Proof. unfold put_store. neat. Qed.
#[local] Hint Resolve n_rejectSymlinkChain n_get_store n_put_store : descriptors.
Lemma n_entry_at k : neat (entry_at k).
Proof. unfold entry_at. neat. Qed.
Lemma n_insert_entry k e : neat (insert_entry k e).
Proof. unfold insert_entry. neat. Qed.
Lemma n_resolveReal v : neat (resolveReal v).
Proof. unfold resolveReal. neat. Qed.
Lemma n_checkedRefPath e v : neat (checkedRefPath e v).
Proof. unfold checkedRefPath. neat. Qed.
Lemma n_availableMemory : neat availableMemory.
Proof. unfold availableMemory. neat. Qed.
#[local] Hint Resolve n_entry_at n_insert_entry n_resolveReal n_checkedRefPath n_availableMemory : descriptors.
Lemma n_resolveRealPathState v f : neat (resolveRealPathState v f).
Proof. unfold resolveRealPathState. neat. Qed.
Lemma n_overlayIsSymlink rel v : neat (overlayIsSymlink rel v).
Proof. unfold overlayIsSymlink. neat. Qed.
Lemma n_overlayRead rel v : neat (overlayRead fuel rel v).
Proof. unfold overlayRead. neat. Qed.
Lemma n_hostFileLen rel v : neat (hostFileLen rel v).
Proof. unfold hostFileLen. neat. Qed.
Lemma n_classify_real v : neat (classify_real v).
Proof. unfold classify_real. neat. Qed.
#[local] Hint Resolve n_resolveRealPathState n_overlayIsSymlink n_overlayRead n_hostFileLen n_classify_real : descriptors.
Lemma n_overlayPredicate rel v k q : (forall d p, neat (q d p)) -> neat (overlayPredicate rel v k q).
Proof. intros Hq. unfold overlayPredicate. neat. Qed.
Lemma n_existingFileLen rel v : neat (existingFileLen rel v).
Proof. unfold existingFileLen. neat. Qed.
Lemma n_existingFileBytes rel v b : neat (existingFileBytes fuel rel v b).
Proof. unfold existingFileBytes. neat. Qed.
Lemma n_rejectDirectoryTarget rel v : neat (rejectDirectoryTarget rel v).
Proof. unfold rejectDirectoryTarget. neat. Qed.
Lemma n_ensureParentExists rel v : neat (ensureParentExists rel v).
Proof. unfold ensureParentExists. cbv zeta. destruct (_ <? _); [neat|]. apply neat_bind; [neat|]. intros d. apply n_walk. neat. Qed.
Lemma n_createOverlayParents rel : neat (createOverlayParents rel).
Proof. unfold createOverlayParents. apply neat_bind; [neat|]. intros d. apply neat_bind; [neat|]. intros m. apply n_walk. neat. Qed.
#[local] Hint Resolve n_overlayPredicate n_existingFileLen n_existingFileBytes n_rejectDirectoryTarget n_ensureParentExists
  n_createOverlayParents : descriptors.
Lemma n_overlayWrite v data r : neat (overlayWrite v data r).
Proof. unfold overlayWrite. neat. Qed.
Lemma n_overlayAppend v data : neat (overlayAppend fuel v data).
Proof.
  unfold overlayAppend. do 5 (apply neat_bind; [neat|]; intros ?). cbv zeta. do 4 (apply neat_bind; [neat|]; intros ?).
  destruct (appendFile _ _ _ _ _). neat.
Qed.
Lemma n_overlayMkdir rel a b v : neat (overlayMkdir rel a b v).
Proof. unfold overlayMkdir. neat. Qed.
Lemma n_overlayUnlink rel v : neat (overlayUnlink rel v).
Proof. unfold overlayUnlink. neat. Qed.
Lemma n_children rel : neat (overlayDirectoryHasChildren rel).
Proof. unfold overlayDirectoryHasChildren. neat. Qed.
Lemma n_visible_loop n f p : neat (visible_loop n f p).
Proof. induction n as [|n IH]; cbn [visible_loop]; [neat|]. apply neat_bind; [neat|]. intros [batch err]. neat. Qed.
Lemma n_visible_children rel p v : neat (realDirectoryHasVisibleChildren fuel rel p v).
Proof. unfold realDirectoryHasVisibleChildren. apply neat_bind; [neat|]. intros d. apply n_with_dir. intros f. apply n_visible_loop. Qed.
#[local] Hint Resolve n_overlayWrite n_overlayAppend n_overlayMkdir n_overlayUnlink n_children n_visible_children : descriptors.
Lemma n_overlayRmdir rel v : neat (overlayRmdir fuel rel v).
Proof. unfold overlayRmdir. neat. Qed.
Lemma n_overlayStat rel v : neat (overlayStat rel v).
Proof. unfold overlayStat. neat. Qed.
Lemma n_overlayIterdir rel v : neat (overlayIterdir fuel rel v).
Proof.
  unfold overlayIterdir. do 3 (apply neat_bind; [neat|]; intros ?). cbv zeta. do 2 (apply neat_bind; [neat|]; intros ?).
  apply neat_bind; [neat|]. intros [[usage seen] entries]. neat.
Qed.
Lemma n_rejectRenameTypeMismatch rel b v : neat (rejectRenameTypeMismatch rel b v).
Proof. unfold rejectRenameTypeMismatch. neat. Qed.
Lemma n_host_dir_at v : neat (host_dir_at v).
Proof. unfold host_dir_at. neat. Qed.
Lemma n_fileRef d p : neat (fileRefFromRelative d p).
Proof. unfold fileRefFromRelative. neat. Qed.
#[local] Hint Resolve n_overlayRmdir n_overlayStat n_overlayIterdir n_rejectRenameTypeMismatch n_host_dir_at n_fileRef : descriptors.
Lemma n_rejectRenameOntoNonemptyDir rel v : neat (rejectRenameOntoNonemptyDir fuel rel v).
Proof. unfold rejectRenameOntoNonemptyDir. neat. Qed.
Lemma n_collect_entry d a p h v b acc e : neat (collect_entry d a p h v b acc e).
Proof. unfold collect_entry. neat. Qed.

Lemma n_collect_loop n d h v b acc : neat (collect_loop fuel n d h v b acc).
Proof.
  revert acc. induction n as [|n IH]; intros acc; cbn [collect_loop]; destruct (last (cd_dirs acc)) as [[r p]|]; try (by neat). cbv zeta.
  eapply tidy_bind; [apply tidy_open_file|]. intros [e|f]; cbn [fds]; [apply tidy_fail|].
  eapply (tidy_bind _ _ _ (fun _ => [f])).
  { pose proof (tidy_catch [f] (eachDirEntry fuel (collect_entry d r p h v b) f v (Collected (cd_result acc) (removelast (cd_dirs acc)) (cd_usage acc)))
      (fun _ => []) (n_each_batch _ (n_collect_entry d r p h v b) _ _ _ _)) as H.
    intros s. specialize (H s). by destruct (catch _ s) as [[[e|a]|e| |] s']. }
  intros res. eapply tidy_bind; [apply tidy_close|]. intros []. destruct res; [apply tidy_fail|apply IH].
Qed.

Lemma n_plan_moves src dst v : neat (plan_moves fuel src dst v).
Proof. unfold plan_moves, collectRealDescendants. neat. apply n_collect_loop. Qed.
Lemma n_real_source v : neat (real_source v).
Proof. unfold real_source. neat. Qed.
#[local] Hint Resolve n_rejectRenameOntoNonemptyDir n_plan_moves n_real_source : descriptors.
Lemma n_overlayRename v dst : neat (overlayRename fuel v dst).
Proof. unfold overlayRename, plan_rename. neat. Qed.
Lemma n_ensureAppendTargetExists v : neat (ensureAppendTargetExists v).
Proof. unfold ensureAppendTargetExists. neat. Qed.
#[local] Hint Resolve n_overlayRename n_ensureAppendTargetExists : descriptors.
Lemma n_overlayOpen v mode : neat (overlayOpen v mode).
Proof. unfold overlayOpen. neat. Qed.
#[local] Hint Resolve n_overlayOpen : descriptors.

Lemma n_overlay_execute call mode : neat (overlay_execute fuel call mode).
Proof. unfold overlay_execute, unit_result. neat. Qed.
End programs.

(** C18. No descriptor leaks. Whatever the call, the table and the host: when
    a call to the table ends, with a value, with an error or as not handled, every
    descriptor it opened on the way (files, listed directories, and the
    directories a walk descended through) has been closed, once for each time it
    was opened. *)
Theorem descriptors_closed `{HO : Host} (fuel : nat) (t : table) (call : option oscall) (h : host) (before : list hcall) :
  let '(answer, (_, (_, after))) := serve fuel t call (h, before) in
  match answer with
  | Some (XHangs | XPanics) => True
  | _ => exists made, after = before ++ made /\ opened_in made ≡ₚ closed_in made
  end.
Proof.
  assert (exists made : list hcall, before = before ++ made /\ opened_in made ≡ₚ closed_in made) as Hsame
    by (exists []; by rewrite app_nil_r).
  unfold serve, handle. destruct call as [call|]; [|done]. destruct (negb (IsFS call)); [done|]. cbv zeta.
  destruct (match rejectOverlongPath (oc_path call) with Some _ => _ | None => _ end); [by destruct (IsExistenceCheck call)|].
  destruct (route t (oc_path call) call) as [i|e|]; [|done..]. destruct (t_mounts t !! Z.to_nat i) as [m|]; [|done].
  assert (forall p mode, neat (p call mode) ->
    let '(r, (_, (_, after))) := as_executor p m call mode (h, before) in
    match r with XHangs | XPanics => True | _ => exists made, after = before ++ made /\ opened_in made ≡ₚ closed_in made end) as Hrun.
  { intros p mode Hp. specialize (Hp (St m h before)). unfold as_executor. cbn [fst snd].
    destruct (p call mode (St m h before)) as [[v|e| |] s]; try done; destruct Hp as (cs & E & H); exists cs; by rewrite !app_nil_r in H. }
  unfold execute. pose proof (n_overlay_execute fuel call) as Ho. pose proof (n_direct_execute fuel call) as Hd.
  assert (forall mode, let '(r, (m', (h', after))) := if bool_decide (m_mode m = ReadOnly) && isWriteCall call mode
      then (XFail (MReadOnly (oc_path call)), (m, (h, before)))
      else if bool_decide (m_mode m = Overlay) then overlayExecute fuel m call mode (h, before)
      else directExecute fuel m call mode (h, before) in
    match r with XHangs | XPanics => True | _ => exists made, after = before ++ made /\ opened_in made ≡ₚ closed_in made end) as Hmode.
  { intros mode. destruct (_ && _); [done|]. destruct (bool_decide _); apply Hrun; auto. }
  destruct (oc_op call =? OpOpen).
  - destruct (CanonicalFileMode (oc_mode call)) as [mode|e]; [|done]. specialize (Hmode mode).
    destruct (if _ && _ then _ else _) as [[v|e| |] [m' [h' after]]]; exact Hmode.
  - specialize (Hmode []). destruct (if _ && _ then _ else _) as [[v|e| |] [m' [h' after]]]; exact Hmode.
Qed.
