(* ===== verification/MountEnds.v ===== *)
(** Calls on mounts that end: everything but listing a directory ends on any host
    whose reads make progress. *)

From S2P Require Import Prelude Utf8 GoStrings VPath Protowire Proto Values ValueCodec CodecSpec Exceptions.
From S2P Require Import Events ValueFacts MountPath Utf8Facts OverlayState MountTable HostFs Direct Overlay OverlayRename MountLogic.
From S2P Require Import MountSafety MountWriting TreeHost MountServe OverlayEffects.

(** What the documentation of io.Reader and of append asks: a Read with room for
    something yields bytes or says why not, and appending makes room for what was
    appended. *)
Class HostReads `(HO : Host) : Prop := {
  host_reads : forall fd room h, 0 < room -> let '(data, err, _) := Read fd room h in data <> [] \/ err <> None;
  host_caps : forall l c n, 0 < n -> l + n <= append_cap l c n }.

Definition settles `{HO : Host} {A} (m : X A) : Prop := forall s, (m s).1 <> XHangs.

Section rules.
Context `{HO : Host}.
Lemma settles_bind {A B} (m : X A) (f : A -> X B) : settles m -> (forall a, settles (f a)) -> settles (m ≫= f).
Proof.
  intros Hm Hf s. specialize (Hm s). unfold mbind, X_bind. destruct (m s) as [[a|e| |] s']; try done. apply Hf.
Qed.
Lemma settles_ret {A} (a : A) : settles (mret a).
Proof. by intros s. Qed.
Lemma settles_fail {A} e : settles (A := A) (fail e).
Proof. by intros s. Qed.
Lemma settles_panics {A} : settles (A := A) panics.
Proof. by intros s. Qed.
Lemma settles_lift {A} (r : mres A) : settles (lift r).
Proof. by destruct r; intros s. Qed.
Lemma settles_check r : settles (check r).
Proof. by destruct r; intros s. Qed.
Lemma settles_catch {A} (m : X A) : settles m -> settles (catch m).
Proof. intros Hm s. specialize (Hm s). unfold catch. by destruct (m s) as [[a|e| |] s']. Qed.
Lemma settles_get : settles get_mount.
Proof. by intros s. Qed.
Lemma settles_put m : settles (put_mount m).
Proof. by intros s. Qed.
Lemma settles_now : settles currentTimestamp.
Proof. intros s. unfold currentTimestamp. by destruct (Now (st_host s)). Qed.
Lemma settles_ask {A} c (op : host -> A * host) : settles (ask c op).
Proof. intros s. unfold ask. by destruct (op (st_host s)). Qed.
Lemma settles_opened r : settles (opened r).
Proof. destruct r; by intros s. Qed.
Lemma settles_deferring {A} fin (m : X A) : settles fin -> settles m -> settles (deferring fin m).
Proof.
  intros Hf Hm. unfold deferring. apply settles_bind; [by apply settles_catch|]. intros r. apply settles_bind; [done|].
  intros _. destruct r; [apply settles_fail|apply settles_ret].
Qed.
End rules.

Create HintDb settles.
#[export] Hint Resolve settles_ret settles_fail settles_panics settles_lift settles_check settles_catch settles_get settles_put settles_now
  settles_ask settles_opened : settles.

Ltac settles_step :=
  lazymatch goal with
  | |- forall _, _ => intros ?
  | |- settles (mbind _ _) => apply settles_bind
  | |- settles (if ?b then _ else _) => destruct b
  | |- settles (match ?x with _ => _ end) => destruct x
  | |- settles (let _ := _ in _) => cbv zeta
  | |- settles (catch _) => apply settles_catch
  | |- settles (deferring _ _) => apply settles_deferring
  | |- settles _ => solve [auto with settles]
  end.
Ltac settles := repeat settles_step.

Section programs.
Context `{HO : Host} (fuel : nat).

Lemma s_stat d p : settles (stat d p).
Proof. apply settles_ask. Qed.
Lemma s_lstat d p : settles (lstat d p).
Proof. apply settles_ask. Qed.
Lemma s_open_root d p : settles (open_root d p).
Proof. unfold open_root. settles. Qed.
Lemma s_open_file d p f : settles (open_file d p f).
Proof. unfold open_file. settles. Qed.
Lemma s_fstat f : settles (fstat f).
Proof. apply settles_ask. Qed.
Lemma s_write f data : settles (fwrite f data).
Proof. apply settles_ask. Qed.
Lemma s_mkdir d p : settles (mkdir d p).
Proof. apply settles_ask. Qed.
Lemma s_remove d p : settles (remove d p).
Proof. apply settles_ask. Qed.
Lemma s_rename d p q : settles (rename d p q).
Proof. apply settles_ask. Qed.
Lemma s_close f : settles (close f).
Proof. apply settles_ask. Qed.
#[local] Hint Resolve s_stat s_lstat s_open_root s_open_file s_fstat s_write s_mkdir s_remove s_rename s_close : settles.

Lemma s_hostExists d p : settles (hostExists d p).
Proof. unfold hostExists, stat_test. settles. Qed.
Lemma s_hostIsDir d p : settles (hostIsDir d p).
Proof. unfold hostIsDir, stat_test. settles. Qed.
Lemma s_hostIsFile d p : settles (hostIsFile d p).
Proof. unfold hostIsFile, stat_test. settles. Qed.
Lemma s_hostIsSymlink d p : settles (hostIsSymlink d p).
Proof. unfold hostIsSymlink. settles. Qed.
Lemma s_rejectNonRegular d p v : settles (rejectNonRegular d p v).
Proof. unfold rejectNonRegular. settles. Qed.
Lemma s_openRegular d p v f : settles (openRegular d p v f).
Proof. unfold openRegular. settles. Qed.
Lemma s_hostStat d p v : settles (hostStat d p v).
Proof. unfold hostStat. settles. Qed.
#[local] Hint Resolve s_hostExists s_hostIsDir s_hostIsFile s_hostIsSymlink s_rejectNonRegular s_openRegular s_hostStat : settles.

Lemma s_writeWithFlags d p c v f : settles (writeWithFlags d p c v f).
Proof. unfold writeWithFlags. settles. Qed.

(** Every parent is a shorter path. *)
Lemma last_index_bound p : LastIndexByte p slash < len p.
Proof.
  unfold LastIndexByte. assert (forall i r, r < i + len p -> last_index p slash i r < i + len p) as H; [|apply (H 0 (-1)); pose proof (len_nonneg p); lia].
  induction p as [|c p IH]; intros i r Hr; [done|]. rewrite len_cons in *. cbn.
  pose proof (len_nonneg p). destruct (Byte.eqb c slash); replace (i + (1 + len p)) with (i + 1 + len p) by lia; apply IH; lia.
Qed.

Lemma before_slash_shorter p : p <> [] -> (length (before_slash p) < length p)%nat.
Proof.
  intros Hp. unfold before_slash. pose proof (last_index_bound p) as H. unfold len in H.
  destruct (Z.leb_spec 0 (LastIndexByte p slash)); [rewrite length_take; lia|]. destruct p; [done|cbn; lia].
Qed.

Lemma s_create_dirs n d p : (length p < n)%nat -> settles (create_dirs n d p).
Proof.
  revert p. induction n as [|n IH]; intros p Hn; [lia|]. cbn [create_dirs]. case_bool_decide as Hp; [settles|].
  pose proof (before_slash_shorter p Hp). settles. apply IH. lia.
Qed.

Lemma s_hostMkdir d p a b v : settles (hostMkdir d p a b v).
Proof. unfold hostMkdir, createDirAll. settles; apply s_create_dirs; lia. Qed.
Lemma s_hostUnlink d p v : settles (hostUnlink d p v).
Proof. unfold hostUnlink. settles. Qed.
Lemma s_hostRmdir d p v : settles (hostRmdir d p v).
Proof. unfold hostRmdir. settles. Qed.
#[local] Hint Resolve s_writeWithFlags s_hostMkdir s_hostUnlink s_hostRmdir : settles.

Context `{!HostReads HO}.

(** Each turn of the loop reads something, so the limit bounds the turns. *)
Lemma s_read_loop n f buf cap limit : 0 < Z.of_nat n -> limit - len buf < Z.of_nat n -> len buf <= cap -> settles (read_loop n f buf cap limit).
Proof.
  revert buf cap. induction n as [|n IH]; intros buf cap H0 Hn Hcap; [lia|]. cbn [read_loop].
  destruct (Z.ltb_spec (len buf) limit); [|settles].
  cbv zeta. match goal with |- context[take (Z.to_nat (Z.min (?c - _) _))] => set (cap' := c) end.
  assert (len buf < cap') as Hcap'.
  { subst cap'. destruct (Z.eqb_spec (len buf) cap); [|lia]. pose proof (host_caps (len buf) cap (Z.min (Z.max cap 512) (limit - len buf)) ltac:(lia)). lia. }
  clearbody cap'. set (room := Z.min (cap' - len buf) (limit - len buf)). assert (0 < room) as Hroom by lia.
  intros s. unfold mbind, X_bind, fread, ask. pose proof (host_reads f room (st_host s) Hroom) as Hr.
  destruct (Read f room (st_host s)) as [[data err] h]. cbn. destruct err as [[|e]|]; try done. destruct Hr as [Hr|Hr]; [|done].
  apply IH; [lia|..].
  - rewrite len_app. assert (1 <= len (take (Z.to_nat room) data)); [|lia]. unfold len. rewrite length_take. destruct data; [done|]. cbn. lia.
  - rewrite len_app. unfold len at 2. rewrite length_take. lia.
Qed.

Variable limit : Z.
Hypothesis fuel_enough : 0 <= limit < 2 ^ 63 /\ limit + 1 < Z.of_nat fuel.

Lemma s_readFileLimited d p v b : 0 <= mb_available b <= limit -> settles (readFileLimited fuel d p v b).
Proof.
  intros Hb. unfold readFileLimited. settles. unfold readAtMost. rewrite satAdd_min by (unfold MaxUint64; lia).
  match goal with |- settles (read_loop _ _ _ (Z.min ?c _) _) => assert (0 <= c) by apply uint64_range end.
  unfold MaxUint64. apply s_read_loop; change (len (@nil byte)) with 0; lia.
Qed.

(** *** Read-only and read-write mounts *)
Lemma s_check_write n : settles (check_write n).
Proof. unfold check_write. settles. Qed.
Lemma s_commit_write n : settles (commit_write n).
Proof. unfold commit_write. settles. Qed.
Lemma s_resolve_path v : settles (resolve_path v).
Proof. unfold resolve_path. settles. Qed.
Lemma s_the_dir : settles the_dir.
Proof. unfold the_dir. settles. Qed.
#[local] Hint Resolve s_check_write s_commit_write s_resolve_path s_the_dir : settles.
Lemma s_directWrite v data r a : settles (directWrite v data r a).
Proof. unfold directWrite, writeBytesToFile, appendBytesToFile. settles. Qed.
Lemma s_directOpen v mode : settles (directOpen v mode).
Proof. unfold directOpen, writeBytesToFile, appendBytesToFile. settles. Qed.
Lemma s_directRename v dst : settles (directRename v dst).
Proof. unfold directRename. settles. Qed.
Lemma s_boolQuery v q : (forall d p, settles (q d p)) -> settles (boolQuery v q).
Proof. intros Hq. unfold boolQuery. settles. Qed.
#[local] Hint Resolve s_directWrite s_directOpen s_directRename s_boolQuery : settles.

Lemma e_direct_execute m call mode h log : m_memory_limit m = limit -> oc_op call <> OpIterdir ->
  (direct_execute fuel call mode (St m h log)).1 <> XHangs.
Proof.
  intros Hm Hop. unfold direct_execute, unit_result. cbv zeta. rewrite (proj2 (Z.eqb_neq _ _) Hop).
  match goal with |- (?p _).1 <> _ => enough (forall s, st_mount s = m -> (p s).1 <> XHangs) as H by by apply H end.
  intros s Hs. do 11 (match goal with |- ((if ?b then _ else _) s).1 <> _ => destruct b end; [match goal with |- (?p s).1 <> _ => assert (settles p) as H by settles; apply H end|]).
  unfold mbind at 1, X_bind at 1. cbn [get_mount]. rewrite Hs, Hm.
  match goal with |- (?p s).1 <> _ => assert (settles p) as H; [|apply H] end.
  settles; apply s_readFileLimited; cbn; lia.
Qed.

(** *** Overlay mounts *)
Lemma s_classifyTarget d p v : settles (classifyTarget d p v).
Proof. unfold classifyTarget. settles. Qed.
Lemma s_walk_close w : settles (walk_close w).
Proof. unfold walk_close. settles. Qed.
#[local] Hint Resolve s_classifyTarget s_walk_close : settles.
Lemma s_step w c v : settles (step w c v).
Proof. unfold step. settles. Qed.
Lemma s_walk {S} (body : S -> bytes -> realTarget -> X (S + ())) vpath_of w acc components :
  (forall acc c t, settles (body acc c t)) -> settles (walk_components body vpath_of w acc components).
Proof.
  intros Hb. revert w acc. induction components as [|c components IH]; intros w acc; cbn [walk_components]; [settles|].
  apply settles_bind; [apply s_step|]. intros [w' [target|e]]; settles.
Qed.
Lemma s_rejectSymlinkChain d p v : settles (rejectSymlinkChain d p v).
Proof. unfold rejectSymlinkChain. destruct (_ || _); [settles|]. apply s_walk. settles. Qed.
Lemma s_get_store : settles get_store.
Proof. unfold get_store. settles. Qed.
Lemma s_put_store s : settles (put_store s).
Proof. unfold put_store. settles. Qed.
#[local] Hint Resolve s_rejectSymlinkChain s_get_store s_put_store : settles.
Lemma s_entry_at k : settles (entry_at k).
Proof. unfold entry_at. settles. Qed.
Lemma s_insert_entry k e : settles (insert_entry k e).
Proof. unfold insert_entry. settles. Qed.
Lemma s_resolveReal v : settles (resolveReal v).
Proof. unfold resolveReal. settles. Qed.
Lemma s_checkedRefPath e v : settles (checkedRefPath e v).
Proof. unfold checkedRefPath. settles. Qed.
Lemma s_availableMemory : settles availableMemory.
Proof. unfold availableMemory. settles. Qed.
#[local] Hint Resolve s_entry_at s_insert_entry s_resolveReal s_checkedRefPath s_availableMemory : settles.
Lemma s_resolveRealPathState v f : settles (resolveRealPathState v f).
Proof. unfold resolveRealPathState. settles. Qed.
Lemma s_overlayIsSymlink rel v : settles (overlayIsSymlink rel v).
Proof. unfold overlayIsSymlink. settles. Qed.
Lemma s_hostFileLen rel v : settles (hostFileLen rel v).
Proof. unfold hostFileLen. settles. Qed.
Lemma s_classify_real v : settles (classify_real v).
Proof. unfold classify_real. settles. Qed.
#[local] Hint Resolve s_resolveRealPathState s_overlayIsSymlink s_hostFileLen s_classify_real : settles.
Lemma s_overlayPredicate rel v k q : (forall d p, settles (q d p)) -> settles (overlayPredicate rel v k q).
Proof. intros Hq. unfold overlayPredicate. settles. Qed.
Lemma s_existingFileLen rel v : settles (existingFileLen rel v).
Proof. unfold existingFileLen. settles. Qed.
Lemma s_rejectDirectoryTarget rel v : settles (rejectDirectoryTarget rel v).
Proof. unfold rejectDirectoryTarget. settles. Qed.
Lemma s_ensureParentExists rel v : settles (ensureParentExists rel v).
Proof. unfold ensureParentExists. cbv zeta. destruct (_ <? _); [settles|]. apply settles_bind; [settles|]. intros d. apply s_walk. settles. Qed.
Lemma s_createOverlayParents rel : settles (createOverlayParents rel).
Proof. unfold createOverlayParents. do 2 (apply settles_bind; [settles|]; intros ?). apply s_walk. settles. Qed.
#[local] Hint Resolve s_overlayPredicate s_existingFileLen s_rejectDirectoryTarget s_ensureParentExists s_createOverlayParents : settles.
Lemma s_overlayWrite v data r : settles (overlayWrite v data r).
Proof. unfold overlayWrite. settles. Qed.
Lemma s_overlayMkdir rel a b v : settles (overlayMkdir rel a b v).
Proof. unfold overlayMkdir. settles. Qed.
Lemma s_overlayUnlink rel v : settles (overlayUnlink rel v).
Proof. unfold overlayUnlink. settles. Qed.
Lemma s_overlayStat rel v : settles (overlayStat rel v).
Proof. unfold overlayStat. settles. Qed.
Lemma s_ensureAppendTargetExists v : settles (ensureAppendTargetExists v).
Proof. unfold ensureAppendTargetExists. settles. Qed.
#[local] Hint Resolve s_overlayWrite s_overlayMkdir s_overlayUnlink s_overlayStat s_ensureAppendTargetExists : settles.
Lemma s_overlayOpen v mode : settles (overlayOpen v mode).
Proof. unfold overlayOpen. settles. Qed.
#[local] Hint Resolve s_overlayOpen : settles.

(** Programs that end from the mounts of a property. *)
Context `{!HostNames HO} (m0 : mount).
Hypotheses (overlay0 : m_mode m0 = Overlay) (limit0 : m_memory_limit m0 = limit).
Abbreviation keeps := (keeps (mount_ok m0) (good false)).

Definition ends_in {A} (m : X A) : Prop := forall s, mount_ok m0 (st_mount s) -> (m s).1 <> XHangs.

Lemma ends_plain {A} (m : X A) : settles m -> ends_in m.
Proof. intros H s _. apply H. Qed.

Lemma ends_in_bind {A B} (m : X A) (f : A -> X B) V : settles m -> keeps m V -> (forall a, V a -> ends_in (f a)) -> ends_in (m ≫= f).
Proof.
  intros Hm Hk Hf s Hs. specialize (Hm s). specialize (Hk s Hs). unfold mbind, X_bind.
  destruct (m s) as [[a|e| |] s']; destruct Hk as (H1 & _ & H3); try done. by apply Hf.
Qed.

Lemma ends_in_then {A B} (m : X A) (f : A -> X B) : ends_in m -> (forall a, settles (f a)) -> ends_in (m ≫= f).
Proof.
  intros Hm Hf s Hs. specialize (Hm s Hs). unfold mbind, X_bind. destruct (m s) as [[a|e| |] s']; try done. apply Hf.
Qed.

(** The memory left is below the limit. *)
Lemma available_within b s : stored (mount_ok m0) s ->
  b = MemoryBudget (m_memory_limit m0 - os_usage s) (m_memory_limit m0) -> 0 <= mb_available b <= limit.
Proof.
  intros Hs Hb. destruct (budget_range m0 _ (mount_P m0) overlay0 b s Hs Hb) as [[H _] _]. split; [done|]. subst b. cbn in *.
  pose proof (usage_nonneg m0 _ (mount_P m0) overlay0 s Hs). lia.
Qed.

Lemma e_read_left d p v : ends_in (availableMemory ≫= readFileLimited fuel d p v).
Proof.
  eapply ends_in_bind; [settles|by eapply k_availableMemory; [apply mount_P|]|]. intros b (s & Hs & Hb). apply ends_plain, s_readFileLimited.
  by eapply available_within.
Qed.

Ltac ends_next := eapply (ends_in_bind _ _ (fun _ => True)); [settles|try (eapply keeps_any; eauto using mount_P with mountfs)|intros ? _].

Lemma e_overlayRead rel v : ends_in (overlayRead fuel rel v).
Proof.
  unfold overlayRead. eapply ends_in_bind; [settles|by eapply k_entry_at; [apply mount_P|]|]. intros e (s & Hs & He). ends_next.
  destruct e as [entry|]; [|ends_next; apply e_read_left]. destruct (oe_kind entry) eqn:Ek; try (solve [apply ends_plain; settles]).
  eapply ends_in_bind; [settles|eapply k_checkedRefPath; by eapply entry_ref; [apply mount_P|..]|]. intros ref _. apply e_read_left.
Qed.

Lemma e_existingFileBytes rel v b : 0 <= mb_available b <= limit -> ends_in (existingFileBytes fuel rel v b).
Proof.
  intros Hb. unfold existingFileBytes. apply ends_plain. settles; by apply s_readFileLimited.
Qed.

Lemma e_overlayAppend v data : len data < 2 ^ 62 -> ends_in (overlayAppend fuel v data).
Proof.
  intros Hd. unfold overlayAppend. pose proof (mount_P m0) as C.
  eapply ends_in_bind; [settles|by eapply k_resolve_path|]. intros rel Hc. do 4 ends_next. cbv zeta.
  eapply ends_in_bind; [settles|apply keeps_get_mount|]. intros m Hm. set (charged := if _ && _ then _ else _).
  eapply (ends_in_bind _ _ (fun _ => True)); [settles| |intros _ _].
  { unfold check_write. eapply keeps_seq; [apply keeps_get_mount|]. intros m' _. eapply keeps_any, keeps_check. }
  eapply ends_in_bind; [settles|apply keeps_now|]. intros now _. eapply ends_in_bind; [settles|by eapply k_get_store|]. intros s Hs.
  pose proof (append_store (m_memory_limit m0) s (memory0 m0 _ C m Hm) (stored_ok m0 _ C overlay0 s Hs) rel data now ltac:(lia)) as Happ.
  rewrite (mo_mlimit _ _ Hm). destruct (appendFile _ _ _ _ _) as [r s'].
  eapply (ends_in_bind _ _ (fun _ => True)); [settles|by apply keeps_lift|]. intros appended _.
  eapply ends_in_bind; [settles|eapply k_put_store; [apply mount_store|done]|]. intros _ _.
  apply ends_in_then; [|settles]. destruct appended; [apply ends_plain; settles|].
  eapply ends_in_bind; [settles|by eapply k_get_store|]. intros s2 _.
  eapply (ends_in_bind _ _ (fun _ => True)); [settles|eapply keeps_any, keeps_check|]. intros _ _.
  eapply ends_in_bind; [settles|by eapply k_availableMemory|]. intros b (s3 & Hs3 & Hb). pose proof (available_within b s3 Hs3 Hb) as Hr.
  eapply (ends_in_bind _ _ (fun _ => True)); [settles|eapply keeps_any, keeps_check|]. intros _ _.
  eapply (ends_in_bind _ _ (fun b' => shrink b (len data) = inl b')); [settles|by apply keeps_lift|]. intros b' [S1 S2]%shrink_spec.
  pose proof (len_nonneg data). apply ends_in_then; [apply e_existingFileBytes; lia|]. settles.
Qed.

(** The operations that list directories of the host. *)
Definition lists (call : oscall) : bool := (oc_op call =? OpIterdir) || (oc_op call =? OpRmdir) || (oc_op call =? OpRename).

Lemma e_overlay_execute call mode : len (oc_text call) < 2 ^ 62 -> len (oc_data call) < 2 ^ 62 -> lists call = false ->
  ends_in (overlay_execute fuel call mode).
Proof.
  intros Ht Hd Hl. unfold overlay_execute, lists, unit_result in *. cbv zeta. rewrite !orb_false_iff in Hl. destruct Hl as [[E1 E2] E3].
  rewrite E1, E2, E3.
  do 3 (match goal with |- ends_in (if ?b then _ else _) => destruct b end; [apply ends_plain; settles|]).
  do 2 (match goal with |- ends_in (if ?b then _ else _) => destruct b end; [apply ends_in_then; [by apply e_overlayAppend|settles]|]).
  match goal with |- ends_in (if ?b then _ else _) => destruct b end; [apply ends_plain; settles|].
  eapply ends_in_bind; [settles|eapply k_resolve_path, mount_P|]. intros rel _.
  do 4 (match goal with |- ends_in (if ?b then _ else _) => destruct b end; [apply ends_plain; settles|]).
  do 2 (match goal with |- ends_in (if ?b then _ else _) => destruct b end; [apply ends_in_then; [apply e_overlayRead|settles]|]).
  apply ends_plain. settles.
Qed.
End programs.

(** C19. Calls end. On a host whose reads make progress, every call on a
    mount that does not list a directory ends with a value or an error: making
    missing parents always reaches an existing one, and reading a file is cut off
    one byte after the memory that is left. As many turns as the memory limit has
    bytes, and two more, are enough for any loop. *)
Theorem mount_calls_end `{HO : Host} `{!HostNames HO} `{!HostReads HO} (fuel : nat) (m : mount) (call : oscall) (h : host) (log : list hcall) :
  mount_self m -> call_sized call -> len (oc_path call) <= 4096 -> (oc_op call = OpRename -> len (oc_dst call) <= 4096) ->
  m_memory_limit m + 1 < Z.of_nat fuel -> oc_op call <> OpIterdir -> (m_mode m = Overlay -> lists call = false) ->
  (exists v, (run fuel m call (h, log)).1 = XRet v) \/ (exists e, (run fuel m call (h, log)).1 = XFail e).
Proof.
  intros Hm Hc Hp Hdst Hfuel Hit Hl.
  assert ((run fuel m call (h, log)).1 <> XHangs) as Hends.
  { assert (0 <= m_memory_limit m < 2 ^ 63 /\ m_memory_limit m + 1 < Z.of_nat fuel) as Hf by (pose proof (mo_memory _ _ Hm); lia).
    assert (forall mode, (if bool_decide (m_mode m = ReadOnly) && isWriteCall call mode
      then (XFail (MReadOnly (oc_path call)), (m, (h, log)))
      else if bool_decide (m_mode m = Overlay) then overlayExecute fuel m call mode (h, log)
      else directExecute fuel m call mode (h, log)).1 <> XHangs) as Hmode.
    { intros mode. destruct (_ && _); [done|]. destruct Hc as [Ht Hd]. unfold overlayExecute, directExecute, as_executor. cbn [fst snd].
      case_bool_decide as Ho.
      - pose proof (e_overlay_execute fuel (m_memory_limit m) Hf m Ho eq_refl call mode Ht Hd (Hl Ho) (St m h log) Hm) as H.
        by destruct (overlay_execute fuel call mode (St m h log)).
      - pose proof (e_direct_execute fuel (m_memory_limit m) Hf m call mode h log eq_refl Hit) as H.
        by destruct (direct_execute fuel call mode (St m h log)). }
    unfold run, execute. destruct (oc_op call =? OpOpen); [|apply Hmode]. destruct (CanonicalFileMode (oc_mode call)); [apply Hmode|done]. }
  pose proof (run_ok fuel m call h log Hm Hc Hp Hdst) as H. destruct (run fuel m call (h, log)) as [[v|e| |] [m' [h' log']]]; eauto; [done|].
  by destruct H as (_ & _ & []).
Qed.

#[export] Instance tree_reads : HostReads tree_host.
Proof.
  constructor; [|done]. intros fd room h Hroom. cbn. unfold tread. destruct (tr_fds h !! fd) as [f|]; [|auto].
  destruct (node_at (tf_path f) h) as [[]|]; auto. destruct (take (Z.to_nat room) (drop (tf_offset f) content)); auto.
Qed.

Lemma mount_calls_end_witness :
  let m := mount_of (Spec (go "/data") 3 Overlay None 600) in
  (run (Z.to_nat 602) m (sample_call OpAppendText "/data/dir/b.txt" "" " and above") start).1 = XRet (VInt KInt64 10).
Proof.
  intros m. destruct (mount_calls_end (HO := tree_host) (Z.to_nat 602) m (sample_call OpAppendText "/data/dir/b.txt" "" " and above") sample_tree [])
    as [[v Hv]|[e He]].
  - apply mount_of_ok. constructor; [reflexivity|cbn; lia|discriminate].
  - split; reflexivity.
  - vm_compute. discriminate.
  - vm_compute. discriminate.
  - reflexivity.
  - discriminate.
  - reflexivity.
  - vm_compute. reflexivity.
  - vm_compute in He. discriminate He.
Defined.
