(* ===== verification/MountErrors.v ===== *)
(** What the sandbox sees of a mount: errors as Python exceptions
    (src/internal/mountfs/errors.go) and the outcome of a call to the table
    (Table.HandleOsCall of table.go). *)

From S2P Require Import Prelude Utf8 GoStrings VPath Protowire Proto Values ValueCodec CodecSpec Exceptions Repr.
From S2P Require Import Events ValueFacts MountPath Utf8Facts OverlayState MountTable HostFs Direct Overlay OverlayRename MountLogic.
From S2P Require Import MountSafety MountWriting TreeHost MountServe.

(** ** Sizes in words

    Positive float64 numbers as fractions; the ones that occur are normal. *)

Record fraction := Fraction { fr_num : Z; fr_den : Z }.

(** The nearest whole number, ties to even. *)
Definition round_even (f : fraction) : Z :=
  let q := fr_num f / fr_den f in
  let r := fr_num f mod fr_den f in
  if (2 * r <? fr_den f) || ((2 * r =? fr_den f) && Z.even q) then q else q + 1.

(** [x * 2^-e] *)
Definition scaled (f : fraction) (e : Z) : fraction :=
  if 0 <=? e then Fraction (fr_num f) (fr_den f * 2 ^ e) else Fraction (fr_num f * 2 ^ (- e)) (fr_den f).

(** The nearest float64: 53 bits of significand. *)
Definition f64 (f : fraction) : fraction :=
  let e := Z.log2 (fr_num f) - Z.log2 (fr_den f) - 53 in
  let e := if fr_num (scaled f e) <? 2 ^ 53 * fr_den (scaled f e) then e else e + 1 in
  scaled (Fraction (round_even (scaled f e)) 1) (- e).

(** [math.Round] of a positive number: half away from zero. *)
Definition Round (f : fraction) : Z := (2 * fr_num f + fr_den f) / (2 * fr_den f).

(** [strconv.FormatFloat(v, 'f', prec, 64)] for the precisions 0 and 1. *)
Definition FormatFloat0 (v : fraction) : bytes := itoa (round_even v).
Definition FormatFloat1 (v : fraction) : bytes :=
  let tenths := round_even (Fraction (10 * fr_num v) (fr_den v)) in itoa (tenths / 10) ++ go "." ++ itoa (tenths mod 10).

Definition formatBytesPretty (b : Z) : bytes :=
  if b <? 1000 then itoa b ++ go " bytes"
  else
    let '(size, unit) :=
      if b <? 1000000 then (1000, go "KB")
      else if b <? 1000000000 then (1000000, go "MB")
      else if b <? 1000000000000 then (1000000000, go "GB")
      else (1000000000000, go "TB") in
    let x := f64 (Fraction b 1) in
    let v := f64 (Fraction (fr_num x) (fr_den x * size)) in
    (* math.Mod of a whole number is below the epsilon only when it is zero *)
    if Round (f64 (Fraction (10 * fr_num v) (fr_den v))) mod 10 =? 0
    then FormatFloat0 v ++ go " " ++ unit
    else FormatFloat1 v ++ go " " ++ unit.

Example pretty_examples : map formatBytesPretty [999; 1000; 1536; 100000000; 999999; 5 * 2 ^ 30; 2 ^ 64 - 1]
  = map go ["999 bytes"; "1 KB"; "1.5 KB"; "100 MB"; "1000 KB"; "5.4 GB"; "18446744.1 TB"]%string.
Proof. vm_compute. reflexivity. Qed.

(** ** Errors *)

Section errors.
(** unicode.IsPrint, and the texts of package protowire. *)
Variables (IsPrint : Z -> bool) (parse_error_text : Z -> bytes).

Definition unicodeDecodeErrorMsg (codec : bytes) (firstByte : byte) (start end_ : Z) (reason : bytes) : bytes :=
  if end_ - start =? 1
  then go "'" ++ codec ++ go "' codec can't decode byte 0x" ++ hex_pad 2 (byte_val firstByte) ++ go " in position " ++ itoa start ++ go ": " ++ reason
  else go "'" ++ codec ++ go "' codec can't decode bytes in position " ++ itoa start ++ go "-" ++ itoa (end_ - 1) ++ go ": " ++ reason.

(** [mountError.Error] *)
Definition mount_error_text (e : mountError) : bytes :=
  match e with
  | MNoMountPoint path => go "no mount point for path: " ++ path
  | MPathEscape path => go "path escape detected: " ++ path
  | MValue msg | MInvalidMount msg => msg
  | MValueOf err => err_text IsPrint parse_error_text err
  | MReadOnly path => go "read-only mount: " ++ path
  | MCrossMount path dst => go "cross-mount rename: " ++ path ++ go " -> " ++ dst
  | MIO _ msg path => go "I/O error on " ++ path ++ go ": " ++ msg
  | MInvalidUTF8 u => go "invalid UTF-8 byte 0x" ++ hex_pad 2 (byte_val (uf_first u)) ++ go " at position " ++ itoa (uf_start u)
  | MWriteLimit limit => go "disk write limit of " ++ formatBytesPretty limit ++ go " exceeded"
  | MMemoryLimit limit => go "mount memory usage limit of " ++ formatBytesPretty limit ++ go " exceeded"
  end.

Abbreviation repr := (StringRepr IsPrint).

(** [mountError.exception] *)
Definition mount_exception (e : mountError) : wexception :=
  match e with
  | MNoMountPoint path | MPathEscape path => NewException (go "PermissionError") (go "[Errno 13] Permission denied: " ++ repr path)
  | MValue msg => NewException (go "ValueError") msg
  | MValueOf err => NewException (go "ValueError") (err_text IsPrint parse_error_text err)
  | MReadOnly path => NewException (go "PermissionError") (go "[Errno 30] Read-only file system: " ++ repr path)
  | MCrossMount path dst =>
    NewException (go "OSError") (go "[Errno 18] Invalid cross-device link: " ++ repr path ++ go " -> " ++ repr dst)
  | MIO io msg path =>
    match io with
    | ioNotFound => NewException (go "FileNotFoundError") (go "[Errno 2] No such file or directory: " ++ repr path)
    | ioAlreadyExists => NewException (go "FileExistsError") (go "[Errno 17] File exists: " ++ repr path)
    | ioPermissionDenied => NewException (go "PermissionError") (go "[Errno 13] Permission denied: " ++ repr path)
    | ioIsADirectory => NewException (go "IsADirectoryError") (go "[Errno 21] Is a directory: " ++ repr path)
    | ioNotADirectory => NewException (go "NotADirectoryError") (go "[Errno 20] Not a directory: " ++ repr path)
    | ioDirectoryNotEmpty => NewException (go "OSError") (go "[Errno 39] Directory not empty: " ++ repr path)
    | ioInvalidFilename => NewException (go "OSError") (go "[Errno 36] File name too long: " ++ repr path)
    | _ => NewException (go "OSError") (msg ++ go ": " ++ repr path)
    end
  | MInvalidUTF8 u =>
    let exc := NewException (go "UnicodeDecodeError")
      (unicodeDecodeErrorMsg (go "utf-8") (uf_first u) (uf_start u) (uf_end u) (go (uf_reason u))) in
    match uf_object u with
    | Some object =>
      WException (we_type exc) (we_message exc) (we_traceback exc)
        (Some (ExcData (Some (UnicodeErrorData (go "utf-8") object None (uint64 (uf_start u)) (uint64 (uf_end u)) (go (uf_reason u)))) None))
    | None => exc
    end
  | MInvalidMount msg => NewException (go "TypeError") msg
  | MWriteLimit limit => NewException (go "OSError") (go "disk write limit of " ++ formatBytesPretty limit ++ go " exceeded")
  | MMemoryLimit limit => NewException (go "MemoryError") (go "mount memory usage limit of " ++ formatBytesPretty limit ++ go " exceeded")
  end.

(** ** Outcomes *)

Record outcome := Outcome { out_handled : bool; out_value : value; out_exception : option wexception }.

Definition Table_HandleOsCall `{HO : Host} (fuel : nat) (t : table) (call : option oscall) (h : host * list hcall)
    : xres outcome * (table * (host * list hcall)) :=
  let '(r, th) := serve fuel t call h in
  (match r with
   | None => XRet (Outcome false VNil None)
   | Some (XFail e) => XRet (Outcome true VNil (Some (mount_exception e)))
   | Some (XRet v) => XRet (Outcome true v None)
   | Some XHangs => XHangs
   | Some XPanics => XPanics
   end, th).
End errors.

(** The exceptions a mount raises. *)
Definition mount_exception_types : list bytes :=
  map go ["PermissionError"; "ValueError"; "OSError"; "FileNotFoundError"; "FileExistsError"; "IsADirectoryError"; "NotADirectoryError";
          "UnicodeDecodeError"; "TypeError"; "MemoryError"]%string.

Lemma exception_type pr pe e : we_type (mount_exception pr pe e) ∈ mount_exception_types.
Proof.
  assert (forall x : bytes, bool_decide (x ∈ mount_exception_types) = true -> x ∈ mount_exception_types) as H
    by (intros x; apply bool_decide_eq_true_1).
  destruct e as [| | | | | |[]| u| | |]; unfold mount_exception; try destruct (uf_object u);
    unfold NewException; cbn [we_type]; apply H; reflexivity.
Qed.

(** What no mount covers. *)
Definition uncovered (t : table) (path : bytes) : Prop :=
  Forall (fun m => pathMatchesMount (NormalizeVirtualPath path) (m_virtual m) = false) (t_mounts t).

Definition rejected (path : bytes) : bool := isOverlong path || containsNullByte path.

Lemma find_uncovered t path : (0 <=? findMount t path) = false <-> uncovered t path.
Proof.
  unfold findMount, uncovered. destruct (find_loop_spec (NormalizeVirtualPath path) (t_mounts t) 0 ltac:(done)) as [[-> H]|(Hi & m & Hm & Hc & _)].
  - by split.
  - rewrite (proj2 (Z.leb_le _ _)) by done. split; [done|]. intros H. apply Forall_lookup_1 with (i := Z.to_nat (find_loop (NormalizeVirtualPath path) (t_mounts t) 0 - 0)) (x := m) in H; [congruence|done].
Qed.

Lemma rejection_rejected p : (match rejectOverlongPath p with
  | Some e => Some e | None => if containsNullByte p then Some (MValue []) else None end = None) <-> rejected p = false.
Proof. unfold rejectOverlongPath, rejected. destruct (isOverlong p); cbn; [done|]. by destruct (containsNullByte p). Qed.

Lemma route_none t call : rejected (oc_path call) = false -> route t (oc_path call) call = RouteNone <->
  uncovered t (oc_path call) /\ (oc_op call = OpRename -> rejected (oc_dst call) = false /\ uncovered t (oc_dst call)).
Proof.
  intros _. unfold route. rewrite <- !find_uncovered. destruct (Z.eqb_spec (oc_op call) OpRename) as [Eop|Eop]; cbn [negb].
  - unfold rejectOverlongPath, rejected. destruct (isOverlong (oc_dst call)); cbn [negb orb]; [split; [done|]; by intros [_ [? _]]|].
    destruct (containsNullByte (oc_dst call)); [split; [done|]; by intros [_ [? _]]|].
    destruct (Z.leb_spec 0 (findMount t (oc_path call))), (Z.leb_spec 0 (findMount t (oc_dst call))).
    + rewrite (proj2 (Z.ltb_ge _ _)) by lia. cbn. destruct (_ =? _); (split; [done|]); by intros [? _].
    + rewrite (proj2 (Z.ltb_ge _ _)) by lia. cbn. destruct (_ =? _); (split; [done|]); by intros [? _].
    + rewrite (proj2 (Z.ltb_lt _ _)), (proj2 (Z.ltb_ge _ 0)) by lia. cbn. split; [done|]. intros [_ [_ ?]]; done.
    + rewrite !(proj2 (Z.ltb_lt _ _)) by lia. done.
  - destruct (0 <=? findMount t (oc_path call)); split; done || (by intros [? _]) || by (intros _; split; [done|]).
Qed.

(** C20. Outcomes of the table. An OS call is left to others exactly when it
    is no filesystem call, or when its path (and for a rename its destination)
    is neither overlong nor holds a NUL byte and no mount covers it; then nothing
    has changed. A call that is handled has a value or an exception, never both,
    and the exception is one of ten Python types. *)
Theorem table_outcomes (IsPrint : Z -> bool) (parse_error_text : Z -> bytes) `{HO : Host} (fuel : nat) (t : table) (call : oscall)
    (h : host * list hcall) (o : outcome) (t' : table) (h' : host * list hcall) :
  Table_HandleOsCall IsPrint parse_error_text fuel t (Some call) h = (XRet o, (t', h')) ->
  (out_handled o = false <->
     IsFS call = false \/ (rejected (oc_path call) = false /\ uncovered t (oc_path call)
       /\ (oc_op call = OpRename -> rejected (oc_dst call) = false /\ uncovered t (oc_dst call))))
  /\ (out_handled o = false -> out_value o = VNil /\ out_exception o = None /\ t' = t /\ h' = h)
  /\ (forall e, out_exception o = Some e -> out_value o = VNil /\ we_type e ∈ mount_exception_types).
Proof.
  unfold Table_HandleOsCall. destruct (serve fuel t (Some call) h) as [r th] eqn:Es. intros H.
  assert (r = None <-> IsFS call = false \/ (rejected (oc_path call) = false /\ uncovered t (oc_path call)
       /\ (oc_op call = OpRename -> rejected (oc_dst call) = false /\ uncovered t (oc_dst call)))) as Hnone.
  { unfold serve, handle in Es. destruct (IsFS call) eqn:Ef; cbn [negb] in Es; [|injection Es as <- _; by split; [left|]].
    cbv zeta in Es. destruct (rejected (oc_path call)) eqn:Er.
    - assert (r <> None) as Hr.
      { unfold rejectOverlongPath, rejected in *. destruct (isOverlong (oc_path call)); cbn [negb orb] in *; [|rewrite Er in Es];
          injection Es as <- _; by destruct (IsExistenceCheck call). }
      split; [done|]. intros [?|[? _]]; done.
    - rewrite <- (route_none t call Er).
      assert (r = None <-> route t (oc_path call) call = RouteNone) as ->; [|naive_solver].
      unfold rejectOverlongPath, rejected in *. apply orb_false_iff in Er as [E1 E2].
      rewrite E1, E2 in Es. cbn [negb] in Es.
      destruct (route t (oc_path call) call) as [i|e|]; [|injection Es as <- _; by split..].
      destruct (t_mounts t !! Z.to_nat i) as [m|]; [|injection Es as <- _; by split].
      destruct (execute _ _ m call h) as [x [m' h1]]. injection Es as <- _. by split. }
  destruct r as [[v|e| |]|]; cbn in H; try discriminate H; injection H as <- ->; cbn [out_handled out_value out_exception].
  - split_and!; [split; [done|]; by intros H%Hnone|done|done].
  - split_and!; [split; [done|]; by intros H%Hnone|done|]. intros exc [= <-]. split; [done|apply exception_type].
  - split_and!; [by rewrite <- Hnone| |done]. intros _.
    assert ((t', h') = (t, h)) as [= -> ->]; [|done]. unfold serve, handle in Es. destruct (negb (IsFS call)); [congruence|].
    cbv zeta in Es. destruct (match rejectOverlongPath (oc_path call) with Some _ => _ | None => _ end); [done|].
    destruct (route t (oc_path call) call) as [i|e|]; [|done|congruence].
    destruct (t_mounts t !! Z.to_nat i) as [m|]; [|done]. by destruct (execute _ _ m call h) as [x [m' h1]].
Qed.

(** A rename across two mounts of a table. *)
Lemma table_outcomes_witness :
  let t := NewTable [Spec (go "/a") 3 Overlay None 1000; Spec (go "/b") 3 ReadOnly None 1000] in
  let call := sample_call OpRename "/a/x" "/b/x" "" in
  let e := NewException (go "OSError") (go "[Errno 18] Invalid cross-device link: '/a/x' -> '/b/x'") in
  Table_HandleOsCall (fun _ => true) (fun _ => []) 10 t (Some call) start = (XRet (Outcome true VNil (Some e)), (t, start))
  /\ we_type e ∈ mount_exception_types.
Proof.
  intros t call e.
  assert (Table_HandleOsCall (fun _ => true) (fun _ => []) 10 t (Some call) start = (XRet (Outcome true VNil (Some e)), (t, start))) as H
    by (vm_compute; reflexivity).
  split; [exact H|].
  exact (proj2 (proj2 (proj2 (table_outcomes (fun _ => true) (fun _ => []) 10 t call start _ t start H)) e eq_refl)).
Defined.
