(* ===== verification/PoolErrors.v ===== *)
(** Pool failures and how they are reported: src/internal/pool/errors.go, with
    the exit status of src/internal/worker/worker.go. The theorem is about
    [FormatRustDuration], which renders the timeout of a killed worker. *)

From S2P Require Import Prelude GoStrings Exceptions Traceback.

(** ** Worker exit status (worker.go) *)

Record Status := MkStatus {
  st_known : bool; st_exited : bool; st_code : Z; st_signal : Z; st_killed : bool }.

Definition signalNames : list (Z * string) :=
  [(1, "SIGHUP"); (2, "SIGINT"); (3, "SIGQUIT"); (4, "SIGILL"); (5, "SIGTRAP");
   (6, "SIGABRT"); (7, "SIGBUS"); (8, "SIGFPE"); (9, "SIGKILL"); (10, "SIGUSR1");
   (11, "SIGSEGV"); (12, "SIGUSR2"); (13, "SIGPIPE"); (14, "SIGALRM"); (15, "SIGTERM")]%string.

Definition signal_name (s : Z) : option string :=
  p ← list_find (fun p => p.1 = s) signalNames; Some p.2.2.

Definition Status_String (s : Status) : bytes :=
  if negb (st_known s) then []
  else if st_exited s then go "exit status: " ++ itoa (st_code s)
  else if negb (st_signal s =? 0) then
    match signal_name (st_signal s) with
    | Some name => go "signal: " ++ itoa (st_signal s) ++ go " (" ++ go name ++ go ")"
    | None => go "signal: " ++ itoa (st_signal s)
    end
  else if st_killed s then go "killed"
  else [].

(** ** Durations as Rust's [{:?}] prints them *)

(** The loop of [fmtFraction]; [divisor] loses a decimal digit per iteration. *)
Fixpoint frac_digits (fuel : nat) (frac divisor : Z) : bytes :=
  match fuel with
  | O => []
  | S fuel =>
    if (0 <? divisor) && (0 <? frac)
    then byte_of (48 + frac / divisor) :: frac_digits fuel (frac mod divisor) (divisor / 10)
    else []
  end.

(** A uint64 divisor has at most twenty decimal digits. *)
Definition fmtFraction (integer frac divisor : Z) (unit : bytes) : bytes :=
  itoa integer
  ++ (if 0 <? frac then go "." ++ frac_digits 20 frac divisor else [])
  ++ unit.

Definition FormatRustDuration (d : Z) : bytes :=
  let d := if d <? 0 then 0 else d in
  let ns := uint64 d in
  let secs := ns / 1000000000 in
  let nanos := ns mod 1000000000 in
  if 0 <? secs then fmtFraction secs nanos 100000000 (go "s")
  else if 1000000 <=? nanos then fmtFraction (nanos / 1000000) (nanos mod 1000000) 100000 (go "ms")
  else if 1000 <=? nanos then fmtFraction (nanos / 1000) (nanos mod 1000) 100 (go "µs")
  else itoa nanos ++ go "ns".

(** ** Errors *)

Inductive ErrorKind :=
| KindCrashed | KindTimeout | KindProtocol | KindRuntime | KindTyping | KindExhausted
| KindSpawn | KindFinished | KindDisconnected | KindShutdown | KindCancelled | KindClosed.

#[export] Instance ErrorKind_eq_decision : EqDecision ErrorKind.
Proof. solve_decision. Defined.

Record poolError := PoolError {
  pe_kind : ErrorKind; pe_message : bytes; pe_announced : bool; pe_status : Status;
  pe_timeout : Z; pe_exception : option wexception; pe_diagnostics : bytes;
  pe_dump : bytes; pe_hasdump : bool; pe_closecode : Z; pe_closereason : bytes;
  pe_workerlost : bool; pe_presend : bool }.

Definition unknown_status : Status := MkStatus false false 0 0 false.

(** [&Error{Kind: k, Message: m}] *)
Definition new_error (k : ErrorKind) (message : bytes) : poolError :=
  PoolError k message false unknown_status 0 None [] [] false 0 [] false false.

Definition runtimeError (excType message : bytes) : poolError :=
  PoolError KindRuntime [] false unknown_status 0 (Some (NewException excType message))
    [] [] false 0 [] false true.

Definition protocolError (message : bytes) : poolError := new_error KindProtocol message.

Definition Error_Error (e : poolError) : bytes :=
  match pe_kind e with
  | KindCrashed =>
    let s := (if pe_announced e then go "monty worker crashed: "
              else go "monty worker crashed while ") ++ pe_message e in
    let st := Status_String (pe_status e) in
    if bool_decide (st = []) then s else s ++ go " (" ++ st ++ go ")"
  | KindTimeout =>
    go "monty worker killed after exceeding request timeout of " ++ FormatRustDuration (pe_timeout e)
  | KindProtocol => go "monty worker protocol error: " ++ pe_message e
  | KindRuntime => match pe_exception e with Some x => Render x | None => pe_message e end
  | KindTyping => go "type checking failed:" ++ [newline] ++ pe_diagnostics e
  | KindExhausted => go "no monty worker became available within the checkout timeout"
  | KindSpawn => go "failed to spawn monty worker: " ++ pe_message e
  | KindFinished => go "this checkout has already been finished"
  | KindDisconnected =>
    go "monty worker connection closed while " ++ pe_message e
    ++ (if pe_closecode e =? 0 then []
        else go ": closed by server (" ++ itoa (pe_closecode e) ++ go ")"
             ++ (if bool_decide (pe_closereason e = []) then [] else go ": " ++ pe_closereason e))
  | KindShutdown =>
    if pe_hasdump e
    then go "monty server is shutting down; the request did not run (session dump attached)"
    else go "monty server is shutting down; the request did not run"
  | KindCancelled => go "a previous protocol turn was cancelled mid-flight; the worker was discarded"
  | KindClosed => go "the pool is closed"
  end.

(** ** The rendered duration denotes the duration *)

Definition digit (b : byte) : Z := byte_val b - 48.

(** The digits of a decimal fraction, scaled to [w] places. *)
Fixpoint frac_val (w : nat) (ds : bytes) : Z :=
  match w, ds with
  | S w, d :: ds => digit d * 10 ^ Z.of_nat w + frac_val w ds
  | _, _ => 0
  end.

(** A unit and the number of decimal places it leaves for nanoseconds. *)
Definition duration_units : list (bytes * nat) :=
  [(go "s", 9%nat); (go "ms", 6%nat); (go "µs", 3%nat); (go "ns", 0%nat)].

Record is_fraction (w : nat) (frac : Z) (ds : bytes) : Prop := IsFraction {
  if_len : (length ds <= w)%nat;
  if_digits : Forall (fun d => 0 <= digit d <= 9) ds;
  if_last : forall d, last ds = Some d -> digit d <> 0;
  if_val : frac_val w ds = frac }.

(** [text] prints [d] nanoseconds: an integer, the digits of a fraction
    without trailing zeros, and the largest unit that leaves a non-zero integer
    (or nanoseconds). *)
Definition prints_duration (text : bytes) (d : Z) : Prop :=
  exists integer ds unit w, (unit, w) ∈ duration_units
    /\ text = itoa integer ++ (if bool_decide (ds = []) then [] else go "." ++ ds) ++ unit
    /\ is_fraction w (d - integer * 10 ^ Z.of_nat w) ds
    /\ (w <> 0%nat -> 1 <= integer) /\ (w <> 9%nat -> integer < 1000).

Section durations.
Lemma digit_of z : 0 <= z <= 9 -> digit (byte_of (48 + z)) = z.
Proof. intros. unfold digit. rewrite byte_of_val, Z.mod_small by lia. lia. Qed.

Lemma frac_nil w : is_fraction w 0 [].
Proof. split; [cbn; lia|done|done|by destruct w]. Qed.

Lemma frac_digits_zero fuel divisor : frac_digits fuel 0 divisor = [].
Proof. destruct fuel; [done|]. cbn. by rewrite andb_false_r. Qed.

Lemma frac_digits_spec w : forall fuel frac, (w < fuel)%nat ->
  0 <= frac < 10 ^ Z.of_nat (S w) ->
  is_fraction (S w) frac (frac_digits fuel frac (10 ^ Z.of_nat w)).
Proof.
  induction w as [|w IH]; intros [|fuel] frac Hf Hr; try lia;
    (destruct (decide (frac = 0)) as [->|Hz]; [rewrite frac_digits_zero; apply frac_nil|]); cbn [frac_digits].
  - change (10 ^ Z.of_nat 0) with 1. change (10 ^ Z.of_nat 1) with 10 in Hr.
    rewrite Z.div_1_r, Z.mod_1_r, frac_digits_zero, (proj2 (Z.ltb_lt 0 frac)) by lia. change ((0 <? 1) && true) with true. cbn [andb].
    pose proof (digit_of frac ltac:(lia)) as Hd.
    split; [cbn; lia|repeat constructor; lia|intros d [= <-]; lia|].
    cbn [frac_val]. rewrite Hd. change (10 ^ Z.of_nat 0) with 1. lia.
  - set (p := 10 ^ Z.of_nat (S w)). assert (0 < p) by (apply Z.pow_pos_nonneg; lia).
    rewrite !(proj2 (Z.ltb_lt 0 _)) by lia. cbn [andb].
    assert (10 ^ Z.of_nat (S (S w)) = 10 * p) as E10
      by (unfold p; rewrite (Nat2Z.inj_succ (S w)), Z.pow_succ_r; lia).
    replace (p / 10) with (10 ^ Z.of_nat w) by
      (unfold p; rewrite Nat2Z.inj_succ, Z.pow_succ_r, Z.mul_comm, Z.div_mul; lia).
    pose proof (Z.div_mod frac p ltac:(lia)) as Hdm. pose proof (Z.mod_pos_bound frac p ltac:(lia)) as Hm.
    assert (0 <= frac / p <= 9).
    { split; [apply Z.div_pos; lia|]. assert (frac / p < 10) by (apply Z.div_lt_upper_bound; lia). lia. }
    destruct (IH fuel (frac mod p) ltac:(lia) ltac:(unfold p in *; lia)) as [Hl Hdg Hla Hv].
    pose proof (digit_of (frac / p) ltac:(lia)) as Hd. split.
    + cbn [length]. lia.
    + constructor; [lia|done].
    + intros d Hlast. destruct (frac_digits fuel (frac mod p) (10 ^ Z.of_nat w)) as [|x l] eqn:El.
      * cbn in Hlast. injection Hlast as <-. rewrite Hd. cbn in Hv. lia.
      * by apply Hla.
    + change (frac_val (S (S w)) (byte_of (48 + frac / p) :: frac_digits fuel (frac mod p) (10 ^ Z.of_nat w)))
        with (digit (byte_of (48 + frac / p)) * p
              + frac_val (S w) (frac_digits fuel (frac mod p) (10 ^ Z.of_nat w))).
      rewrite Hd, Hv. lia.
Qed.

Lemma fmtFraction_prints d integer frac w unit :
  (unit, S w) ∈ duration_units -> 0 <= frac < 10 ^ Z.of_nat (S w) ->
  integer * 10 ^ Z.of_nat (S w) + frac = d -> 1 <= integer -> (S w <> 9%nat -> integer < 1000) ->
  prints_duration (fmtFraction integer frac (10 ^ Z.of_nat w) unit) d.
Proof.
  intros Hu Hr Hd H1 H2. exists integer, (frac_digits 20 frac (10 ^ Z.of_nat w)), unit, (S w).
  assert (w < 20)%nat as Hw
    by (unfold duration_units in Hu; rewrite !elem_of_cons, elem_of_nil in Hu; naive_solver lia).
  pose proof (frac_digits_spec w 20 frac Hw Hr) as Hs.
  replace (d - integer * 10 ^ Z.of_nat (S w)) with frac by lia. split_and!; try done.
  unfold fmtFraction. destruct (Z.ltb_spec 0 frac).
  - rewrite bool_decide_false; [done|]. intros E. destruct Hs as [_ _ _ Hv]. rewrite E in Hv. cbn in Hv. lia.
  - replace frac with 0 by lia. by rewrite frac_digits_zero.
Qed.
End durations.

(** A timeout is reported exactly: [FormatRustDuration] prints the duration
    to the nanosecond, in the largest unit with a non-zero integer part (or
    nanoseconds) and without trailing zeros, a negative one as zero. *)
Theorem format_rust_duration (d : Z) : - 2 ^ 63 <= d < 2 ^ 63 ->
  prints_duration (FormatRustDuration d) (Z.max d 0).
Proof.
  intros Hd. unfold FormatRustDuration. set (d0 := if d <? 0 then 0 else d).
  assert (d0 = Z.max d 0) as Hd0 by (unfold d0; destruct (Z.ltb_spec d 0); lia). rewrite <- Hd0.
  replace (uint64 d0) with d0 by (symmetry; apply uwrap_small; lia). clearbody d0.
  pose proof (Z.div_mod d0 1000000000 ltac:(lia)). pose proof (Z.mod_pos_bound d0 1000000000 ltac:(lia)).
  pose proof (Z.div_pos d0 1000000000). set (n := d0 mod 1000000000) in *. set (q := d0 / 1000000000) in *.
  assert (forall u k, bool_decide ((u, k) ∈ duration_units) = true -> (u, k) ∈ duration_units) as Hin
    by (intros u k; apply bool_decide_eq_true_1).
  pose proof (Z.div_mod n 1000000 ltac:(lia)). pose proof (Z.mod_pos_bound n 1000000 ltac:(lia)).
  pose proof (Z.div_mod n 1000 ltac:(lia)). pose proof (Z.mod_pos_bound n 1000 ltac:(lia)).
  destruct (Z.ltb_spec 0 q); [|destruct (Z.leb_spec 1000000 n); [|destruct (Z.leb_spec 1000 n)]].
  - apply (fmtFraction_prints d0 q n 8%nat); [by apply Hin; vm_compute| | |lia|lia];
      change (10 ^ Z.of_nat 9) with 1000000000; lia.
  - apply (fmtFraction_prints d0 (n / 1000000) (n mod 1000000) 5%nat);
      [by apply Hin; vm_compute| | |lia|lia]; change (10 ^ Z.of_nat 6) with 1000000; lia.
  - apply (fmtFraction_prints d0 (n / 1000) (n mod 1000) 2%nat);
      [by apply Hin; vm_compute| | |lia|lia]; change (10 ^ Z.of_nat 3) with 1000; lia.
  - exists n, [], (go "ns"), 0%nat. change (10 ^ Z.of_nat 0) with 1.
    replace (d0 - n * 1) with 0 by lia.
    split_and!; [by apply Hin; vm_compute|done|apply frac_nil|done|lia].
Qed.

Lemma format_rust_duration_witness :
  FormatRustDuration 1500000000 = go "1.5s" /\ FormatRustDuration 100000 = go "100µs"
  /\ prints_duration (FormatRustDuration 1500000000) 1500000000.
Proof.
  split; [vm_compute; reflexivity|]. split; [vm_compute; reflexivity|].
  apply (format_rust_duration 1500000000). lia.
Defined.
