(* ===== verification/Monterr.v ===== *)
(** The errors the library returns (src/monterr/errors.go): the error types,
    how they render, what [errors.Is] and [errors.As] find in them, the class
    hierarchy of Python exceptions, and the two translations between host
    errors and exceptions of the sandbox.

    The wrappers of package montygo around them ([hostFailure],
    [abortedTurn], the two marks of a stop) and the pool's own error are
    constructors of the same type, since one [error] value holds any of them;
    [Wrapped] is [fmt.Errorf] with a text before the error it wraps. *)

From S2P Require Import Prelude Utf8 GoStrings Exceptions Traceback PoolErrors.

Inductive DisplayFormat := DisplayTraceback | DisplayTypeMsg | DisplayMsg | DisplayDefault.

Record ExceptionInfo := MkExceptionInfo { ei_type : bytes; ei_message : bytes }.

Record Frame := MkFrame {
  f_filename : bytes; f_line : Z; f_column : Z; f_end_line : Z; f_end_column : Z;
  f_function : bytes; f_source : bytes }.

(** The error variables: they are compared by identity. *)
Inductive sentinel :=
| ErrSessionBusy | ErrSnapshotStale | ErrPoolClosed | ErrSessionClosed | ErrSessionLost
| ErrNotFresh | ErrDumpIsSuspended | ErrDumpIsIdle | ErrSnapshotResumed | ErrNotOSCall
| ErrCheckoutTimeout | ErrTurnCancelled | ErrSupervisorClosed | ErrNoServerInfo | ErrCallbackDetached
| errExecutionInterrupted | errDeliverStop | errAborted | ErrCanceled | ErrDeadlineExceeded.

#[export] Instance sentinel_eq_decision : EqDecision sentinel.
Proof. solve_decision. Defined.

Inductive merror :=
| RuntimeError (lost : bool) (typeName message : bytes) (frames : list Frame) (traceback : bytes)
| SyntaxError (message traceback : bytes)
| TypingError (diagnostics : bytes)
| CrashedError (message : bytes) (timedOut : bool) (exitStatus : bytes)
| DisconnectError (message : bytes) (code : Z) (reason : bytes)
| ShutdownError (message dump : bytes)
| RotationError (message dump : bytes) (cause : merror)
| ProtocolError (message : bytes) (cause : option merror)
| ResourceError (resource : bytes) (limit : Z)
| SessionKilledError (reason : option merror)
| HostConversionError (message : bytes)
| OptionError (message : bytes)
| ValueError (message : bytes)
| RaisedError (excType message : bytes)
| SpawnError (message : bytes)
| Sentinel (s : sentinel)
| PoolFailure (e : poolError) (cause : option merror)
| Joined (a b : merror)
| hostFailure (err : merror)
| abortedTurn (cause : merror)
| HostError (id : Z) (text : bytes)
| Wrapped (prefix : bytes) (cause : merror).

Definition typeMsg (typeName message : bytes) : bytes :=
  if bool_decide (message = []) then typeName else typeName ++ go ": " ++ message.

(** [strings.Cut(s, newline)], the part before *)
Definition firstLine (s : bytes) : bytes := default [] (head (split_byte newline s)).

Definition sentinel_text (s : sentinel) : bytes :=
  go match s with
     | ErrSessionBusy => "session already has an active operation"
     | ErrSnapshotStale => "snapshot does not own the current suspension"
     | ErrPoolClosed => "the pool is closed — create a new Monty pool"
     | ErrSessionClosed => "the session is closed — check out a new one"
     | ErrSessionLost => "montygo: session lost"
     | ErrNotFresh => "loadSession / loadSnapshot is only valid on a fresh session, before any feedRun / feedStart / loadSession / loadSnapshot"
     | ErrDumpIsSuspended => "this dump is a suspended snapshot — use loadSnapshot() to resume it"
     | ErrDumpIsIdle => "this dump is an idle session — use loadSession() to restore it"
     | ErrSnapshotResumed => "snapshot has already been resumed"
     | ErrNotOSCall => "resumeNotHandled is only valid for OS-call snapshots"
     | ErrCheckoutTimeout => "no monty worker became available within the checkout timeout"
     | ErrTurnCancelled => "a previous protocol turn was cancelled mid-flight; the worker was discarded"
     | ErrSupervisorClosed => "montygo: server supervisor closed"
     | ErrNoServerInfo => "montygo: server does not expose /info"
     | ErrCallbackDetached => "montygo: host callback still running after kill"
     | errExecutionInterrupted => "execution interruption requested"
     | errDeliverStop => "stop reason to deliver"
     | errAborted => "feed aborted"
     | ErrCanceled => "context canceled"
     | ErrDeadlineExceeded => "context deadline exceeded"
     end.

(** The method [Error] *)
Fixpoint Error (e : merror) : bytes :=
  match e with
  | RuntimeError _ t m _ _ => typeMsg t m
  | SyntaxError m _ => typeMsg (go "SyntaxError") m
  | TypingError d => typeMsg (go "TypeError") (firstLine d)
  | CrashedError m _ _ | DisconnectError m _ _ | ShutdownError m _ | RotationError m _ _ =>
    typeMsg (go "RuntimeError") m
  | ProtocolError m _ => m
  | ResourceError r n => r ++ go " limit " ++ itoa n ++ go " exceeded"
  | SessionKilledError _ => go "session killed to interrupt execution"
  | HostConversionError m | OptionError m | ValueError m | SpawnError m => m
  | RaisedError t m => typeMsg t m
  | Sentinel s => sentinel_text s
  | PoolFailure e _ => Error_Error e
  | Joined a b => Error a ++ [newline] ++ Error b
  | hostFailure err | abortedTurn err => Error err
  | HostError _ text => text
  | Wrapped prefix c => prefix ++ Error c
  end.

(** The method [Exception]; [None] when the type has none, so that it does not
    implement the interface [Error]. *)
Definition Exception (e : merror) : option ExceptionInfo :=
  match e with
  | RuntimeError _ t m _ _ => Some (MkExceptionInfo t m)
  | SyntaxError m _ => Some (MkExceptionInfo (go "SyntaxError") m)
  | TypingError d => Some (MkExceptionInfo (go "TypeError") (firstLine d))
  | CrashedError m _ _ | DisconnectError m _ _ | ShutdownError m _ | RotationError m _ _ =>
    Some (MkExceptionInfo (go "RuntimeError") m)
  | ResourceError _ _ => Some (MkExceptionInfo (go "RuntimeError") (Error e))
  | _ => None
  end.

(** ** Rendering *)

(** [itoa] of an int, its ten digits written from the end of a buffer of
    twenty bytes; negating the least int leaves it negative. *)
Fixpoint itoa_digits (fuel : nat) (i : Z) (buf : bytes) : bytes :=
  match fuel with
  | O => buf
  | S fuel => if 0 <? i then itoa_digits fuel (i / 10) (byte_of (48 + i mod 10) :: buf) else buf
  end.

Definition monterr_itoa (i : Z) : bytes :=
  if i =? 0 then go "0"
  else
    let neg := i <? 0 in
    let i := if neg then int64 (- i) else i in
    let buf := itoa_digits 20 i [] in
    if neg then go "-" ++ buf else buf.

(** [strings.TrimLeft(s, cutset)] for the blanks of a source line. *)
Fixpoint trim_blanks (s : bytes) : bytes :=
  match s with
  | c :: s' => if Byte.eqb c Byte.x20 || Byte.eqb c Byte.x09 then trim_blanks s' else s
  | [] => []
  end.

(** [strings.Repeat]: a negative count panics ([None]). *)
Definition go_repeat (s : bytes) (n : Z) : option bytes :=
  if n <? 0 then None else Some (Repeat s n).

Definition fallback_frame (f : Frame) : option bytes :=
  let name := if bool_decide (f_function f = []) then go "<module>" else f_function f in
  let head := go "  File " ++ [Byte.x22] ++ f_filename f ++ [Byte.x22] ++ go ", line "
              ++ monterr_itoa (f_line f) ++ go ", in " ++ name ++ [newline] in
  if bool_decide (f_source f = []) then Some head
  else
    let trimmed := trim_blanks (f_source f) in
    let shown := head ++ go "    " ++ trimmed ++ [newline] in
    if negb (HasPrefix trimmed (go "raise")) && (0 <? f_column f) && (f_column f <? f_end_column f)
    then
      let indent := len (f_source f) - len trimmed in
      pad ← go_repeat (go " ") (4 + f_column f - 1 - indent);
      tildes ← go_repeat (go "~") (f_end_column f - f_column f);
      Some (shown ++ pad ++ tildes ++ [newline])
    else Some shown.

Definition renderFallbackTraceback (frames : list Frame) (summary : bytes) : option bytes :=
  parts ← mapM fallback_frame frames;
  Some (go "Traceback (most recent call last):" ++ [newline] ++ concat parts ++ summary).

(** The method [Display]; the outer [None] is a type without the method, the
    inner one a panic. *)
Definition Display (e : merror) (fmt : DisplayFormat) : option (option bytes) :=
  match e with
  | RuntimeError _ t m frames tb =>
    Some match fmt with
         | DisplayTypeMsg => Some (typeMsg t m)
         | DisplayMsg => Some m
         | _ => if bool_decide (tb = []) then renderFallbackTraceback frames (typeMsg t m) else Some tb
         end
  | SyntaxError m tb =>
    Some (Some match fmt with
               | DisplayTraceback => if bool_decide (tb = []) then typeMsg (go "SyntaxError") m else tb
               | DisplayTypeMsg => typeMsg (go "SyntaxError") m
               | _ => m
               end)
  | TypingError d => Some (Some d)
  | CrashedError m _ _ =>
    Some (Some match fmt with
               | DisplayTypeMsg | DisplayTraceback => typeMsg (go "RuntimeError") m
               | _ => m
               end)
  | DisconnectError m _ _ | ShutdownError m _ | RotationError m _ _ =>
    Some (Some match fmt with DisplayMsg => m | _ => typeMsg (go "RuntimeError") m end)
  | ResourceError _ _ => Some (Some (typeMsg (go "RuntimeError") (Error e)))
  | _ => None
  end.

(** ** [errors.Is] and [errors.As] *)

(** The method [Is] of an error type. *)
Definition own_is (e : merror) (target : sentinel) : bool :=
  match e with
  | RuntimeError lost _ _ _ _ => lost && bool_decide (target = ErrSessionLost)
  | CrashedError _ _ _ | DisconnectError _ _ _ | ShutdownError _ _ | RotationError _ _ _
  | ProtocolError _ _ | SessionKilledError _ => bool_decide (target = ErrSessionLost)
  | abortedTurn _ => bool_decide (target = errAborted)
  | Sentinel s => bool_decide (s = target)
  | _ => false
  end.

(** [errors.Is(e, target)] walks the errors an error wraps. *)
Fixpoint Is (e : merror) (target : sentinel) : bool :=
  own_is e target
  || match e with
     | RotationError _ _ c => Is c target
     | ProtocolError _ (Some c) | SessionKilledError (Some c) | PoolFailure _ (Some c) => Is c target
     | Joined a b => Is a target || Is b target
     | hostFailure c | abortedTurn c | Wrapped _ c => Is c target
     | _ => false
     end.

(** [errors.As]: the first error of the chain that [pick] accepts. *)
Fixpoint As {A} (pick : merror -> option A) (e : merror) : option A :=
  match pick e with
  | Some a => Some a
  | None =>
    match e with
    | RotationError _ _ c => As pick c
    | ProtocolError _ (Some c) | SessionKilledError (Some c) | PoolFailure _ (Some c) => As pick c
    | Joined a b => match As pick a with Some x => Some x | None => As pick b end
    | hostFailure c | abortedTurn c | Wrapped _ c => As pick c
    | _ => None
    end
  end.

Definition as_raised (e : merror) : option (bytes * bytes) :=
  match e with RaisedError t m => Some (t, m) | _ => None end.
Definition as_conversion (e : merror) : option bytes :=
  match e with HostConversionError m => Some m | _ => None end.
Definition as_pool (e : merror) : option (poolError * option merror) :=
  match e with PoolFailure p c => Some (p, c) | _ => None end.
Definition as_protocol (e : merror) : option bytes :=
  match e with ProtocolError m _ => Some m | _ => None end.
Definition as_hostFailure (e : merror) : option merror :=
  match e with hostFailure err => Some err | _ => None end.
Definition as_abortedTurn (e : merror) : option merror :=
  match e with abortedTurn c => Some c | _ => None end.

(** ** The classes of Python exceptions *)

Definition excParents : list (string * string) :=
  [("BaseException", ""); ("SystemExit", "BaseException"); ("KeyboardInterrupt", "BaseException"); ("Exception", "BaseException");
   ("ArithmeticError", "Exception"); ("OverflowError", "ArithmeticError"); ("ZeroDivisionError", "ArithmeticError");
   ("LookupError", "Exception"); ("IndexError", "LookupError"); ("KeyError", "LookupError");
   ("RuntimeError", "Exception"); ("NotImplementedError", "RuntimeError"); ("RecursionError", "RuntimeError");
   ("AttributeError", "Exception"); ("FrozenInstanceError", "AttributeError");
   ("NameError", "Exception"); ("UnboundLocalError", "NameError");
   ("ValueError", "Exception"); ("UnicodeDecodeError", "ValueError"); ("UnicodeEncodeError", "ValueError");
   ("json.JSONDecodeError", "ValueError"); ("binascii.Error", "ValueError"); ("binascii.Incomplete", "Exception");
   ("ImportError", "Exception"); ("ModuleNotFoundError", "ImportError");
   ("OSError", "Exception"); ("FileNotFoundError", "OSError"); ("FileExistsError", "OSError"); ("IsADirectoryError", "OSError");
   ("NotADirectoryError", "OSError"); ("PermissionError", "OSError"); ("TimeoutError", "OSError");
   ("io.UnsupportedOperation", "OSError"); ("AssertionError", "Exception"); ("MemoryError", "Exception");
   ("StopIteration", "Exception"); ("SyntaxError", "Exception"); ("TypeError", "Exception"); ("re.PatternError", "Exception")]%string.

(** A lookup in the Go map; the zero value of an absent key is the empty string. *)
Definition parent_entry (t : bytes) : option bytes :=
  p ← list_find (fun p => go p.1 = t) excParents; Some (go p.2.2).
Definition parent_of (t : bytes) : bytes := default [] (parent_entry t).
Definition known_exception (t : bytes) : bool :=
  match parent_entry t with Some _ => true | None => false end.

Definition KnownExceptionNames : list bytes :=
  map fst (sort_keys (map (fun p => (go p.1, tt)) excParents)).

(** The loop of [IsSubclass]: one class up per iteration. *)
Fixpoint climbs_to (fuel : nat) (t base : bytes) : bool :=
  match fuel with
  | O => false
  | S fuel =>
    if bool_decide (t = []) then false
    else if bool_decide (t = base) then true
    else climbs_to fuel (parent_of t) base
  end.

Definition IsSubclass (excType base : bytes) : bool :=
  if bool_decide (excType = base) || bool_decide (base = go "BaseException") then known_exception excType
  else if bool_decide (excType = go "io.UnsupportedOperation") && bool_decide (base = go "ValueError") then true
  else climbs_to (length excParents) (parent_of excType) base.

(** ** Host errors and sandbox exceptions *)

Definition frame_of (f : tbframe) : Frame :=
  MkFrame (tb_filename f) (cl_line (tb_start f)) (cl_column (tb_start f)) (cl_line (tb_end f)) (cl_column (tb_end f))
    (default [] (tb_name f)) (default [] (tb_preview f)).

Definition ErrorFromException (exc : wexception) : merror :=
  if bool_decide (we_type exc = go "SyntaxError") then SyntaxError (MessageText exc) (Render exc)
  else RuntimeError false (we_type exc) (MessageText exc) (map frame_of (we_traceback exc)) (Render exc).

Definition ExceptionParts (err : merror) : bytes * bytes :=
  match As as_raised err with
  | Some (t, m) => if known_exception t then (t, m) else (go "RuntimeError", m)
  | None =>
    match As Exception err with
    | Some info => (ei_type info, ei_message info)
    | None =>
      match As as_conversion err with
      | Some m => (go "TypeError", m)
      | None => (go "RuntimeError", Error err)
      end
    end
  end.

Definition MarkSessionLost (e : merror) : merror :=
  match e with RuntimeError _ t m fs tb => RuntimeError true t m fs tb | _ => e end.

(** ** The hierarchy *)

(** What it means to derive from a class: reflexivity, one class up, and the
    second base of [io.UnsupportedOperation]. *)
Inductive derives : bytes -> bytes -> Prop :=
| derives_self t : known_exception t = true -> derives t t
| derives_parent t p b : parent_entry t = Some p -> derives p b -> derives t b
| derives_unsupported : derives (go "io.UnsupportedOperation") (go "ValueError").

(** The classes above [t], [t] first, within [n] steps. *)
Fixpoint ancestors (n : nat) (t : bytes) : list bytes :=
  match n with
  | O => []
  | S n => match parent_entry t with Some p => t :: ancestors n p | None => [] end
  end.

Section hierarchy.

Lemma known_entry t : known_exception t = true <-> exists p, parent_entry t = Some p.
Proof. unfold known_exception. destruct (parent_entry t); naive_solver. Qed.

Lemma parent_entry_in t p : parent_entry t = Some p -> exists q, q ∈ excParents /\ go q.1 = t /\ go q.2 = p.
Proof.
  unfold parent_entry. destruct (list_find _ excParents) as [[i q]|] eqn:Hf; cbn; intros; simplify_eq.
  apply list_find_Some in Hf as (Hl & Hq & _). exists q. eauto using list_elem_of_lookup_2.
Qed.

(** Every class is at most four steps from the root, so the chain of its
    ancestors is finite and ends in [BaseException]. *)
Lemma table_depth : Forall (fun q => last (ancestors 5 (go q.1)) = Some (go "BaseException")
    /\ ancestors 5 (go q.1) = ancestors 6 (go q.1)) excParents.
Proof. apply Forall_forall. intros q Hq. repeat (apply elem_of_cons in Hq as [->|Hq]; [vm_compute; done|]). by apply not_elem_of_nil in Hq. Qed.

(** A parent is again a class, or the empty name above the root; nothing
    derives from [io.UnsupportedOperation]. *)
Lemma table_closed : Forall (fun q => (go q.2 = [] \/ known_exception (go q.2) = true)
    /\ go q.2 <> go "io.UnsupportedOperation") excParents.
Proof.
  apply Forall_forall. intros q Hq.
  repeat (apply elem_of_cons in Hq as [->|Hq]; [split; [first [left; reflexivity|right; reflexivity]|vm_compute; discriminate]|]).
  by apply not_elem_of_nil in Hq.
Qed.

Lemma entry_closed t p : parent_entry t = Some p ->
  (p = [] \/ known_exception p = true) /\ p <> go "io.UnsupportedOperation".
Proof.
  intros (q & Hq & _ & <-)%parent_entry_in. exact (proj1 (Forall_forall _ _) table_closed q Hq).
Qed.

Lemma known_depth t : known_exception t = true ->
  last (ancestors 5 t) = Some (go "BaseException") /\ ancestors 5 t = ancestors 6 t.
Proof.
  intros [p (q & Hq & <- & _)%parent_entry_in]%known_entry. exact (proj1 (Forall_forall _ _) table_depth q Hq).
Qed.

Lemma ancestors_stable n t : ancestors n t = ancestors (S n) t -> ancestors (S n) t = ancestors (S (S n)) t.
Proof.
  revert t. induction n as [|n IH]; intros t; cbn [ancestors]; destruct (parent_entry t) as [p|]; try done.
  intros [= H]. f_equal. exact (IH p H).
Qed.

Lemma ancestors_enough n t : known_exception t = true -> ancestors (n + 5) t = ancestors 5 t.
Proof.
  intros Hk. destruct (known_depth t Hk) as [_ Hd].
  assert (ancestors (n + 5) t = ancestors 5 t /\ ancestors (n + 5) t = ancestors (S (n + 5)) t) as [E _]; [|done].
  induction n as [|n [IH1 IH2]]; [by split|]. cbn [Nat.add]. split; [by rewrite <- IH2|]. by apply ancestors_stable.
Qed.

Lemma climbs_spec n t b : t = [] \/ known_exception t = true -> climbs_to n t b = true <-> b ∈ ancestors n t.
Proof.
  revert t. induction n as [|n IH]; intros t Ht; cbn [climbs_to ancestors]; [set_solver|].
  destruct Ht as [->|Hk].
  { rewrite bool_decide_true by done. change (parent_entry []) with (@None bytes). set_solver. }
  destruct (proj1 (known_entry t) Hk) as [p Hp]. rewrite Hp.
  rewrite bool_decide_false by (intros ->; discriminate Hk).
  unfold parent_of. rewrite Hp. cbn. rewrite elem_of_cons, <- (IH p (proj1 (entry_closed t p Hp))).
  case_bool_decide; naive_solver.
Qed.

Lemma derives_ancestors t b :
  derives t b <-> b ∈ ancestors 5 t \/ (t = go "io.UnsupportedOperation" /\ b = go "ValueError").
Proof.
  split.
  - induction 1 as [t [p Hp]%known_entry|t p b Hp _ IH|]; [left; change (t ∈ match parent_entry t with Some p => t :: ancestors 4 p | None => [] end); rewrite Hp; set_solver| |by right].
    left. destruct IH as [Hin|[-> _]]; [|by destruct (entry_closed _ _ Hp)].
    assert (known_exception t = true) as Hk by (apply known_entry; eauto).
    rewrite (proj2 (known_depth t Hk)). change (b ∈ match parent_entry t with Some p => t :: ancestors 5 p | None => [] end).
    rewrite Hp. by right.
  - intros [Hin|[-> ->]]; [|apply derives_unsupported].
    revert t Hin. generalize 5%nat. induction n as [|n IH]; intros t; cbn [ancestors]; [set_solver|].
    destruct (parent_entry t) as [p|] eqn:Hp; [|set_solver]. rewrite elem_of_cons.
    intros [->|Hin]; [apply derives_self, known_entry; eauto|eapply derives_parent; eauto].
Qed.
End hierarchy.

Lemma derives_known t b : derives t b -> known_exception t = true.
Proof. induction 1 as [|t p b Hp|]; [done|apply known_entry; eauto|reflexivity]. Qed.

Lemma IsSubclass_derives t b : IsSubclass t b = true <-> derives t b.
Proof.
  unfold IsSubclass.
  destruct (bool_decide (t = b) || _) eqn:Htop.
  { apply orb_true_iff in Htop as [E%bool_decide_eq_true|E%bool_decide_eq_true]; subst b.
    - split; [apply derives_self|apply derives_known].
    - split; [|apply derives_known]. intros Hk. apply derives_ancestors. left.
      eapply last_Some_elem_of, known_depth, Hk. }
  apply orb_false_iff in Htop as [Hne%bool_decide_eq_false Hbase%bool_decide_eq_false].
  destruct (bool_decide (t = go "io.UnsupportedOperation") && _) eqn:Hu.
  { apply andb_true_iff in Hu as [Et%bool_decide_eq_true Eb%bool_decide_eq_true]. subst t b.
    split; [intros _; apply derives_unsupported|done]. }
  rewrite derives_ancestors.
  transitivity (b ∈ ancestors 5 t).
  2:{ split; [by left|]. intros [|[-> ->]]; [done|]. by rewrite !bool_decide_true in Hu by done. }
  unfold parent_of. destruct (parent_entry t) as [p|] eqn:Hp; cbn [default].
  2:{ cbn [ancestors]. rewrite Hp. rewrite climbs_spec by by left. cbn. set_solver. }
  rewrite climbs_spec by apply (entry_closed t p Hp).
  assert (known_exception t = true) as Hk by (apply known_entry; eauto).
  rewrite <- (ancestors_enough 35 t Hk). change (35 + 5)%nat with (S (length excParents)).
  cbn [ancestors]. rewrite Hp, elem_of_cons. naive_solver.
Qed.

Lemma derives_trans a b c : derives a b -> derives b c -> derives a c.
Proof.
  induction 1 as [|t p b Hp _ IH|]; [done|intros; eapply derives_parent; eauto|].
  intros [Hin|[? _]]%derives_ancestors; [|done].
  apply derives_ancestors. vm_compute in Hin.
  repeat (apply elem_of_cons in Hin as [->|Hin]; [first [by right|left; vm_compute; set_solver]|]).
  by apply not_elem_of_nil in Hin.
Qed.

(** Going up a class strictly shortens the chain above it. *)
Lemma derives_depth a b : derives a b -> a = b \/ (length (ancestors 5 b) < length (ancestors 5 a))%nat.
Proof.
  induction 1 as [|t p b Hp _ IH|]; [by left| |right; vm_compute; lia].
  assert (known_exception t = true) as Hk by (apply known_entry; eauto).
  assert (length (ancestors 5 t) = S (length (ancestors 5 p))) as Hlen.
  { rewrite (proj2 (known_depth t Hk)).
    change (ancestors 6 t) with (match parent_entry t with Some p => t :: ancestors 5 p | None => [] end).
    by rewrite Hp. }
  right. destruct IH as [<-|IH]; lia.
Qed.

(** The errors [errors.Is] and [errors.As] look at. *)
Inductive wraps : merror -> merror -> Prop :=
| wraps_self e : wraps e e
| wraps_rotation m d c x : wraps c x -> wraps (RotationError m d c) x
| wraps_protocol m c x : wraps c x -> wraps (ProtocolError m (Some c)) x
| wraps_killed c x : wraps c x -> wraps (SessionKilledError (Some c)) x
| wraps_pool p c x : wraps c x -> wraps (PoolFailure p (Some c)) x
| wraps_left a b x : wraps a x -> wraps (Joined a b) x
| wraps_right a b x : wraps b x -> wraps (Joined a b) x
| wraps_host c x : wraps c x -> wraps (hostFailure c) x
| wraps_aborted c x : wraps c x -> wraps (abortedTurn c) x
| wraps_wrapped m c x : wraps c x -> wraps (Wrapped m c) x.

Create HintDb errors_db.
#[export] Hint Constructors wraps : errors_db.

(** What [As] returns was picked from an error of the chain. The recursion
    passes through [option], so the induction is on the function's own steps. *)
Lemma As_wraps {A} (pick : merror -> option A) :
  forall e a, As pick e = Some a -> exists x, wraps e x /\ pick x = Some a.
Proof.
  fix IH 1. intros e a.
  destruct e as [| | | | | |m d c|m [c|]| |[c|]| | | | | | |p [c|]|e1 e2|c|c| |m c]; cbn;
    (destruct (pick _) eqn:Hp; [intros; simplify_eq; eauto with errors_db|]); try done.
  5:{ destruct (As pick e1) eqn:H1; intros ?; simplify_eq;
      [destruct (IH e1 _ H1) as (x & ? & ?)|destruct (IH e2 a) as (x & ? & ?); [done|]]; eauto with errors_db. }
  all: intros H; destruct (IH c a H) as (x & ? & ?); eauto with errors_db.
Qed.


(** [IsSubclass] decides exactly the derivation relation of the class
    table, including the second base of [io.UnsupportedOperation]; it is
    transitive, and two classes that derive from each other are one. *)
Theorem class_hierarchy :
  (forall t b, IsSubclass t b = true <-> derives t b)
  /\ (forall a b c, IsSubclass a b = true -> IsSubclass b c = true -> IsSubclass a c = true)
  /\ (forall a b, IsSubclass a b = true -> IsSubclass b a = true -> a = b)
  /\ (forall t, known_exception t = true -> IsSubclass t (go "BaseException") = true).
Proof.
  split; [exact IsSubclass_derives|]. split; [|split].
  - intros a b c. rewrite !IsSubclass_derives. apply derives_trans.
  - intros a b. rewrite !IsSubclass_derives.
    intros [|H1]%derives_depth [|H2]%derives_depth; [done..|lia].
  - intros t Hk. apply IsSubclass_derives, derives_ancestors. left. eapply last_Some_elem_of, known_depth, Hk.
Qed.

(** ** Crossing between the host and the sandbox *)

Lemma render_nonempty exc : we_traceback exc <> [] -> Render exc <> [].
Proof. unfold Render. destruct (we_traceback exc) as [|f fs]; [done|]. cbn. done. Qed.

(** An error that came from the sandbox displays in every format. *)
Lemma display_total exc fmt : exists text, Display (ErrorFromException exc) fmt = Some (Some text).
Proof.
  unfold ErrorFromException. case_bool_decide; [cbn; eauto|].
  destruct fmt; cbn; eauto; (case_bool_decide as Hr; [|eauto]).
  all: destruct (we_traceback exc) eqn:Ht; [cbn; eauto|destruct (render_nonempty exc); congruence].
Qed.

(** The tildes of the fallback traceback are placed by the column alone: in a
    frame whose column lies inside the indentation they would start left of
    the margin, and [strings.Repeat] panics. *)
Example fallback_traceback_panics :
  let f := MkFrame (go "m.py") 1 1 1 2 [] (go "     x") in
  Display (RuntimeError false (go "ValueError") [] [f] []) DisplayTraceback = Some None.
Proof. vm_compute. reflexivity. Qed.

