(* ===== verification/Print.v ===== *)
(** Sandbox output (src/sandbox/print.go), and how a feed hands it to its target
    (printTarget of src/session.go). *)

From S2P Require Import Prelude GoStrings Traceback Monterr.

Inductive Stream := Stdout | Stderr.

#[export] Instance Stream_eq_decision : EqDecision Stream.
Proof. solve_decision. Defined.

(** ** Lines *)

(** A call of the callback of [Lines]; [lc_whole] tells a line from the rest that
    [Flush] delivers. *)
Record line_call := LineCall { lc_stream : Stream; lc_line : bytes; lc_whole : bool }.

(** [lineTarget], with the calls its callback has had, the last one first. *)
Record lineTarget := MkLines { partial_out : bytes; partial_err : bytes; lt_calls : list line_call }.

Definition partial (st : Stream) (t : lineTarget) : bytes :=
  match st with Stdout => partial_out t | Stderr => partial_err t end.
Definition set_partial (st : Stream) (b : bytes) (t : lineTarget) : lineTarget :=
  match st with
  | Stdout => MkLines b (partial_err t) (lt_calls t)
  | Stderr => MkLines (partial_out t) b (lt_calls t)
  end.
Definition calling (c : line_call) (t : lineTarget) : lineTarget := MkLines (partial_out t) (partial_err t) (c :: lt_calls t).

Definition Lines : lineTarget := MkLines [] [] [].

(** [strings.IndexByte(buf, newline)] and the two slices. *)
Fixpoint cut_line (buf : bytes) : option (bytes * bytes) :=
  match buf with
  | [] => None
  | c :: buf =>
    if bool_decide (c = newline) then Some ([], buf)
    else match cut_line buf with Some (line, rest) => Some (c :: line, rest) | None => None end
  end.

Section lines.
(** What the callback returns, which may depend on the calls it had before. *)
Variable fn : list line_call -> Stream -> bytes -> option merror.

(** The loop of [Print]; each round removes a byte of [buf]. *)
Fixpoint print_loop (fuel : nat) (st : Stream) (buf : bytes) (t : lineTarget) : option merror * lineTarget :=
  match fuel with
  | O => (None, set_partial st buf t)
  | S fuel =>
    match cut_line buf with
    | None => (None, set_partial st buf t)
    | Some (line, rest) =>
      let err := fn (lt_calls t) st line in
      let t := calling (LineCall st line true) t in
      match err with
      | Some err => (Some err, set_partial st rest t)
      | None => print_loop fuel st rest t
      end
    end
  end.

Definition lines_Print (st : Stream) (text : bytes) (t : lineTarget) : option merror * lineTarget :=
  let buf := partial st t ++ text in print_loop (length buf) st buf t.

Definition flush_one (st : Stream) (t : lineTarget) : option merror * lineTarget :=
  let rest := partial st t in
  if bool_decide (rest = []) then (None, t)
  else
    let t := set_partial st [] t in
    (fn (lt_calls t) st rest, calling (LineCall st rest false) t).

Definition lines_Flush (t : lineTarget) : option merror * lineTarget :=
  let '(err, t) := flush_one Stdout t in
  match err with
  | Some err => (Some err, t)
  | None => flush_one Stderr t
  end.

Inductive line_op := LPrint (st : Stream) (text : bytes) | LFlush.

Definition line_do (t : lineTarget) (op : line_op) : lineTarget :=
  match op with
  | LPrint st text => (lines_Print st text t).2
  | LFlush => (lines_Flush t).2
  end.

Definition lines_run (ops : list line_op) : lineTarget := foldl line_do Lines ops.
End lines.

(** ** Collectors *)

Definition DefaultMaxPrintCollectBytes : Z := 10 * 2 ^ 20.
Definition UnlimitedPrintCollect : Z := -1.
Definition collectStreamsEntryOverhead : Z := 64.

Definition collectLimit (maxBytes : Z) : merror + Z :=
  if maxBytes <? UnlimitedPrintCollect
  then inl (OptionError (go "maxBytes must be a finite non-negative number or null"))
  else inr maxBytes.

Definition collectOverflow (used limit : Z) : merror :=
  RuntimeError false (go "MemoryError")
    (go "memory limit exceeded: " ++ itoa used ++ go " bytes > " ++ itoa limit ++ go " bytes") [] [].

Record CollectString := MkCollect { cs_buf : bytes; cs_maxBytes : Z; cs_used : Z; cs_custom : bool }.

Definition NewCollectString (maxBytes : Z) : merror + CollectString :=
  match collectLimit maxBytes with
  | inl err => inl err
  | inr limit => inr (MkCollect [] limit 0 true)
  end.

Definition collect_limit (c : CollectString) : Z :=
  if negb (cs_custom c) then DefaultMaxPrintCollectBytes else cs_maxBytes c.

Definition CollectString_Print (text : bytes) (c : CollectString) : option merror * CollectString :=
  let add := len text in
  let limit := collect_limit c in
  if (0 <=? limit) && (limit <? int64 (cs_used c + add)) then (Some (collectOverflow (int64 (cs_used c + add)) limit), c)
  else (None, MkCollect (cs_buf c ++ text) (cs_maxBytes c) (int64 (cs_used c + add)) (cs_custom c)).

Record CollectStreams := MkStreams { st_entries : list (Stream * bytes); st_maxBytes : Z; st_used : Z; st_custom : bool }.

Definition NewCollectStreams (maxBytes : Z) : merror + CollectStreams :=
  match collectLimit maxBytes with
  | inl err => inl err
  | inr limit => inr (MkStreams [] limit 0 true)
  end.

Definition CollectStreams_Print (st : Stream) (text : bytes) (c : CollectStreams) : option merror * CollectStreams :=
  let limit := if negb (st_custom c) then DefaultMaxPrintCollectBytes else st_maxBytes c in
  let add := int64 (len text + collectStreamsEntryOverhead) in
  if (0 <=? limit) && (limit <? int64 (st_used c + add)) then (Some (collectOverflow (int64 (st_used c + add)) limit), c)
  else (None, MkStreams (st_entries c ++ [(st, text)]) (st_maxBytes c) (int64 (st_used c + add)) (st_custom c)).

(** ** The target of a feed *)

(** What running host code came to: it returned, or panicked with an error or
    with another value, printed as given. *)
Inductive ran (A : Type) := Returned (a : A) | Panicked (r : merror + bytes).
Arguments Returned {A}.
Arguments Panicked {A}.

Definition panicError (r : merror + bytes) : merror :=
  match r with inl err => err | inr text => HostError 0 text end.

(** [printTarget]: whether there is a target and whether it buffers, the first
    failure, and what was written so far. *)
Inductive print_act := ToProcess (st : Stream) (text : bytes) | ToTarget (st : Stream) (text : bytes) | Flushed.
Record printTarget := MkTarget { pt_flushing : option bool; pt_failure : option merror; pt_acts : list print_act }.

Definition newPrintTarget (target : option bool) : printTarget := MkTarget target None [].

Definition pt_act (a : print_act) (p : printTarget) : printTarget := MkTarget (pt_flushing p) (pt_failure p) (pt_acts p ++ [a]).
Definition pt_fail (err : option merror) (p : printTarget) : printTarget :=
  match err with Some _ => MkTarget (pt_flushing p) err (pt_acts p) | None => p end.

(** [finish]; [flushed] is what the target's [Flush] returns. *)
Definition pt_finish (flushed : option merror) (p : printTarget) : option merror * printTarget :=
  match pt_flushing p, pt_failure p with
  | Some true, None => (flushed, pt_fail flushed (pt_act Flushed p))
  | _, _ => (None, p)
  end.

(** [onPrint]; [target] is what the target's method came to. *)
Definition onPrint (target : ran (option merror)) (stream : Z) (text : bytes) (p : printTarget) : printTarget :=
  match pt_failure p with
  | Some _ => p
  | None =>
    let st := if stream =? 2 then Stderr else Stdout in
    match pt_flushing p with
    | None => pt_act (ToProcess st text) p
    | Some _ =>
      pt_fail (match target with Returned err => err | Panicked r => Some (panicError r) end) (pt_act (ToTarget st text) p)
    end
  end.

(** ** Lines are the printed text *)

(** The text the calls for a stream carry, and the text printed to it. *)
Definition call_text (st : Stream) (c : line_call) : bytes :=
  if bool_decide (lc_stream c = st) then lc_line c ++ (if lc_whole c then [newline] else []) else [].
Definition delivered (st : Stream) (t : lineTarget) : bytes := concat (call_text st <$> rev (lt_calls t)).
Definition op_text (st : Stream) (op : line_op) : bytes :=
  match op with LPrint st' text => if bool_decide (st' = st) then text else [] | LFlush => [] end.

Lemma delivered_calling st c t : delivered st (calling c t) = delivered st t ++ call_text st c.
Proof. unfold delivered, calling. cbn [lt_calls rev]. rewrite fmap_app, concat_app. cbn. by rewrite app_nil_r. Qed.

Lemma delivered_partial st st' b t : delivered st (set_partial st' b t) = delivered st t.
Proof. by destruct st'. Qed.

Lemma partial_set st st' b t : partial st (set_partial st' b t) = if bool_decide (st' = st) then b else partial st t.
Proof. by destruct st, st'. Qed.

Lemma partial_calling st c t : partial st (calling c t) = partial st t.
Proof. by destruct st. Qed.

Lemma cut_line_spec buf :
  match cut_line buf with
  | Some (line, rest) => buf = line ++ newline :: rest /\ newline ∉ line
  | None => newline ∉ buf
  end.
Proof.
  induction buf as [|c buf IH]; cbn; [set_solver|]. case_bool_decide as Hc; [subst; split; [done|set_solver]|].
  destruct (cut_line buf) as [[line rest]|]; [destruct IH as [-> ?]; split; [done|]|]; set_solver.
Qed.

(** What every operation on a line target keeps: the lines passed on and what is
    kept back are the text, whole lines hold no newline, and nothing kept back
    holds one unless the callback failed. *)
Record lines_ok (fn : list line_call -> Stream -> bytes -> option merror) (text : Stream -> bytes) (t : lineTarget) : Prop := {
  lo_text st : delivered st t ++ partial st t = text st;
  lo_whole : Forall (fun c => lc_whole c = true -> newline ∉ lc_line c) (lt_calls t);
  lo_partial : (forall h s l, fn h s l = None) -> forall st, newline ∉ partial st t }.

Lemma print_loop_ok fn text fuel st buf t :
  (forall st', delivered st' t ++ (if bool_decide (st = st') then buf else partial st' t) = text st') ->
  Forall (fun c => lc_whole c = true -> newline ∉ lc_line c) (lt_calls t) ->
  ((forall h s l, fn h s l = None) -> forall st', st <> st' -> newline ∉ partial st' t) ->
  (length buf <= fuel)%nat ->
  lines_ok fn text (print_loop fn fuel st buf t).2.
Proof.
  revert buf t. induction fuel as [|fuel IH]; intros buf t Ht Hw Hp Hf; cbn [print_loop].
  - destruct buf; [|cbn in Hf; lia]. split; cbn [snd].
    + intros st'. rewrite delivered_partial, partial_set. apply Ht.
    + by destruct st.
    + intros Hn st'. rewrite partial_set. case_bool_decide; [set_solver|by apply Hp].
  - pose proof (cut_line_spec buf) as Hc. destruct (cut_line buf) as [[line rest]|].
    2: { split; cbn [snd]; [intros st'; rewrite delivered_partial, partial_set; apply Ht|by destruct st|].
         intros Hn st'. rewrite partial_set. case_bool_decide; [done|by apply Hp]. }
    destruct Hc as [-> Hl].
    assert (forall st', delivered st' (calling (LineCall st line true) t)
              ++ (if bool_decide (st = st') then rest else partial st' (calling (LineCall st line true) t)) = text st') as Ht'.
    { intros st'. rewrite delivered_calling, partial_calling, <-Ht. unfold call_text. cbn.
      case_bool_decide; [by rewrite <-!app_assoc|by rewrite app_nil_r]. }
    assert (Forall (fun c => lc_whole c = true -> newline ∉ lc_line c) (lt_calls (calling (LineCall st line true) t))) as Hw'
      by (by constructor).
    destruct (fn (lt_calls t) st line) eqn:He.
    + split; cbn [snd]; [intros st'; rewrite delivered_partial, partial_set; apply Ht'|by destruct st|].
      intros Hn. by rewrite Hn in He.
    + apply IH; [done|done|intros Hn st' ?; rewrite partial_calling; by apply Hp|].
      rewrite length_app in Hf. cbn in Hf. lia.
Qed.

Lemma flush_one_ok fn text st t : lines_ok fn text t -> lines_ok fn text (flush_one fn st t).2.
Proof.
  intros [Ht Hw Hp]. unfold flush_one. case_bool_decide; [done|]. split; cbn [snd].
  - intros st'. rewrite delivered_calling, delivered_partial, partial_calling, partial_set, <-Ht. unfold call_text. cbn.
    case_bool_decide; [subst; by rewrite !app_nil_r|by rewrite app_nil_r].
  - constructor; [done|by destruct st].
  - intros Hn st'. rewrite partial_calling, partial_set. case_bool_decide; [set_solver|by apply Hp].
Qed.

(** C40. Whatever is printed in whatever chunks, and whatever the callback of
    [Lines] answers, for each stream the lines it was given with their newlines,
    the rests it was given by [Flush] and what is still kept back are together
    exactly the text printed, in order; a line holds no newline, and as long as
    the callback does not fail nothing that is kept back does. *)
Theorem lines_are_the_text (fn : list line_call -> Stream -> bytes -> option merror) (ops : list line_op) :
  let t := lines_run fn ops in
  (forall st, delivered st t ++ partial st t = concat (op_text st <$> ops)) /\
  Forall (fun c => lc_whole c = true -> newline ∉ lc_line c) (lt_calls t) /\
  ((forall h s l, fn h s l = None) -> forall st, newline ∉ partial st t).
Proof.
  assert (lines_ok fn (fun st => concat (op_text st <$> ops)) (lines_run fn ops)) as [? ? ?]; [|done].
  unfold lines_run. induction ops as [|op ops IH] using rev_ind.
  { split; cbn; [by intros []|constructor|intros _ []; set_solver]. }
  rewrite foldl_app. destruct op as [st text|]; cbn [foldl line_do].
  - destruct IH as [Ht Hw Hp]. apply print_loop_ok; [|done|intros Hn ? _; by apply Hp|done].
    intros st'. rewrite fmap_app, concat_app, <-Ht. cbn. rewrite app_nil_r. case_bool_decide; [subst; by rewrite app_assoc|by rewrite app_nil_r].
  - assert (lines_ok fn (fun st => concat (op_text st <$> ops ++ [LFlush])) (foldl (line_do fn) Lines ops)) as IH'.
    { destruct IH as [Ht Hw Hp]. split; [|done|done]. intros st. rewrite fmap_app, concat_app, <-Ht. cbn. by rewrite app_nil_r. }
    unfold lines_Flush. pose proof (flush_one_ok fn _ Stdout _ IH') as H1.
    destruct (flush_one fn Stdout _) as [[e|] t]; [done|]. by apply flush_one_ok.
Qed.

(** ** Collectors keep to their limit *)

Definition collect_all (c : CollectString) (texts : list bytes) : CollectString :=
  foldl (fun c text => (CollectString_Print text c).2) c texts.

(** The texts a collector takes: each one that fits with those taken before. *)
Fixpoint taken (limit used : Z) (texts : list bytes) : list bytes :=
  match texts with
  | [] => []
  | text :: texts =>
    if (0 <=? limit) && (limit <? used + len text) then taken limit used texts
    else text :: taken limit (used + len text) texts
  end.

Lemma collect_all_spec texts c :
  0 <= cs_used c -> cs_used c + len (concat texts) < 2 ^ 63 -> cs_used c = len (cs_buf c) ->
  (0 <= collect_limit c -> cs_used c <= collect_limit c) ->
  let c' := collect_all c texts in
  cs_buf c' = cs_buf c ++ concat (taken (collect_limit c) (cs_used c) texts) /\ cs_used c' = len (cs_buf c') /\
  (0 <= collect_limit c -> cs_used c' <= collect_limit c).
Proof.
  revert c. induction texts as [|text texts IH]; intros c H0 Hs Hu Hl; cbn [collect_all foldl taken concat].
  { cbn. by rewrite app_nil_r. }
  cbn [concat] in Hs. unfold len in *. rewrite length_app in Hs.
  unfold CollectString_Print. rewrite int64_small by (unfold len; lia). fold (len text).
  destruct ((0 <=? collect_limit c) && (collect_limit c <? cs_used c + len text)) eqn:E; cbn [snd]; [apply IH; try done; lia|].
  apply andb_false_iff in E. unfold len in *.
  destruct (IH (MkCollect (cs_buf c ++ text) (cs_maxBytes c) (cs_used c + Z.of_nat (length text)) (cs_custom c)))
    as (H1 & H2 & H3); cbn [cs_used cs_buf]; try lia.
  - rewrite length_app. lia.
  - change (collect_limit (MkCollect _ _ _ _)) with (collect_limit c). destruct E as [E|E]; lia.
  - change (collect_limit (MkCollect _ _ _ _)) with (collect_limit c) in *. cbn [cs_used cs_buf] in *.
    split_and!; [|done|done]. cbn [concat]. rewrite app_assoc. exact H1.
Qed.

(** A text that a collector with a limit refuses leaves it as it was, and the
    output is what it took, within the limit. *)
Lemma collector_bounded maxBytes c texts :
  NewCollectString maxBytes = inr c -> len (concat texts) < 2 ^ 63 ->
  cs_buf (collect_all c texts) = concat (taken maxBytes 0 texts) /\
  (0 <= maxBytes -> len (cs_buf (collect_all c texts)) <= maxBytes) /\
  (maxBytes = UnlimitedPrintCollect -> cs_buf (collect_all c texts) = concat texts).
Proof.
  unfold NewCollectString, collectLimit. destruct (maxBytes <? UnlimitedPrintCollect); [done|]. intros [= <-] Hs.
  destruct (collect_all_spec texts (MkCollect [] maxBytes 0 true)) as (H1 & H2 & H3); cbn; try lia; [done|].
  change (collect_limit (MkCollect [] maxBytes 0 true)) with maxBytes in *. cbn in H1. split_and!; [done|lia|].
  intros ->. rewrite H1. f_equal. clear. generalize 0. induction texts as [|t texts IH]; intros n; cbn; [done|]. by rewrite IH.
Qed.

(** ** A failing target is left alone *)

Lemma failed_target_untouched target stream text flushed p :
  is_Some (pt_failure p) -> onPrint target stream text p = p /\ pt_finish flushed p = (None, p).
Proof. intros [err H]. unfold onPrint, pt_finish. rewrite H. by destruct (pt_flushing p) as [[]|]. Qed.
