(* ===== verification/Stop.v ===== *)
(** How an execution is asked to stop: the stop policies and their resolution
    (src/options.go, Runtime.sessionLimits of src/runtime.go), and the one stop
    request of an execution with its two deadlines (src/stop.go).

    A time is a number of nanoseconds on one clock and a [time.Duration] a
    number of nanoseconds. *)

From S2P Require Import Prelude Utf8 GoStrings Exceptions PoolErrors Monterr.

(** ** Policies *)

Record StopPolicy := MkPolicy {
  Drain : Z; Timeout : Z; Join : Z; Reason : option merror; Catchable : bool }.

Definition second : Z := 1000000000.
Definition builtinStopPolicy : StopPolicy := MkPolicy 0 (3 * second) (3 * second) None false.
Definition KillNow : StopPolicy := MkPolicy 0 (-1) 0 None false.
Definition keyboardInterrupt : merror := RaisedError (go "KeyboardInterrupt") [].

Definition over (p base : StopPolicy) : StopPolicy :=
  MkPolicy (if Drain p =? 0 then Drain base else Drain p)
           (if Timeout p =? 0 then Timeout base else Timeout p)
           (if Join p =? 0 then Join base else Join p)
           (match Reason p with Some r => Some r | None => Reason base end)
           (if Catchable p then true else Catchable base).

Definition validate (p : StopPolicy) : option merror :=
  if (Drain p <? 0) || (Join p <? 0)
  then Some (OptionError (go "stop policy: Drain and Join must be non-negative")) else None.

Definition zero_policy : StopPolicy := MkPolicy 0 0 0 None false.

(** The variadic [policy ...StopPolicy] is the list of what the caller gave. *)
Definition effectivePolicy (base : StopPolicy) (policy : list StopPolicy) : StopPolicy * option merror :=
  if 1 <? len policy then (zero_policy, Some (OptionError (go "at most one stop policy")))
  else
    let out := match policy with [p] => over p base | _ => base end in
    let out := match Reason out with
               | Some _ => out
               | None => MkPolicy (Drain out) (Timeout out) (Join out) (Some keyboardInterrupt) (Catchable out)
               end in
    (out, validate out).

Record sessionLimits := MkLimits { hostObjects : Z; pendingFutures : Z; lim_stop : StopPolicy }.

Definition Unlimited : Z := MaxUint64.
Definition defaultMaxHostObjects : Z := 10000.
Definition defaultMaxPendingFutures : Z := 1000.

(** [Runtime.sessionLimits] for the two options it reads. *)
Definition Runtime_sessionLimits (maxHostObjects maxPendingFutures : Z) (poolStop override : StopPolicy)
    : sessionLimits * option merror :=
  let ho := if maxHostObjects =? 0 then defaultMaxHostObjects else maxHostObjects in
  let pf := if maxPendingFutures =? 0 then defaultMaxPendingFutures else maxPendingFutures in
  match effectivePolicy poolStop [override] with
  | (_, Some err) => (MkLimits ho pf zero_policy, Some err)
  | (stop, None) => (MkLimits ho pf stop, None)
  end.

(** ** Stop requests *)

Inductive StopKind := StopPending | StopNotRunning | StopAborted | StopKilled | StopFinished.

#[export] Instance StopKind_eq_decision : EqDecision StopKind.
Proof. solve_decision. Defined.

Definition StopKind_String (k : StopKind) : bytes :=
  go match k with
     | StopPending => "pending" | StopNotRunning => "not running" | StopAborted => "aborted"
     | StopKilled => "killed" | StopFinished => "finished"
     end.

Definition chan := nat.

(** [wake] is a channel of capacity one: whether a wake-up is buffered. *)
Record stopRequest := MkStop {
  policy : StopPolicy; requestAt : Z; killAt : Z; requested : bool; wake : bool;
  resolved : chan; kind : StopKind; resolvedOnce : bool; forceClaimed : bool }.

(** [newStopRequest]; the channel [resolved] is made by the caller. *)
Definition newStopRequest (ch : chan) (p : StopPolicy) (now : Z) : stopRequest :=
  let requestAt := now + Drain p in
  MkStop p requestAt (requestAt + Z.max (Timeout p) 0) false false ch StopPending false false.

Definition set_deadlines (req : stopRequest) (r k : Z) (w : bool) : stopRequest :=
  MkStop (policy req) r k (requested req) w (resolved req) (kind req) (resolvedOnce req) (forceClaimed req).

Definition shorten (req : stopRequest) (p : StopPolicy) (now : Z) : stopRequest :=
  let r := now + Drain p in
  let r := if requested req || negb (r <? requestAt req) then requestAt req else r in
  let k := r + Z.max (Timeout p) 0 in
  let earlier_r := r <? requestAt req in
  let earlier_k := k <? killAt req in
  set_deadlines req (if earlier_r then r else requestAt req) (if earlier_k then k else killAt req)
    (if earlier_r || earlier_k then true else wake req).

Definition set_requested (req : stopRequest) : stopRequest :=
  MkStop (policy req) (requestAt req) (killAt req) true (wake req) (resolved req) (kind req) (resolvedOnce req) (forceClaimed req).
Definition set_resolved (k : StopKind) (req : stopRequest) : stopRequest :=
  MkStop (policy req) (requestAt req) (killAt req) (requested req) (wake req) (resolved req) k true (forceClaimed req).
Definition set_claimed (req : stopRequest) : stopRequest :=
  MkStop (policy req) (requestAt req) (killAt req) (requested req) (wake req) (resolved req) StopKilled (resolvedOnce req) true.
Definition set_woken (req : stopRequest) : stopRequest :=
  set_deadlines req (requestAt req) (killAt req) false.

Definition interruptException (reason : merror) : merror :=
  let '(typ, msg) := ExceptionParts reason in ErrorFromException (NewException typ msg).

(** ** Policies resolve level by level *)

Section policies.

Lemma over_idem p b : over (over p b) b = over p b.
Proof.
  unfold over; cbn. f_equal; [destruct (Drain p =? 0) eqn:E; rewrite ?E; by destruct (Drain b =? 0)
    |destruct (Timeout p =? 0) eqn:E; rewrite ?E; by destruct (Timeout b =? 0)
    |destruct (Join p =? 0) eqn:E; rewrite ?E; by destruct (Join b =? 0)
    |by destruct (Reason p), (Reason b)
    |by destruct (Catchable p), (Catchable b)].
Qed.

(** A policy that is ready for use: what resolution guarantees. *)
Definition usable (p : StopPolicy) : Prop :=
  Reason p <> None /\ 0 <= Drain p /\ 0 <= Join p /\ Timeout p <> 0.

Lemma effective_usable base policies p :
  Timeout base <> 0 -> effectivePolicy base policies = (p, None) -> usable p.
Proof.
  intros Ht. unfold effectivePolicy. destruct (1 <? len policies); [done|].
  set (out := match policies with [p] => over p base | _ => base end).
  assert (Timeout out <> 0) as Ho.
  { subst out. destruct policies as [|p0 [|]]; [done| |done]. cbn. destruct (Z.eqb_spec (Timeout p0) 0); done. }
  intros [= <- Hv]. unfold validate in Hv.
  destruct ((_ <? _) || _) eqn:Hneg in Hv; [done|]. apply orb_false_iff in Hneg as [Hd Hj].
  unfold usable. destruct (Reason out) eqn:Hr; cbn in *; repeat split; try lia; congruence.
Qed.
End policies.

(** ** The deadlines *)

(** Shortenings in the order they arrive, each with its time. *)
Fixpoint shortened (req : stopRequest) (later : list (Z * StopPolicy)) : stopRequest :=
  match later with
  | [] => req
  | (now, p) :: later => shortened (shorten req p now) later
  end.

(** The deadlines a caller would compute from the list of policies: the request
    is due when the first of them is, and the kill when the first of them
    allows it, counted from the request as it stood when it was made. *)
Fixpoint due_request (r : Z) (later : list (Z * StopPolicy)) : Z :=
  match later with
  | [] => r
  | (now, p) :: later => due_request (Z.min r (now + Drain p)) later
  end.
Fixpoint due_kill (r k : Z) (later : list (Z * StopPolicy)) : Z :=
  match later with
  | [] => k
  | (now, p) :: later =>
    let r := Z.min r (now + Drain p) in due_kill r (Z.min k (r + Z.max (Timeout p) 0)) later
  end.

Section deadlines.
Implicit Types req : stopRequest.

Lemma shorten_open req p now : requested req = false ->
  shorten req p now = set_deadlines req (Z.min (requestAt req) (now + Drain p))
    (Z.min (killAt req) (Z.min (requestAt req) (now + Drain p) + Z.max (Timeout p) 0)) (wake (shorten req p now)).
Proof.
  intros Hr. unfold shorten, set_deadlines. cbn. rewrite Hr. cbn.
  destruct (Z.ltb_spec (now + Drain p) (requestAt req)) as [H|H]; cbn.
  - rewrite (Z.min_r (requestAt req)) by lia.
    destruct (Z.ltb_spec (now + Drain p) (requestAt req)); [|lia].
    destruct (Z.ltb_spec (now + Drain p + Z.max (Timeout p) 0) (killAt req)); f_equal; lia.
  - rewrite (Z.min_l (requestAt req)) by lia. rewrite Z.ltb_irrefl.
    destruct (Z.ltb_spec (requestAt req + Z.max (Timeout p) 0) (killAt req)); f_equal; lia.
Qed.

Lemma shorten_requested req p now : requested req = true ->
  requestAt (shorten req p now) = requestAt req
  /\ killAt (shorten req p now) = Z.min (killAt req) (requestAt req + Z.max (Timeout p) 0).
Proof.
  intros Hr. unfold shorten, set_deadlines. cbn. rewrite Hr. cbn. rewrite Z.ltb_irrefl. split; [done|].
  destruct (Z.ltb_spec (requestAt req + Z.max (Timeout p) 0) (killAt req)); lia.
Qed.

Lemma shorten_only req p now :
  requestAt (shorten req p now) <= requestAt req /\ killAt (shorten req p now) <= killAt req
  /\ (requestAt req <= killAt req -> requestAt (shorten req p now) <= killAt (shorten req p now))
  /\ policy (shorten req p now) = policy req /\ requested (shorten req p now) = requested req
  /\ resolved (shorten req p now) = resolved req /\ kind (shorten req p now) = kind req
  /\ resolvedOnce (shorten req p now) = resolvedOnce req /\ forceClaimed (shorten req p now) = forceClaimed req.
Proof.
  destruct (requested req) eqn:Hr.
  - destruct (shorten_requested req p now Hr) as [-> ->]. cbn. repeat split; lia || done.
  - rewrite (shorten_open req p now Hr). cbn. rewrite Hr. repeat split; lia || done.
Qed.

Lemma shortened_open req later : requested req = false ->
  requestAt (shortened req later) = due_request (requestAt req) later
  /\ killAt (shortened req later) = due_kill (requestAt req) (killAt req) later.
Proof.
  revert req. induction later as [|[now p] later IH]; intros req Hr; [done|]. cbn [shortened due_request due_kill].
  destruct (shorten_only req p now) as (_ & _ & _ & _ & Hreq & _).
  destruct (IH (shorten req p now)) as [-> ->]; [congruence|].
  rewrite (shorten_open req p now Hr). done.
Qed.

(** A kill without a drain of its own inherits the session's: the worker is
    then killed only when the drain is over. *)
Example kill_now_drains :
  let base := MkPolicy (10 * second) (3 * second) (3 * second) None false in
  let p := (effectivePolicy base [KillNow]).1 in
  killAt (newStopRequest 0%nat p 100) = 100 + 10 * second.
Proof. reflexivity. Qed.
End deadlines.

Lemma shortened_only req later :
  requestAt (shortened req later) <= requestAt req /\ killAt (shortened req later) <= killAt req
  /\ (requestAt req <= killAt req -> requestAt (shortened req later) <= killAt (shortened req later))
  /\ requested (shortened req later) = requested req /\ resolved (shortened req later) = resolved req.
Proof.
  revert req. induction later as [|[now p] later IH]; intros req; [cbn; repeat split; lia || done|].
  cbn. destruct (shorten_only req p now) as (? & ? & ? & _ & ? & ? & _).
  destruct (IH (shorten req p now)) as (? & ? & ? & ? & ?). repeat split; lia || congruence || auto.
Qed.

(** Later stop policies only shorten a stop: whatever policies arrive, and
    at whatever times, its deadlines are the ones computed from the list of
    policies (the earliest request, and the earliest kill counted from the
    request as it then stood), they never move later, and the kill never comes
    before the request; once the stop is requested only the kill can move. *)
Theorem stop_deadlines ch p now later :
  (let req := shortened (newStopRequest ch p now) later in
   requestAt req = due_request (now + Drain p) later
   /\ killAt req = due_kill (now + Drain p) (now + Drain p + Z.max (Timeout p) 0) later
   /\ requestAt req <= now + Drain p /\ killAt req <= now + Drain p + Z.max (Timeout p) 0
   /\ requestAt req <= killAt req)
  /\ forall req q t, requested req = true ->
       requestAt (shorten req q t) = requestAt req
       /\ killAt (shorten req q t) = Z.min (killAt req) (requestAt req + Z.max (Timeout q) 0).
Proof.
  split; [|intros; by apply shorten_requested]. cbn zeta.
  destruct (shortened_open (newStopRequest ch p now) later eq_refl) as [-> ->].
  pose proof (shortened_only (newStopRequest ch p now) later) as (H1 & H2 & H3 & _).
  destruct (shortened_open (newStopRequest ch p now) later eq_refl) as [E1 E2]. rewrite E1 in H1, H3. rewrite E2 in H2, H3.
  cbn in *. repeat split; try lia; try done.
Qed.
