(* ===== verification/SessionLife.v ===== *)
(** The life of a session: src/lifecycle.go, src/stop.go,
    src/session_control.go, and the parts of src/snapshot.go, src/session.go
    and src/answer.go that read or write the state under [life.mu].

    Everything the code does between [life.mu.Lock()] and [Unlock()] is one
    definition here, a critical section: it reads and changes the session,
    may panic, and lists what its goroutine does after the unlock or starts
    with [go]. A function of several critical sections is several definitions,
    named after it; the file SessionSteps puts them in the order the code runs
    them in and interleaves the goroutines.

    Executions are heap objects: they are kept by their id after they are no
    longer current, since run handles and stop watchers still hold them. A
    channel that only ever gets closed is an entry of a map with what it was
    made for and whether it is closed; closing one twice, or a nil one,
    panics, as does using a nil pointer. *)

From S2P Require Import Prelude Utf8 GoStrings Exceptions PoolErrors Monterr Stop.

(** ** The state *)

Definition ctx := nat.

Inductive executionPhase :=
| executionStarting | executionPreparing | executionExecuting | executionCallback
| executionPaused | executionControl | executionAborting | executionFinished.

#[export] Instance executionPhase_eq_decision : EqDecision executionPhase.
Proof. solve_decision. Defined.

(** What a channel was made for. *)
Inductive purpose :=
| ForSession | ForControl | ForClose | ForTurn (i : Z) | ForOperation (i : Z) | ForDone (i : Z) | ForStop (i : Z).

#[export] Instance purpose_eq_decision : EqDecision purpose.
Proof. solve_decision. Defined.

(** [releaseObserver] is whether the observer is still held; a future, a
    value and a context are handles. *)
Record execution := MkExecution {
  e_phase : executionPhase;
  e_sent : bool;
  e_wireInFlight : bool;
  e_turnDone : option chan;
  e_sequence : Z;
  e_step : Z;
  e_stepCtx : ctx;
  e_callbackCtx : ctx;
  e_stopContext : option Z;
  e_stop : option stopRequest;
  e_delivered : bool;
  e_pending : gmap Z Z;
  e_done : chan;
  e_operationDone : option chan;
  e_value : option Z;
  e_err : option merror;
  e_terminalCause : option merror;
  e_beforeStart : bool;
  e_aborted : bool;
  e_observer : bool }.

(** The fields of [lifecycle] and those of [Session] they are used with, the
    executions and snapshot tokens by id, the close attempts by the channel
    they were made with, the channels, the contexts that have ended, and the
    clock. *)
Record session := MkSession {
  s_nextID : Z;
  s_current : option Z;
  s_controlDone : option chan;
  s_closeAttempt : option chan;
  s_terminal : option merror;
  s_done : chan;
  s_execs : gmap Z execution;
  s_tokens : gmap (Z * Z) bool;
  s_closeErr : gmap chan (option merror);
  s_driven : bool;
  s_limits : sessionLimits;
  s_chans : gmap chan (purpose * bool);
  s_nextChan : nat;
  s_ended : gmap ctx sentinel;
  s_nextCtx : nat;
  s_now : Z }.

(** Setting one field. *)
Definition e_set_phase v (r : execution) : execution :=
  MkExecution v (e_sent r) (e_wireInFlight r) (e_turnDone r) (e_sequence r) (e_step r) (e_stepCtx r) (e_callbackCtx r) (e_stopContext r) (e_stop r) (e_delivered r) (e_pending r) (e_done r) (e_operationDone r) (e_value r) (e_err r) (e_terminalCause r) (e_beforeStart r) (e_aborted r) (e_observer r).
Definition e_set_sent v (r : execution) : execution :=
  MkExecution (e_phase r) v (e_wireInFlight r) (e_turnDone r) (e_sequence r) (e_step r) (e_stepCtx r) (e_callbackCtx r) (e_stopContext r) (e_stop r) (e_delivered r) (e_pending r) (e_done r) (e_operationDone r) (e_value r) (e_err r) (e_terminalCause r) (e_beforeStart r) (e_aborted r) (e_observer r).
Definition e_set_wireInFlight v (r : execution) : execution :=
  MkExecution (e_phase r) (e_sent r) v (e_turnDone r) (e_sequence r) (e_step r) (e_stepCtx r) (e_callbackCtx r) (e_stopContext r) (e_stop r) (e_delivered r) (e_pending r) (e_done r) (e_operationDone r) (e_value r) (e_err r) (e_terminalCause r) (e_beforeStart r) (e_aborted r) (e_observer r).
Definition e_set_turnDone v (r : execution) : execution :=
  MkExecution (e_phase r) (e_sent r) (e_wireInFlight r) v (e_sequence r) (e_step r) (e_stepCtx r) (e_callbackCtx r) (e_stopContext r) (e_stop r) (e_delivered r) (e_pending r) (e_done r) (e_operationDone r) (e_value r) (e_err r) (e_terminalCause r) (e_beforeStart r) (e_aborted r) (e_observer r).
Definition e_set_sequence v (r : execution) : execution :=
  MkExecution (e_phase r) (e_sent r) (e_wireInFlight r) (e_turnDone r) v (e_step r) (e_stepCtx r) (e_callbackCtx r) (e_stopContext r) (e_stop r) (e_delivered r) (e_pending r) (e_done r) (e_operationDone r) (e_value r) (e_err r) (e_terminalCause r) (e_beforeStart r) (e_aborted r) (e_observer r).
Definition e_set_stop v (r : execution) : execution :=
  MkExecution (e_phase r) (e_sent r) (e_wireInFlight r) (e_turnDone r) (e_sequence r) (e_step r) (e_stepCtx r) (e_callbackCtx r) (e_stopContext r) v (e_delivered r) (e_pending r) (e_done r) (e_operationDone r) (e_value r) (e_err r) (e_terminalCause r) (e_beforeStart r) (e_aborted r) (e_observer r).
Definition e_set_delivered v (r : execution) : execution :=
  MkExecution (e_phase r) (e_sent r) (e_wireInFlight r) (e_turnDone r) (e_sequence r) (e_step r) (e_stepCtx r) (e_callbackCtx r) (e_stopContext r) (e_stop r) v (e_pending r) (e_done r) (e_operationDone r) (e_value r) (e_err r) (e_terminalCause r) (e_beforeStart r) (e_aborted r) (e_observer r).
Definition e_set_pending v (r : execution) : execution :=
  MkExecution (e_phase r) (e_sent r) (e_wireInFlight r) (e_turnDone r) (e_sequence r) (e_step r) (e_stepCtx r) (e_callbackCtx r) (e_stopContext r) (e_stop r) (e_delivered r) v (e_done r) (e_operationDone r) (e_value r) (e_err r) (e_terminalCause r) (e_beforeStart r) (e_aborted r) (e_observer r).
Definition e_set_operationDone v (r : execution) : execution :=
  MkExecution (e_phase r) (e_sent r) (e_wireInFlight r) (e_turnDone r) (e_sequence r) (e_step r) (e_stepCtx r) (e_callbackCtx r) (e_stopContext r) (e_stop r) (e_delivered r) (e_pending r) (e_done r) v (e_value r) (e_err r) (e_terminalCause r) (e_beforeStart r) (e_aborted r) (e_observer r).
Definition e_set_terminalCause v (r : execution) : execution :=
  MkExecution (e_phase r) (e_sent r) (e_wireInFlight r) (e_turnDone r) (e_sequence r) (e_step r) (e_stepCtx r) (e_callbackCtx r) (e_stopContext r) (e_stop r) (e_delivered r) (e_pending r) (e_done r) (e_operationDone r) (e_value r) (e_err r) v (e_beforeStart r) (e_aborted r) (e_observer r).
Definition e_set_beforeStart v (r : execution) : execution :=
  MkExecution (e_phase r) (e_sent r) (e_wireInFlight r) (e_turnDone r) (e_sequence r) (e_step r) (e_stepCtx r) (e_callbackCtx r) (e_stopContext r) (e_stop r) (e_delivered r) (e_pending r) (e_done r) (e_operationDone r) (e_value r) (e_err r) (e_terminalCause r) v (e_aborted r) (e_observer r).
Definition e_set_aborted v (r : execution) : execution :=
  MkExecution (e_phase r) (e_sent r) (e_wireInFlight r) (e_turnDone r) (e_sequence r) (e_step r) (e_stepCtx r) (e_callbackCtx r) (e_stopContext r) (e_stop r) (e_delivered r) (e_pending r) (e_done r) (e_operationDone r) (e_value r) (e_err r) (e_terminalCause r) (e_beforeStart r) v (e_observer r).
Definition e_set_callbackCtx v (r : execution) : execution :=
  MkExecution (e_phase r) (e_sent r) (e_wireInFlight r) (e_turnDone r) (e_sequence r) (e_step r) (e_stepCtx r) v (e_stopContext r) (e_stop r) (e_delivered r) (e_pending r) (e_done r) (e_operationDone r) (e_value r) (e_err r) (e_terminalCause r) (e_beforeStart r) (e_aborted r) (e_observer r).
Definition e_set_result v x (r : execution) : execution :=
  MkExecution (e_phase r) (e_sent r) (e_wireInFlight r) (e_turnDone r) (e_sequence r) (e_step r) (e_stepCtx r) (e_callbackCtx r) (e_stopContext r) (e_stop r) (e_delivered r) (e_pending r) (e_done r) (e_operationDone r) v x (e_terminalCause r) (e_beforeStart r) (e_aborted r) (e_observer r).
Definition e_set_step n c (r : execution) : execution :=
  MkExecution (e_phase r) (e_sent r) (e_wireInFlight r) (e_turnDone r) (e_sequence r) n c (e_callbackCtx r) (Some n) (e_stop r) (e_delivered r) (e_pending r) (e_done r) (e_operationDone r) (e_value r) (e_err r) (e_terminalCause r) (e_beforeStart r) (e_aborted r) (e_observer r).
Definition e_drop_observer (r : execution) : execution :=
  MkExecution (e_phase r) (e_sent r) (e_wireInFlight r) (e_turnDone r) (e_sequence r) (e_step r) (e_stepCtx r) (e_callbackCtx r) (e_stopContext r) (e_stop r) (e_delivered r) (e_pending r) (e_done r) (e_operationDone r) (e_value r) (e_err r) (e_terminalCause r) (e_beforeStart r) (e_aborted r) false.

Definition s_set_nextID v (r : session) : session :=
  MkSession v (s_current r) (s_controlDone r) (s_closeAttempt r) (s_terminal r) (s_done r) (s_execs r) (s_tokens r) (s_closeErr r) (s_driven r) (s_limits r) (s_chans r) (s_nextChan r) (s_ended r) (s_nextCtx r) (s_now r).
Definition s_set_current v (r : session) : session :=
  MkSession (s_nextID r) v (s_controlDone r) (s_closeAttempt r) (s_terminal r) (s_done r) (s_execs r) (s_tokens r) (s_closeErr r) (s_driven r) (s_limits r) (s_chans r) (s_nextChan r) (s_ended r) (s_nextCtx r) (s_now r).
Definition s_set_controlDone v (r : session) : session :=
  MkSession (s_nextID r) (s_current r) v (s_closeAttempt r) (s_terminal r) (s_done r) (s_execs r) (s_tokens r) (s_closeErr r) (s_driven r) (s_limits r) (s_chans r) (s_nextChan r) (s_ended r) (s_nextCtx r) (s_now r).
Definition s_set_closeAttempt v (r : session) : session :=
  MkSession (s_nextID r) (s_current r) (s_controlDone r) v (s_terminal r) (s_done r) (s_execs r) (s_tokens r) (s_closeErr r) (s_driven r) (s_limits r) (s_chans r) (s_nextChan r) (s_ended r) (s_nextCtx r) (s_now r).
Definition s_set_terminal v (r : session) : session :=
  MkSession (s_nextID r) (s_current r) (s_controlDone r) (s_closeAttempt r) v (s_done r) (s_execs r) (s_tokens r) (s_closeErr r) (s_driven r) (s_limits r) (s_chans r) (s_nextChan r) (s_ended r) (s_nextCtx r) (s_now r).
Definition s_set_execs v (r : session) : session :=
  MkSession (s_nextID r) (s_current r) (s_controlDone r) (s_closeAttempt r) (s_terminal r) (s_done r) v (s_tokens r) (s_closeErr r) (s_driven r) (s_limits r) (s_chans r) (s_nextChan r) (s_ended r) (s_nextCtx r) (s_now r).
Definition s_set_tokens v (r : session) : session :=
  MkSession (s_nextID r) (s_current r) (s_controlDone r) (s_closeAttempt r) (s_terminal r) (s_done r) (s_execs r) v (s_closeErr r) (s_driven r) (s_limits r) (s_chans r) (s_nextChan r) (s_ended r) (s_nextCtx r) (s_now r).
Definition s_set_closeErr v (r : session) : session :=
  MkSession (s_nextID r) (s_current r) (s_controlDone r) (s_closeAttempt r) (s_terminal r) (s_done r) (s_execs r) (s_tokens r) v (s_driven r) (s_limits r) (s_chans r) (s_nextChan r) (s_ended r) (s_nextCtx r) (s_now r).
Definition s_set_driven v (r : session) : session :=
  MkSession (s_nextID r) (s_current r) (s_controlDone r) (s_closeAttempt r) (s_terminal r) (s_done r) (s_execs r) (s_tokens r) (s_closeErr r) v (s_limits r) (s_chans r) (s_nextChan r) (s_ended r) (s_nextCtx r) (s_now r).
Definition s_set_ended v (r : session) : session :=
  MkSession (s_nextID r) (s_current r) (s_controlDone r) (s_closeAttempt r) (s_terminal r) (s_done r) (s_execs r) (s_tokens r) (s_closeErr r) (s_driven r) (s_limits r) (s_chans r) (s_nextChan r) v (s_nextCtx r) (s_now r).
Definition s_set_nextCtx v (r : session) : session :=
  MkSession (s_nextID r) (s_current r) (s_controlDone r) (s_closeAttempt r) (s_terminal r) (s_done r) (s_execs r) (s_tokens r) (s_closeErr r) (s_driven r) (s_limits r) (s_chans r) (s_nextChan r) (s_ended r) v (s_now r).
Definition s_set_now v (r : session) : session :=
  MkSession (s_nextID r) (s_current r) (s_controlDone r) (s_closeAttempt r) (s_terminal r) (s_done r) (s_execs r) (s_tokens r) (s_closeErr r) (s_driven r) (s_limits r) (s_chans r) (s_nextChan r) (s_ended r) (s_nextCtx r) v.
Definition s_set_chans m n (r : session) : session :=
  MkSession (s_nextID r) (s_current r) (s_controlDone r) (s_closeAttempt r) (s_terminal r) (s_done r) (s_execs r) (s_tokens r) (s_closeErr r) (s_driven r) (s_limits r) m n (s_ended r) (s_nextCtx r) (s_now r).

(** ** Critical sections *)

Inductive act :=
| GoCancel (c : ctx) | GoWatch (i : Z) | GoAbortPaused (i : Z) | ThenFinish (i : Z) (err : merror)
| CoTerminate (err : merror) (reason : string) | Untrack | Disarm | HoldObserver | ReleaseObserver.

Definition sec (A : Type) : Type := session -> option (A * session * list act).

#[export] Instance sec_ret : MRet sec := fun _ a s => Some (a, s, []).
#[export] Instance sec_bind : MBind sec := fun _ _ f m s =>
  match m s with
  | Some (a, s, l) => match f a s with Some (b, s, l') => Some (b, s, l ++ l') | None => None end
  | None => None
  end.

Definition panics {A} : sec A := fun _ => None.
Definition get : sec session := fun s => Some (s, s, []).
Definition modify (f : session -> session) : sec () := fun s => Some ((), f s, []).
Definition later (a : act) : sec () := fun s => Some ((), s, [a]).

(** A pointer to an execution: [None] is the nil pointer. *)
Definition getE (i : Z) : sec execution := fun s =>
  match s_execs s !! i with Some e => Some (e, s, []) | None => None end.
Definition updE (i : Z) (f : execution -> execution) : sec () := fun s =>
  match s_execs s !! i with
  | Some e => Some ((), s_set_execs (<[i := f e]> (s_execs s)) s, [])
  | None => None
  end.

Definition make_chan (p : purpose) : sec chan := fun s =>
  Some (s_nextChan s, s_set_chans (<[s_nextChan s := (p, false)]> (s_chans s)) (S (s_nextChan s)) s, []).
Definition close_chan (c : chan) : sec () := fun s =>
  match s_chans s !! c with
  | Some (p, false) => Some ((), s_set_chans (<[c := (p, true)]> (s_chans s)) (s_nextChan s) s, [])
  | _ => None
  end.
Definition new_ctx : sec ctx := fun s => Some (s_nextCtx s, s_set_nextCtx (S (s_nextCtx s)) s, []).

(** [ctx.Err()] *)
Definition ctx_Err (c : ctx) : sec (option merror) := fun s =>
  Some (option_map Sentinel (s_ended s !! c), s, []).

(** [if err := m; err != nil { return err }] in a function that returns [k]. *)
Definition check {A} (m : sec (option merror)) (k : sec (merror + A)) : sec (merror + A) :=
  x ← m; match x with Some err => mret (inl err) | None => k end.

Definition is_some {A} (o : option A) : bool := match o with Some _ => true | None => false end.

(** [e.phase == p] *)
Definition in_phase (e : execution) (p : executionPhase) : bool := bool_decide (e_phase e = p).

(** A stop was requested: [e.stop != nil && e.stop.requested]. *)
Definition stop_requested (e : execution) : bool :=
  match e_stop e with Some r => requested r | None => false end.

(** The reason of a policy; the code passes a nil one to functions that
    dereference it. *)
Definition reason_of (p : StopPolicy) : sec merror :=
  match Reason p with Some r => mret r | None => panics end.

(** ** lifecycle.go *)

Definition releaseTurnLocked (i : Z) : sec () :=
  e ← getE i;
  match e_turnDone e with
  | Some c => _ ← close_chan c; updE i (e_set_turnDone None)
  | None => mret ()
  end.

Definition releaseOperationLocked (i : Z) : sec () :=
  e ← getE i;
  match e_operationDone e with
  | Some c => _ ← close_chan c; updE i (e_set_operationDone None)
  | None => mret ()
  end.

(** [e.turnDone = make(chan struct{})] and the like *)
Definition make_turn (i : Z) : sec () := c ← make_chan (ForTurn i); updE i (e_set_turnDone (Some c)).
Definition make_operation (i : Z) : sec () := c ← make_chan (ForOperation i); updE i (e_set_operationDone (Some c)).

Definition newSession (limits : sessionLimits) (now : Z) : session :=
  MkSession 0 None None None None 0%nat ∅ ∅ ∅ false limits {[ 0%nat := (ForSession, false) ]} 1%nat ∅ 0%nat now.

Definition admissionErrorLocked : sec (option merror) :=
  s ← get;
  mret (match s_terminal s with
        | Some err => Some err
        | None => if is_some (s_closeAttempt s) then Some (Sentinel ErrSessionClosed) else None
        end).

Definition executionErrorLocked (i : Z) : sec (option merror) :=
  s ← get; e ← getE i;
  mret (match s_terminal s with
        | Some err => Some err
        | None =>
          match e_terminalCause e with
          | Some err => Some err
          | None =>
            if negb (bool_decide (s_current s = Some i)) || in_phase e executionFinished
            then Some (Sentinel ErrSnapshotStale) else None
          end
        end).

(** The hook is [requestStopForStep] with the step it was installed for. *)
Definition installStepLocked (i : Z) (c : ctx) : sec () :=
  updE i (fun e => e_set_step (uint64 (e_step e + 1)) c e).

Definition reserveExecution (c : ctx) : sec (merror + Z) :=
  check (ctx_Err c) (check admissionErrorLocked (
    s ← get;
    if is_some (s_current s) || is_some (s_controlDone s) then mret (inl (Sentinel ErrSessionBusy))
    else if s_nextID s =? MaxUint64 then mret (inl (ValueError (go "execution ID exhausted")))
    else
      let i := s_nextID s + 1 in
      _ ← modify (s_set_nextID i);
      cb ← new_ctx; dn ← make_chan (ForDone i); op ← make_chan (ForOperation i);
      let e := MkExecution executionStarting false false None 0 0 0%nat cb None None false ∅ dn (Some op)
                 None None None false false true in
      _ ← later HoldObserver;
      _ ← modify (fun s => s_set_current (Some i) (s_set_execs (<[i := e]> (s_execs s)) s));
      _ ← installStepLocked i c;
      mret (inr i))).

(** [enterRequestLocked] (stop.go): the request phase starts once. *)
Definition enterRequestLocked (i : Z) : sec () :=
  e ← getE i;
  match e_stop e with
  | None => panics
  | Some req =>
    if requested req then mret ()
    else
      _ ← updE i (e_set_stop (Some (set_requested req)));
      let paused := in_phase e executionPaused in
      _ ← (if paused then _ ← updE i (e_set_phase executionAborting); make_operation i else mret ());
      _ ← later (GoCancel (e_callbackCtx e));
      if paused then later (GoAbortPaused i) else mret ()
  end.

Definition stopBeforeStartLocked (i : Z) : sec (option merror) :=
  s ← get; e ← getE i; over_ ← ctx_Err (e_stepCtx e);
  _ ← (if negb (is_some (e_stop e)) && is_some over_ then
         ch ← make_chan (ForStop i);
         let req := newStopRequest ch (lim_stop (s_limits s)) (s_now s) in
         _ ← updE i (e_set_stop (Some (set_deadlines req (s_now s) (killAt req) (wake req))));
         _ ← enterRequestLocked i;
         later (GoWatch i)
       else mret ());
  e ← getE i;
  match e_stop e with
  | Some req =>
    if requested req then
      _ ← updE i (e_set_beforeStart true);
      reason ← reason_of (policy req);
      mret (Some (interruptException reason))
    else mret None
  | None => mret None
  end.

Definition beginExecution (i : Z) : sec (merror + ()) :=
  check (executionErrorLocked i) (check (stopBeforeStartLocked i) (
    _ ← updE i (e_set_phase executionPreparing); mret (inr ()))).

Definition beginSend (i : Z) : sec (merror + ()) :=
  check (executionErrorLocked i) (check (stopBeforeStartLocked i) (
    _ ← updE i (fun e => e_set_phase executionExecuting (e_set_wireInFlight true (e_set_sent true e)));
    _ ← make_turn i;
    _ ← modify (s_set_driven true);
    mret (inr ()))).

Definition receivedTurn (i : Z) : sec () := updE i (e_set_wireInFlight false).

(** [stopAtBoundary], before and after its call of [requestStop] *)
Definition stopAtBoundary_cancelled (i : Z) : sec (merror + bool) :=
  check (executionErrorLocked i) (
    e ← getE i; over_ ← ctx_Err (e_stepCtx e);
    mret (inr (is_some over_ && negb (is_some (e_stop e))))).

Definition boundaryStopLocked (i : Z) : sec (option merror) :=
  e ← getE i;
  mret (match e_stop e with
        | Some req =>
          if negb (requested req) then None
          else if Catchable (policy req) then None else Some (Sentinel errExecutionInterrupted)
        | None => None
        end).

Definition stopAtBoundary_check (i : Z) : sec (merror + ()) :=
  check (executionErrorLocked i) (check (boundaryStopLocked i) (mret (inr ()))).

(** [beginCallback], [endCallback] and [beforeResume], besides their calls of
    [stopAtBoundary] *)
Definition beginCallback_enter (i : Z) : sec (merror + ctx) :=
  check (executionErrorLocked i) (check (boundaryStopLocked i) (
    _ ← updE i (e_set_phase executionCallback);
    _ ← releaseTurnLocked i;
    e ← getE i; mret (inr (e_callbackCtx e)))).

Definition endCallback_leave (i : Z) : sec () := updE i (e_set_phase executionExecuting).

Definition beforeResume_enter (i : Z) : sec (merror + ()) :=
  check (executionErrorLocked i) (check (boundaryStopLocked i) (
    e ← getE i;
    let deliver := stop_requested e && negb (e_delivered e) in
    _ ← updE i (fun e => e_set_wireInFlight true (e_set_phase executionExecuting e));
    _ ← releaseTurnLocked i;
    _ ← make_turn i;
    mret (if deliver then inl (Sentinel errDeliverStop) else inr ()))).

(** [resolveStopLocked] (stop.go) *)
Definition resolveStopLocked (i : Z) (k : StopKind) : sec () :=
  e ← getE i;
  match e_stop e with
  | Some req =>
    if resolvedOnce req then mret ()
    else _ ← updE i (e_set_stop (Some (set_resolved k req))); close_chan (resolved req)
  | None => mret ()
  end.

(** [finishExecution]: its first critical section, and its second. *)
Definition finishExecution_cancel (i : Z) : sec () := e ← getE i; later (GoCancel (e_callbackCtx e)).

Definition finishExecution_settle (i : Z) (value : option Z) (err : option merror) : sec () :=
  e ← getE i;
  if in_phase e executionFinished then mret ()
  else
    let '(value, err) := match e_terminalCause e with Some c => (None, Some c) | None => (value, err) end in
    _ ← updE i (fun e => e_set_wireInFlight false (e_set_phase executionFinished (e_set_result value err e)));
    _ ← releaseTurnLocked i;
    _ ← updE i (e_set_pending ∅);
    s ← get;
    _ ← (if bool_decide (s_current s = Some i) then modify (s_set_current None) else mret ());
    _ ← releaseOperationLocked i;
    _ ← (match e_stop e with
         | Some req =>
           if negb (resolvedOnce req) && negb (forceClaimed req) then
             resolveStopLocked i
               (if e_beforeStart e || e_aborted e || (e_delivered e && is_some err) then StopAborted else StopFinished)
           else mret ()
         | None => mret ()
         end);
    _ ← updE i e_drop_observer;
    _ ← close_chan (e_done e);
    if e_observer e then later ReleaseObserver else mret ().

Definition terminateSession (err : merror) : sec merror :=
  s ← get;
  err ← (match s_terminal s with
         | None => _ ← modify (s_set_terminal (Some err)); _ ← close_chan (s_done s); mret err
         | Some err => mret err
         end);
  paused ← (match s_current s with
            | None => mret None
            | Some i =>
              _ ← updE i (fun e => e_set_pending ∅ (e_set_terminalCause (Some err) e));
              e ← getE i;
              let paused := in_phase e executionPaused in
              _ ← (if paused then _ ← updE i (e_set_phase executionAborting); make_operation i else mret ());
              _ ← later (GoCancel (e_callbackCtx e));
              mret (if paused then Some i else None)
            end);
  _ ← later Disarm; _ ← later (CoTerminate err "session_ended"); _ ← later Untrack;
  _ ← (match paused with Some i => later (ThenFinish i err) | None => mret () end);
  mret err.

Definition addFuture (i : Z) (callID : Z) (f : option Z) : sec (merror + ()) :=
  check (executionErrorLocked i) (
    s ← get; e ← getE i;
    match f with
    | None => mret (inl (ValueError (go "host returned a nil Future")))
    | Some f =>
      if is_some (e_pending e !! callID)
      then mret (inl (ProtocolError (go "duplicate pending future call ID") None))
      else if negb (pendingFutures (s_limits s) =? Unlimited)
              && (pendingFutures (s_limits s) <=? Z.of_nat (size (e_pending e)))
      then mret (inl (ResourceError (go "pending future") (pendingFutures (s_limits s))))
      else _ ← updE i (fun e => e_set_pending (<[callID := f]> (e_pending e)) e); mret (inr ())
    end).

(** [delete(e.pending, id)] of answer.go, for the ids that were answered. *)
Definition forget_futures (i : Z) (ids : list Z) : sec () :=
  updE i (fun e => e_set_pending (foldr delete (e_pending e) ids) e).

Definition pendingCount : sec Z :=
  s ← get;
  match s_current s with
  | None => mret 0
  | Some i => e ← getE i; mret (Z.of_nat (size (e_pending e)))
  end.

(** ** snapshot.go *)

(** A snapshot token is its execution's id and sequence number; whether it was
    used is in [s_tokens]. *)
Definition publishPause (i : Z) : sec (merror + Z * Z) :=
  check (executionErrorLocked i) (
    e ← getE i;
    if stop_requested e then mret (inl (Sentinel errExecutionInterrupted))
    else if e_sequence e =? MaxUint64 then mret (inl (ValueError (go "snapshot sequence exhausted")))
    else
      let n := e_sequence e + 1 in
      _ ← updE i (fun e => e_set_phase executionPaused (e_set_sequence n e));
      _ ← modify (fun s => s_set_tokens (<[(i, n) := false]> (s_tokens s)) s);
      _ ← releaseTurnLocked i;
      _ ← releaseOperationLocked i;
      mret (inr (i, n))).

Definition snapshotErrorLocked (t : Z * Z) : sec (option merror) :=
  s ← get; e ← getE t.1;
  match s_tokens s !! t with
  | None => panics
  | Some true => mret (Some (Sentinel ErrSnapshotResumed))
  | Some false =>
    match e_terminalCause e with
    | Some err => mret (Some err)
    | None =>
      if in_phase e executionFinished
      then mret (Some (default (Sentinel ErrSnapshotStale) (e_err e)))
      else match s_terminal s with
           | Some err => mret (Some err)
           | None =>
             if negb (bool_decide (s_current s = Some t.1)) || negb (t.2 =? e_sequence e)
             then mret (Some (Sentinel ErrSnapshotStale))
             else if negb (in_phase e executionPaused) then mret (Some (Sentinel ErrSessionBusy))
             else admissionErrorLocked
           end
    end
  end.

Definition claimSnapshot (c : ctx) (t : Z * Z) : sec (merror + ()) :=
  check (ctx_Err c) (check (snapshotErrorLocked t) (
    _ ← modify (fun s => s_set_tokens (<[t := true]> (s_tokens s)) s);
    _ ← updE t.1 (e_set_phase executionExecuting);
    _ ← make_operation t.1;
    _ ← installStepLocked t.1 c;
    mret (inr ()))).

(** ** stop.go *)

Record Stopped := MkStopped { How : StopKind; st_Err : option merror; SessionErr : option merror }.

(** The immediate answer, or [None] when the caller has to wait. *)
Definition requestStop (i : Z) (p : StopPolicy) : sec (option Stopped) :=
  s ← get; e ← getE i;
  let finished := in_phase e executionFinished in
  match e_stop e with
  | Some req =>
    if resolvedOnce req then
      mret (Some (MkStopped (kind req) (if finished then e_err e else e_terminalCause e) (s_terminal s)))
    else if finished then mret (Some (MkStopped StopFinished (e_err e) (s_terminal s)))
    else
      let req := shorten req (over p (lim_stop (s_limits s))) (s_now s) in
      _ ← updE i (e_set_stop (Some req));
      _ ← (if negb (s_now s <? requestAt req) then enterRequestLocked i else mret ());
      mret None
  | None =>
    if finished || negb (bool_decide (s_current s = Some i))
    then mret (Some (MkStopped StopFinished (e_err e) (s_terminal s)))
    else match e_terminalCause e with
         | Some cause => mret (Some (MkStopped StopFinished (Some cause) (s_terminal s)))
         | None =>
           ch ← make_chan (ForStop i);
           let req := newStopRequest ch (over p (lim_stop (s_limits s))) (s_now s) in
           _ ← updE i (e_set_stop (Some req));
           _ ← later (GoWatch i);
           _ ← (if negb (s_now s <? requestAt req) then enterRequestLocked i else mret ());
           mret None
         end
  end.

(** The critical section of [requestStopForStep]: whether the hook is stale. *)
Definition requestStopForStep_stale (i step : Z) : sec bool :=
  e ← getE i; mret (negb (e_step e =? step) || in_phase e executionFinished).

(** [watchStop]: the next deadline it sleeps until ([None]: it returns), and
    what it does when the timer fires ([true]: it goes on to the kill). *)
Definition watchStop_next (i : Z) : sec (option Z) :=
  e ← getE i;
  match e_stop e with
  | None => panics
  | Some req => mret (if resolvedOnce req then None else Some (if requested req then killAt req else requestAt req))
  end.

Definition watchStop_timer (i : Z) : sec bool :=
  e ← getE i;
  match e_stop e with
  | None => panics
  | Some req =>
    if negb (requested req) then
      _ ← (if negb (in_phase e executionFinished) then enterRequestLocked i else mret ());
      mret false
    else mret true
  end.

(** [case <-req.wake] *)
Definition watchStop_wake (i : Z) : sec () :=
  updE i (fun e => e_set_stop (option_map set_woken (e_stop e)) e).

Inductive forced := Settled | NotYet | Claimed (cause : merror).

Definition forceExecution_claim (i : Z) : sec forced :=
  s ← get; e ← getE i;
  match e_stop e with
  | None => panics
  | Some req =>
    if resolvedOnce req || forceClaimed req then mret Settled
    else if negb (bool_decide (s_current s = Some i)) || in_phase e executionFinished || is_some (s_terminal s)
    then _ ← resolveStopLocked i StopFinished; mret Settled
    else if s_now s <? killAt req then mret NotYet
    else
      let cause := SessionKilledError (Reason (policy req)) in
      _ ← updE i (e_set_stop (Some (set_claimed req)));
      _ ← modify (s_set_terminal (Some cause));
      _ ← updE i (fun e => e_set_pending ∅ (e_set_terminalCause (Some cause) e));
      _ ← close_chan (s_done s);
      _ ← later (GoCancel (e_callbackCtx e));
      _ ← later (CoTerminate cause "interrupted"); _ ← later Untrack;
      mret (Claimed cause)
  end.

Definition forceExecution_resolve (i : Z) : sec () := resolveStopLocked i StopKilled.

(** [abortExecution]: up to the wire turn (the deadline of the turn), the
    flag of a feed that ended with the stop reason, and the last section,
    after [terminateSession]. *)
Definition abortExecution_begin (i : Z) : sec (merror + Z) :=
  check (executionErrorLocked i) (
    e ← getE i;
    match e_stop e with
    | None => mret (inl (ProtocolError (go "abort without a stop request") None))
    | Some req =>
      _ ← updE i (fun e => e_set_wireInFlight true (e_set_phase executionAborting e));
      _ ← releaseTurnLocked i;
      _ ← make_turn i;
      mret (inr (killAt req))
    end).

Definition abortExecution_aborted (i : Z) : sec () := updE i (e_set_aborted true).
Definition abortExecution_resolve (i : Z) : sec () := resolveStopLocked i StopFinished.

(** What [abortOrTerminal] does with the error of a boundary: [None] aborts. *)
Definition abortOrTerminal (err : merror) : sec (option merror) :=
  s ← get;
  mret (match s_terminal s with
        | Some terminal => Some terminal
        | None => if Is err errExecutionInterrupted then None else Some err
        end).

Definition deliverStop (i : Z) : sec wexception :=
  e ← getE i;
  _ ← updE i (e_set_delivered true);
  cb ← new_ctx;
  _ ← updE i (e_set_callbackCtx cb);
  match e_stop e with
  | None => panics
  | Some req =>
    reason ← reason_of (policy req);
    let '(typ, msg) := ExceptionParts reason in mret (NewException typ msg)
  end.

Definition stoppedFrom (i : Z) : sec Stopped :=
  s ← get; e ← getE i;
  match e_stop e with
  | None => panics
  | Some req =>
    mret (MkStopped (kind req) (if in_phase e executionFinished then e_err e else e_terminalCause e) (s_terminal s))
  end.

(** ** session_control.go *)

(** The execution the control operation borrowed, if any. *)
Definition reserveControlFor (c : ctx) (allowPaused : bool) (token : option (Z * Z)) : sec (merror + option Z) :=
  check (ctx_Err c) (
  check (match token with Some t => snapshotErrorLocked t | None => mret None end) (
  check admissionErrorLocked (
    s ← get;
    if is_some (s_controlDone s) then mret (inl (Sentinel ErrSessionBusy))
    else match s_current s with
         | Some i =>
           e ← getE i;
           if negb allowPaused || negb (in_phase e executionPaused) then mret (inl (Sentinel ErrSessionBusy))
           else
             _ ← updE i (fun e => e_set_wireInFlight true (e_set_phase executionControl e));
             _ ← make_turn i; _ ← make_operation i;
             _ ← later HoldObserver; mret (inr (Some i))
         | None =>
           ch ← make_chan ForControl;
           _ ← modify (s_set_controlDone (Some ch));
           _ ← later HoldObserver; mret (inr None)
         end))).

(** The closure it returns. *)
Definition releaseControl (borrowed : option Z) : sec () :=
  s ← get;
  match borrowed with
  | None =>
    match s_controlDone s with
    | Some c => _ ← close_chan c; _ ← modify (s_set_controlDone None); later ReleaseObserver
    | None => panics
    end
  | Some i =>
    _ ← updE i (e_set_wireInFlight false);
    _ ← releaseTurnLocked i;
    _ ← releaseOperationLocked i;
    _ ← updE i (e_set_phase executionPaused);
    e ← getE i;
    _ ← (if is_some (s_terminal s) || is_some (e_stop e)
         then _ ← updE i (e_set_phase executionAborting); make_operation i else mret ());
    _ ← later ReleaseObserver;
    match s_terminal s with
    | Some terminal => later (ThenFinish i terminal)
    | None => if is_some (e_stop e) then later (GoAbortPaused i) else mret ()
    end
  end.

Inductive closing :=
| CloseReturns (err : option merror) | CloseWaits (attempt : chan) | CloseBegan (attempt : chan) (running : option Z).

(** The critical section of [Close] for a policy that does not kill at once. *)
Definition Close_begin (c : ctx) : sec closing :=
  s ← get;
  match s_terminal s with
  | Some _ => mret (CloseReturns None)
  | None =>
    match s_closeAttempt s with
    | Some a => mret (CloseWaits a)
    | None =>
      x ← ctx_Err c;
      match x with
      | Some err => mret (CloseReturns (Some err))
      | None =>
        a ← make_chan ForClose;
        _ ← modify (s_set_closeAttempt (Some a));
        match s_current s with
        | Some i => e ← getE i; mret (CloseBegan a (if in_phase e executionPaused then None else Some i))
        | None => mret (CloseBegan a None)
        end
      end
    end
  end.

Definition settleClose (a : chan) (err : option merror) : sec () :=
  s ← get;
  _ ← modify (fun s => s_set_closeErr (<[a := err]> (s_closeErr s)) s);
  _ ← (if bool_decide (s_closeAttempt s = Some a) then modify (s_set_closeAttempt None) else mret ());
  close_chan a.

Inductive owned := OwnedReturns (err : option merror) | OwnedWaits (c : chan) | OwnedReserved (e : option Z).

(** One iteration of [closeOwned]; with the worker reserved it goes on to
    [co.Finish], [terminateSession] and [closeOwned_release]. *)
Definition closeOwned_reserve (c : ctx) : sec owned :=
  s ← get;
  match s_terminal s with
  | Some _ => mret (OwnedReturns None)
  | None =>
    x ← ctx_Err c;
    match x with
    | Some err => mret (OwnedReturns (Some err))
    | None =>
      match s_current s with
      | Some i =>
        e ← getE i;
        match e_operationDone e with
        | Some ch => mret (OwnedWaits ch)
        | None =>
          _ ← updE i (fun e => e_set_wireInFlight true (e_set_phase executionControl e));
          _ ← make_turn i; _ ← make_operation i;
          _ ← later HoldObserver; mret (OwnedReserved (Some i))
        end
      | None =>
        match s_controlDone s with
        | Some ch => mret (OwnedWaits ch)
        | None =>
          ch ← make_chan ForControl;
          _ ← modify (s_set_controlDone (Some ch));
          _ ← later HoldObserver; mret (OwnedReserved None)
        end
      end
    end
  end.

(** The last section of [closeOwned] and what follows it. *)
Definition closeOwned_release (e : option Z) (cause : merror) : sec () :=
  s ← get;
  _ ← (match e with
       | None =>
         match s_controlDone s with
         | Some c => _ ← close_chan c; modify (s_set_controlDone None)
         | None => panics
         end
       | Some i => later (ThenFinish i cause)
       end);
  later ReleaseObserver.

(** ** session.go *)

Definition Session_Err : sec (option merror) := s ← get; mret (s_terminal s).

Inductive SessionState := SessionIdle | SessionRunning | SessionPaused | SessionClosed.

Definition State : sec SessionState :=
  s ← get;
  match s_terminal s with
  | Some _ => mret SessionClosed
  | None =>
    if is_some (s_closeAttempt s) || is_some (s_controlDone s) then mret SessionRunning
    else match s_current s with
         | None => mret SessionIdle
         | Some i => e ← getE i; mret (if in_phase e executionPaused then SessionPaused else SessionRunning)
         end
  end.
