(* ===== verification/SessionSteps.v ===== *)
(** The goroutines of a session and their interleavings.

    A configuration is the session with where its goroutines are: the one
    responsible for each execution (the feed, the snapshot resume, the abort
    of a paused snapshot, a control operation that borrowed a paused
    execution, or a close), the stop watchers, the kills between their two
    critical sections, the control operations on an idle session, and the
    closes. A move is one critical section of one of them with where its
    goroutine goes next; between any two moves the clock may advance and any
    context may end. *)

From S2P Require Import Prelude Utf8 GoStrings Exceptions PoolErrors Monterr Stop SessionLife.

(** ** Where goroutines are *)

(** The goroutine responsible for an execution. [PTurn], [PAbortTurn]: the
    worker has the turn; [PHost]: the host answers it; [PCallback]: host code
    runs; [PStopping]: a boundary returned an error; [PControl], [PClosing]: a
    control operation or a close has borrowed the paused execution; [PFinish]
    and [PSettle]: before the two sections of [finishExecution]. *)
Inductive pc :=
| PStart | PPrep | PTurn | PHost | PCallback | PDeliver | PStopping (err : merror)
| PAbort | PAbortTurn | PAbortEnd | PControl | PClosing | PFinish | PSettle.

(** A close: in the loop of [closeOwned], with the worker reserved (and the
    execution it borrowed), or before [settleClose]. *)
Inductive cpc := COwned | CFinishing (e : option Z) | CSettle.

(** [c_ctl]: who holds [controlDone]: a control operation, or a close. *)
Record config := Config {
  c_s : session; c_owner : gmap Z pc; c_watch : gmap Z (); c_forcing : gmap Z ();
  c_ctl : list (option chan); c_closers : gmap chan cpc }.

Definition set_s (s : session) (c : config) : config :=
  Config s (c_owner c) (c_watch c) (c_forcing c) (c_ctl c) (c_closers c).
Definition goes (i : Z) (p : pc) (c : config) : config :=
  Config (c_s c) (<[i := p]> (c_owner c)) (c_watch c) (c_forcing c) (c_ctl c) (c_closers c).
Definition leaves (i : Z) (c : config) : config :=
  Config (c_s c) (delete i (c_owner c)) (c_watch c) (c_forcing c) (c_ctl c) (c_closers c).
Definition set_watch (w : gmap Z ()) (c : config) : config :=
  Config (c_s c) (c_owner c) w (c_forcing c) (c_ctl c) (c_closers c).
Definition set_forcing (f : gmap Z ()) (c : config) : config :=
  Config (c_s c) (c_owner c) (c_watch c) f (c_ctl c) (c_closers c).
Definition set_ctl (l : list (option chan)) (c : config) : config :=
  Config (c_s c) (c_owner c) (c_watch c) (c_forcing c) l (c_closers c).
Definition set_closers (m : gmap chan cpc) (c : config) : config :=
  Config (c_s c) (c_owner c) (c_watch c) (c_forcing c) (c_ctl c) m.

(** What a section started or goes on to do. The calls on the checkout, the
    pool, the rotation timer and the contexts do not read the lifecycle. *)
Definition absorb1 (a : act) (c : config) : config :=
  match a with
  | GoWatch i => set_watch (<[i := ()]> (c_watch c)) c
  | GoAbortPaused i => goes i PAbort c
  | ThenFinish i _ => goes i PFinish c
  | _ => c
  end.
Definition absorb (l : list act) (c : config) : config := foldl (fun c a => absorb1 a c) c l.

(** ** Moves *)

Inductive move := Move (A : Type) (m : sec A) (k : A -> config -> config).
Arguments Move {A} m k.

Definition stays {A} (_ : A) (c : config) : config := c.

(** A section that ends in success or an error. *)
Definition or_else {A} (i : Z) (ok : pc) (bad : merror -> pc) (r : merror + A) (c : config) : config :=
  match r with inr _ => goes i ok c | inl err => goes i (bad err) c end.

(** After a turn came back. *)
Definition received (p : pc) : pc :=
  match p with PTurn => PHost | PAbortTurn => PAbortEnd | _ => p end.

(** From these points a function returns its error to [finishExecution]. *)
Definition may_fail (p : pc) : bool :=
  match p with
  | PStart | PPrep | PTurn | PHost | PStopping _ | PFinish => true
  | _ => false
  end.

(** [finish_first h l]: the reservation [h] is given back. *)
Fixpoint give_back (h : option chan) (l : list (option chan)) : list (option chan) :=
  match l with
  | [] => []
  | x :: l => if decide (x = h) then l else x :: give_back h l
  end.

Inductive may (c : config) : move -> Prop :=
(* the environment *)
| may_tick t : s_now (c_s c) <= t -> may c (Move (modify (s_set_now t)) stays)
| may_end_context x why : may c (Move (modify (fun s => s_set_ended (<[x := why]> (s_ended s)) s)) stays)
(* an execution is admitted, prepared and sent *)
| may_reserve x : may c (Move (reserveExecution x)
    (fun r c => match r with inr i => goes i PStart c | inl _ => c end))
| may_begin i : c_owner c !! i = Some PStart -> may c (Move (beginExecution i) (or_else i PPrep (fun _ => PFinish)))
| may_send i : c_owner c !! i = Some PPrep -> may c (Move (beginSend i) (or_else i PTurn (fun _ => PFinish)))
| may_receive i p : c_owner c !! i = Some p -> may c (Move (receivedTurn i) (fun _ => goes i (received p)))
(* the host answers a turn *)
| may_cancelled i : c_owner c !! i = Some PHost ->
    may c (Move (stopAtBoundary_cancelled i) (or_else i PHost PStopping))
| may_boundary i : c_owner c !! i = Some PHost ->
    may c (Move (stopAtBoundary_check i) (or_else i PHost PStopping))
| may_call i : c_owner c !! i = Some PHost ->
    may c (Move (beginCallback_enter i) (or_else i PCallback PStopping))
| may_return i : c_owner c !! i = Some PCallback -> may c (Move (endCallback_leave i) (fun _ => goes i PHost))
| may_future i id f : c_owner c !! i = Some PHost -> may c (Move (addFuture i id f) stays)
| may_forget i ids p : c_owner c !! i = Some p -> p = PHost \/ p = PTurn -> may c (Move (forget_futures i ids) stays)
| may_resume i : c_owner c !! i = Some PHost ->
    may c (Move (beforeResume_enter i) (or_else i PTurn
      (fun err => match err with Sentinel errDeliverStop => PDeliver | _ => PStopping err end)))
| may_deliver i : c_owner c !! i = Some PDeliver -> may c (Move (deliverStop i) (fun _ => goes i PTurn))
| may_decide i err : c_owner c !! i = Some (PStopping err) ->
    may c (Move (abortOrTerminal err) (fun r => goes i (match r with Some _ => PFinish | None => PAbort end)))
(* snapshots *)
| may_pause i : c_owner c !! i = Some PHost ->
    may c (Move (publishPause i) (fun r => match r with inr _ => leaves i | inl err => goes i (PStopping err) end))
| may_claim x t : is_Some (s_tokens (c_s c) !! t) ->
    may c (Move (claimSnapshot x t) (fun r c => match r with inr _ => goes t.1 PHost c | inl _ => c end))
(* aborting *)
| may_abort i : c_owner c !! i = Some PAbort ->
    may c (Move (abortExecution_begin i) (or_else i PAbortTurn (fun _ => PFinish)))
| may_aborted i : c_owner c !! i = Some PAbortEnd ->
    may c (Move (abortExecution_aborted i) (fun _ => goes i PFinish))
| may_abort_lost i : c_owner c !! i = Some PAbortEnd -> s_terminal (c_s c) <> None ->
    may c (Move (abortExecution_resolve i) (fun _ => goes i PFinish))
| may_abort_terminal i : c_owner c !! i = Some PAbortEnd -> s_terminal (c_s c) <> None ->
    may c (Move (mret ()) (fun _ => goes i PFinish))
(* finishing *)
| may_finish i p : c_owner c !! i = Some p -> may_fail p = true ->
    may c (Move (finishExecution_cancel i) (fun _ => goes i PSettle))
| may_settle i v err : c_owner c !! i = Some PSettle ->
    may c (Move (finishExecution_settle i v err) (fun _ => leaves i))
| may_settle_again i e v err : s_execs (c_s c) !! i = Some e -> e_phase e = executionFinished ->
    may c (Move (finishExecution_settle i v err) stays)
(* the two marks of a stop are private: no caller passes one *)
| may_terminate err : err <> Sentinel errDeliverStop -> may c (Move (terminateSession err) stays)
(* stops *)
| may_stop i p : is_Some (s_execs (c_s c) !! i) -> may c (Move (requestStop i p) stays)
| may_hook i n : is_Some (s_execs (c_s c) !! i) -> may c (Move (requestStopForStep_stale i n) stays)
| may_watch i : c_watch c !! i = Some () -> may c (Move (watchStop_next i) stays)
| may_timer i : c_watch c !! i = Some () -> may c (Move (watchStop_timer i) stays)
| may_wake i : c_watch c !! i = Some () -> may c (Move (watchStop_wake i) stays)
| may_force i e : s_execs (c_s c) !! i = Some e ->
    stop_requested e = true \/ (c_owner c !! i = Some PAbortEnd /\ e_stop e <> None) ->
    may c (Move (forceExecution_claim i)
      (fun r c => match r with Claimed _ => set_forcing (<[i := ()]> (c_forcing c)) c | _ => c end))
| may_killed i : c_forcing c !! i = Some () ->
    may c (Move (forceExecution_resolve i) (fun _ c => set_forcing (delete i (c_forcing c)) c))
(* control operations *)
| may_control x allow tok : (forall t, tok = Some t -> is_Some (s_tokens (c_s c) !! t)) ->
    may c (Move (reserveControlFor x allow tok) (fun r c =>
      match r with
      | inr (Some i) => goes i PControl c
      | inr None => set_ctl (None :: c_ctl c) c
      | inl _ => c
      end))
| may_give_back : None ∈ c_ctl c ->
    may c (Move (releaseControl None) (fun _ c => set_ctl (give_back None (c_ctl c)) c))
| may_give_back_execution i : c_owner c !! i = Some PControl ->
    may c (Move (releaseControl (Some i)) (fun _ => leaves i))
(* closing *)
| may_close x : may c (Move (Close_begin x) (fun r c =>
    match r with CloseBegan a _ => set_closers (<[a := COwned]> (c_closers c)) c | _ => c end))
| may_own a x : c_closers c !! a = Some COwned ->
    may c (Move (closeOwned_reserve x) (fun r c =>
      match r with
      | OwnedReturns _ => set_closers (<[a := CSettle]> (c_closers c)) c
      | OwnedWaits _ => c
      | OwnedReserved (Some i) => goes i PClosing (set_closers (<[a := CFinishing (Some i)]> (c_closers c)) c)
      | OwnedReserved None =>
        set_ctl (Some a :: c_ctl c) (set_closers (<[a := CFinishing None]> (c_closers c)) c)
      end))
| may_end_close a e cause : c_closers c !! a = Some (CFinishing e) -> s_terminal (c_s c) <> None ->
    may c (Move (closeOwned_release e cause) (fun _ c =>
      set_closers (<[a := CSettle]> (c_closers c))
        (match e with None => set_ctl (give_back (Some a) (c_ctl c)) c | Some _ => c end)))
| may_settle_close a err : c_closers c !! a = Some CSettle ->
    may c (Move (settleClose a err) (fun _ c => set_closers (delete a (c_closers c)) c)).

(** A step: a move whose section does not panic. *)
Definition after {A} (r : A) (s : session) (l : list act) (k : A -> config -> config) (c : config) : config :=
  absorb l (k r (set_s s c)).

Inductive step (c : config) : config -> Prop :=
| step_move {A} (m : sec A) k r s l :
    may c (Move m k) -> m (c_s c) = Some (r, s, l) -> step c (after r s l k c).

Definition start (limits : sessionLimits) (now : Z) : config :=
  Config (newSession limits now) ∅ ∅ ∅ [] ∅.

Definition reachable (limits : sessionLimits) (now : Z) (c : config) : Prop := rtc step (start limits now) c.
