(* ===== verification/SessionInv.v ===== *)
(** The invariant of the session's goroutines and that every move keeps it
    without panicking. *)

From S2P Require Import Prelude Utf8 GoStrings Exceptions PoolErrors Monterr Stop SessionLife SessionSteps.

(** ** The invariant *)

(** The phases an execution can be in while its goroutine is at a point. *)
Definition pc_phases (p : pc) : list executionPhase :=
  match p with
  | PStart => [executionStarting]
  | PPrep => [executionPreparing]
  | PTurn | PHost | PDeliver | PStopping _ => [executionExecuting]
  | PCallback => [executionCallback]
  | PAbort => [executionExecuting; executionAborting]
  | PAbortTurn | PAbortEnd => [executionAborting]
  | PControl | PClosing => [executionControl]
  | PFinish | PSettle =>
    [executionStarting; executionPreparing; executionExecuting; executionCallback; executionControl; executionAborting]
  end.

(** The open channel of a purpose. *)
Definition chan_of (s : session) (p : purpose) : option chan :=
  match p with
  | ForSession => match s_terminal s with None => Some (s_done s) | Some _ => None end
  | ForControl => s_controlDone s
  | ForClose => s_closeAttempt s
  | ForTurn i => e ← s_execs s !! i; e_turnDone e
  | ForOperation i => e ← s_execs s !! i; e_operationDone e
  | ForDone i => e ← s_execs s !! i; if in_phase e executionFinished then None else Some (e_done e)
  | ForStop i => e ← s_execs s !! i; r ← e_stop e; if resolvedOnce r then None else Some (resolved r)
  end.

(** The channels that are open are those of [f]. *)
Definition tracks (f : purpose -> option chan) (s : session) : Prop :=
  (forall (ch : chan) p, s_chans s !! ch = Some (p, false) <-> f p = Some ch)
  /\ (forall ch : chan, (s_nextChan s <= ch)%nat -> s_chans s !! ch = None).

(** The stop of an execution. *)
Record stop_ok (term : option merror) (watched forcing : option ()) (e : execution) (r : stopRequest) : Prop := StopOk {
  so_reason : Reason (policy r) <> None;
  so_order : requestAt r <= killAt r;
  so_watched : resolvedOnce r = false -> watched = Some ();
  so_settled : e_phase e = executionFinished -> resolvedOnce r = true \/ forceClaimed r = true;
  so_claimed : forceClaimed r = true -> term <> None;
  so_forcing : forceClaimed r = true -> resolvedOnce r = false -> forcing = Some ();
  so_pause : e_phase e = executionPaused -> requested r = false }.

(** An execution, given the session's terminal cause, whether it is current,
    its goroutine, its watcher, its kill, and its last snapshot. *)
Record exec_ok (lim : Z) (term : option merror) (cur : bool) (own : option pc) (watched forcing : option ())
    (tok : option bool) (e : execution) : Prop := ExecOk {
  xo_current : cur = true <-> e_phase e <> executionFinished;
  xo_owned : forall p, own = Some p -> e_phase e ∈ pc_phases p /\ e_operationDone e <> None
               /\ (p = PStart \/ p = PPrep -> e_turnDone e = None)
               /\ (p = PDeliver -> e_stop e <> None);
  xo_free : own = None -> (e_phase e = executionPaused \/ e_phase e = executionFinished)
               /\ e_turnDone e = None /\ e_operationDone e = None;
  xo_cause : e_terminalCause e <> None -> e_terminalCause e = term;
  xo_lost : term <> None -> e_phase e <> executionFinished -> e_terminalCause e = term;
  xo_paused : e_phase e = executionPaused -> term = None;
  xo_token : e_phase e = executionPaused \/ e_phase e = executionControl -> tok = Some false;
  xo_stop : forall r, e_stop e = Some r -> stop_ok term watched forcing e r;
  xo_watch : watched <> None -> e_stop e <> None;
  xo_forcing : forcing <> None -> e_stop e <> None;
  xo_pending : lim <> Unlimited -> Z.of_nat (size (e_pending e)) <= lim;
  xo_cleared : e_phase e = executionFinished -> e_pending e = ∅;
  xo_result : e_phase e = executionFinished -> e_terminalCause e <> None -> e_err e = e_terminalCause e;
  xo_sequence : 0 <= e_sequence e <= MaxUint64 }.

Definition ok_at (c : config) (i : Z) (e : execution) : Prop :=
  exec_ok (pendingFutures (s_limits (c_s c))) (s_terminal (c_s c)) (bool_decide (s_current (c_s c) = Some i))
    (c_owner c !! i) (c_watch c !! i) (c_forcing c !! i) (s_tokens (c_s c) !! (i, e_sequence e)) e.

(** Limits a session can have: [sessionLimits] fills them in. *)
Definition limits_ok (l : sessionLimits) : Prop :=
  Reason (lim_stop l) <> None /\ 0 <= Drain (lim_stop l) /\ 0 <= pendingFutures l.

Record inv (c : config) : Prop := Inv {
  in_limits : limits_ok (s_limits (c_s c));
  in_private : s_terminal (c_s c) <> Some (Sentinel errDeliverStop);
  in_chans : tracks (chan_of (c_s c)) (c_s c);
  in_ids : 0 <= s_nextID (c_s c) <= MaxUint64;
  in_current : forall i, s_current (c_s c) = Some i -> is_Some (s_execs (c_s c) !! i);
  in_execs : forall i e, s_execs (c_s c) !! i = Some e -> 1 <= i <= s_nextID (c_s c) /\ ok_at c i e;
  in_owner : forall i, is_Some (c_owner c !! i) -> is_Some (s_execs (c_s c) !! i);
  in_watch : forall i, is_Some (c_watch c !! i) -> is_Some (s_execs (c_s c) !! i);
  in_forcing : forall i, is_Some (c_forcing c !! i) -> is_Some (s_execs (c_s c) !! i);
  in_tokens : forall t b, s_tokens (c_s c) !! t = Some b ->
    exists e, s_execs (c_s c) !! t.1 = Some e /\ t.2 <= e_sequence e;
  in_control : match s_controlDone (c_s c) with
               | None => c_ctl c = []
               | Some _ => s_current (c_s c) = None /\ exists h, c_ctl c = [h]
               end;
  in_attempt : forall a, s_closeAttempt (c_s c) = Some a <-> is_Some (c_closers c !! a);
  in_finishing : forall a e, c_closers c !! a = Some (CFinishing e) ->
    match e with None => Some a ∈ c_ctl c | Some i => c_owner c !! i = Some PClosing end;
  in_holder : forall a, Some a ∈ c_ctl c -> c_closers c !! a = Some (CFinishing None) }.

(** ** Critical sections, symbolically

    [wp m Q s]: run from [s] the section does not panic, and [Q] holds of what
    it returns, the state it leaves and what it leaves to be done. *)

Definition wp {A} (m : sec A) (Q : A -> session -> list act -> Prop) (s : session) : Prop :=
  match m s with Some (a, s', l) => Q a s' l | None => False end.

(** [s] with the execution [i] replaced *)
Definition upd (i : Z) (e : execution) (s : session) : session := s_set_execs (<[i := e]> (s_execs s)) s.

(** [f] with the open channel of one purpose replaced *)
Definition fset (p : purpose) (o : option chan) (f : purpose -> option chan) : purpose -> option chan :=
  fun q => if decide (q = p) then o else f q.

Section wp.
Context {A : Type}.
Implicit Types (Q : A -> session -> list act -> Prop) (s : session).

Lemma sec_wp_bind {B} (m : sec B) (f : B -> sec A) Q s :
  wp m (fun b s1 l1 => wp (f b) (fun a s2 l2 => Q a s2 (l1 ++ l2)) s1) s -> wp (m ≫= f) Q s.
Proof.
  unfold wp, mbind, sec_bind. destruct (m s) as [[[b s1] l1]|]; [|done]. by destruct (f b s1) as [[[a s2] l2]|].
Qed.

Lemma sec_wp_ret (a : A) Q s : Q a s [] -> wp (mret a) Q s.
Proof. done. Qed.

Lemma sec_wp_mono (m : sec A) Q Q' s : (forall a s l, Q a s l -> Q' a s l) -> wp m Q s -> wp m Q' s.
Proof. unfold wp. destruct (m s) as [[[a s'] l]|]; [eauto|done]. Qed.
End wp.

Lemma sec_wp_get Q s : Q s s [] -> wp get Q s.
Proof. done. Qed.
Lemma sec_wp_modify f Q s : Q () (f s) [] -> wp (modify f) Q s.
Proof. done. Qed.
Lemma wp_later a Q s : Q () s [a] -> wp (later a) Q s.
Proof. done. Qed.
Lemma wp_ctx_Err x Q s : Q (option_map Sentinel (s_ended s !! x)) s [] -> wp (ctx_Err x) Q s.
Proof. done. Qed.
Lemma wp_new_ctx (Q : ctx -> session -> list act -> Prop) s :
  (forall x, Q x (s_set_nextCtx (S (s_nextCtx s)) s) []) -> wp new_ctx Q s.
Proof. intros H. apply H. Qed.
Lemma wp_getE i e Q s : s_execs s !! i = Some e -> Q e s [] -> wp (getE i) Q s.
Proof. unfold wp, getE. by intros ->. Qed.
Lemma wp_updE i e f Q s : s_execs s !! i = Some e -> Q () (upd i (f e) s) [] -> wp (updE i f) Q s.
Proof. unfold wp, updE, upd. by intros ->. Qed.
Lemma wp_check {A} (m : sec (option merror)) (k : sec (merror + A)) Q s :
  wp m (fun x s l => match x with
                     | Some err => Q (inl err) s l
                     | None => wp k (fun r s' l' => Q r s' (l ++ l')) s
                     end) s -> wp (check m k) Q s.
Proof.
  intros H. unfold check. apply sec_wp_bind. eapply sec_wp_mono; [|exact H]. intros [err|] s1 l; [|done].
  intros HQ. unfold wp. cbn. by rewrite app_nil_r.
Qed.

Lemma wp_make f p (Q : chan -> session -> list act -> Prop) s : tracks f s -> f p = None ->
  (forall ch m n, tracks (fset p (Some ch) f) (s_set_chans m n s) -> Q ch (s_set_chans m n s) []) ->
  wp (make_chan p) Q s.
Proof.
  intros [Ht Hn] Hp HQ. apply HQ. split; cbn.
  - intros ch q. unfold fset. destruct (decide (ch = s_nextChan s)) as [->|Hne].
    + rewrite lookup_insert_eq. case_decide as Hq; [subst; naive_solver|].
      split; [naive_solver|]. intros Hf%Ht. by rewrite Hn in Hf.
    + rewrite lookup_insert_ne by done. rewrite Ht. case_decide; [subst; split; congruence|done].
  - intros ch Hle. rewrite lookup_insert_ne by lia. apply Hn. lia.
Qed.

Lemma wp_close f p ch (Q : () -> session -> list act -> Prop) s : tracks f s -> f p = Some ch ->
  (forall m n, tracks (fset p None f) (s_set_chans m n s) -> Q () (s_set_chans m n s) []) ->
  wp (close_chan ch) Q s.
Proof.
  intros [Ht Hn] Hp HQ. unfold wp, close_chan. rewrite (proj2 (Ht ch p) Hp). apply HQ. split; cbn.
  - intros ch' q. unfold fset. destruct (decide (ch' = ch)) as [->|Hne].
    + rewrite lookup_insert_eq. case_decide as Hq; [naive_solver|].
      split; [naive_solver|]. intros Hf%Ht. rewrite (proj2 (Ht ch p) Hp) in Hf. naive_solver.
    + rewrite lookup_insert_ne by done. rewrite Ht. case_decide; [subst; split; congruence|done].
  - intros ch' Hle. destruct (decide (ch' = ch)) as [->|]; [|rewrite lookup_insert_ne by done; by apply Hn].
    exfalso. pose proof (proj2 (Ht ch p) Hp) as Ho. by rewrite (Hn ch Hle) in Ho.
Qed.

(** Two states of one session compared away from the execution [i]. *)
Record frame (i : Z) (c c' : config) : Prop := Framed {
  fr_execs : forall j, j <> i -> s_execs (c_s c') !! j = s_execs (c_s c) !! j;
  fr_owner : forall j, j <> i -> c_owner c' !! j = c_owner c !! j;
  fr_watch : forall j, j <> i -> c_watch c' !! j = c_watch c !! j;
  fr_forcing : forall j, j <> i -> c_forcing c' !! j = c_forcing c !! j;
  fr_tokens : forall t, t.1 <> i -> s_tokens (c_s c') !! t = s_tokens (c_s c) !! t;
  fr_limits : s_limits (c_s c') = s_limits (c_s c);
  fr_ids : s_nextID (c_s c') = s_nextID (c_s c);
  fr_control : s_controlDone (c_s c') = s_controlDone (c_s c);
  fr_ctl : c_ctl c' = c_ctl c;
  fr_attempt : s_closeAttempt (c_s c') = s_closeAttempt (c_s c);
  fr_closers : c_closers c' = c_closers c;
  fr_current : s_current (c_s c') = s_current (c_s c)
               \/ (s_current (c_s c) = Some i /\ s_current (c_s c') = None);
  fr_terminal : s_terminal (c_s c') = s_terminal (c_s c)
                \/ (s_terminal (c_s c) = None /\ s_current (c_s c) = Some i);
  fr_private : s_terminal (c_s c) <> Some (Sentinel errDeliverStop) -> s_terminal (c_s c') <> Some (Sentinel errDeliverStop);
  fr_closing : c_owner c !! i = Some PClosing ->
    c_owner c' !! i = Some PClosing \/ forall a, c_closers c !! a <> Some (CFinishing (Some i)) }.

(** What an execution that is not current is told by a change of the terminal
    cause: nothing. *)
Lemma exec_ok_aside lim term term' own w f tok e :
  term' = term \/ term = None -> exec_ok lim term false own w f tok e -> exec_ok lim term' false own w f tok e.
Proof.
  intros Hterm H. destruct Hterm as [->|Hn]; [done|].
  assert (e_phase e = executionFinished) as Hf.
  { destruct (decide (e_phase e = executionFinished)) as [|Hne]; [done|]. by apply (xo_current _ _ _ _ _ _ _ _ H) in Hne. }
  destruct H. subst term. assert (e_terminalCause e = None) as Hc by (destruct (e_terminalCause e); [by rewrite xo_cause0|done]).
  constructor; try done; try congruence.
  intros r Hr. destruct (xo_stop0 r Hr). constructor; try done. intros H. by apply so_claimed0 in H.
Qed.

Lemma inv_frame c c' i e e' : inv c -> frame i c c' ->
  s_execs (c_s c) !! i = Some e -> s_execs (c_s c') !! i = Some e' ->
  (forall n b, s_tokens (c_s c') !! (i, n) = Some b -> n <= e_sequence e') ->
  tracks (chan_of (c_s c')) (c_s c') -> ok_at c' i e' -> inv c'.
Proof.
  intros Hinv Hfr He He' Htok Hch Hok. destruct Hfr.
  assert (forall j, is_Some (s_execs (c_s c) !! j) -> is_Some (s_execs (c_s c') !! j)) as Hdom.
  { intros j Hj. destruct (decide (j = i)) as [->|]; [by rewrite He'|by rewrite fr_execs0]. }
  assert (forall {A} (m m' : gmap Z A) j, (forall j, j <> i -> m' !! j = m !! j) ->
    (is_Some (m !! j) -> is_Some (s_execs (c_s c) !! j)) -> is_Some (m' !! j) -> is_Some (s_execs (c_s c') !! j)) as Hsub.
  { intros A m m' j Hm Hin Hj. destruct (decide (j = i)) as [->|Hne]; [by rewrite He'|].
    apply Hdom, Hin. by rewrite <- Hm. }
  destruct Hinv. constructor.
  - by rewrite fr_limits0.
  - by apply fr_private0.
  - done.
  - by rewrite fr_ids0.
  - intros j Hj. apply Hdom. destruct fr_current0 as [E|[_ E]]; [apply in_current0; congruence|congruence].
  - intros j x Hx. destruct (decide (j = i)) as [->|Hne].
    { assert (x = e') as -> by congruence. rewrite fr_ids0. split; [apply (in_execs0 i e He)|done]. }
    rewrite fr_execs0 in Hx by done. rewrite fr_ids0. destruct (in_execs0 j x Hx) as [Hid Hx']. split; [done|].
    unfold ok_at in *. rewrite fr_limits0, fr_owner0, fr_watch0, fr_forcing0, fr_tokens0 by done.
    assert (bool_decide (s_current (c_s c') = Some j) = bool_decide (s_current (c_s c) = Some j)) as ->.
    { destruct fr_current0 as [->|[-> ->]]; [done|]. apply bool_decide_ext. naive_solver. }
    destruct fr_terminal0 as [->|[Hn Hc]]; [done|].
    assert (bool_decide (s_current (c_s c) = Some j) = false) as Hcj by (apply bool_decide_eq_false_2; congruence).
    rewrite Hcj in *. apply (exec_ok_aside _ (s_terminal (c_s c))); [by right|done].
  - intros j. exact (Hsub _ (c_owner c) (c_owner c') j fr_owner0 (in_owner0 j)).
  - intros j. exact (Hsub _ (c_watch c) (c_watch c') j fr_watch0 (in_watch0 j)).
  - intros j. exact (Hsub _ (c_forcing c) (c_forcing c') j fr_forcing0 (in_forcing0 j)).
  - intros t b Ht. destruct t as [j n]. destruct (decide (j = i)) as [->|Hne]; [exists e'; split; [done|by eapply Htok]|].
    rewrite fr_tokens0 in Ht by done. destruct (in_tokens0 _ _ Ht) as (x & Hx & Hn). cbn in *.
    exists x. by rewrite fr_execs0.
  - rewrite fr_control0, fr_ctl0. destruct (s_controlDone (c_s c)); [|done].
    destruct in_control0 as [Hc Hh]. split; [|done]. destruct fr_current0 as [->|[E _]]; [done|congruence].
  - intros a. by rewrite fr_attempt0, fr_closers0.
  - intros a x. rewrite fr_closers0, fr_ctl0. intros Ha. specialize (in_finishing0 a x Ha).
    destruct x as [j|]; [|done]. destruct (decide (j = i)) as [->|]; [|by rewrite fr_owner0].
    destruct (fr_closing0 in_finishing0) as [|Hno]; [done|by destruct (Hno a)].
  - intros a. rewrite fr_ctl0, fr_closers0. apply in_holder0.
Qed.

Lemma tracks_ext f g s : (forall p, f p = g p) -> tracks f s -> tracks g s.
Proof. intros H [H1 H2]. split; [|done]. intros ch p. by rewrite H1, H. Qed.

(** The channels do not depend on the rest of the session. *)
Lemma tracks_same f s s' : s_chans s' = s_chans s -> s_nextChan s' = s_nextChan s -> tracks f s -> tracks f s'.
Proof. unfold tracks. by intros -> ->. Qed.

(** *** Normal forms of states *)

Lemma upd_upd i e1 e2 s : upd i e2 (upd i e1 s) = upd i e2 s.
Proof. unfold upd. cbn. by rewrite insert_insert_eq. Qed.
Lemma lookup_upd i e s : s_execs (upd i e s) !! i = Some e.
Proof. cbn. apply lookup_insert_eq. Qed.
Lemma lookup_upd_chans m n i e s : s_execs (s_set_chans m n (upd i e s)) !! i = Some e.
Proof. cbn. apply lookup_insert_eq. Qed.
Lemma upd_chans i e m n s : s_set_chans m n (upd i e s) = upd i e (s_set_chans m n s).
Proof. reflexivity. Qed.
Lemma upd_terminal i e t s : s_set_terminal t (upd i e s) = upd i e (s_set_terminal t s).
Proof. reflexivity. Qed.
Lemma upd_current i e t s : s_set_current t (upd i e s) = upd i e (s_set_current t s).
Proof. reflexivity. Qed.
Lemma upd_tokens i e t s : s_set_tokens t (upd i e s) = upd i e (s_set_tokens t s).
Proof. reflexivity. Qed.
Lemma upd_driven i e t s : s_set_driven t (upd i e s) = upd i e (s_set_driven t s).
Proof. reflexivity. Qed.
Lemma upd_nextCtx i e t s : s_set_nextCtx t (upd i e s) = upd i e (s_set_nextCtx t s).
Proof. reflexivity. Qed.

Lemma fset_eq p o f : fset p o f p = o.
Proof. unfold fset. by rewrite decide_True. Qed.
Lemma fset_ne p q o f : q <> p -> fset p o f q = f q.
Proof. unfold fset. intros. by rewrite decide_False. Qed.
