(* ===== verification/SessionMoves.v ===== *)
(** Every move of a session's goroutines keeps the invariant and does not
    panic: one lemma per move, by symbolic execution of its section. *)

From S2P Require Import Prelude Utf8 GoStrings Exceptions PoolErrors Monterr Stop SessionLife SessionSteps SessionInv.

Definition keeps (c : config) (mv : move) : Prop :=
  match mv with Move m k => wp m (fun r s l => inv (after r s l k c)) (c_s c) end.

(** ** Tactics *)

Create HintDb life_db.
#[export] Hint Rewrite upd_upd upd_chans upd_terminal upd_current upd_tokens upd_driven upd_nextCtx : life_db.

(** The execution at the point where the section is. *)
Ltac look := first [eassumption | apply lookup_upd | apply lookup_upd_chans].

(** One step of a section; channels are left to the proof. *)
Ltac run1 :=
  lazymatch goal with
  | |- wp (mbind _ _) _ _ => apply sec_wp_bind
  | |- wp (check _ _) _ _ => apply wp_check
  | |- wp (mret _) _ _ => apply sec_wp_ret
  | |- wp get _ _ => apply sec_wp_get
  | |- wp (modify _) _ _ => apply sec_wp_modify
  | |- wp (later _) _ _ => apply wp_later
  | |- wp (ctx_Err _) _ _ => apply wp_ctx_Err
  | |- wp new_ctx _ _ => apply wp_new_ctx; intros ?
  | |- wp (getE _) _ _ => eapply wp_getE; [look|]
  | |- wp (updE _ _) _ _ => eapply wp_updE; [look|]
  end; cbv beta; autorewrite with life_db.
Ltac run := repeat run1.

Section helpers.
Context {A : Type}.

Lemma wp_executionError i e (Q : option merror -> session -> list act -> Prop) s :
  s_execs s !! i = Some e ->
  (forall err, s_terminal s = Some err \/ e_terminalCause e = Some err \/ err = Sentinel ErrSnapshotStale -> Q (Some err) s []) ->
  (s_terminal s = None -> e_terminalCause e = None -> s_current s = Some i -> e_phase e <> executionFinished ->
   Q None s []) ->
  wp (executionErrorLocked i) Q s.
Proof.
  intros He Hbad Hok. unfold executionErrorLocked. run. cbn.
  destruct (s_terminal s); [apply Hbad; tauto|]. destruct (e_terminalCause e); [apply Hbad; tauto|].
  unfold in_phase. case_bool_decide; cbn; [|apply Hbad; tauto]. case_bool_decide; [apply Hbad; tauto|]. by apply Hok.
Qed.

Lemma wp_boundaryStop i e (Q : option merror -> session -> list act -> Prop) s :
  s_execs s !! i = Some e ->
  (forall x, (x = None \/ x = Some (Sentinel errExecutionInterrupted)) -> Q x s []) -> wp (boundaryStopLocked i) Q s.
Proof.
  intros He HQ. unfold boundaryStopLocked. run. apply HQ.
  destruct (e_stop e) as [r|]; [|by left]. destruct (requested r); [|by left]. by destruct (Catchable (policy r)); [left|right].
Qed.

Lemma wp_admission (Q : option merror -> session -> list act -> Prop) s :
  (forall err, Q (Some err) s []) ->
  (s_terminal s = None -> s_closeAttempt s = None -> Q None s []) -> wp admissionErrorLocked Q s.
Proof.
  intros Hbad Hok. unfold admissionErrorLocked. run. destruct (s_terminal s); [apply Hbad|].
  destruct (s_closeAttempt s); [apply Hbad|]. by apply Hok.
Qed.
End helpers.

(** ** Channels of an execution *)

Section channels.
Implicit Types (f : purpose -> option chan) (s : session) (e : execution).

Lemma wp_make_turn f i e (Q : () -> session -> list act -> Prop) s :
  tracks f s -> s_execs s !! i = Some e -> f (ForTurn i) = None ->
  (forall ch m n, tracks (fset (ForTurn i) (Some ch) f) (s_set_chans m n s) ->
     Q () (upd i (e_set_turnDone (Some ch) e) (s_set_chans m n s)) []) ->
  wp (make_turn i) Q s.
Proof.
  intros Ht He Hf HQ. unfold make_turn. apply sec_wp_bind. eapply wp_make; [done..|]. intros ch m n Ht'.
  eapply wp_updE; [exact He|]. by apply HQ.
Qed.

Lemma wp_make_operation f i e (Q : () -> session -> list act -> Prop) s :
  tracks f s -> s_execs s !! i = Some e -> f (ForOperation i) = None ->
  (forall ch m n, tracks (fset (ForOperation i) (Some ch) f) (s_set_chans m n s) ->
     Q () (upd i (e_set_operationDone (Some ch) e) (s_set_chans m n s)) []) ->
  wp (make_operation i) Q s.
Proof.
  intros Ht He Hf HQ. unfold make_operation. apply sec_wp_bind. eapply wp_make; [done..|]. intros ch m n Ht'.
  eapply wp_updE; [exact He|]. by apply HQ.
Qed.

(** After a release the channel is closed and its field nil, whether or not it
    was open before. *)
Lemma wp_release_turn f i e (Q : () -> session -> list act -> Prop) s :
  tracks f s -> s_execs s !! i = Some e -> f (ForTurn i) = e_turnDone e ->
  (forall m n, tracks (fset (ForTurn i) None f) (s_set_chans m n s) ->
     Q () (upd i (e_set_turnDone None e) (s_set_chans m n s)) []) ->
  wp (releaseTurnLocked i) Q s.
Proof.
  intros Ht He Hf HQ. unfold releaseTurnLocked. run. destruct (e_turnDone e) as [ch|] eqn:Hch.
  - apply sec_wp_bind. eapply wp_close; [done..|]. intros m n Ht'. eapply wp_updE; [exact He|]. by apply HQ.
  - run. assert (upd i (e_set_turnDone None e) (s_set_chans (s_chans s) (s_nextChan s) s) = s) as Hs.
    { unfold upd. cbn. rewrite insert_id; [by destruct s|]. rewrite He. by destruct e; cbn in *; subst. }
    specialize (HQ (s_chans s) (s_nextChan s)). rewrite Hs in HQ. apply HQ.
    eapply tracks_ext; [|exact Ht]. intros p. unfold fset. by case_decide; subst.
Qed.

Lemma wp_release_operation f i e (Q : () -> session -> list act -> Prop) s :
  tracks f s -> s_execs s !! i = Some e -> f (ForOperation i) = e_operationDone e ->
  (forall m n, tracks (fset (ForOperation i) None f) (s_set_chans m n s) ->
     Q () (upd i (e_set_operationDone None e) (s_set_chans m n s)) []) ->
  wp (releaseOperationLocked i) Q s.
Proof.
  intros Ht He Hf HQ. unfold releaseOperationLocked. run. destruct (e_operationDone e) as [ch|] eqn:Hch.
  - apply sec_wp_bind. eapply wp_close; [done..|]. intros m n Ht'. eapply wp_updE; [exact He|]. by apply HQ.
  - run. assert (upd i (e_set_operationDone None e) (s_set_chans (s_chans s) (s_nextChan s) s) = s) as Hs.
    { unfold upd. cbn. rewrite insert_id; [by destruct s|]. rewrite He. by destruct e; cbn in *; subst. }
    specialize (HQ (s_chans s) (s_nextChan s)). rewrite Hs in HQ. apply HQ.
    eapply tracks_ext; [|exact Ht]. intros p. unfold fset. by case_decide; subst.
Qed.
End channels.

(** What the channel map is expected to say, purpose by purpose. *)
Ltac chan_eq :=
  repeat first [rewrite fset_eq|rewrite fset_ne by congruence]; cbn;
  repeat match goal with
  | H : ?m !! ?i = Some _ |- context [?m !! ?i] => rewrite H
  | |- context [<[?i := _]> _ !! ?i] => rewrite lookup_insert_eq
  | H : ?j <> ?i |- context [<[?i := _]> _ !! ?j] => rewrite (lookup_insert_ne _ i j) by congruence
  end; cbn; unfold in_phase;
  repeat match goal with
  | H : e_phase ?e = _ |- context [e_phase ?e] => rewrite H
  | H : e_turnDone ?e = _ |- context [e_turnDone ?e] => rewrite H
  | H : e_operationDone ?e = _ |- context [e_operationDone ?e] => rewrite H
  | H : e_stop ?e = _ |- context [e_stop ?e] => rewrite H; cbn
  | H : resolvedOnce ?r = _ |- context [resolvedOnce ?r] => rewrite H
  | H : resolved ?r = _ |- context [resolved ?r] => rewrite H
  | H : s_terminal ?s = _ |- context [s_terminal ?s] => rewrite H
  | H : s_controlDone ?s = _ |- context [s_controlDone ?s] => rewrite H
  | H : s_closeAttempt ?s = _ |- context [s_closeAttempt ?s] => rewrite H
  end; cbn; try done; try (repeat case_bool_decide; congruence).

Ltac chans_at i :=
  match goal with
  | Ht : tracks _ _ |- tracks _ _ =>
    eapply tracks_ext; [|refine (tracks_same _ _ _ eq_refl eq_refl Ht)];
    let p := fresh "p" in
    intros p; destruct p as [| | |?j|?j|?j|?j];
    try match goal with j : Z |- _ => lazymatch j with i => fail | _ =>
      match goal with |- context [j] => destruct (decide (j = i)) as [?E|?Hne]; [try subst j|] end end end;
    chan_eq
  end.

(** The conditions of [frame], and of [inv_frame] on snapshot tokens. *)
Ltac framed :=
  constructor; cbn; intros; rewrite ?lookup_insert_ne, ?lookup_delete_ne by congruence;
  rewrite ?lookup_insert_eq; try done; try (by left); try (by right); try congruence;
  try lazymatch goal with |- _ \/ _ => intuition congruence end.

Section moves.
Variables (c : config).
Hypothesis Hinv : inv c.

Lemma owned_exec i p : c_owner c !! i = Some p ->
  exists e, s_execs (c_s c) !! i = Some e /\ 1 <= i <= s_nextID (c_s c) /\ ok_at c i e
    /\ e_phase e ∈ pc_phases p /\ e_operationDone e <> None
    /\ e_phase e <> executionFinished /\ e_phase e <> executionPaused.
Proof.
  intros Ho. destruct (in_owner c Hinv i) as [e He]; [eauto|]. exists e. destruct (in_execs c Hinv i e He) as [Hid Hok].
  destruct (xo_owned _ _ _ _ _ _ _ _ Hok p Ho) as (Hp & ? & _).
  assert (e_phase e <> executionFinished /\ e_phase e <> executionPaused); [|tauto].
  split; intros E; rewrite E in Hp; destruct p; cbn in Hp; rewrite ?elem_of_cons, ?elem_of_nil in Hp; tauto || (decompose [or] Hp; done).
Qed.

(** The invariant after a move that touches one execution. *)
Lemma tokens_below i e n b : s_execs (c_s c) !! i = Some e -> s_tokens (c_s c) !! (i, n) = Some b -> n <= e_sequence e.
Proof. intros He Ht. destruct (in_tokens c Hinv _ _ Ht) as (x & Hx & Hn). cbn in *. by simplify_eq. Qed.
End moves.

(** Which phase a point of a goroutine stands for. *)
Ltac phases H :=
  cbn [pc_phases] in H; rewrite ?elem_of_cons, ?elem_of_nil in H.

(** The stop of the execution: the one it had, changed or not, or a new one. *)
Ltac stop_at :=
  let r := fresh "r" in let Hr := fresh "Hr" in
  intros r Hr; simplify_eq;
  try match goal with
  | K : forall r, e_stop ?e = Some r -> stop_ok _ _ _ _ r, L : e_stop ?e = Some _ |- _ => destruct (K _ L)
  end;
  constructor; cbn; try assumption; try done; try congruence; try lia; naive_solver congruence.

Ltac exec_at Hok :=
  repeat match goal with Ht : tracks _ _ |- _ => clear Ht end;
  unfold ok_at in *; cbn in *;
  let H := fresh in pose proof Hok as H; destruct H;
  constructor; cbn; rewrite ?lookup_insert_eq, ?lookup_delete_eq; cbn;
  try assumption; try done; try congruence; try lia;
  try (let K := fresh in intros K; match goal with L : _ <> Unlimited -> _ |- _ => specialize (L K); lia end);
  try (intros ? [= <-]; cbn; split_and!; try (cbn; set_solver); try congruence; naive_solver congruence);
  try stop_at;
  try naive_solver congruence.

(** Sections that check the execution first, and sections with channels. *)
Ltac with_tracks L i :=
  match goal with
  | Ht : tracks _ _ |- _ => eapply L; [refine (tracks_same _ _ _ eq_refl eq_refl Ht)|look|chan_eq|clear Ht; intros]
  end.
Ltac run1' :=
  lazymatch goal with
  | |- wp (executionErrorLocked _) _ _ => eapply wp_executionError; [look|intros ? ?|intros ? ? ? ?]
  | |- wp (boundaryStopLocked _) _ _ => eapply wp_boundaryStop; [look|intros ? [->| ->]]
  | |- wp admissionErrorLocked _ _ => apply wp_admission; [intros ?|intros ? ?]
  | |- wp (make_turn ?i) _ _ => with_tracks wp_make_turn i
  | |- wp (make_operation ?i) _ _ => with_tracks wp_make_operation i
  | |- wp (releaseTurnLocked ?i) _ _ => with_tracks wp_release_turn i
  | |- wp (releaseOperationLocked ?i) _ _ => with_tracks wp_release_operation i
  | |- _ => run1
  end; cbv beta iota; autorewrite with life_db.
Ltac exec := repeat run1'.

(** The state a section starts in. *)
Ltac at_owner c i Ho e :=
  let Hinv := match goal with H : inv c |- _ => H end in
  let Ht := fresh "Ht" in
  pose proof (in_chans c Hinv) as Ht;
  let He := fresh "He" in let Hok := fresh "Hok" in let Hph := fresh "Hph" in
  destruct (owned_exec c Hinv i _ Ho) as (e & He & ? & Hok & Hph & ? & ? & ?); phases Hph; cbn.

(** The execution as one record: nested updates would be copied. *)
Ltac flatten i :=
  try match goal with
  | |- context [upd i ?E ?S] =>
    let E1 := eval hnf in E in let E2 := eval cbn in E1 in change (upd i E S) with (upd i E2 S)
  end.

Ltac settled c i e :=
  flatten i;
  match goal with
  | Hinv : inv c, He : s_execs (c_s c) !! i = Some e, Hok : ok_at c i e |- inv _ =>
    cbn; eapply (inv_frame c _ i e _ Hinv);
    [framed|exact He|cbn; first [apply lookup_insert_eq|exact He]|cbn; intros ? ?; by eapply tokens_below|chans_at i|exec_at Hok]
  end.

Lemma keep_return c i : inv c -> c_owner c !! i = Some PCallback -> keeps c (Move (endCallback_leave i) (fun _ => goes i PHost)).
Proof. intros Hinv Ho. at_owner c i Ho e. unfold endCallback_leave. exec. settled c i e. Qed.

Lemma keep_receive c i p : inv c -> c_owner c !! i = Some p -> keeps c (Move (receivedTurn i) (fun _ => goes i (received p))).
Proof. intros Hinv Ho. destruct p; at_owner c i Ho e; unfold receivedTurn; exec; settled c i e. Qed.

Lemma keep_call c i : inv c -> c_owner c !! i = Some PHost ->
  keeps c (Move (beginCallback_enter i) (or_else i PCallback PStopping)).
Proof. intros Hinv Ho. at_owner c i Ho e. unfold beginCallback_enter. exec. all: settled c i e. Qed.

Lemma keep_cancelled c i : inv c -> c_owner c !! i = Some PHost ->
  keeps c (Move (stopAtBoundary_cancelled i) (or_else i PHost PStopping)).
Proof. intros Hinv Ho. at_owner c i Ho e. unfold stopAtBoundary_cancelled. exec. all: settled c i e. Qed.

Lemma keep_boundary c i : inv c -> c_owner c !! i = Some PHost ->
  keeps c (Move (stopAtBoundary_check i) (or_else i PHost PStopping)).
Proof. intros Hinv Ho. at_owner c i Ho e. unfold stopAtBoundary_check. exec. all: settled c i e. Qed.

Lemma size_forget (m : gmap Z Z) ids : (size (foldr delete m ids) <= size m)%nat.
Proof.
  induction ids as [|id ids IH]; cbn; [lia|]. etransitivity; [|exact IH].
  apply map_size_delete_le || (rewrite map_size_delete; destruct (_ !! id); cbn; lia).
Qed.

Lemma keep_forget c i ids p : inv c -> c_owner c !! i = Some p -> p = PHost \/ p = PTurn ->
  keeps c (Move (forget_futures i ids) stays).
Proof. intros Hinv Ho [->| ->]; at_owner c i Ho e; unfold forget_futures; exec;
    pose proof (size_forget (e_pending e) ids); settled c i e. Qed.

Lemma keep_future c i id f : inv c -> c_owner c !! i = Some PHost -> keeps c (Move (addFuture i id f) stays).
Proof.
  intros Hinv Ho. at_owner c i Ho e. unfold addFuture. exec; [settled c i e|].
  destruct f as [f|]; [|exec; settled c i e].
  destruct (e_pending e !! id) eqn:Hid; cbn; [exec; settled c i e|].
  destruct (_ && _) eqn:Hlim; exec; [settled c i e|].
  assert (pendingFutures (s_limits (c_s c)) <> Unlimited ->
    Z.of_nat (size (<[id := f]> (e_pending e))) <= pendingFutures (s_limits (c_s c))) as Hsize.
  { intros Hu. rewrite map_size_insert_None by done. apply andb_false_iff in Hlim.
    destruct Hlim as [Hl|Hl]; [apply negb_false_iff in Hl; lia|lia]. }
  settled c i e.
Qed.

Lemma not_deliver c i e err : inv c -> ok_at c i e ->
  s_terminal (c_s c) = Some err \/ e_terminalCause e = Some err \/ err = Sentinel ErrSnapshotStale ->
  err <> Sentinel errDeliverStop.
Proof.
  intros Hinv Hok H ->. pose proof (in_private c Hinv) as Hp. destruct H as [H|[H|H]]; [done| |done].
  apply Hp. rewrite <- H. symmetry. apply (xo_cause _ _ _ _ _ _ _ _ Hok). congruence.
Qed.

(** Where a goroutine goes with the error of [beforeResume]. *)
Definition resume_failed (err : merror) : pc :=
  match err with Sentinel errDeliverStop => PDeliver | _ => PStopping err end.

Lemma resume_failed_stops err : err <> Sentinel errDeliverStop -> resume_failed err = PStopping err.
Proof. destruct err as [| | | | | | | | | | | | | | |[]| | | | | |]; done. Qed.

Lemma keep_resume c i : inv c -> c_owner c !! i = Some PHost ->
  keeps c (Move (beforeResume_enter i) (or_else i PTurn
      (fun err => match err with Sentinel errDeliverStop => PDeliver | _ => PStopping err end))).
Proof.
  intros Hinv Ho. at_owner c i Ho e. unfold beforeResume_enter. exec.
  - change (inv (goes i (resume_failed err) (set_s (c_s c) c))).
    rewrite resume_failed_stops by by eapply not_deliver. settled c i e.
  - unfold stop_requested. destruct (e_stop e) as [r|] eqn:Hr; [destruct (requested r && negb (e_delivered e))|];
      settled c i e.
  - settled c i e.
Qed.

(** ** Stops before the start *)

Lemma wp_enter_running i e r (Q : () -> session -> list act -> Prop) s :
  s_execs s !! i = Some e -> e_stop e = Some r -> e_phase e <> executionPaused ->
  (requested r = true -> Q () s []) ->
  (requested r = false -> Q () (upd i (e_set_stop (Some (set_requested r)) e) s) [GoCancel (e_callbackCtx e)]) ->
  wp (enterRequestLocked i) Q s.
Proof.
  intros He Hr Hp H1 H2. unfold enterRequestLocked. run. rewrite Hr. destruct (requested r) eqn:E; [run; by apply H1|].
  unfold in_phase. rewrite bool_decide_eq_false_2 by done. run. by apply H2.
Qed.

(** The outcomes of [stopBeforeStartLocked] for an execution that is not
    paused: no stop, or one that is requested and marked. *)
Lemma wp_stopBeforeStart f i e (Q : option merror -> session -> list act -> Prop) s :
  limits_ok (s_limits s) -> tracks f s -> s_execs s !! i = Some e -> e_phase e <> executionPaused ->
  (e_stop e = None -> f (ForStop i) = None) ->
  (forall r, e_stop e = Some r -> Reason (policy r) <> None) ->
  ((forall r, e_stop e = Some r -> requested r = false) -> Q None s []) ->
  (forall r err, e_stop e = Some r -> requested r = true -> Q (Some err) (upd i (e_set_beforeStart true e) s) []) ->
  (forall ch m n r err, e_stop e = None -> tracks (fset (ForStop i) (Some ch) f) (s_set_chans m n s) ->
     resolved r = ch -> requested r = true -> resolvedOnce r = false -> forceClaimed r = false ->
     Reason (policy r) <> None -> requestAt r <= killAt r ->
     Q (Some err) (upd i (e_set_beforeStart true (e_set_stop (Some r) e)) (s_set_chans m n s)) [GoCancel (e_callbackCtx e); GoWatch i]) ->
  wp (stopBeforeStartLocked i) Q s.
Proof.
  intros (Hl & Hd & _) Ht He Hp Hf Hr HQ1 HQ2 HQ3. unfold stopBeforeStartLocked. run.
  destruct (e_stop e) as [r|] eqn:Hs; cbn.
  - run. rewrite Hs. destruct (requested r) eqn:Hq; run.
    + unfold reason_of. destruct (Reason (policy r)) eqn:HR; [|by destruct (Hr r)]. run. by eapply HQ2.
    + apply HQ1. naive_solver.
  - destruct (s_ended s !! e_stepCtx e); cbn; [|run; rewrite Hs; run; by apply HQ1].
    run. eapply wp_make; [done|by apply Hf|]. intros ch m n Ht'. run. cbn.
    eapply wp_enter_running; [look|done|done|done|]. intros _. run. cbn. unfold reason_of. cbn.
    destruct (Reason (lim_stop (s_limits s))) eqn:HR; [|done]. run. cbn.
    eapply HQ3; cbn; [done|exact Ht'|done..| |]; [congruence|lia].
Qed.

Lemma keep_begin c i : inv c -> c_owner c !! i = Some PStart ->
  keeps c (Move (beginExecution i) (or_else i PPrep (fun _ => PFinish))).
Proof.
  intros Hinv Ho. at_owner c i Ho e. unfold beginExecution. exec; [settled c i e|].
  eapply wp_stopBeforeStart; [apply Hinv|exact Ht|exact He|done|intros; chan_eq| | | |].
  - intros r Hr. apply (xo_stop _ _ _ _ _ _ _ _ Hok r Hr).
  - intros Hn. exec. settled c i e.
  - intros r err Hr Hq. settled c i e.
  - intros. clear Ht. settled c i e.
Qed.

Lemma keep_send c i : inv c -> c_owner c !! i = Some PPrep ->
  keeps c (Move (beginSend i) (or_else i PTurn (fun _ => PFinish))).
Proof.
  intros Hinv Ho. at_owner c i Ho e. unfold beginSend. exec; [settled c i e|].
  assert (e_turnDone e = None) as Hturn by (apply (xo_owned _ _ _ _ _ _ _ _ Hok _ Ho); by right).
  eapply wp_stopBeforeStart; [apply Hinv|exact Ht|exact He|done|intros; chan_eq| | | |].
  - intros r Hr. apply (xo_stop _ _ _ _ _ _ _ _ Hok r Hr).
  - intros Hn. exec. settled c i e.
  - intros r err Hr Hq. settled c i e.
  - intros. clear Ht. settled c i e.
Qed.

Lemma keep_deliver c i : inv c -> c_owner c !! i = Some PDeliver ->
  keeps c (Move (deliverStop i) (fun _ => goes i PTurn)).
Proof.
  intros Hinv Ho. at_owner c i Ho e. unfold deliverStop. exec.
  destruct (xo_owned _ _ _ _ _ _ _ _ Hok _ Ho) as (_ & _ & _ & Hs). specialize (Hs eq_refl).
  destruct (e_stop e) as [r|] eqn:Hr; [|done]. exec. unfold reason_of.
  pose proof (so_reason _ _ _ _ _ (xo_stop _ _ _ _ _ _ _ _ Hok r Hr)). destruct (Reason (policy r)) as [reason|]; [|done].
  exec. destruct (ExceptionParts reason). exec. settled c i e.
Qed.

Lemma keep_decide c i err : inv c -> c_owner c !! i = Some (PStopping err) ->
  keeps c (Move (abortOrTerminal err) (fun r => goes i (match r with Some _ => PFinish | None => PAbort end))).
Proof.
  intros Hinv Ho. at_owner c i Ho e. unfold abortOrTerminal. exec.
  destruct (s_terminal (c_s c)) eqn:Hterm; [|destruct (Is err _)]; settled c i e.
Qed.

Lemma keep_abort c i : inv c -> c_owner c !! i = Some PAbort ->
  keeps c (Move (abortExecution_begin i) (or_else i PAbortTurn (fun _ => PFinish))).
Proof.
  intros Hinv Ho. at_owner c i Ho e. unfold abortExecution_begin. exec; [settled c i e|].
  destruct (e_stop e) as [r|] eqn:Hr; exec; settled c i e.
Qed.

Lemma keep_aborted c i : inv c -> c_owner c !! i = Some PAbortEnd ->
  keeps c (Move (abortExecution_aborted i) (fun _ => goes i PFinish)).
Proof. intros Hinv Ho. at_owner c i Ho e. unfold abortExecution_aborted. exec. settled c i e. Qed.

Lemma keep_abort_terminal c i : inv c -> c_owner c !! i = Some PAbortEnd ->
  keeps c (Move (mret ()) (fun _ => goes i PFinish)).
Proof. intros Hinv Ho. at_owner c i Ho e. exec. settled c i e. Qed.

Lemma keep_finish c i p : inv c -> c_owner c !! i = Some p -> may_fail p = true ->
  keeps c (Move (finishExecution_cancel i) (fun _ => goes i PSettle)).
Proof.
  intros Hinv Ho Hp. destruct p; try done; at_owner c i Ho e; unfold finishExecution_cancel; exec; settled c i e.
Qed.

(** ** Snapshots *)

Lemma keep_pause c i : inv c -> c_owner c !! i = Some PHost ->
  keeps c (Move (publishPause i) (fun r => match r with inr _ => leaves i | inl err => goes i (PStopping err) end)).
Proof.
  intros Hinv Ho. at_owner c i Ho e. unfold publishPause. exec; [settled c i e|].
  destruct (stop_requested e) eqn:Hq; exec; [settled c i e|].
  destruct (Z.eqb_spec (e_sequence e) MaxUint64) as [|Hseq]; exec; [settled c i e|].
  unfold stop_requested in Hq. pose proof (xo_sequence _ _ _ _ _ _ _ _ Hok).
  cbn. eapply (inv_frame c _ i e _ Hinv);
    [framed; apply lookup_insert_ne; intros <-; done|exact He|cbn; apply lookup_insert_eq| |chans_at i|].
  - cbn. intros k b. rewrite lookup_insert. case_decide; simplify_eq; [lia|].
    intros Hk. pose proof (tokens_below c Hinv i e k b He Hk). lia.
  - destruct (e_stop e) as [r|] eqn:Hr; exec_at Hok.
Qed.
