(* ===== verification/SessionStops.v ===== *)
(** More moves that keep the invariant: resuming a snapshot, finishing an
    execution, ending the session, and everything a stop does. *)

From S2P Require Import Prelude Utf8 GoStrings Exceptions PoolErrors Monterr Stop SessionLife SessionSteps SessionInv SessionMoves.

Lemma paused_free lim term cur own w f tok e :
  exec_ok lim term cur own w f tok e -> e_phase e = executionPaused \/ e_phase e = executionFinished -> own = None.
Proof.
  intros Hok Hp. destruct own as [p|]; [|done]. exfalso.
  destruct (xo_owned _ _ _ _ _ _ _ _ Hok p eq_refl) as (Hin & _).
  destruct Hp as [E|E]; rewrite E in Hin; destruct p; cbn in Hin; rewrite ?elem_of_cons, ?elem_of_nil in Hin;
    tauto || (decompose [or] Hin; done).
Qed.

Lemma wp_snapshotError t e (Q : option merror -> session -> list act -> Prop) s :
  is_Some (s_tokens s !! t) -> s_execs s !! t.1 = Some e ->
  (forall err, Q (Some err) s []) ->
  (s_tokens s !! t = Some false -> s_terminal s = None -> e_terminalCause e = None -> s_current s = Some t.1 ->
   t.2 = e_sequence e -> e_phase e = executionPaused -> s_closeAttempt s = None -> Q None s []) ->
  wp (snapshotErrorLocked t) Q s.
Proof.
  intros [used Hu] He Hbad Hok. unfold snapshotErrorLocked. run. rewrite Hu.
  destruct used; run; [apply Hbad|]. destruct (e_terminalCause e) eqn:Hc; run; [apply Hbad|].
  unfold in_phase. case_bool_decide; run; [apply Hbad|]. destruct (s_terminal s) eqn:Ht; run; [apply Hbad|].
  case_bool_decide as Hcur; cbn; [|run; apply Hbad]. destruct (Z.eqb_spec t.2 (e_sequence e)); cbn; [|run; apply Hbad].
  case_bool_decide; cbn; [|run; apply Hbad]. apply wp_admission; [apply Hbad|]. intros. by apply Hok.
Qed.

Lemma keep_claim c x t : inv c -> is_Some (s_tokens (c_s c) !! t) ->
  keeps c (Move (claimSnapshot x t) (fun r c => match r with inr _ => goes t.1 PHost c | inl _ => c end)).
Proof.
  intros Hinv Htok. pose proof Htok as [b Hb]. destruct (in_tokens c Hinv t b Hb) as (e & He & Hseq). clear Hb.
  pose proof (proj2 (in_execs c Hinv _ _ He)) as Hok. pose proof (in_chans c Hinv) as Ht.
  destruct t as [i n]. cbn in *. unfold claimSnapshot. exec. destruct (option_map Sentinel _); [settled c i e|].
  apply wp_check. eapply wp_snapshotError; [done|done|intros err; settled c i e|]. cbn. intros Hu Hterm Hcause Hcur -> Hp Hca.
  pose proof (paused_free _ _ _ _ _ _ _ _ Hok (or_introl Hp)) as Hown.
  destruct (xo_free _ _ _ _ _ _ _ _ Hok Hown) as (_ & Hturn & Hop). unfold installStepLocked. exec.
  cbn. eapply (inv_frame c _ i e _ Hinv);
    [framed; apply lookup_insert_ne; intros <-; done|exact He|cbn; apply lookup_insert_eq| |chans_at i|exec_at Hok].
  cbn. intros k b'. rewrite lookup_insert. case_decide; simplify_eq; [lia|]. intros Hk. by eapply tokens_below.
Qed.

(** ** Finishing *)

Lemma wp_resolveStop f i e k (Q : () -> session -> list act -> Prop) s :
  tracks f s -> s_execs s !! i = Some e ->
  (forall r, e_stop e = Some r -> resolvedOnce r = false -> f (ForStop i) = Some (resolved r)) ->
  ((forall r, e_stop e = Some r -> resolvedOnce r = true) -> Q () s []) ->
  (forall r m n, e_stop e = Some r -> resolvedOnce r = false -> tracks (fset (ForStop i) None f) (s_set_chans m n s) ->
     Q () (upd i (e_set_stop (Some (set_resolved k r)) e) (s_set_chans m n s)) []) ->
  wp (resolveStopLocked i k) Q s.
Proof.
  intros Ht He Hf H1 H2. unfold resolveStopLocked. run. destruct (e_stop e) as [r|] eqn:Hr; [|run; by apply H1].
  destruct (resolvedOnce r) eqn:Ho; run; [apply H1; naive_solver|].
  eapply wp_close; [refine (tracks_same _ _ _ eq_refl eq_refl Ht)|by apply Hf|]. intros m n Ht'. by apply H2.
Qed.

Lemma owned_current c i e : inv c -> s_execs (c_s c) !! i = Some e -> e_phase e <> executionFinished ->
  s_current (c_s c) = Some i.
Proof.
  intros Hinv He Hnf. pose proof (proj2 (in_execs c Hinv i e He)) as Hok.
  apply (xo_current _ _ _ _ _ _ _ _ Hok) in Hnf. by apply bool_decide_eq_true in Hnf.
Qed.

Lemma keep_settle_again c i e v err : inv c -> s_execs (c_s c) !! i = Some e -> e_phase e = executionFinished ->
  keeps c (Move (finishExecution_settle i v err) stays).
Proof.
  intros Hinv He Hp. pose proof (proj2 (in_execs c Hinv i e He)) as Hok. pose proof (in_chans c Hinv) as Ht. cbn.
  unfold finishExecution_settle. run. unfold in_phase. rewrite bool_decide_eq_true_2 by done. run. settled c i e.
Qed.

(** The end of [finishExecution_settle]: the execution is finished and not
    current, its stop is settled, and only [done] is still open. *)
Ltac finished c i e :=
  exec; match goal with
  | Ht : tracks _ _ |- wp (close_chan _) _ _ => eapply (wp_close _ (ForDone i)); [refine (tracks_same _ _ _ eq_refl eq_refl Ht)|chan_eq|clear Ht; intros ? ? ?]
  end;
  lazymatch goal with
  | |- wp _ _ ?s =>
    let Hg := fresh in
    assert (inv (leaves i (set_s s c))) as Hg; [settled c i e|destruct (e_observer e); exec; cbn [app foldl absorb1]; exact Hg]
  end.

Lemma no_pending c : inv c -> pendingFutures (s_limits (c_s c)) <> Unlimited ->
  Z.of_nat (size (∅ : gmap Z Z)) <= pendingFutures (s_limits (c_s c)).
Proof. intros Hinv _. rewrite map_size_empty. apply Hinv. Qed.

Lemma keep_settle c i v err : inv c -> c_owner c !! i = Some PSettle ->
  keeps c (Move (finishExecution_settle i v err) (fun _ => leaves i)).
Proof.
  intros Hinv Ho. at_owner c i Ho e. clear Hph. pose proof (owned_current c i e Hinv He ltac:(done)) as Hcur.
  pose proof (no_pending c Hinv). unfold finishExecution_settle. run. unfold in_phase. rewrite bool_decide_eq_false_2 by done.
  pose proof (xo_cause _ _ _ _ _ _ _ _ Hok) as Hcause.
  destruct (match e_terminalCause e with Some c => (None, Some c) | None => (v, err) end) as [v' err'] eqn:Hres.
  exec. cbn. rewrite bool_decide_eq_true_2 by done. exec.
  assert (e_terminalCause e <> None -> err' = e_terminalCause e) as Herr by (destruct (e_terminalCause e); naive_solver).
  destruct (e_stop e) as [r|] eqn:Hr; [|finished c i e].
  destruct (resolvedOnce r) eqn:Hro; cbn; [finished c i e|].
  destruct (forceClaimed r) eqn:Hfc; cbn; [finished c i e|].
  match goal with Ht : tracks _ _ |- _ => eapply wp_resolveStop; [refine (tracks_same _ _ _ eq_refl eq_refl Ht)|look|intros; simplify_eq/=; chan_eq| |] end.
  - cbn. intros Hall. specialize (Hall r Hr). congruence.
  - intros r' m' n' Hr' Hro' Ht'. cbn in Hr'. assert (r' = r) as -> by congruence. finished c i e.
Qed.

(** ** The end of the session *)

(** A move that touches no execution. *)
Lemma inv_session c c' : inv c ->
  s_execs (c_s c') = s_execs (c_s c) -> s_tokens (c_s c') = s_tokens (c_s c) -> s_limits (c_s c') = s_limits (c_s c) ->
  s_nextID (c_s c') = s_nextID (c_s c) -> s_current (c_s c') = s_current (c_s c) ->
  c_owner c' = c_owner c -> c_watch c' = c_watch c -> c_forcing c' = c_forcing c ->
  s_terminal (c_s c') = s_terminal (c_s c) \/ (s_terminal (c_s c) = None /\ s_current (c_s c) = None) ->
  s_terminal (c_s c') <> Some (Sentinel errDeliverStop) ->
  tracks (chan_of (c_s c')) (c_s c') ->
  match s_controlDone (c_s c') with
  | None => c_ctl c' = [] | Some _ => s_current (c_s c) = None /\ exists h, c_ctl c' = [h]
  end ->
  (forall a, s_closeAttempt (c_s c') = Some a <-> is_Some (c_closers c' !! a)) ->
  (forall a e, c_closers c' !! a = Some (CFinishing e) ->
    match e with None => Some a ∈ c_ctl c' | Some i => c_owner c !! i = Some PClosing end) ->
  (forall a, Some a ∈ c_ctl c' -> c_closers c' !! a = Some (CFinishing None)) ->
  inv c'.
Proof.
  intros Hinv Ex Et El En Ec Eo Ew Ef Hterm Hpriv Ht Hctl Hat Hfin Hhold. destruct Hinv.
  constructor; rewrite ?Ex, ?Et, ?El, ?En, ?Ec, ?Eo, ?Ew, ?Ef; try done.
  intros i e He. destruct (in_execs i e He) as [Hid Hok]. split; [done|].
  unfold ok_at in *. rewrite El, Et, Ec, Eo, Ew, Ef. destruct Hterm as [->|[Hn Hc]]; [done|].
  assert (bool_decide (s_current (c_s c) = Some i) = false) as Hcur by (apply bool_decide_eq_false_2; congruence).
  rewrite Hcur in *. apply (exec_ok_aside _ (s_terminal (c_s c))); [by right|done].
Qed.

(** The state [terminateSession] goes on with: a terminal cause that was set
    now or before. *)
Lemma wp_set_terminal c err (Q : merror -> session -> list act -> Prop) : inv c -> err <> Sentinel errDeliverStop ->
  (forall t m n, t <> Sentinel errDeliverStop -> (s_terminal (c_s c) = None /\ t = err) \/ s_terminal (c_s c) = Some t ->
     tracks (fset ForSession None (chan_of (c_s c))) (s_set_chans m n (s_set_terminal (Some t) (c_s c))) ->
     Q t (s_set_chans m n (s_set_terminal (Some t) (c_s c))) []) ->
  wp (match s_terminal (c_s c) with
      | None => _ ← modify (s_set_terminal (Some err)); _ ← close_chan (s_done (c_s c)); mret err
      | Some err => mret err
      end) Q (c_s c).
Proof.
  intros Hinv Herr HQ. pose proof (in_chans c Hinv) as Ht. destruct (s_terminal (c_s c)) as [t|] eqn:Hterm.
  - exec. assert (s_set_chans (s_chans (c_s c)) (s_nextChan (c_s c)) (s_set_terminal (Some t) (c_s c)) = c_s c) as E
      by (destruct (c_s c); cbn in *; by subst).
    specialize (HQ t (s_chans (c_s c)) (s_nextChan (c_s c))). rewrite E in HQ. apply HQ; [|by right|].
    + intros ->. by destruct (in_private c Hinv).
    + eapply tracks_ext; [|exact Ht]. intros p. unfold fset. case_decide; [subst; cbn; by rewrite Hterm|done].
  - exec. eapply (wp_close _ ForSession); [refine (tracks_same _ _ _ eq_refl eq_refl Ht)|cbn; by rewrite Hterm|].
    intros m n Ht'. exec. apply HQ; [done|by left|done].
Qed.

Lemma keep_terminate c err : inv c -> err <> Sentinel errDeliverStop -> keeps c (Move (terminateSession err) stays).
Proof.
  intros Hinv Herr. cbn. unfold terminateSession. exec. apply wp_set_terminal; [done..|].
  intros t m n Hpriv Hterm Ht. pose proof (no_pending c Hinv) as Hnp.
  destruct (s_current (c_s c)) as [i|] eqn:Hcur.
  - destruct (in_current c Hinv i Hcur) as [e He]. pose proof (proj2 (in_execs c Hinv i e He)) as Hok.
    assert (e_phase e <> executionFinished) as Hnf
      by (apply (xo_current _ _ _ _ _ _ _ _ Hok); by apply bool_decide_eq_true_2).
    exec. unfold in_phase. cbn. case_bool_decide as Hp.
    + pose proof (paused_free _ _ _ _ _ _ _ _ Hok (or_introl Hp)) as Hown.
      destruct (xo_free _ _ _ _ _ _ _ _ Hok Hown) as (_ & Hturn & Hop).
      exec. settled c i e.
    + exec. settled c i e.
  - exec. cbn. destruct Hinv. eapply (inv_session c); try done; cbn; [intuition congruence|congruence|].
    eapply tracks_ext; [|refine (tracks_same _ _ _ eq_refl eq_refl Ht)].
    intros p. destruct p; chan_eq.
Qed.

(** ** Stops *)

(** [enterRequestLocked] in any phase: the mark alone, or the mark and the
    abort of a paused execution. *)
Lemma wp_enter f i e r (Q : () -> session -> list act -> Prop) s :
  tracks f s -> s_execs s !! i = Some e -> e_stop e = Some r ->
  (e_phase e = executionPaused -> f (ForOperation i) = None) ->
  (requested r = true -> Q () s []) ->
  (requested r = false -> e_phase e <> executionPaused ->
   Q () (upd i (e_set_stop (Some (set_requested r)) e) s) [GoCancel (e_callbackCtx e)]) ->
  (forall ch m n, requested r = false -> e_phase e = executionPaused ->
   tracks (fset (ForOperation i) (Some ch) f) (s_set_chans m n s) ->
   Q () (upd i (e_set_operationDone (Some ch) (e_set_phase executionAborting (e_set_stop (Some (set_requested r)) e)))
          (s_set_chans m n s)) [GoCancel (e_callbackCtx e); GoAbortPaused i]) ->
  wp (enterRequestLocked i) Q s.
Proof.
  intros Ht He Hr Hf H1 H2 H3. destruct (decide (e_phase e = executionPaused)) as [Hp|Hp]; [|by eapply wp_enter_running; eauto].
  unfold enterRequestLocked. run. rewrite Hr. destruct (requested r) eqn:Hq; [run; by apply H1|].
  unfold in_phase. rewrite bool_decide_eq_true_2 by done. run.
  eapply wp_make_operation; [refine (tracks_same _ _ _ eq_refl eq_refl Ht)|look|by apply Hf|]. intros ch m n Ht'.
  autorewrite with life_db. run. by apply H3.
Qed.

(** What the proofs about a stop know of its execution. *)
Lemma any_exec c i : inv c -> is_Some (s_execs (c_s c) !! i) ->
  exists e, s_execs (c_s c) !! i = Some e /\ ok_at c i e
    /\ (e_phase e = executionPaused -> e_operationDone e = None /\ e_turnDone e = None /\ c_owner c !! i = None).
Proof.
  intros Hinv [e He]. exists e. split; [done|]. destruct (in_execs c Hinv i e He) as [_ Hok]. split; [done|].
  intros Hp. pose proof (paused_free _ _ _ _ _ _ _ _ Hok (or_introl Hp)) as Hown.
  destruct (xo_free _ _ _ _ _ _ _ _ Hok Hown). tauto.
Qed.

Ltac at_any c i He0 e :=
  let Hinv := match goal with H : inv c |- _ => H end in
  let Ht := fresh "Ht" in
  pose proof (in_chans c Hinv) as Ht;
  let He := fresh "He" in let Hok := fresh "Hok" in
  destruct (any_exec c i Hinv He0) as (e & He & Hok & ?Hpaused); cbn.

Lemma keep_hook c i n : inv c -> is_Some (s_execs (c_s c) !! i) -> keeps c (Move (requestStopForStep_stale i n) stays).
Proof. intros Hinv Hi. at_any c i Hi e. unfold requestStopForStep_stale. exec. settled c i e. Qed.

Lemma watched_exec c i : inv c -> c_watch c !! i = Some () -> is_Some (s_execs (c_s c) !! i).
Proof. intros Hinv Hw. apply (in_watch c Hinv). eauto. Qed.

Lemma keep_watch c i : inv c -> c_watch c !! i = Some () -> keeps c (Move (watchStop_next i) stays).
Proof.
  intros Hinv Hw. at_any c i (watched_exec c i Hinv Hw) e. unfold watchStop_next. exec.
  pose proof (xo_watch _ _ _ _ _ _ _ _ Hok ltac:(congruence)). destruct (e_stop e) as [r|] eqn:Hr; [|done]. exec. settled c i e.
Qed.

Lemma keep_wake c i : inv c -> c_watch c !! i = Some () -> keeps c (Move (watchStop_wake i) stays).
Proof.
  intros Hinv Hw. at_any c i (watched_exec c i Hinv Hw) e. unfold watchStop_wake. exec.
  destruct (e_stop e) as [r|] eqn:Hr; cbn; settled c i e.
Qed.

Lemma keep_timer c i : inv c -> c_watch c !! i = Some () -> keeps c (Move (watchStop_timer i) stays).
Proof.
  intros Hinv Hw. at_any c i (watched_exec c i Hinv Hw) e. unfold watchStop_timer. exec.
  pose proof (xo_watch _ _ _ _ _ _ _ _ Hok ltac:(congruence)). destruct (e_stop e) as [r|] eqn:Hr; [|done].
  destruct (requested r) eqn:Hq; cbn; [exec; settled c i e|].
  unfold in_phase. case_bool_decide; cbn; exec; [settled c i e|].
  eapply wp_enter; [exact Ht|exact He|exact Hr|intros Hp; destruct (Hpaused Hp); chan_eq|congruence| |].
  - intros _ Hp. exec. settled c i e.
  - intros ch m n _ Hp Ht'. clear Ht. destruct (Hpaused Hp) as (? & ? & ?). exec. settled c i e.
Qed.

Lemma keep_stop c i p : inv c -> is_Some (s_execs (c_s c) !! i) -> keeps c (Move (requestStop i p) stays).
Proof.
  intros Hinv Hi. at_any c i Hi e. unfold requestStop. exec. unfold in_phase.
  destruct (in_limits c Hinv) as (Hreason & _ & _).
  assert (Reason (over p (lim_stop (s_limits (c_s c)))) <> None) as HR by (cbn; by destruct (Reason p)).
  destruct (e_stop e) as [r|] eqn:Hr.
  - destruct (resolvedOnce r) eqn:Hro; [exec; settled c i e|]. case_bool_decide as Hf; [exec; settled c i e|].
    pose proof (shorten_only r (over p (lim_stop (s_limits (c_s c)))) (s_now (c_s c))) as (? & ? & Hord & Hpol & Hreq & Hres & Hkind & Honce & Hclaim).
    set (r' := shorten _ _ _) in *. clearbody r'. exec.
    destruct (negb _); [|exec; settled c i e].
    eapply wp_enter; [refine (tracks_same _ _ _ eq_refl eq_refl Ht)|look|reflexivity|cbn; intros Hp; destruct (Hpaused Hp); chan_eq| | |].
    + intros ?. exec. settled c i e.
    + cbn. intros ? Hp. exec. settled c i e.
    + cbn. intros ch m n ? Hp Ht'. clear Ht. destruct (Hpaused Hp) as (? & ? & ?). exec. settled c i e.
  - case_bool_decide as Hf; cbn; [exec; settled c i e|]. case_bool_decide as Hcur; cbn; [|exec; settled c i e].
    destruct (e_terminalCause e) eqn:Hcause; [exec; settled c i e|]. exec.
    eapply wp_make; [exact Ht|chan_eq|]. clear Ht. intros ch m n Ht. exec.
    assert (requestAt (newStopRequest ch (over p (lim_stop (s_limits (c_s c)))) (s_now (c_s c)))
      <= killAt (newStopRequest ch (over p (lim_stop (s_limits (c_s c)))) (s_now (c_s c)))) by (cbn; lia).
    destruct (negb _); [|exec; settled c i e].
    eapply wp_enter; [refine (tracks_same _ _ _ eq_refl eq_refl Ht)|look|reflexivity|cbn; intros Hp; destruct (Hpaused Hp); chan_eq|done| |].
    + cbn. intros _ Hp. exec. settled c i e.
    + cbn. intros ch' m' n' _ Hp Ht'. clear Ht. destruct (Hpaused Hp) as (? & ? & ?). exec. settled c i e.
Qed.
