(* ===== verification/SessionClosing.v ===== *)
(** The remaining moves: killing, admission, control operations and closing;
    then the invariant of every reachable configuration. *)

From S2P Require Import Prelude Utf8 GoStrings Exceptions PoolErrors Monterr Stop SessionLife SessionSteps SessionInv SessionMoves SessionStops.

(** ** Killing *)

Lemma keep_killed c i : inv c -> c_forcing c !! i = Some () ->
  keeps c (Move (forceExecution_resolve i) (fun _ c => set_forcing (delete i (c_forcing c)) c)).
Proof.
  intros Hinv Hf. at_any c i (in_forcing c Hinv i ltac:(eauto)) e. unfold forceExecution_resolve.
  eapply wp_resolveStop; [exact Ht|exact He|intros; chan_eq| |].
  - intros Hall. cbn. settled c i e.
  - intros r m n Hr Hro Ht'. clear Ht. settled c i e.
Qed.

Lemma keep_abort_lost c i : inv c -> c_owner c !! i = Some PAbortEnd -> s_terminal (c_s c) <> None ->
  keeps c (Move (abortExecution_resolve i) (fun _ => goes i PFinish)).
Proof.
  intros Hinv Ho Hterm. at_owner c i Ho e. unfold abortExecution_resolve.
  eapply wp_resolveStop; [exact Ht|exact He|intros; chan_eq| |].
  - intros Hall. settled c i e.
  - intros r m n Hr Hro Ht'. clear Ht. settled c i e.
Qed.

Lemma keep_force c i e : inv c -> s_execs (c_s c) !! i = Some e ->
  stop_requested e = true \/ (c_owner c !! i = Some PAbortEnd /\ e_stop e <> None) ->
  keeps c (Move (forceExecution_claim i)
      (fun r c => match r with Claimed _ => set_forcing (<[i := ()]> (c_forcing c)) c | _ => c end)).
Proof.
  intros Hinv He Hstop. pose proof (proj2 (in_execs c Hinv i e He)) as Hok. pose proof (in_chans c Hinv) as Ht. cbn.
  assert (e_phase e <> executionPaused) as Hnp.
  { intros Hp. destruct Hstop as [Hq|[Ho _]].
    - unfold stop_requested in Hq. destruct (e_stop e) as [r|] eqn:Hr; [|done].
      rewrite (so_pause _ _ _ _ _ (xo_stop _ _ _ _ _ _ _ _ Hok r Hr) Hp) in Hq. done.
    - rewrite (paused_free _ _ _ _ _ _ _ _ Hok (or_introl Hp)) in Ho. done. }
  unfold forceExecution_claim. exec. destruct (e_stop e) as [r|] eqn:Hr;
    [|unfold stop_requested in Hstop; rewrite Hr in Hstop; naive_solver].
  clear Hstop. destruct (resolvedOnce r) eqn:Hro; cbn; [exec; settled c i e|].
  destruct (forceClaimed r) eqn:Hfc; cbn; [exec; settled c i e|].
  destruct (negb (bool_decide _) || _ || _) eqn:Hdead.
  - exec. eapply wp_resolveStop; [exact Ht|exact He|intros; simplify_eq/=; chan_eq| |].
    + intros Hall. specialize (Hall r Hr). congruence.
    + intros r' m n Hr' Hro' Ht'. clear Ht. exec. settled c i e.
  - apply orb_false_iff in Hdead as [[Hcur Hnf]%orb_false_iff Hterm].
    apply negb_false_iff, bool_decide_eq_true in Hcur. unfold in_phase in Hnf. apply bool_decide_eq_false in Hnf.
    destruct (s_terminal (c_s c)) eqn:Hterm'; [done|].
    destruct (s_now (c_s c) <? killAt r); exec; [settled c i e|].
    pose proof (no_pending c Hinv).
    eapply (wp_close _ ForSession); [refine (tracks_same _ _ _ eq_refl eq_refl Ht)|chan_eq|].
    clear Ht. intros m n Ht. exec. settled c i e.
Qed.

(** ** Admission *)

Lemma fresh_id c : inv c -> s_execs (c_s c) !! (s_nextID (c_s c) + 1) = None.
Proof.
  intros Hinv. destruct (s_execs (c_s c) !! _) as [e|] eqn:He; [|done].
  destruct (in_execs c Hinv _ _ He) as [Hid _]. lia.
Qed.

(** An id that no execution has is unknown to every goroutine. *)
Lemma fresh_unknown c i : inv c -> s_execs (c_s c) !! i = None ->
  c_owner c !! i = None /\ c_watch c !! i = None /\ c_forcing c !! i = None
  /\ (forall n, s_tokens (c_s c) !! (i, n) = None)
  /\ forall p, p = ForTurn i \/ p = ForOperation i \/ p = ForDone i \/ p = ForStop i -> chan_of (c_s c) p = None.
Proof.
  intros Hinv Hi. assert (forall o : option execution, o = None -> ~ is_Some o) as Hno by by intros ? -> [].
  split_and!.
  - apply eq_None_not_Some. intros H%(in_owner c Hinv). by eapply Hno.
  - apply eq_None_not_Some. intros H%(in_watch c Hinv). by eapply Hno.
  - apply eq_None_not_Some. intros H%(in_forcing c Hinv). by eapply Hno.
  - intros n. destruct (s_tokens (c_s c) !! (i, n)) eqn:E; [|done].
    apply (in_tokens c Hinv) in E as (e & He & _). cbn in He. congruence.
  - intros p [->|[->|[->| ->]]]; cbn; by rewrite Hi.
Qed.

(** The invariant with one more execution, which is current. *)
Lemma inv_new c c' i e : inv c -> s_execs (c_s c) !! i = None -> i = s_nextID (c_s c) + 1 -> i <= MaxUint64 ->
  s_current (c_s c) = None -> s_controlDone (c_s c) = None ->
  s_execs (c_s c') = <[i := e]> (s_execs (c_s c)) -> c_owner c' = <[i := PStart]> (c_owner c) ->
  c_watch c' = c_watch c -> c_forcing c' = c_forcing c -> s_tokens (c_s c') = s_tokens (c_s c) ->
  s_limits (c_s c') = s_limits (c_s c) -> s_nextID (c_s c') = i -> s_current (c_s c') = Some i ->
  s_terminal (c_s c') = s_terminal (c_s c) -> s_controlDone (c_s c') = None -> c_ctl c' = c_ctl c ->
  s_closeAttempt (c_s c') = s_closeAttempt (c_s c) -> c_closers c' = c_closers c ->
  tracks (chan_of (c_s c')) (c_s c') -> ok_at c' i e -> inv c'.
Proof.
  intros Hinv Hi Hid Hmax Hcur Hcd Ex Eo Ew Ef Et El En Ec Eterm Ecd Ectl Eat Ecl Htr Hok.
  assert (forall j, is_Some (s_execs (c_s c) !! j) -> j <> i) as Hne by (intros j [x Hx] ->; congruence).
  assert (forall j, is_Some (s_execs (c_s c) !! j) -> is_Some (s_execs (c_s c') !! j)) as Hup.
  { intros j Hj. rewrite Ex, lookup_insert_ne; [done|]. intros ->. by apply (Hne j). }
  destruct (fresh_unknown c i Hinv Hi) as (Ho & _).
  destruct Hinv. constructor; rewrite ?El, ?En, ?Ec, ?Ew, ?Ef, ?Et, ?Eterm, ?Ecd, ?Ectl, ?Eat, ?Ecl; try done.
  - lia.
  - intros j [= <-]. by rewrite Ex, lookup_insert_eq.
  - intros j x. rewrite Ex. destruct (decide (j = i)) as [->|Hj].
    { rewrite lookup_insert_eq. intros [= <-]. split; [lia|done]. }
    rewrite lookup_insert_ne by done. intros Hx. destruct (in_execs j x Hx) as [Hb Hx']. split; [lia|].
    unfold ok_at in *. rewrite El, Ec, Ew, Ef, Et, Eterm, Eo, lookup_insert_ne by done.
    rewrite Hcur in Hx'. by rewrite (bool_decide_eq_false_2 (Some i = Some j)), (bool_decide_eq_false_2 (None = Some j)) in * by congruence.
  - intros j. rewrite Eo. destruct (decide (j = i)) as [->|Hj]; [intros _; by rewrite Ex, lookup_insert_eq|].
    rewrite lookup_insert_ne by done. intros Hj'. by apply Hup, in_owner.
  - intros j Hj. by apply Hup, in_watch.
  - intros j Hj. by apply Hup, in_forcing.
  - intros t b Ht. destruct (in_tokens t b Ht) as (x & Hx & Hn). exists x. split; [|done].
    rewrite Ex, lookup_insert_ne; [done|]. intros ->. congruence.
  - by rewrite Hcd in in_control.
  - intros a x Ha. specialize (in_finishing a x Ha). destruct x as [j|]; [|done].
    rewrite Eo, lookup_insert_ne; [done|]. intros ->. congruence.
Qed.

Lemma keep_reserve c x : inv c -> keeps c (Move (reserveExecution x)
    (fun r c => match r with inr i => goes i PStart c | inl _ => c end)).
Proof.
  intros Hinv. pose proof (in_chans c Hinv) as Ht. cbn. unfold reserveExecution. exec.
  assert (inv (set_s (c_s c) c)) as Hsame by by destruct c.
  destruct (option_map Sentinel _); [done|]. exec; [done|].
  destruct (s_current (c_s c)) eqn:Hcur; cbn; [exec; done|]. destruct (s_controlDone (c_s c)) eqn:Hcd; cbn; [exec; done|].
  destruct (Z.eqb_spec (s_nextID (c_s c)) MaxUint64) as [|Hmax]; [exec; done|].
  pose proof (fresh_id c Hinv) as Hi. set (i := s_nextID (c_s c) + 1) in *.
  destruct (fresh_unknown c i Hinv Hi) as (Ho & Hw & Hf & Htok & Hch). exec.
  eapply (wp_make _ (ForDone i)); [refine (tracks_same _ _ _ eq_refl eq_refl Ht)|apply Hch; tauto|].
  clear Ht. intros dn m n Ht. exec.
  eapply (wp_make _ (ForOperation i)); [refine (tracks_same _ _ _ eq_refl eq_refl Ht)|rewrite fset_ne by congruence; apply Hch; tauto|].
  clear Ht. intros op m' n' Ht. exec. unfold installStepLocked. eapply wp_updE; [cbn; apply lookup_insert_eq|]. exec.
  eapply (inv_new c _ i); cbn; try done; try reflexivity.
  - pose proof (in_ids c Hinv). lia.
  - by rewrite insert_insert_eq.
  - eapply tracks_ext; [|refine (tracks_same _ _ _ eq_refl eq_refl Ht)].
    intros p. destruct p as [| | |j|j|j|j]; chan_eq.
    all: destruct (decide (j = i)) as [->|Hj]; [rewrite ?Hch by tauto|]; chan_eq.
    all: by rewrite Hi.
  - unfold ok_at. cbn. rewrite Hw, Hf, Htok, lookup_insert_eq. rewrite bool_decide_eq_true_2 by done.
    pose proof (no_pending c Hinv). constructor; cbn; try done; try congruence; try (rewrite map_size_empty in *; done).
    + intros p [= <-]. cbn. split_and!; [set_solver|done..].
    + intros [|]; done.
Qed.

(** ** Control operations *)

Lemma no_closers c a : inv c -> s_closeAttempt (c_s c) = None -> c_closers c !! a = None.
Proof.
  intros Hinv Hn. apply eq_None_not_Some. intros H. apply (in_attempt c Hinv) in H. congruence.
Qed.

Lemma keep_control c x allow tok : inv c -> (forall t, tok = Some t -> is_Some (s_tokens (c_s c) !! t)) ->
  keeps c (Move (reserveControlFor x allow tok) (fun r c =>
      match r with
      | inr (Some i) => goes i PControl c
      | inr None => set_ctl (None :: c_ctl c) c
      | inl _ => c
      end)).
Proof.
  intros Hinv Htok. pose proof (in_chans c Hinv) as Ht. cbn. unfold reserveControlFor. exec.
  assert (inv (set_s (c_s c) c)) as Hsame by by destruct c.
  destruct (option_map Sentinel _); [done|]. apply wp_check.
  assert (forall Q : option merror -> session -> list act -> Prop, (forall err, Q (Some err) (c_s c) []) -> Q None (c_s c) [] ->
    wp (match tok with Some t => snapshotErrorLocked t | None => mret None end) Q (c_s c)) as Hsnap.
  { intros Q H1 H2. destruct tok as [t|]; [|exec; done].
    destruct (Htok t eq_refl) as [b Hb]. destruct (in_tokens c Hinv t b Hb) as (e & He & _).
    eapply wp_snapshotError; eauto. }
  apply Hsnap; [done|]. clear Hsnap. exec; [done|].
  destruct (s_controlDone (c_s c)) eqn:Hcd; cbn; [exec; done|].
  pose proof (in_control c Hinv) as Hctl. rewrite Hcd in Hctl.
  destruct (s_current (c_s c)) as [i|] eqn:Hcur.
  - pose proof (in_current c Hinv i Hcur) as Hi. at_any c i Hi e. exec.
    destruct (negb allow); cbn; [exec; done|]. unfold in_phase. case_bool_decide as Hp; cbn; [|exec; done].
    destruct (Hpaused Hp) as (? & ? & ?). exec. settled c i e.
  - exec. eapply (wp_make _ ForControl); [exact Ht|done|]. clear Ht. intros ch m n Ht. exec. cbn.
    eapply (inv_session c); try done; cbn; try (by left).
    + by apply Hinv.
    + eapply tracks_ext; [|refine (tracks_same _ _ _ eq_refl eq_refl Ht)]. intros p; destruct p; chan_eq.
    + split; [done|]. exists None. by rewrite Hctl.
    + apply Hinv.
    + intros a e. rewrite (no_closers c a) by done. done.
    + intros a. rewrite Hctl. set_solver.
Qed.

Lemma keep_give_back c : inv c -> None ∈ c_ctl c ->
  keeps c (Move (releaseControl None) (fun _ c => set_ctl (give_back None (c_ctl c)) c)).
Proof.
  intros Hinv Hin. pose proof (in_chans c Hinv) as Ht. pose proof (in_control c Hinv) as Hctl. cbn. unfold releaseControl. exec.
  destruct (s_controlDone (c_s c)) as [ch|] eqn:Hcd; [|rewrite Hctl in Hin; set_solver].
  destruct Hctl as (Hcur & h & Hh). rewrite Hh in *. apply list_elem_of_singleton in Hin as <-. exec.
  eapply (wp_close _ ForControl); [exact Ht|done|]. clear Ht. intros m n Ht. exec. cbn. rewrite Hh. cbn.
  pose proof (in_holder c Hinv) as Hhold. pose proof (in_finishing c Hinv) as Hfin.
  eapply (inv_session c); try done; cbn; try (by left).
  - by apply Hinv.
  - eapply tracks_ext; [|refine (tracks_same _ _ _ eq_refl eq_refl Ht)]. intros p; destruct p; chan_eq.
  - apply Hinv.
  - intros a e Ha. specialize (Hfin a e Ha). destruct e; [done|]. rewrite Hh in Hfin. set_solver.
  - set_solver.
Qed.

Lemma keep_give_back_execution c i : inv c -> c_owner c !! i = Some PControl ->
  keeps c (Move (releaseControl (Some i)) (fun _ => leaves i)).
Proof.
  intros Hinv Ho. at_owner c i Ho e. pose proof (owned_current c i e Hinv He ltac:(done)) as Hcur.
  unfold releaseControl. exec. cbn.
  destruct (s_terminal (c_s c)) eqn:Hterm; cbn; [exec; settled c i e|].
  destruct (e_stop e) as [r|] eqn:Hr; cbn; [exec; settled c i e|]. exec. settled c i e.
Qed.

(** ** Closing *)

Lemma keep_close c x : inv c -> keeps c (Move (Close_begin x) (fun r c =>
    match r with CloseBegan a _ => set_closers (<[a := COwned]> (c_closers c)) c | _ => c end)).
Proof.
  intros Hinv. pose proof (in_chans c Hinv) as Ht. cbn. unfold Close_begin. exec.
  assert (inv (set_s (c_s c) c)) as Hsame by by destruct c.
  destruct (s_terminal (c_s c)) eqn:Hterm; [exec; done|]. destruct (s_closeAttempt (c_s c)) eqn:Hca; [exec; done|].
  exec. destruct (option_map Sentinel _); [exec; done|]. exec.
  eapply (wp_make _ ForClose); [exact Ht|done|]. clear Ht. intros a m n Ht. exec.
  lazymatch goal with |- wp _ _ ?s =>
    assert (inv (set_closers (<[a := COwned]> (c_closers c)) (set_s s c))) as Hg end.
  { pose proof (in_holder c Hinv) as Hhold. pose proof (in_finishing c Hinv) as Hfin.
    eapply (inv_session c); try done; cbn; try (by left).
    - by apply Hinv.
    - eapply tracks_ext; [|refine (tracks_same _ _ _ eq_refl eq_refl Ht)]. intros p; destruct p; chan_eq.
    - apply Hinv.
    - intros a'. destruct (decide (a' = a)) as [->|Hne]; [rewrite lookup_insert_eq; naive_solver|].
      rewrite lookup_insert_ne, (no_closers c a') by done. split; [congruence|by intros []].
    - intros a' e. destruct (decide (a' = a)) as [->|Hne]; [by rewrite lookup_insert_eq|].
      by rewrite lookup_insert_ne, (no_closers c a') by done.
    - intros a' Ha. specialize (Hhold a' Ha). by rewrite (no_closers c a') in Hhold. }
  destruct (s_current (c_s c)) as [i|] eqn:Hcur; [|exec; exact Hg].
  destruct (in_current c Hinv i Hcur) as [e He]. exec. exact Hg.
Qed.

(** With one close under way, [f] is where it is. *)
Lemma only_closer c a p : inv c -> c_closers c !! a = Some p -> forall b q, c_closers c !! b = Some q -> b = a /\ q = p.
Proof.
  intros Hinv Ha b q Hb. assert (s_closeAttempt (c_s c) = Some a) as E1 by (apply (in_attempt c Hinv); eauto).
  assert (s_closeAttempt (c_s c) = Some b) as E2 by (apply (in_attempt c Hinv); eauto).
  split; congruence.
Qed.

Lemma attempt_moves c a p p' : inv c -> c_closers c !! a = Some p ->
  forall b, s_closeAttempt (c_s c) = Some b <-> is_Some (<[a := p']> (c_closers c) !! b).
Proof.
  intros Hinv Ha b. rewrite (in_attempt c Hinv). destruct (decide (b = a)) as [->|Hne].
  - rewrite Ha, lookup_insert_eq. naive_solver.
  - by rewrite lookup_insert_ne.
Qed.

(** A close that holds nothing moves on. *)
Lemma inv_closer c a p p' : inv c -> c_closers c !! a = Some p -> (forall e, p <> CFinishing e) -> (forall e, p' <> CFinishing e) ->
  inv (set_closers (<[a := p']> (c_closers c)) c).
Proof.
  intros Hinv Ha Hp Hp'. eapply (inv_session c); try done; cbn; try (by left); try apply Hinv.
  - by apply (attempt_moves c a p).
  - intros b e. destruct (decide (b = a)) as [->|Hne]; [rewrite lookup_insert_eq; intros [= E]; by destruct (Hp' e)|].
    rewrite lookup_insert_ne by done. intros Hb. by destruct (only_closer c a p Hinv Ha b _ Hb).
  - intros b Hb. pose proof (in_holder c Hinv b Hb) as Hb'. destruct (only_closer c a p Hinv Ha b _ Hb') as [_ E].
    by destruct (Hp None).
Qed.

Lemma keep_own c a x : inv c -> c_closers c !! a = Some COwned ->
  keeps c (Move (closeOwned_reserve x) (fun r c =>
      match r with
      | OwnedReturns _ => set_closers (<[a := CSettle]> (c_closers c)) c
      | OwnedWaits _ => c
      | OwnedReserved (Some i) => goes i PClosing (set_closers (<[a := CFinishing (Some i)]> (c_closers c)) c)
      | OwnedReserved None =>
        set_ctl (Some a :: c_ctl c) (set_closers (<[a := CFinishing None]> (c_closers c)) c)
      end)).
Proof.
  intros Hinv Ha. pose proof (in_chans c Hinv) as Ht. cbn. unfold closeOwned_reserve. exec.
  assert (inv (set_s (c_s c) c)) as Hsame by by destruct c.
  assert (inv (set_closers (<[a := CSettle]> (c_closers c)) (set_s (c_s c) c))) as Hret.
  { apply (inv_closer (set_s (c_s c) c) a COwned); done. }
  destruct (s_terminal (c_s c)) eqn:Hterm; [exec; done|]. exec.
  destruct (option_map Sentinel _); [exec; done|].
  destruct (s_current (c_s c)) as [i|] eqn:Hcur.
  - pose proof (in_current c Hinv i Hcur) as Hi. clear Ht. at_any c i Hi e. exec.
    destruct (e_operationDone e) eqn:Hop; [exec; done|].
    assert (c_owner c !! i = None) as Hown.
    { destruct (c_owner c !! i) as [p|] eqn:Ho; [|done]. by destruct (xo_owned _ _ _ _ _ _ _ _ Hok p Ho) as (_ & [] & _). }
    assert (e_phase e = executionPaused) as Hp.
    { destruct (xo_free _ _ _ _ _ _ _ _ Hok Hown) as ([|Hf] & _); [done|]. exfalso.
      by apply (xo_current _ _ _ _ _ _ _ _ Hok); [apply bool_decide_eq_true_2|]. }
    destruct (Hpaused Hp) as (_ & Hturn & _). exec.
    match goal with |- context [upd i ?E ?S] => assert (inv (goes i PClosing (set_s (upd i E S) c))) as Hg by settled c i e end.
    cbn. eapply (inv_session _ _ Hg); try done; cbn; try (by left); try apply Hg.
    + by apply (attempt_moves c a COwned).
    + intros b e'. destruct (decide (b = a)) as [->|Hne].
      { rewrite lookup_insert_eq. intros [= <-]. apply lookup_insert_eq. }
      rewrite lookup_insert_ne by done. intros Hb. by destruct (only_closer c a COwned Hinv Ha b _ Hb).
    + intros b Hb. pose proof (in_holder c Hinv b Hb) as Hb'. by destruct (only_closer c a COwned Hinv Ha b _ Hb').
  - destruct (s_controlDone (c_s c)) eqn:Hcd; [exec; done|]. exec.
    pose proof (in_control c Hinv) as Hctl. rewrite Hcd in Hctl.
    eapply (wp_make _ ForControl); [exact Ht|done|]. clear Ht. intros ch m n Ht. exec. cbn.
    eapply (inv_session c); try done; cbn; try (by left).
    + by apply Hinv.
    + eapply tracks_ext; [|refine (tracks_same _ _ _ eq_refl eq_refl Ht)]. intros p; destruct p; chan_eq.
    + split; [done|]. exists (Some a). by rewrite Hctl.
    + by apply (attempt_moves c a COwned).
    + intros b e'. destruct (decide (b = a)) as [->|Hne].
      { rewrite lookup_insert_eq. intros [= <-]. rewrite Hctl. set_solver. }
      rewrite lookup_insert_ne by done. intros Hb. by destruct (only_closer c a COwned Hinv Ha b _ Hb).
    + intros b. rewrite Hctl. intros [= ->]%list_elem_of_singleton. apply lookup_insert_eq.
Qed.

Lemma keep_end_close c a e cause : inv c -> c_closers c !! a = Some (CFinishing e) ->
  keeps c (Move (closeOwned_release e cause) (fun _ c =>
      set_closers (<[a := CSettle]> (c_closers c))
        (match e with None => set_ctl (give_back (Some a) (c_ctl c)) c | Some _ => c end))).
Proof.
  intros Hinv Ha. pose proof (in_chans c Hinv) as Ht. pose proof (in_control c Hinv) as Hctl.
  pose proof (in_finishing c Hinv a e Ha) as Hfin. cbn. unfold closeOwned_release. exec.
  assert (forall b q, <[a := CSettle]> (c_closers c) !! b <> Some (CFinishing q)) as Hnone.
  { intros b q. destruct (decide (b = a)) as [->|Hne]; [by rewrite lookup_insert_eq|].
    rewrite lookup_insert_ne by done. intros Hb. by destruct (only_closer c a _ Hinv Ha b _ Hb). }
  destruct e as [i|].
  - destruct (owned_exec c Hinv i _ Hfin) as (e & He & _ & Hok & Hph & ? & ? & ?). phases Hph. exec.
    assert (inv (set_closers (<[a := CSettle]> (c_closers c)) c)) as Hg.
    { eapply (inv_session c); try done; cbn; try (by left); try apply Hinv.
      - by apply (attempt_moves c a (CFinishing (Some i))).
      - intros b q Hb. by destruct (Hnone b q).
      - intros b Hb. pose proof (in_holder c Hinv b Hb) as Hb'. by destruct (only_closer c a _ Hinv Ha b _ Hb'). }
    cbn. eapply (inv_frame (set_closers (<[a := CSettle]> (c_closers c)) c) _ i e e Hg);
      [framed; right; apply Hnone|exact He|exact He|exact (fun n b => tokens_below c Hinv i e n b He)|exact Ht|exec_at Hok].
  - destruct (s_controlDone (c_s c)) as [ch|] eqn:Hcd; [|rewrite Hctl in Hfin; set_solver].
    destruct Hctl as (Hcur & h & Hh). rewrite Hh in Hfin. apply list_elem_of_singleton in Hfin as <-.
    exec. eapply (wp_close _ ForControl); [exact Ht|done|]. clear Ht. intros m n Ht. exec. cbn. rewrite Hh. cbn.
    rewrite decide_True by done.
    eapply (inv_session c); try done; cbn; try (by left).
    + by apply Hinv.
    + eapply tracks_ext; [|refine (tracks_same _ _ _ eq_refl eq_refl Ht)]. intros p; destruct p; chan_eq.
    + by apply (attempt_moves c a (CFinishing None)).
    + intros b q Hb. by destruct (Hnone b q).
    + set_solver.
Qed.

Lemma keep_settle_close c a err : inv c -> c_closers c !! a = Some CSettle ->
  keeps c (Move (settleClose a err) (fun _ c => set_closers (delete a (c_closers c)) c)).
Proof.
  intros Hinv Ha. pose proof (in_chans c Hinv) as Ht. cbn. unfold settleClose. exec.
  assert (s_closeAttempt (c_s c) = Some a) as Hca by (apply (in_attempt c Hinv); eauto).
  rewrite bool_decide_eq_true_2 by done. exec.
  eapply (wp_close _ ForClose); [refine (tracks_same _ _ _ eq_refl eq_refl Ht)|done|]. clear Ht. intros m n Ht. cbn.
  assert (forall b, delete a (c_closers c) !! b = None) as Hnone.
  { intros b. destruct (decide (b = a)) as [->|Hne]; [apply lookup_delete_eq|]. rewrite lookup_delete_ne by done.
    destruct (c_closers c !! b) eqn:Hb; [|done]. by destruct (only_closer c a _ Hinv Ha b _ Hb). }
  eapply (inv_session c); try done; cbn; try (by left); try apply Hinv.
  - eapply tracks_ext; [|refine (tracks_same _ _ _ eq_refl eq_refl Ht)]. intros p; destruct p; chan_eq.
  - intros b. rewrite Hnone. split; [done|by intros []].
  - intros b e. by rewrite Hnone.
  - intros b Hb. pose proof (in_holder c Hinv b Hb) as Hb'. by destruct (only_closer c a _ Hinv Ha b _ Hb').
Qed.
