(* ===== verification/SessionFacts.v ===== *)
(** What the invariant gives: no goroutine of a session ever panics or is left
    waiting, one of them at a time has the worker, a session ends once, and
    every stop is settled. *)

From S2P Require Import Prelude Utf8 GoStrings Exceptions PoolErrors Monterr Stop SessionLife SessionSteps SessionInv SessionMoves SessionStops SessionClosing.

#[local] Hint Resolve keep_reserve keep_begin keep_send keep_receive keep_cancelled keep_boundary keep_call keep_return
  keep_future keep_forget keep_resume keep_deliver keep_decide keep_pause keep_claim keep_abort keep_aborted
  keep_abort_lost keep_abort_terminal keep_finish keep_settle keep_settle_again keep_terminate keep_stop keep_hook
  keep_watch keep_timer keep_wake keep_force keep_killed keep_control keep_give_back keep_give_back_execution
  keep_close keep_own keep_end_close keep_settle_close : core.

Lemma every_move_keeps c mv : inv c -> may c mv -> keeps c mv.
Proof.
  intros Hinv Hmay. destruct Hmay; eauto.
  all: cbn; apply (inv_session c); try done; cbn; try (by left); apply Hinv.
Qed.

Lemma inv_start limits now : limits_ok limits -> inv (start limits now).
Proof.
  intros Hl. constructor; cbn; try done; try (by intros ? []); try (intros; simplify_map_eq; done).
  - split; cbn.
    + intros ch p. destruct (decide (ch = 0%nat)) as [->|Hne].
      * rewrite lookup_singleton_eq. destruct p; cbn; rewrite ?lookup_empty; naive_solver.
      * rewrite lookup_singleton_ne by done. destruct p; cbn; rewrite ?lookup_empty; naive_solver.
    + intros ch Hle. apply lookup_singleton_ne. lia.
  - set_solver.
Qed.

Lemma inv_step c c' : inv c -> step c c' -> inv c'.
Proof.
  intros Hinv Hstep. destruct Hstep as [A m k r s l Hmay Hrun].
  pose proof (every_move_keeps c _ Hinv Hmay) as Hk. cbn in Hk. unfold wp in Hk. by rewrite Hrun in Hk.
Qed.

Lemma reachable_inv limits now c : limits_ok limits -> reachable limits now c -> inv c.
Proof.
  intros Hl Hr. unfold reachable in Hr. assert (inv (start limits now)) as H0 by by apply inv_start.
  revert H0. induction Hr as [|c1 c2 c3 Hstep _ IH]; [done|]. intros H1. by eapply IH, inv_step.
Qed.

(** A move that may happen leads to a configuration. *)
Lemma move_steps {A} (m : sec A) k c : inv c -> may c (Move m k) ->
  exists r s l, m (c_s c) = Some (r, s, l) /\ step c (after r s l k c).
Proof.
  intros Hinv Hmay. pose proof (every_move_keeps c _ Hinv Hmay) as Hk. cbn in Hk. unfold wp in Hk.
  destruct (m (c_s c)) as [[[r s] l]|] eqn:Hrun; [|done]. exists r, s, l. split; [done|]. by econstructor.
Qed.

(** ** What never changes back *)

(** A terminal cause stays, and a used snapshot stays used. *)
Definition lasting (s s' : session) : Prop :=
  (forall t, s_terminal s = Some t -> s_terminal s' = Some t)
  /\ (forall t, s_tokens s !! t = Some true -> s_tokens s' !! t = Some true).

#[local] Instance lasting_preorder : PreOrder lasting.
Proof. split; [by split|]. intros s1 s2 s3 [H1 H2] [H3 H4]. split; auto. Qed.

Definition lasts {A} (m : sec A) : Prop := forall s r s' l, m s = Some (r, s', l) -> lasting s s'.

Section lasts.
Context {A : Type}.

Lemma lasts_bind {B} (m : sec B) (f : B -> sec A) : lasts m -> (forall b, lasts (f b)) -> lasts (m ≫= f).
Proof.
  intros Hm Hf s r s' l. unfold mbind, sec_bind. destruct (m s) as [[[b s1] l1]|] eqn:H1; [|done].
  destruct (f b s1) as [[[a s2] l2]|] eqn:H2; [|done]. intros [= <- <- <-].
  etransitivity; [by eapply Hm|by eapply Hf].
Qed.
Lemma lasts_ret (a : A) : lasts (mret a : sec A).
Proof. by intros s r s' l [= <- <- <-]. Qed.
Lemma lasts_panics : lasts (@panics A).
Proof. done. Qed.
End lasts.

Lemma lasts_get : lasts get.
Proof. by intros s r s' l [= <- <- <-]. Qed.
Lemma lasts_modify f : (forall s, lasting s (f s)) -> lasts (modify f).
Proof. intros H s r s' l [= <- <- <-]. apply H. Qed.
Lemma lasts_later a : lasts (later a).
Proof. by intros s r s' l [= <- <- <-]. Qed.
Lemma lasts_getE i : lasts (getE i).
Proof. intros s r s' l. unfold getE. by destruct (s_execs s !! i); [intros [= <- <- <-]|]. Qed.
Lemma lasts_updE i f : lasts (updE i f).
Proof. intros s r s' l. unfold updE. by destruct (s_execs s !! i); [intros [= <- <- <-]|]. Qed.
Lemma lasts_make p : lasts (make_chan p).
Proof. by intros s r s' l [= <- <- <-]. Qed.
Lemma lasts_close ch : lasts (close_chan ch).
Proof. intros s r s' l. unfold close_chan. destruct (s_chans s !! ch) as [[p []]|]; [done| |done]. by intros [= <- <- <-]. Qed.
Lemma lasts_new_ctx : lasts new_ctx.
Proof. by intros s r s' l [= <- <- <-]. Qed.
Lemma lasts_ctx_Err x : lasts (ctx_Err x).
Proof. by intros s r s' l [= <- <- <-]. Qed.

Ltac head_of t := lazymatch t with ?f _ => head_of f | _ => t end.

(** Sections built from the primitives, by their structure. *)
Ltac lasting :=
  repeat lazymatch goal with
  | |- lasts (mbind _ _) => apply lasts_bind; [|intros ?]
  | |- lasts (mret _) => apply lasts_ret
  | |- lasts panics => apply lasts_panics
  | |- lasts get => apply lasts_get
  | |- lasts (modify _) => apply lasts_modify; intros ?; split; cbn; [done|]; intros; rewrite ?lookup_insert; repeat case_decide; done
  | |- lasts (later _) => apply lasts_later
  | |- lasts (getE _) => apply lasts_getE
  | |- lasts (updE _ _) => apply lasts_updE
  | |- lasts (make_chan _) => apply lasts_make
  | |- lasts (close_chan _) => apply lasts_close
  | |- lasts new_ctx => apply lasts_new_ctx
  | |- lasts (ctx_Err _) => apply lasts_ctx_Err
  | |- lasts (match ?x with _ => _ end) => destruct x
  | |- lasts (let '_ := ?x in _) => destruct x
  | |- lasts ?m => let h := head_of m in unfold h
  end.


Lemma bind_run {A B} (m : sec B) (f : B -> sec A) s r s' l : (m ≫= f) s = Some (r, s', l) ->
  exists b s1 l1 l2, m s = Some (b, s1, l1) /\ f b s1 = Some (r, s', l2).
Proof.
  unfold mbind, sec_bind. destruct (m s) as [[[b s1] l1]|]; [|done].
  destruct (f b s1) as [[[a s2] l2]|] eqn:H; [|done]. intros [= <- <- <-]. naive_solver.
Qed.

(** Setting the terminal cause for the first time. *)
Lemma lasting_first s1 s2 s' : s_terminal s1 = None -> s_tokens s2 = s_tokens s1 -> lasting s2 s' -> lasting s1 s'.
Proof. intros Hn Ht [_ H2]. split; [congruence|]. intros t. rewrite <- Ht. apply H2. Qed.


Lemma lasts_terminate err : lasts (terminateSession err).
Proof.
  intros s r s' l. unfold terminateSession.
  intros (s0 & s1 & l1 & l2 & [= <- <- <-] & (t & s2 & l3 & l4 & Hset & Hrest)%bind_run)%bind_run.
  match type of Hrest with ?m s2 = _ => assert (lasts m) as Hm by lasting end.
  apply Hm in Hrest. destruct (s_terminal s) eqn:Ht.
  - injection Hset as <- <- <-. exact Hrest.
  - apply bind_run in Hset as (? & ? & ? & ? & [= <- <- <-] & Hset). apply bind_run in Hset as (? & s3 & ? & ? & Hc & [= <- <- <-]).
    eapply lasting_first; [exact Ht| |exact Hrest].
    unfold close_chan in Hc. destruct (s_chans _ !! _) as [[? []]|]; [done| |done]. by injection Hc as <- <- <-.
Qed.

Lemma lasts_force i : lasts (forceExecution_claim i).
Proof.
  intros s r s' l. unfold forceExecution_claim.
  intros (s0 & s1 & l1 & l2 & [= <- <- <-] & (e & s2 & l3 & l4 & He & Hrun)%bind_run)%bind_run.
  assert (s2 = s) as -> by (unfold getE in He; destruct (s_execs s !! i); by simplify_eq).
  destruct (e_stop e) as [req|]; [|done].
  destruct (_ || _); [by injection Hrun as <- <- <-|].
  destruct (s_terminal s) eqn:Ht.
  - rewrite orb_true_r in Hrun. revert Hrun. lazymatch goal with |- ?m s = _ -> _ => assert (lasts m) as Hm by lasting end. apply Hm.
  - revert Hrun. case_match; [lazymatch goal with |- ?m s = _ -> _ => assert (lasts m) as Hm by lasting end; apply Hm|].
    destruct (_ <? _); [by intros [= <- <- <-]|].
    intros (? & s3 & ? & ? & H1 & (? & s4 & ? & ? & [= <- <- <-] & Hrun)%bind_run)%bind_run.
    match type of Hrun with ?m _ = _ => assert (lasts m) as Hm by lasting end. apply Hm in Hrun.
    eapply lasting_first; [exact Ht| |exact Hrun]. unfold updE in H1. destruct (s_execs s !! i); by simplify_eq.
Qed.

(** A snapshot gets a sequence number above those of all snapshots before. *)
Lemma lasts_pause c i : inv c -> forall r s' l, publishPause i (c_s c) = Some (r, s', l) -> lasting (c_s c) s'.
Proof.
  intros Hinv r s' l. unfold publishPause, check.
  intros (x & s1 & l1 & l2 & H1 & H2)%bind_run.
  assert (lasts (executionErrorLocked i)) as Hx by lasting. pose proof (Hx _ _ _ _ H1) as L1.
  assert (s1 = c_s c) as ->.
  { revert H1. unfold executionErrorLocked, mbind, sec_bind, get, getE. cbn. destruct (s_execs (c_s c) !! i); [|done].
    by intros [= <- <- <-]. }
  destruct x; [by injection H2 as <- <- <-|].
  apply bind_run in H2 as (e & s2 & l3 & l4 & He & Hrun).
  assert (s2 = c_s c /\ s_execs (c_s c) !! i = Some e) as [-> He'] by (unfold getE in He; destruct (s_execs (c_s c) !! i); by simplify_eq).
  destruct (stop_requested e); [by injection Hrun as <- <- <-|].
  destruct (_ =? _); [by injection Hrun as <- <- <-|].
  apply bind_run in Hrun as (? & s3 & ? & ? & Hu & Hrun). apply bind_run in Hrun as (? & s4 & ? & ? & [= <- <- <-] & Hrun).
  match type of Hrun with ?m _ = _ => assert (lasts m) as Hm by lasting end. apply Hm in Hrun.
  assert (s_terminal s3 = s_terminal (c_s c) /\ s_tokens s3 = s_tokens (c_s c)) as [Et Ek]
    by (unfold updE in Hu; rewrite He' in Hu; by simplify_eq).
  destruct Hrun as [R1 R2]. split; [intros t Ht; apply R1; cbn; congruence|].
  intros t Ht. apply R2. cbn. rewrite Ek, lookup_insert_ne; [done|]. intros <-.
  pose proof (tokens_below c Hinv i e _ _ He' Ht). lia.
Qed.

Lemma absorb_s l c : c_s (absorb l c) = c_s c.
Proof. unfold absorb. revert c. induction l as [|a l IH]; intros c; [done|]. cbn. rewrite IH. by destruct a. Qed.

(** Where a goroutine goes next does not change the session. *)
Definition tame (c : config) (mv : move) : Prop :=
  match mv with
  | Move m k => (forall r s, c_s (k r (set_s s c)) = s) /\ (forall r s l, m (c_s c) = Some (r, s, l) -> lasting (c_s c) s)
  end.

Lemma every_move_tame c mv : inv c -> may c mv -> tame c mv.
Proof.
  intros Hinv Hmay. destruct Hmay; cbn; (split; [intros; unfold stays, or_else; repeat case_match; reflexivity|]);
    try (by eapply lasts_pause); try (by eapply lasts_terminate); try (by eapply lasts_force).
  all: match goal with |- forall r s l, ?m _ = _ -> _ => assert (lasts m) as Hm by lasting; intros; by eapply Hm end.
Qed.

Lemma step_lasting c c' : inv c -> step c c' -> lasting (c_s c) (c_s c').
Proof.
  intros Hinv Hstep. destruct Hstep as [A m k r s l Hmay Hrun].
  destruct (every_move_tame c _ Hinv Hmay) as [Hk Hm]. unfold after. rewrite absorb_s, Hk. by eapply Hm.
Qed.

(** ** Every stop is settled by its watcher *)

(** What the watcher of [i] does on its own, with the clock. *)
Inductive watcher_step (i : Z) (c : config) : config -> Prop :=
| ws_tick t : s_now (c_s c) <= t -> watcher_step i c (set_s (s_set_now t (c_s c)) c)
| ws_timer r s l : c_watch c !! i = Some () -> watchStop_timer i (c_s c) = Some (r, s, l) ->
    watcher_step i c (after r s l stays c)
| ws_force e r s l : s_execs (c_s c) !! i = Some e -> stop_requested e = true ->
    forceExecution_claim i (c_s c) = Some (r, s, l) ->
    watcher_step i c (after r s l
      (fun r c => match r with Claimed _ => set_forcing (<[i := ()]> (c_forcing c)) c | _ => c end) c)
| ws_killed s l : c_forcing c !! i = Some () -> forceExecution_resolve i (c_s c) = Some ((), s, l) ->
    watcher_step i c (after () s l (fun _ c => set_forcing (delete i (c_forcing c)) c) c).

Definition settled (i : Z) (c : config) : Prop :=
  exists e r, s_execs (c_s c) !! i = Some e /\ e_stop e = Some r /\ resolvedOnce r = true.

Section watcher.
Variables (i : Z).

Lemma watcher_is_step c c' : watcher_step i c c' -> step c c'.
Proof.
  intros H. destruct H as [t Ht|r s l Hw Hrun|e r s l He Hq Hrun|s l Hf Hrun].
  - change (set_s (s_set_now t (c_s c)) c) with (after () (s_set_now t (c_s c)) [] stays c).
    by econstructor; [apply may_tick|].
  - by econstructor; [apply may_timer|].
  - econstructor; [|done]. eapply may_force; [done|by left].
  - by econstructor; [apply may_killed|].
Qed.

Lemma wp_run {A} (m : sec A) Q s : wp m Q s -> exists r s' l, m s = Some (r, s', l) /\ Q r s' l.
Proof. unfold wp. destruct (m s) as [[[r s'] l]|]; [eauto|done]. Qed.

Lemma after_s {A} (r : A) s l k c : (forall r s, c_s (k r (set_s s c)) = s) -> c_s (after r s l k c) = s.
Proof. intros Hk. unfold after. by rewrite absorb_s, Hk. Qed.

Lemma killed_settles c e r : inv c -> s_execs (c_s c) !! i = Some e -> e_stop e = Some r -> c_forcing c !! i = Some () ->
  exists c', watcher_step i c c' /\ settled i c'.
Proof.
  intros Hinv He Hr Hf. pose proof (in_chans c Hinv) as Ht.
  assert (wp (forceExecution_resolve i) (fun _ s _ => exists e r, s_execs s !! i = Some e /\ e_stop e = Some r /\ resolvedOnce r = true) (c_s c)) as H.
  { eapply wp_resolveStop; [exact Ht|exact He|intros; chan_eq|intros Hall; exists e, r; auto|].
    intros r' m n Hr' _ _. do 2 eexists. split; [apply lookup_upd|]. done. }
  apply wp_run in H as ([] & s & l & Hrun & HQ). eexists. split; [by apply ws_killed|].
  unfold settled. by rewrite after_s.
Qed.

Lemma force_settles c e r : inv c -> s_execs (c_s c) !! i = Some e -> e_stop e = Some r ->
  requested r = true -> killAt r <= s_now (c_s c) -> exists c', rtc (watcher_step i) c c' /\ settled i c'.
Proof.
  intros Hinv He Hr Hq Hnow. destruct (resolvedOnce r) eqn:Hro; [exists c; split; [done|]; by exists e, r|].
  pose proof (proj2 (in_execs c Hinv i e He)) as Hok.
  destruct (forceClaimed r) eqn:Hfc.
  { destruct (killed_settles c e r Hinv He Hr) as (c' & ? & ?); [|eauto using rtc_once].
    by apply (so_forcing _ _ _ _ _ (xo_stop _ _ _ _ _ _ _ _ Hok r Hr)). }
  assert (stop_requested e = true) as Hsr by (unfold stop_requested; by rewrite Hr).
  assert (wp (forceExecution_claim i) (fun x s _ => exists e r, s_execs s !! i = Some e /\ e_stop e = Some r
    /\ (resolvedOnce r = true \/ exists cause, x = Claimed cause)) (c_s c)) as H.
  { pose proof (in_chans c Hinv) as Ht. unfold forceExecution_claim. exec. rewrite Hr, Hro, Hfc. cbn.
    destruct (negb _ || _ || _) eqn:Hdead.
    - exec. eapply wp_resolveStop; [exact Ht|exact He|intros; simplify_eq; chan_eq|intros Hall; exec; exists e, r; auto|].
      intros r' m n Hr' _ _. exec. do 2 eexists. split; [apply lookup_upd|]. split; [done|by left].
    - apply orb_false_iff in Hdead as [_ Hterm]. destruct (s_terminal (c_s c)) eqn:Hterm'; [done|].
      destruct (Z.ltb_spec (s_now (c_s c)) (killAt r)); [lia|]. exec.
      eapply (wp_close _ ForSession); [refine (tracks_same _ _ _ eq_refl eq_refl Ht)|chan_eq|]. intros m n _. exec.
      do 2 eexists. split; [apply lookup_upd|]. split; [done|right; eauto]. }
  apply wp_run in H as (x & s & l & Hrun & e' & r' & He' & Hr' & Hx).
  pose proof (ws_force i c e x s l He Hsr Hrun) as Hstep. set (c1 := after x s l _ c) in *.
  assert (c_s c1 = s) as Hs by (apply after_s; intros [] ?; done).
  pose proof (inv_step c c1 Hinv (watcher_is_step _ _ Hstep)) as Hinv1.
  destruct (resolvedOnce r') eqn:Hro'.
  { exists c1. split; [by apply rtc_once|]. exists e', r'. by rewrite Hs. }
  destruct Hx as [|[cause ->]]; [done|].
  destruct (killed_settles c1 e' r' Hinv1) as (c2 & ? & ?); [by rewrite Hs|done| |].
  - pose proof (proj2 (in_execs c1 Hinv1 i e' ltac:(by rewrite Hs))) as Hok'.
    subst c1. unfold after. assert (forall l c, c_forcing (absorb l c) = c_forcing c) as Hab.
    { clear. intros l. unfold absorb. induction l as [|a l IH]; intros c; [done|]. cbn. rewrite IH. by destruct a. }
    rewrite Hab. apply lookup_insert_eq.
  - exists c2. split; [|done]. eapply rtc_l; [done|]. by apply rtc_once.
Qed.

Lemma timer_requests c e r : inv c -> s_execs (c_s c) !! i = Some e -> e_stop e = Some r ->
  requested r = false -> resolvedOnce r = false -> e_phase e <> executionFinished ->
  exists c' e' r', watcher_step i c c' /\ s_execs (c_s c') !! i = Some e' /\ e_stop e' = Some r'
    /\ requested r' = true /\ killAt r' = killAt r /\ s_now (c_s c') = s_now (c_s c).
Proof.
  intros Hinv He Hr Hq Hro Hnf. pose proof (proj2 (in_execs c Hinv i e He)) as Hok.
  pose proof (so_watched _ _ _ _ _ (xo_stop _ _ _ _ _ _ _ _ Hok r Hr) Hro) as Hw.
  assert (wp (watchStop_timer i) (fun _ s _ => exists e r', s_execs s !! i = Some e /\ e_stop e = Some r'
    /\ requested r' = true /\ killAt r' = killAt r /\ s_now s = s_now (c_s c)) (c_s c)) as H.
  { pose proof (in_chans c Hinv) as Ht. unfold watchStop_timer. exec. rewrite Hr, Hq. cbn.
    unfold in_phase. rewrite bool_decide_eq_false_2 by done. cbn. exec.
    eapply wp_enter; [exact Ht|exact He|exact Hr| |congruence| |].
    - intros Hp. pose proof (paused_free _ _ _ _ _ _ _ _ Hok (or_introl Hp)) as Hown.
      destruct (xo_free _ _ _ _ _ _ _ _ Hok Hown) as (_ & ? & ?). chan_eq.
    - intros _ _. exec. do 2 eexists. split; [apply lookup_upd|]. done.
    - intros ch m n _ _ _. exec. do 2 eexists. split; [apply lookup_upd|]. done. }
  apply wp_run in H as (x & s & l & Hrun & e' & r' & H). exists (after x s l stays c), e', r'.
  split; [by apply ws_timer|]. by rewrite after_s.
Qed.
End watcher.

(** ** The theorems *)

(** A session at work: a feed that is sent, whose turn came back, and that is
    asked to stop. *)
Definition demo_limits : sessionLimits := MkLimits 10 5 (MkPolicy 0 second second (Some keyboardInterrupt) false).

Definition advance {A} (m : sec A) (k : A -> config -> config) (c : config) : config :=
  match m (c_s c) with Some (r, s, l) => after r s l k c | None => c end.

Definition demo_reserved : config := Eval vm_compute in advance (reserveExecution 0%nat)
  (fun r c => match r with inr i => goes i PStart c | inl _ => c end) (start demo_limits 0).
Definition demo_prepared : config := Eval vm_compute in advance (beginExecution 1) (or_else 1 PPrep (fun _ => PFinish)) demo_reserved.
Definition demo_sent : config := Eval vm_compute in advance (beginSend 1) (or_else 1 PTurn (fun _ => PFinish)) demo_prepared.
Definition demo_host : config := Eval vm_compute in advance (receivedTurn 1) (fun _ => goes 1 (received PTurn)) demo_sent.
Definition demo_stopped : config := Eval vm_compute in advance (requestStop 1 zero_policy) stays demo_host.
Definition demo_leaving : config := Eval vm_compute in advance (finishExecution_cancel 1) (fun _ => goes 1 PSettle) demo_stopped.
Definition demo_lost : config := Eval vm_compute in advance (terminateSession (Sentinel ErrSessionClosed)) stays demo_stopped.

(** One step of a concrete run: the move may happen and leads to [c']. *)
Lemma advance_step {A} (m : sec A) k c c' : may c (Move m k) -> is_some (m (c_s c)) = true -> advance m k c = c' -> step c c'.
Proof.
  intros Hmay Hrun <-. unfold advance. destruct (m (c_s c)) as [[[r s] l]|] eqn:H; [|done]. by econstructor.
Qed.

Lemma demo_limits_ok : limits_ok demo_limits.
Proof. repeat split; vm_compute; congruence. Qed.

Tactic Notation "concrete" constr(m) "by" tactic3(t) :=
  eapply (advance_step m); [t|vm_compute; reflexivity|vm_compute; reflexivity].

Lemma demo_host_reachable : reachable demo_limits 0 demo_host.
Proof.
  apply (rtc_l _ _ demo_reserved); [concrete (reserveExecution 0%nat) by (apply may_reserve)|].
  apply (rtc_l _ _ demo_prepared); [concrete (beginExecution 1) by (by apply may_begin)|].
  apply (rtc_l _ _ demo_sent); [concrete (beginSend 1) by (by apply may_send)|].
  apply rtc_once. concrete (receivedTurn 1) by (by apply (may_receive _ 1 PTurn)).
Qed.

Lemma demo_stopped_reachable : reachable demo_limits 0 demo_stopped.
Proof.
  eapply rtc_r; [exact demo_host_reachable|]. concrete (requestStop 1 zero_policy) by (apply may_stop; vm_compute; eauto).
Qed.

Lemma demo_leaving_reachable : reachable demo_limits 0 demo_leaving.
Proof.
  eapply rtc_r; [exact demo_stopped_reachable|]. concrete (finishExecution_cancel 1) by (by eapply (may_finish _ 1 PHost)).
Qed.

Lemma demo_lost_step : step demo_stopped demo_lost.
Proof. concrete (terminateSession (Sentinel ErrSessionClosed)) by (by apply may_terminate). Qed.

(** C5. Whatever a session's goroutines do, in whatever order their critical
    sections run, none of them panics: no channel is closed twice or while
    nil, no stop or execution is used that is not there, and no nil reason is
    rendered. *)
Theorem session_never_panics limits now c A (m : sec A) k :
  limits_ok limits -> reachable limits now c -> may c (Move m k) -> exists r s l, m (c_s c) = Some (r, s, l).
Proof.
  intros Hl Hr Hmay. destruct (move_steps m k c (reachable_inv _ _ _ Hl Hr) Hmay) as (r & s & l & Hrun & _). eauto.
Qed.

Lemma session_never_panics_witness :
  limits_ok demo_limits /\ reachable demo_limits 0 demo_stopped /\ is_Some (stopAtBoundary_check 1 (c_s demo_stopped)).
Proof.
  split; [exact demo_limits_ok|]. split; [exact demo_stopped_reachable|].
  destruct (session_never_panics demo_limits 0 demo_stopped _ (stopAtBoundary_check 1) (or_else 1 PHost PStopping)
    demo_limits_ok demo_stopped_reachable) as (r & s & l & H); [apply may_boundary; reflexivity|]. rewrite H. eauto.
Defined.

(** Who closes a channel that is open: the goroutine of its execution (a
    paused execution is finished by whoever resumes or ends it), the holder of
    the control reservation, the close under way, the stop's watcher, or the
    end of the session. *)
Definition has_closer (c : config) (p : purpose) (ch : chan) : Prop :=
  match p with
  | ForSession => s_terminal (c_s c) = None /\ s_done (c_s c) = ch
  | ForControl => exists h, c_ctl c = [h]
  | ForClose => is_Some (c_closers c !! ch)
  | ForTurn i | ForOperation i => is_Some (c_owner c !! i)
  | ForDone i => s_current (c_s c) = Some i
      /\ (is_Some (c_owner c !! i) \/ exists e, s_execs (c_s c) !! i = Some e /\ e_phase e = executionPaused /\ s_terminal (c_s c) = None)
  | ForStop i => c_watch c !! i = Some ()
  end.



(** C7. The worker has one owner: two executions that have not finished are
    the same one, and it is current; a control operation or close that holds
    the idle session excludes them, and holds it alone; and one close at a
    time is under way. No execution keeps more futures than the limit allows,
    and a snapshot that can be resumed has not been. *)
Theorem worker_has_one_owner limits now c :
  limits_ok limits -> reachable limits now c ->
  (forall i e, s_execs (c_s c) !! i = Some e -> e_phase e <> executionFinished -> s_current (c_s c) = Some i /\ c_ctl c = [])
  /\ (length (c_ctl c) <= 1)%nat
  /\ (forall a b, is_Some (c_closers c !! a) -> is_Some (c_closers c !! b) -> a = b)
  /\ (forall i e, s_execs (c_s c) !! i = Some e -> pendingFutures (s_limits (c_s c)) <> Unlimited ->
        Z.of_nat (size (e_pending e)) <= pendingFutures (s_limits (c_s c)))
  /\ (forall i e, s_execs (c_s c) !! i = Some e -> e_phase e = executionPaused ->
        s_tokens (c_s c) !! (i, e_sequence e) = Some false /\ c_owner c !! i = None).
Proof.
  intros Hl Hr. pose proof (reachable_inv _ _ _ Hl Hr) as Hinv. pose proof (in_control c Hinv) as Hctl.
  split_and!.
  - intros i e He Hnf. assert (s_current (c_s c) = Some i) as Hcur by by eapply owned_current. split; [done|].
    destruct (s_controlDone (c_s c)); [|done]. destruct Hctl. congruence.
  - destruct (s_controlDone (c_s c)); [|by rewrite Hctl; cbn; lia]. destruct Hctl as (_ & h & ->). cbn. lia.
  - intros a b Ha Hb. apply (in_attempt c Hinv) in Ha, Hb. congruence.
  - intros i e He. destruct (in_execs c Hinv i e He) as [_ Hok]. apply (xo_pending _ _ _ _ _ _ _ _ Hok).
  - intros i e He Hp. destruct (in_execs c Hinv i e He) as [_ Hok].
    split; [apply (xo_token _ _ _ _ _ _ _ _ Hok); by left|]. by apply (paused_free _ _ _ _ _ _ _ _ Hok (or_introl Hp)).
Qed.

Lemma worker_has_one_owner_witness : limits_ok demo_limits /\ (length (c_ctl demo_stopped) <= 1)%nat.
Proof.
  split; [exact demo_limits_ok|].
  apply (worker_has_one_owner demo_limits 0 demo_stopped); [exact demo_limits_ok|exact demo_stopped_reachable].
Defined.

(** C8. A session ends once: a step never changes the terminal cause that is
    set, or a used snapshot back to an unused one; once it is set, nothing
    more is admitted, no execution stays paused, and an execution that has not
    finished will report the cause. *)
Theorem session_ends_once limits now c c' t :
  limits_ok limits -> reachable limits now c -> step c c' -> s_terminal (c_s c) = Some t ->
  s_terminal (c_s c') = Some t
  /\ (forall k, s_tokens (c_s c) !! k = Some true -> s_tokens (c_s c') !! k = Some true)
  /\ (forall x, exists err, reserveExecution x (c_s c) = Some (inl err, c_s c, []))
  /\ (forall i e, s_execs (c_s c) !! i = Some e -> e_phase e <> executionFinished ->
        e_terminalCause e = Some t /\ e_phase e <> executionPaused /\ is_Some (c_owner c !! i)).
Proof.
  intros Hl Hr Hstep Hterm. pose proof (reachable_inv _ _ _ Hl Hr) as Hinv.
  destruct (step_lasting c c' Hinv Hstep) as [H1 H2]. split_and!; [auto|auto| |].
  - intros x. unfold reserveExecution, check, admissionErrorLocked, ctx_Err, get, mbind, sec_bind. cbn.
    destruct (s_ended (c_s c) !! x); cbn; [eauto|]. rewrite Hterm. cbn. eauto.
  - intros i e He Hnf. destruct (in_execs c Hinv i e He) as [_ Hok].
    assert (e_phase e <> executionPaused) as Hnp by (intros Hp; apply (xo_paused _ _ _ _ _ _ _ _ Hok) in Hp; congruence).
    split_and!; [|done|].
    + rewrite <- Hterm. apply (xo_lost _ _ _ _ _ _ _ _ Hok); [congruence|done].
    + destruct (c_owner c !! i) eqn:Ho; [eauto|]. by destruct (xo_free _ _ _ _ _ _ _ _ Hok Ho) as ([|] & _).
Qed.

Lemma demo_lost_reachable : reachable demo_limits 0 demo_lost.
Proof. eapply rtc_r; [exact demo_stopped_reachable|exact demo_lost_step]. Qed.

Lemma session_ends_once_witness :
  s_terminal (c_s demo_lost) = Some (Sentinel ErrSessionClosed)
  /\ s_terminal (c_s (advance (modify (s_set_now 5)) stays demo_lost)) = Some (Sentinel ErrSessionClosed).
Proof.
  split; [reflexivity|].
  apply (session_ends_once demo_limits 0 demo_lost); [exact demo_limits_ok|exact demo_lost_reachable| |reflexivity].
  eapply (advance_step (modify (s_set_now 5))); [by apply may_tick|done|done].
Defined.



(** What [finishExecution] makes of a stop that nobody settled before. *)
Definition finished_kind (e : execution) (err : option merror) : StopKind :=
  if e_beforeStart e || e_aborted e || (e_delivered e && is_some err) then StopAborted else StopFinished.



(** ** A kill reported as an end

    [abortExecution] resolves the stop as finished after [terminateSession],
    without asking whether the watcher has claimed the kill since it last
    looked at the session: the stop of a run that was killed then says that
    the run finished on its own. *)
Definition race_stopping : config := Eval vm_compute in advance (stopAtBoundary_check 1) (or_else 1 PHost PStopping) demo_stopped.
Definition race_abort : config := Eval vm_compute in advance (abortOrTerminal (Sentinel errExecutionInterrupted))
  (fun r => goes 1 (match r with Some _ => PFinish | None => PAbort end)) race_stopping.
Definition race_turn : config := Eval vm_compute in advance (abortExecution_begin 1) (or_else 1 PAbortTurn (fun _ => PFinish)) race_abort.
Definition race_end : config := Eval vm_compute in advance (receivedTurn 1) (fun _ => goes 1 (received PAbortTurn)) race_turn.
Definition race_late : config := Eval vm_compute in advance (modify (s_set_now (2 * second))) stays race_end.
Definition race_claimed : config := Eval vm_compute in advance (forceExecution_claim 1)
  (fun r c => match r with Claimed _ => set_forcing (<[1 := ()]> (c_forcing c)) c | _ => c end) race_late.
Definition race_over : config := Eval vm_compute in advance (abortExecution_resolve 1) (fun _ => goes 1 PFinish) race_claimed.

Lemma race_force : may race_late (Move (forceExecution_claim 1)
  (fun r c => match r with Claimed _ => set_forcing (<[1 := ()]> (c_forcing c)) c | _ => c end)).
Proof.
  destruct (s_execs (c_s race_late) !! 1) as [e|] eqn:He; [|vm_compute in He; discriminate].
  eapply may_force; [exact He|left]. vm_compute in He. injection He as <-. reflexivity.
Qed.

Lemma race_reachable : reachable demo_limits 0 race_over.
Proof.
  unfold reachable. etransitivity; [exact demo_stopped_reachable|].
  apply (rtc_l _ _ race_stopping); [concrete (stopAtBoundary_check 1) by (by apply may_boundary)|].
  apply (rtc_l _ _ race_abort); [concrete (abortOrTerminal (Sentinel errExecutionInterrupted)) by (by apply (may_decide _ 1))|].
  apply (rtc_l _ _ race_turn); [concrete (abortExecution_begin 1) by (by apply may_abort)|].
  apply (rtc_l _ _ race_end); [concrete (receivedTurn 1) by (by apply (may_receive _ 1 PAbortTurn))|].
  apply (rtc_l _ _ race_late); [concrete (modify (s_set_now (2 * second))) by (by apply may_tick)|].
  apply (rtc_l _ _ race_claimed); [concrete (forceExecution_claim 1) by (exact race_force)|].
  apply rtc_once. concrete (abortExecution_resolve 1) by (by apply (may_abort_lost _ 1)).
Qed.

(** The worker was killed (the session's terminal error says so), and the stop
    reports a run that finished. *)
Example killed_stop_reports_finished :
  reachable demo_limits 0 race_over
  /\ s_terminal (c_s race_over) = Some (SessionKilledError (Some keyboardInterrupt))
  /\ (e ← s_execs (c_s race_over) !! 1; r ← e_stop e; Some (forceClaimed r, resolvedOnce r, kind r))
     = Some (true, true, StopFinished).
Proof. split; [exact race_reachable|]. split; vm_compute; reflexivity. Qed.
