(* ===== verification/SessionErrors.v ===== *)
(** How the failures of a worker reach the caller, and what they do to the
    session: Session.mapError (src/session.go), checkoutError and spawnError
    (src/pool.go), Slot's view of its session (src/slot.go), and the limits a
    runtime sends to a worker (src/runtime.go). *)

From S2P Require Import Prelude Utf8 GoStrings Exceptions Traceback PoolErrors Requests Monterr Stop.
From S2P Require Import SessionLife SessionSteps SessionInv SessionMoves SessionStops SessionClosing SessionFacts.

(** ** Failures of an operation *)

(** What a pool failure becomes, and whether it ends the session ([inl]). *)
Definition pool_outcome (perr : poolError) (cause : option merror) : option (merror + merror) :=
  match pe_kind perr with
  | KindRuntime =>
    match pe_exception perr with
    | None => None
    | Some exc =>
      let result := ErrorFromException exc in
      Some (if pe_workerlost perr then inl (MarkSessionLost result) else inr result)
    end
  | KindTyping => Some (inr (TypingError (pe_diagnostics perr)))
  | KindTimeout => Some (inl (CrashedError (Error_Error perr) true []))
  | KindCrashed => Some (inl (CrashedError (Error_Error perr) false (Status_String (pe_status perr))))
  | KindDisconnected => Some (inl (DisconnectError (Error_Error perr) (pe_closecode perr) (pe_closereason perr)))
  | KindShutdown => Some (inl (ShutdownError (Error_Error perr) (pe_dump perr)))
  | KindCancelled =>
    Some (inl (ProtocolError (Error_Error perr)
      (Some match cause with
            | Some c => Joined (Sentinel ErrTurnCancelled) c
            | None => Sentinel ErrTurnCancelled
            end)))
  | _ => Some (inl (ProtocolError (Error_Error perr) None))
  end.

(** [mapError]; a nil exception of a runtime failure panics. *)
Definition mapError (err : merror) : sec merror :=
  let err := default err (As as_abortedTurn err) in
  match As as_pool err with
  | None => if Is err ErrSessionLost then terminateSession err else mret err
  | Some (perr, cause) =>
    terminal ← Session_Err;
    match terminal with
    | Some t => mret t
    | None =>
      match pool_outcome perr cause with
      | None => panics
      | Some (inl lost) => terminateSession lost
      | Some (inr result) => mret result
      end
    end
  end.

Definition spawnError (err : merror) : merror :=
  match As as_pool err with
  | Some (perr, _) => match pe_kind perr with KindSpawn => SpawnError (Error_Error perr) | _ => err end
  | None => err
  end.

Definition checkoutError (err : merror) : option merror :=
  match As as_pool err with
  | None => Some err
  | Some (perr, cause) =>
    match pe_kind perr with
    | KindExhausted => Some (Sentinel ErrCheckoutTimeout)
    | KindClosed => Some (Sentinel ErrPoolClosed)
    | KindSpawn => Some (SpawnError (Error_Error perr))
    | KindCrashed => Some (CrashedError (Error_Error perr) false (Status_String (pe_status perr)))
    | KindTimeout => Some (CrashedError (Error_Error perr) true [])
    | KindDisconnected => Some (DisconnectError (Error_Error perr) 0 [])
    | KindShutdown => Some (ShutdownError (Error_Error perr) (pe_dump perr))
    | KindRuntime => option_map ErrorFromException (pe_exception perr)
    | KindCancelled =>
      Some match cause with Some c => c | None => ProtocolError (Error_Error perr) None end
    | _ => Some (ProtocolError (Error_Error perr) None)
    end
  end.

(** ** A slot *)

(** [s]: the state of the session it holds, if any. *)
Record Slot := MkSlot { k_session : option SessionState; k_closed : bool }.

Definition Slot_State (k : Slot) : SessionState :=
  if k_closed k then SessionClosed
  else match k_session k with
       | None | Some SessionClosed => SessionIdle
       | Some st => st
       end.

(** [idle], for what [Pool.Checkout] gives (the new session is idle, or it
    fails): the slot after it and whether there is a session to use. *)
Definition Slot_idle (checkout : option merror) (serr : merror) (k : Slot) : (merror + ()) * Slot :=
  if k_closed k then (inl (Sentinel ErrSessionClosed), k)
  else
    let '(acquired, k) :=
      match k_session k with
      | Some SessionClosed | None =>
        match checkout with
        | Some err => (inl err, k)
        | None => (inr SessionIdle, MkSlot (Some SessionIdle) false)
        end
      | Some st => (inr st, k)
      end in
    match acquired with
    | inl err => (inl err, k)
    | inr SessionIdle => (inr (), k)
    | inr SessionClosed => (inl serr, k)
    | inr _ => (inl (Sentinel ErrSessionBusy), k)
    end.

Definition Slot_Close (k : Slot) : option SessionState * Slot := (k_session k, MkSlot None true).

(** ** Limits on the wire *)

Record ResourceLimits := MkResourceLimits {
  MaxDuration : Z; MaxMemory : Z; GCInterval : Z; MaxRecursionDepth : Z; MaxSuspensions : Z }.

Definition UnlimitedDuration : Z := MaxInt64.

Definition wireLimits (l : option ResourceLimits) : merror + limits :=
  match l with
  | None => inr (Limits None None None (Some 1000) (Some 1000))
  | Some l =>
    if MaxDuration l <? 0 then
      inl (OptionError (go "invalid maxDurationSecs: can not convert float seconds to Duration: value is negative"))
    else if MaxRecursionDepth l =? Unlimited then inl (OptionError (go "maxRecursionDepth cannot be unlimited"))
    else
      inr (Limits
        (if (0 <? MaxDuration l) && negb (MaxDuration l =? UnlimitedDuration) then Some (MaxDuration l / 1000) else None)
        (if (0 <? MaxMemory l) && negb (MaxMemory l =? Unlimited) then Some (MaxMemory l) else None)
        (if 0 <? GCInterval l then Some (GCInterval l) else None)
        (Some (if 0 <? MaxRecursionDepth l then MaxRecursionDepth l else 1000))
        (Some (if 0 <? MaxSuspensions l then MaxSuspensions l else 1000)))
  end.

(** [Runtime.configure], for the configuration and limits of the runtime. *)
Definition Runtime_configure (config : configure) (own : option ResourceLimits) (scriptName : bytes)
    (override : option ResourceLimits) : configure * option merror :=
  let script := if bool_decide (scriptName = []) then go "main.py" else scriptName in
  let set_limits l := Configure script l (cf_typecheck config) (cf_stubs config) (cf_version config)
    (cf_annotations config) (cf_format config) (cf_color config) (cf_protocol config) (cf_flush config) in
  let limits := match override with Some _ => override | None => own end in
  match wireLimits limits with
  | inl err => (set_limits (cf_limits config), Some err)
  | inr wl => (set_limits (Some wl), None)
  end.

(** The print flush interval of [NewRuntime]: whole milliseconds in 32 bits, at
    least one for a positive interval. *)
Definition flush_ms (d : Z) : option Z :=
  if d <? 0 then None
  else if d =? 0 then Some 0
  else
    let v := d / 1000000 in
    Some (if v <? 1 then 1 else if 2 ^ 32 - 1 <? v then 2 ^ 32 - 1 else v).

(** ** What a failure does to the session *)

(** A runtime failure of the pool carries its exception. *)
Definition failure_ok (err : merror) : Prop :=
  forall perr cause, As as_pool (default err (As as_abortedTurn err)) = Some (perr, cause) ->
    pe_kind perr = KindRuntime -> pe_exception perr <> None.

(** The pool failures that leave the worker usable. *)
Definition survivable (perr : poolError) : bool :=
  match pe_kind perr with KindRuntime => negb (pe_workerlost perr) | KindTyping => true | _ => false end.

(** The errors that end a session say so, but for a syntax error. *)
Definition says_lost (err : merror) : Prop :=
  Is err ErrSessionLost = true \/ exists m tb, err = SyntaxError m tb.

Section mapping.

Lemma terminate_result c err : inv c -> err <> Sentinel errDeliverStop ->
  wp (terminateSession err) (fun r s _ => s_terminal s = Some r
    /\ r = match s_terminal (c_s c) with Some t => t | None => err end) (c_s c).
Proof.
  intros Hinv Herr. unfold terminateSession. exec. apply wp_set_terminal; [done..|]. intros t m n _ Hterm Ht.
  assert (t = match s_terminal (c_s c) with Some t => t | None => err end) as Ht'
    by (destruct Hterm as [[-> ->]| ->]; done).
  destruct (s_current (c_s c)) as [i|] eqn:Hcur; [|exec; done].
  destruct (any_exec c i Hinv (in_current c Hinv i Hcur)) as (e & He & Hok & Hpaused).
  exec. unfold in_phase. cbn. case_bool_decide as Hp; [destruct (Hpaused Hp) as (? & ? & ?)|]; exec; done.
Qed.

(** A pool failure that ends the session turns into an error that says so. *)
Lemma outcome_says_lost perr cause lost : pool_outcome perr cause = Some (inl lost) ->
  survivable perr = false /\ says_lost lost /\ lost <> Sentinel errDeliverStop.
Proof.
  unfold pool_outcome, survivable. destruct (pe_kind perr); intros; simplify_eq/=;
    try (split; [done|split; [by left|done]]).
  destruct (pe_exception perr) as [exc|]; [|done]. destruct (pe_workerlost perr); simplify_eq/=. split; [done|].
  unfold ErrorFromException, says_lost. case_bool_decide; cbn; [|naive_solver].
  split; [|done]. right. eauto.
Qed.

Lemma outcome_kept perr cause r : pool_outcome perr cause = Some (inr r) -> survivable perr = true.
Proof.
  unfold pool_outcome, survivable. destruct (pe_kind perr); intros; simplify_eq/=; [|done].
  destruct (pe_exception perr); [|done]. by destruct (pe_workerlost perr).
Qed.

Lemma outcome_total perr cause : (pe_kind perr = KindRuntime -> pe_exception perr <> None) -> pool_outcome perr cause <> None.
Proof.
  unfold pool_outcome. destruct (pe_kind perr); try done. intros H. specialize (H eq_refl).
  destruct (pe_exception perr); [|done]. by destruct (pe_workerlost perr).
Qed.
End mapping.

(** C11. A failure either leaves the session untouched or ends it: mapError
    never panics and never replaces a terminal cause. A pool failure of a live
    session ends it exactly when it took the worker with it (anything but an
    exception the sandbox raised or a type error), any other error exactly
    when it says that the session is lost; and what the caller is told is then
    the session's terminal error, which says so too (a syntax error apart). *)
Theorem failures_map limits now c err :
  limits_ok limits -> reachable limits now c -> failure_ok err ->
  exists r s l, mapError err (c_s c) = Some (r, s, l)
    /\ (s = c_s c \/ (s_terminal s = Some r /\ (s_terminal (c_s c) = None -> says_lost r)))
    /\ (forall t, s_terminal (c_s c) = Some t -> s_terminal s = Some t)
    /\ (s_terminal (c_s c) = None ->
        let base := default err (As as_abortedTurn err) in
        (s_terminal s = None <->
         match As as_pool base with Some (perr, _) => survivable perr = true | None => Is base ErrSessionLost = false end)).
Proof.
  intros Hl Hr Hok. pose proof (reachable_inv _ _ _ Hl Hr) as Hinv.
  unfold mapError. set (base := default err _). unfold failure_ok in Hok. fold base in Hok.
  assert (forall t, t <> Sentinel errDeliverStop -> exists r s l, terminateSession t (c_s c) = Some (r, s, l)
    /\ s_terminal s = Some r /\ r = match s_terminal (c_s c) with Some t => t | None => t end) as Hend.
  { intros t Ht. destruct (wp_run _ _ _ (terminate_result c t Hinv Ht)) as (r & s & l & H). eauto 10. }
  destruct (As as_pool base) as [[perr cause]|] eqn:Hp.
  - unfold Session_Err, mbind, sec_bind, get. cbn. destruct (s_terminal (c_s c)) as [t|] eqn:Hterm.
    { exists t, (c_s c), []. cbn. split_and!; [done|by left|congruence|done]. }
    pose proof (outcome_total perr cause (Hok perr cause eq_refl)) as Htot.
    destruct (pool_outcome perr cause) as [[lost|r]|] eqn:Ho; [| |done].
    + destruct (outcome_says_lost _ _ _ Ho) as (Hsv & Hsl & Hd). destruct (Hend lost Hd) as (r & s & l & Hrun & Hs & ->).
      rewrite Hrun. eexists _, s, _. split_and!; [reflexivity|right; rewrite Hs; done|done|]. intros _. rewrite Hs, Hsv. done.
    + exists r, (c_s c), []. split_and!; [done|by left|congruence|]. intros _. rewrite (outcome_kept _ _ _ Ho), Hterm. done.
  - destruct (Is base ErrSessionLost) eqn:Hlost.
    + assert (base <> Sentinel errDeliverStop) as Hd by (intros E; by rewrite E in Hlost).
      destruct (Hend base Hd) as (r & s & l & Hrun & Hs & Hr'). rewrite Hrun. exists r, s, l.
      split_and!; [done|right; split; [done|]|intros t Ht; rewrite Ht in Hr'; by subst|intros _; rewrite Hs; done].
      intros Hn. rewrite Hn in Hr'. subst r. by left.
    + exists base, (c_s c), []. split_and!; [done|by left|done|]. intros Hn. by rewrite Hn.
Qed.

Lemma failures_map_witness :
  exists r s l, mapError (PoolFailure (new_error KindShutdown []) None) (c_s demo_stopped) = Some (r, s, l)
    /\ says_lost r.
Proof.
  destruct (failures_map demo_limits 0 demo_stopped (PoolFailure (new_error KindShutdown []) None) demo_limits_ok demo_stopped_reachable)
    as (r & s & l & Hrun & H & _ & Hiff).
  { intros perr cause [= <- <-]. done. }
  exists r, s, l. split; [done|]. destruct (Hiff eq_refl) as [Hiff1 _]. cbn in Hiff1.
  destruct H as [->|[_ H]]; [by specialize (Hiff1 eq_refl)|by apply H].
Defined.

(** A worker that dies with a syntax error ends the session with an error that
    does not match [ErrSessionLost]. *)
Example syntax_error_not_lost :
  let exc := NewException (go "SyntaxError") [] in
  let perr := PoolError KindRuntime [] false unknown_status 0 (Some exc) [] [] false 0 [] true false in
  exists lost, pool_outcome perr None = Some (inl lost) /\ Is lost ErrSessionLost = false.
Proof. eexists. split; reflexivity. Qed.

(** A limit of [Unlimited] on memory is sent like no limit at all. *)
Example unlimited_memory_is_default :
  wireLimits (Some (MkResourceLimits 0 Unlimited 0 0 0)) = wireLimits (Some (MkResourceLimits 0 0 0 0 0)).
Proof. reflexivity. Qed.

(** A slot hands out a session exactly when it is open and its session is not
    busy: a lost one is replaced, unless the checkout fails. *)
Lemma slot_idle_iff checkout serr k :
  (exists k', Slot_idle checkout serr k = (inr (), k')) <->
  k_closed k = false /\ (Slot_State k = SessionIdle)
  /\ (k_session k = Some SessionIdle \/ checkout = None).
Proof.
  unfold Slot_idle, Slot_State. destruct (k_closed k); [naive_solver|].
  destruct (k_session k) as [[]|] eqn:E, checkout; naive_solver.
Qed.
