(* ===== verification/Rotation.v ===== *)
(** Moving a session to a fresh connection before its server closes the old
    one (src/rotation.go), the limits a server reports (src/serverinfo.go), and
    dialing under a recovery policy (src/supervisor.go).

    Durations are 64-bit and wrap around; a difference of times saturates, as
    [time.Time.Sub] does. *)

From S2P Require Import Prelude Utf8 GoStrings Exceptions PoolErrors Monterr Stop.

(** ** What a server reports *)

(** [seconds]: [time.Duration(s) * time.Second], capped. *)
Definition maxSeconds : Z := (2 ^ 63 - 1) / second.
Definition seconds (s : Z) : Z := int64 ((if maxSeconds <? s then maxSeconds else s) * second).

(** The fields of [serverInfoJSON], with its limits, and of [ServerInfo], whose
    durations are nanoseconds. *)
Record limitsJSON := MkLimitsJSON {
  IdleTimeoutS : Z; KeepaliveS : Z; SessionTimeoutS : Z; TurnTimeoutS : Z; MaxDurationS : Z;
  MaxMemoryBytes : Z; js_MaxRecursionDepth : Z; js_MaxSessions : Z; js_MaxSessionsPerClient : Z }.
Record serverInfoJSON := MkInfoJSON {
  js_Version : bytes; js_MontyRev : bytes; js_ProtocolVersion : Z; js_Limits : limitsJSON }.
Record ServerLimits := MkServerLimits {
  IdleTimeout : Z; Keepalive : Z; SessionTimeout : Z; TurnTimeout : Z; sl_MaxDuration : Z;
  MaxMemory : Z; MaxRecursionDepth : Z; MaxSessions : Z; MaxSessionsPerClient : Z }.
Record ServerInfo := MkServerInfo { Version : bytes; MontyRev : bytes; si_ProtocolVersion : Z; Limits : ServerLimits }.

Definition toServerInfo (j : serverInfoJSON) : ServerInfo :=
  let l := js_Limits j in
  MkServerInfo (js_Version j) (js_MontyRev j) (js_ProtocolVersion j)
    (MkServerLimits (seconds (IdleTimeoutS l)) (seconds (KeepaliveS l)) (seconds (SessionTimeoutS l))
       (seconds (TurnTimeoutS l)) (seconds (MaxDurationS l)) (MaxMemoryBytes l) (js_MaxRecursionDepth l)
       (js_MaxSessions l) (js_MaxSessionsPerClient l)).

(** ** The policy *)

Definition defaultRotationMargin : Z := 30 * second.

Record rotationPolicy := MkRotation { sessionTimeout : Z; turnTimeout : Z; rp_margin : Z }.

Definition newRotationPolicy (info : option ServerInfo) (margin : Z) : option rotationPolicy :=
  match info with
  | None => None
  | Some info =>
    let l := Limits info in
    let margin := if margin =? 0 then defaultRotationMargin else margin in
    if (SessionTimeout l <=? 0) || (TurnTimeout l <=? 0)
       || (SessionTimeout l <? int64 (2 * int64 (TurnTimeout l + margin)))
    then None
    else Some (MkRotation (SessionTimeout l) (TurnTimeout l) margin)
  end.

(** [t.Sub(u)]: the nearest duration. *)
Definition time_Sub (t u : Z) : Z := Z.max (- 2 ^ 63) (Z.min (2 ^ 63 - 1) (t - u)).

Definition due (r : rotationPolicy) (deadline now : Z) : bool :=
  time_Sub deadline now <=? int64 (turnTimeout r + rp_margin r).

(** ** A connection *)

(** The timer of a connection: when it fires, and whether it was stopped. *)
Record connection := MkConnection { cn_deadline : Z; cn_timer : option Z; rotating : option nat }.

Definition beginRotation (ch : nat) (c : connection) : connection := MkConnection (cn_deadline c) (cn_timer c) (Some ch).
Definition endRotation (ch : nat) (c : connection) : connection :=
  MkConnection (cn_deadline c) (cn_timer c) (if bool_decide (rotating c = Some ch) then None else rotating c).
Definition disarm (c : connection) : connection := MkConnection (cn_deadline c) None (rotating c).
Definition conn_set (deadline : Z) (timer : option Z) (c : connection) : connection :=
  MkConnection deadline timer (rotating c).

(** [armRotation]: the deadline, and the time at which the timer fires. *)
Definition armRotation (r : option rotationPolicy) (dialStart : Z) (c : connection) : connection :=
  match r with
  | None => conn_set 0 None c
  | Some r =>
    let deadline := dialStart + sessionTimeout r in
    conn_set deadline (Some (deadline - rp_margin r)) c
  end.

(** ** Rotating *)

(** What [rotateLocked] calls, in order. *)
Inductive rotate_call {co : Type} :=
| RBegin | RDump | RStopWatch | RHandoff | RBind (state : bytes) | RRelease
| RAttach (c : co) | RTerminate (err : merror) | REnd.
Arguments rotate_call : clear implicits.

Section rotating.
Context {co : Type}.

(** What the old checkout, its reservation and the pool answer. *)
Variable Dump : merror + bytes.
Variable Handoff : option merror.
Variable bind : bytes -> merror + co.
(** Whether the connection has a watch to stop. *)
Variable watched : bool.

Definition failRotation (dump : bytes) (doing : string) (cause : merror) : list (rotate_call co) * option merror :=
  let err := RotationError (go doing ++ go ": " ++ Error cause) dump cause in
  ([RTerminate err; REnd], Some err).

Definition rotateLocked : list (rotate_call co) * option merror :=
  let after pre r := (pre ++ r.1, r.2) in
  after [RBegin; RDump]
    match Dump with
    | inl err => failRotation [] "dump before rotation failed" err
    | inr state =>
      after ((if watched then [RStopWatch] else []) ++ [RHandoff])
        match Handoff with
        | Some err => failRotation state "handoff before rotation failed" err
        | None =>
          after [RBind state]
            match bind state with
            | inl err => after [RRelease] (failRotation state "reconnect during rotation failed" err)
            | inr c => ([RAttach c; REnd], None)
            end
        end
    end.

(** [rotateIfDue]: what [awaitRotation] returned, the connection's deadline and
    the clock as read before and after the reservation, and whether the session
    could be reserved. [None] for the calls: nothing was rotated. *)
Definition rotateIfDue (r : option rotationPolicy) (await : option merror) (deadline1 now1 : Z) (reserved : bool)
    (deadline2 now2 : Z) : option (list (rotate_call co)) * option merror :=
  match r with
  | None => (None, None)
  | Some r =>
    match await with
    | Some err => (None, Some err)
    | None =>
      if negb (due r deadline1 now1) then (None, None)
      else if negb reserved then (None, None)
      else if negb (due r deadline2 now2) then (None, None)
      else let '(calls, err) := rotateLocked in (Some calls, err)
    end
  end.
End rotating.

(** ** Recovery *)

Record RecoveryPolicy := MkRecovery { Attempts : Z; AttemptTimeout : Z; RestartServer : bool }.

Definition attempts (p : RecoveryPolicy) : Z := if Attempts p =? 0 then 3 else Attempts p.
Definition attemptTimeout (p : RecoveryPolicy) : Z := if AttemptTimeout p =? 0 then 5 * second else AttemptTimeout p.

(** [retryableDialError], for what the parent context says. *)
Definition retryableDialError (parent : option merror) (err : merror) : bool :=
  match parent with
  | Some _ => false
  | None =>
    if Is err ErrDeadlineExceeded || Is err ErrSupervisorClosed then true
    else match As as_pool err with
         | Some (perr, _) =>
           match pe_kind perr with KindSpawn | KindDisconnected | KindCrashed | KindTimeout => true | _ => false end
         | None => false
         end
  end.

Section recovery.
Context {endpoint checkout : Type}.

(** What attempt [n] meets: the context before it, the supervisor's endpoint,
    the dial, and the context as it is read twice after a failed dial. *)
Record attempt := MkAttempt {
  at_ctx : option merror; at_endpoint : merror + endpoint; at_bind : merror + checkout;
  at_after : option merror; at_late : option merror }.

Variable world : nat -> attempt.
(** An endpoint without a URL cannot be restarted. *)
Variable has_url : endpoint -> bool.
(** What [restartOnce] returns. *)
Variable restart : endpoint -> option merror.

(** The variables of [Do]; [d_binds] and [d_restarts] log what it called. *)
Record dialing := MkDialing {
  d_last : option merror; d_lastEP : option endpoint; d_attempts : nat; d_binds : list endpoint; d_restarts : list endpoint }.

Inductive dialed := Dialed (co : checkout) (d : dialing) | Gave (err : merror) (d : dialing) | Failed (d : dialing).

(** The inner loop: [n] more attempts. *)
Fixpoint dial_round (n : nat) (d : dialing) : dialed :=
  match n with
  | O => Failed d
  | S n =>
    let w := world (d_attempts d) in
    match at_ctx w with
    | Some err => Gave err d
    | None =>
      match at_endpoint w with
      | inl err => dial_round n (MkDialing (Some err) (d_lastEP d) (S (d_attempts d)) (d_binds d) (d_restarts d))
      | inr ep =>
        let d := MkDialing (d_last d) (d_lastEP d) (S (d_attempts d)) (ep :: d_binds d) (d_restarts d) in
        match at_bind w with
        | inr co => Dialed co d
        | inl err =>
          if negb (retryableDialError (at_after w) err)
          then Gave (match at_late w with Some cerr => cerr | None => err end) d
          else dial_round n (MkDialing (Some err) (Some ep) (d_attempts d) (d_binds d) (d_restarts d))
        end
      end
    end
  end.

Definition dial_start : dialing := MkDialing None None 0 [] [].

(** [Do]: two rounds, with a restart between them. *)
Definition Do (p : RecoveryPolicy) : dialed :=
  let n := Z.to_nat (attempts p) in
  match dial_round n dial_start with
  | Failed d =>
    let give d := Gave (default (HostError 0 (go "no dial attempt was made")) (d_last d)) d in
    match d_lastEP d with
    | Some ep =>
      if negb (RestartServer p) || negb (has_url ep) then give d
      else
        let d := MkDialing (d_last d) (d_lastEP d) (d_attempts d) (d_binds d) (ep :: d_restarts d) in
        match restart ep with
        | Some err =>
          let failed := Wrapped (go "restart server: ") err in
          Gave (match d_last d with Some l => Joined l failed | None => failed end) d
        | None =>
          match dial_round n d with
          | Failed d => give d
          | r => r
          end
        end
    | None => give d
    end
  | r => r
  end.

Definition dialing_of (r : dialed) : dialing := match r with Dialed _ d | Gave _ d | Failed d => d end.
End recovery.

(** [Pool.bind]: the failure with the number of attempts. *)
Definition bind_error (attempts : nat) (err : merror) : merror :=
  Wrapped (go "after " ++ itoa (Z.of_nat attempts) ++ go " attempts: ") err.

(** ** One restart per incident *)

(** A restart of the server behind a URL: finished ([fl_completed], with its
    error), or under way. [started] logs each restart with the failure that led
    to it, [finished] when it was complete, the newest first. *)
Record restartFlight := MkFlight { fl_id : nat; fl_completed : option (Z * option merror) }.

Record restarter := MkRestarter {
  flights : gmap bytes restartFlight; started : list (bytes * nat * Z); finished : list (bytes * nat * Z) }.

Inductive joined := JReturns (err : option merror) | JWaits (id : nat) | JStarts (id : nat).

(** The critical section of [restartOnce]; the clock that stamps a completion
    never shows the zero time. *)
Definition restartOnce (url : bytes) (failedAt : Z) (r : restarter) : joined * restarter :=
  let fresh := length (started r) in
  let start := (JStarts fresh, MkRestarter (<[url := MkFlight fresh None]> (flights r))
                                 ((url, fresh, failedAt) :: started r) (finished r)) in
  match flights r !! url with
  | Some f =>
    match fl_completed f with
    | Some (at_, err) => if failedAt <? at_ then (JReturns err, r) else start
    | None => (JWaits (fl_id f), r)
    end
  | None => start
  end.

(** The end of the goroutine of flight [id]. *)
Definition restart_done (url : bytes) (id : nat) (now : Z) (err : option merror) (r : restarter) : restarter :=
  match flights r !! url with
  | Some f =>
    if bool_decide (fl_id f = id) && negb (match fl_completed f with Some _ => true | None => false end)
    then MkRestarter (<[url := MkFlight id (Some (now, err))]> (flights r)) (started r) ((url, id, now) :: finished r)
    else r
  | None => r
  end.

Inductive restart_op := ROnce (url : bytes) (failedAt : Z) | RDone (url : bytes) (id : nat) (now : Z) (err : option merror).

Definition restart_do (op : restart_op) (r : restarter) : restarter :=
  match op with
  | ROnce url failedAt => (restartOnce url failedAt r).2
  | RDone url id now err => restart_done url id now err r
  end.

Definition restart_run (ops : list restart_op) : restarter := foldl (fun r op => restart_do op r) (MkRestarter ∅ [] []) ops.

(** ** Rotation leaves time for a turn *)

Lemma due_spec r deadline now :
  - 2 ^ 63 <= turnTimeout r + rp_margin r < 2 ^ 63 - 1 ->
  due r deadline now = bool_decide (deadline <= now + (turnTimeout r + rp_margin r)).
Proof.
  intros H. unfold due, time_Sub. rewrite int64_small by lia.
  destruct (Z.leb_spec (Z.max (- 2 ^ 63) (Z.min (2 ^ 63 - 1) (deadline - now))) (turnTimeout r + rp_margin r));
    symmetry; [apply bool_decide_eq_true_2|apply bool_decide_eq_false_2]; lia.
Qed.

Lemma seconds_range s : 0 <= s -> 0 <= seconds s < 2 ^ 63 /\ seconds s <= s * second.
Proof.
  intros Hs. unfold seconds, maxSeconds, second.
  change ((2 ^ 63 - 1) / 1000000000) with 9223372036.
  case_match; rewrite int64_small; lia.
Qed.


Definition sample_info (session turn : Z) : serverInfoJSON :=
  MkInfoJSON [] [] 1 (MkLimitsJSON 0 0 session turn 0 0 0 0 0).


(** A turn timeout of centuries makes [2*(l.TurnTimeout+margin)] negative, and a
    policy is in force whose connections are due as soon as they are dialed. *)
Example rotation_overflows :
  exists r, newRotationPolicy (Some (toServerInfo (sample_info 300 5000000000))) 0 = Some r /\
            forall c, due r (cn_deadline (armRotation (Some r) 0 c)) 0 = true.
Proof. eexists. split; [vm_compute; reflexivity|]. intros c. vm_compute. reflexivity. Qed.

(** ** A rotation moves the state or says what became of it *)

Definition ended {co} (c : rotate_call co) : option merror := match c with RTerminate e => Some e | _ => None end.
Definition attached {co} (c : rotate_call co) : option co := match c with RAttach x => Some x | _ => None end.
Definition released {co} (c : rotate_call co) : option () := match c with RRelease => Some () | _ => None end.
Definition bound {co} (c : rotate_call co) : option bytes := match c with RBind b => Some b | _ => None end.

(** What a failed rotation leaves of the session's state and capacity. *)
Definition rotation_lost {co} (Dump : merror + bytes) (Handoff : option merror) (bind : bytes -> merror + co)
    (calls : list (rotate_call co)) (e cause : merror) : Prop :=
  match Dump with
  | inl err => cause = err /\ RHandoff ∉ calls
  | inr state =>
    (exists m, e = RotationError m state cause) /\
    match Handoff with
    | Some err => cause = err /\ omap bound calls = [] /\ omap released calls = []
    | None => bind state = inl cause /\ omap bound calls = [state] /\ omap released calls = [()]
    end
  end.

(** A rotation either binds a fresh checkout from exactly the bytes the old
    one dumped, attaches it and ends nothing, or ends the session once, with an
    error that says the session is lost, matches whatever its cause matches and
    carries the dump if there is one; capacity that was handed over is then
    released exactly once. The rotation is announced as over last of all. *)
Theorem rotation_moves_state {co : Type} (Dump : merror + bytes) (Handoff : option merror) (bind : bytes -> merror + co) (watched : bool) :
  let '(calls, err) := rotateLocked Dump Handoff bind watched in
  last calls = Some REnd /\
  match err with
  | None => exists state c, Dump = inr state /\ Handoff = None /\ bind state = inr c /\
      omap bound calls = [state] /\ omap attached calls = [c] /\ omap released calls = [] /\ omap ended calls = []
  | Some e => exists cause, omap ended calls = [e] /\ omap attached calls = [] /\ Is e ErrSessionLost = true /\
      (forall target, Is cause target = true -> Is e target = true) /\ rotation_lost Dump Handoff bind calls e cause
  end.
Proof.
  unfold rotateLocked, failRotation, rotation_lost.
  destruct Dump as [err|state]; [|destruct Handoff as [err|]; [|destruct (bind state) as [err|c] eqn:Hb]];
    destruct watched; cbn; (split; [done|]); eexists; repeat (split || eexists); try done;
    try (intros target ->; apply orb_true_r); try set_solver.
Qed.

(** ** Dialing is bounded *)

Section recovery_facts.
Context {endpoint checkout : Type} (world : nat -> attempt (endpoint := endpoint) (checkout := checkout)).
Context (has_url : endpoint -> bool) (restart : endpoint -> option merror).
Notation attempt := (attempt (endpoint := endpoint) (checkout := checkout)).
Notation dialed := (dialed (endpoint := endpoint) (checkout := checkout)).

(** An attempt after which another may be made. *)
Definition again (w : attempt) : bool :=
  match at_ctx w, at_endpoint w, at_bind w with
  | None, inl _, _ => true
  | None, inr _, inl err => retryableDialError (at_after w) err
  | _, _, _ => false
  end.

(** An attempt that gave the checkout. *)
Definition gave (w : attempt) (co : checkout) : Prop :=
  at_ctx w = None /\ (exists ep, at_endpoint w = inr ep) /\ at_bind w = inr co.

(** An attempt after which the dial is given up with [err]. *)
Definition given_up (w : attempt) (err : merror) : Prop :=
  at_ctx w = None /\ exists ep e, at_endpoint w = inr ep /\ at_bind w = inl e /\ retryableDialError (at_after w) e = false /\
    err = default e (at_late w).

(** What [n] attempts from attempt [m] on amount to. *)
Definition round_post (m n : nat) (r : dialed) : Prop :=
  let k := d_attempts (dialing_of r) in
  match r with
  | Dialed co _ => exists i, k = S i /\ (m <= i < m + n)%nat /\ (forall j, (m <= j < i)%nat -> again (world j) = true) /\ gave (world i) co
  | Gave err _ => (m <= k <= m + n)%nat /\
      ((exists i, k = S i /\ (forall j, (m <= j < i)%nat -> again (world j) = true) /\ given_up (world i) err) \/
       ((forall j, (m <= j < k)%nat -> again (world j) = true) /\ at_ctx (world k) = Some err))
  | Failed _ => k = (m + n)%nat /\ forall j, (m <= j < k)%nat -> again (world j) = true
  end.

Lemma round_post_next m n r :
  again (world m) = true -> round_post (S m) n r -> round_post m (S n) r.
Proof.
  intros Ha H. assert (forall j : nat, (m <= j)%nat -> j = m \/ (S m <= j)%nat) as Hj by lia.
  unfold round_post in *. destruct r as [co d|err d|d]; cbn [dialing_of] in *.
  - destruct H as (i & -> & Hi & Hf & Hg). exists i. split_and!; [done|lia|lia| |done].
    intros j Hjm. destruct (Hj j ltac:(lia)) as [->|]; [done|apply Hf; lia].
  - destruct H as [Hk [(i & Hki & Hf & Hg)|[Hf Hg]]]; (split; [lia|]); [left; exists i|right]; split_and!; try done;
      intros j Hjm; (destruct (Hj j ltac:(lia)) as [->|]; [done|apply Hf; lia]).
  - destruct H as [-> Hf]. split; [lia|]. intros j Hjm. destruct (Hj j ltac:(lia)) as [->|]; [done|apply Hf; lia].
Qed.

Lemma dial_round_post n d : round_post (d_attempts d) n (dial_round world n d).
Proof.
  revert d. induction n as [|n IH]; intros d; cbn [dial_round].
  { split; cbn; lia. }
  destruct (at_ctx (world (d_attempts d))) as [err|] eqn:Hc.
  { split; cbn; [lia|]. right. split; [lia|done]. }
  destruct (at_endpoint (world (d_attempts d))) as [err|ep] eqn:He.
  { apply round_post_next; [unfold again; by rewrite Hc, He|]. apply IH. }
  destruct (at_bind (world (d_attempts d))) as [err|co] eqn:Hb.
  2: { exists (d_attempts d). cbn. split; [done|]. split; [lia|]. split; [lia|]. split; [done|]. by eauto. }
  destruct (retryableDialError _ err) eqn:Hr; cbn [negb].
  - apply round_post_next; [unfold again; by rewrite Hc, He, Hb|]. apply IH.
  - split; cbn; [lia|]. left. exists (d_attempts d). split_and!; try lia. split; [done|].
    exists ep, err. split_and!; try done.
Qed.

(** Each attempt dials at most one endpoint, and a round restarts nothing. *)
Lemma dial_round_logs n d :
  let d' := dialing_of (dial_round world n d) in
  d_restarts d' = d_restarts d /\ (length (d_binds d') + d_attempts d <= d_attempts d' + length (d_binds d))%nat.
Proof.
  cbn. revert d. induction n as [|n IH]; intros d; cbn [dial_round]; [split; cbn; [done|lia]|].
  destruct (at_ctx _); [split; cbn; [done|lia]|].
  destruct (at_endpoint _) as [|ep]; [|destruct (at_bind _) as [err|]; [|split; cbn; [done|lia]]];
    [|destruct (negb _); [split; cbn; [done|lia]|]];
    (match goal with |- context [dial_round world n ?d'] => destruct (IH d') as [H1 H2] end);
    cbn in *; (split; [done|lia]).
Qed.

(** What [Do] promises of its result, with [n] attempts a round. *)
Definition do_post (p : RecoveryPolicy) (n : nat) (r : dialed) : Prop :=
  let d := dialing_of r in
  let k := d_attempts d in
  (k <= 2 * n)%nat /\ (length (d_binds d) <= k)%nat /\
  (d_restarts d = [] /\ (k <= n)%nat \/
   exists ep, d_restarts d = [ep] /\ RestartServer p = true /\ has_url ep = true /\ (n <= k)%nat /\
              (n < k -> restart ep = None)%nat) /\
  (forall j, (S j < k)%nat -> again (world j) = true) /\
  match r with
  | Dialed co _ => exists i, k = S i /\ gave (world i) co
  | Gave err _ => (exists i, k = S i /\ given_up (world i) err) \/ at_ctx (world k) = Some err \/
      (k = n \/ k = (2 * n)%nat) /\ (forall j, (j < k)%nat -> again (world j) = true)
  | Failed _ => False
  end.

(** The first round failed, and no second one is made. *)
Lemma give_post p n err d :
  d_attempts d = n -> (length (d_binds d) <= n)%nat -> (forall j, (j < n)%nat -> again (world j) = true) ->
  d_restarts d = [] \/ (exists ep, d_restarts d = [ep] /\ RestartServer p = true /\ has_url ep = true) ->
  do_post p n (Gave err d).
Proof.
  intros Hk Hb Hf Hr. unfold do_post. cbn [dialing_of]. rewrite Hk.
  split_and!; [lia|lia| |intros; apply Hf; lia|].
  - destruct Hr as [Hr|(ep & Hr & Hp & Hu)]; [left; split; [done|lia]|right; exists ep; split_and!; try done; lia].
  - right; right. split; [by left|done].
Qed.

(** A round from attempt [m] on, all before which failed, decides the result. *)
Lemma round_decides p n m r :
  round_post m n r -> (m = 0 \/ m = n)%nat ->
  (forall j, (j < m)%nat -> again (world j) = true) ->
  (length (d_binds (dialing_of r)) <= d_attempts (dialing_of r))%nat ->
  (d_restarts (dialing_of r) = [] /\ m = 0%nat \/
   exists ep, d_restarts (dialing_of r) = [ep] /\ RestartServer p = true /\ has_url ep = true /\ restart ep = None /\ m = n) ->
  match r with
  | Failed d => m = n -> forall err, do_post p n (Gave err d)
  | r => do_post p n r
  end.
Proof.
  intros H Hm Hf Hb Hr.
  assert (forall k, (m <= k <= m + n)%nat -> d_attempts (dialing_of r) = k ->
    (k <= 2 * n)%nat /\
    (d_restarts (dialing_of r) = [] /\ (k <= n)%nat \/
     exists ep, d_restarts (dialing_of r) = [ep] /\ RestartServer p = true /\ has_url ep = true /\ (n <= k)%nat /\
              (n < k -> restart ep = None)%nat)) as Hk.
  { intros k Hk _. split; [lia|]. destruct Hr as [[Hr ->]|(ep & Hr & Hp & Hu & Hs & ->)]; [left; split; [done|lia]|right].
    exists ep. split_and!; try done; lia. }
  assert (forall i, (forall j, (m <= j < i)%nat -> again (world j) = true) -> forall j, (j < i)%nat -> again (world j) = true) as Hall.
  { intros i Hi j Hj. destruct (decide (j < m)%nat); [by apply Hf|apply Hi; lia]. }
  unfold do_post. destruct r as [co d|err d|d]; cbn [dialing_of round_post] in *.
  - destruct H as (i & Hki & Hi & Hg & Hco). destruct (Hk (d_attempts d)) as [Hk1 Hk2]; [lia|done|].
    split_and!; [done|done|done|intros; apply (Hall _ Hg); lia|by eauto].
  - destruct H as [Hkm Hc]. destruct (Hk (d_attempts d)) as [Hk1 Hk2]; [lia|done|]. split_and!; [done|done|done| |].
    + destruct Hc as [(i & -> & Hg & _)|[Hg _]]; intros; apply (Hall _ Hg); lia.
    + destruct Hc as [(i & Hi & _ & Hg)|[_ Hg]]; eauto.
  - destruct H as [Hkm Hg]. intros -> err. destruct (Hk (d_attempts d)) as [Hk1 Hk2]; [lia|done|].
    split_and!; [done|done|done|intros; apply (Hall _ Hg); lia|]. right; right. split; [lia|]. by apply Hall.
Qed.

End recovery_facts.

(** ** One restart per incident *)

(** The newest restart of a URL. *)
Definition newest (url : bytes) (l : list (bytes * nat * Z)) : option nat :=
  (fun e => e.1.2) <$> head (filter (fun e => e.1.1 = url) l).

Definition over_at (r : restarter) (url : bytes) (id : nat) : Prop := exists t, (url, id, t) ∈ finished r.

(** The map has the newest restart of each URL, complete exactly when it is
    logged as finished; every older one is finished, before the failure that led
    to the next. *)
Record restarts_wf (r : restarter) : Prop := {
  rw_newest url : fl_id <$> flights r !! url = newest url (started r);
  rw_current url f : flights r !! url = Some f ->
    match fl_completed f with Some (t, _) => (url, fl_id f, t) ∈ finished r | None => ~ over_at r url (fl_id f) end;
  rw_fresh url id t : (url, id, t) ∈ started r \/ (url, id, t) ∈ finished r -> (id < length (started r))%nat;
  rw_older url id t : (url, id, t) ∈ started r -> newest url (started r) = Some id \/ over_at r url id;
  rw_after url id id' t l1 l2 : started r = l1 ++ (url, id', t) :: l2 -> newest url l2 = Some id ->
    exists t', (url, id, t') ∈ finished r /\ t' <= t }.

Lemma newest_cons url e l : newest url (e :: l) = if bool_decide (e.1.1 = url) then Some e.1.2 else newest url l.
Proof. unfold newest. rewrite filter_cons. case_bool_decide; case_decide; done. Qed.

Lemma newest_in url l id : newest url l = Some id -> exists t, (url, id, t) ∈ l.
Proof.
  induction l as [|[[u i] t] l IH]; [done|]. rewrite newest_cons. cbn. case_bool_decide.
  - intros [= <-]. subst. exists t. set_solver.
  - intros H'. destruct (IH H') as [t' ?]. exists t'. set_solver.
Qed.

(** A restart starts only when none is under way and the last, if any, was over
    by the time of the failure. *)
Lemma start_wf url failedAt r :
  restarts_wf r ->
  (forall f, flights r !! url = Some f -> exists t e, fl_completed f = Some (t, e) /\ t <= failedAt) ->
  restarts_wf (MkRestarter (<[url := MkFlight (length (started r)) None]> (flights r))
                 ((url, length (started r), failedAt) :: started r) (finished r)).
Proof.
  intros [Hn Hc Hf Ho Ha] Hl. split; cbn.
  - intros u. rewrite newest_cons. cbn. case_bool_decide; [subst; by rewrite lookup_insert_eq|rewrite lookup_insert_ne by done; apply Hn].
  - intros u f. destruct (decide (u = url)) as [->|]; [rewrite lookup_insert_eq|rewrite lookup_insert_ne by done; apply Hc].
    intros [= <-]. cbn. intros [t Ht]. assert (length (started r) < length (started r))%nat by (apply (Hf url _ t); auto); lia.
  - intros u i t. rewrite elem_of_cons. intros [[[= -> -> ->]|H]|H]; [lia|..]; (assert (i < length (started r))%nat by (apply (Hf u i t); auto); lia).
  - intros u i t. rewrite newest_cons, elem_of_cons. cbn. intros [[= -> -> ->]|H]; [left; by rewrite bool_decide_eq_true_2|].
    case_bool_decide; [subst|by apply (Ho u i t)]. destruct (Ho _ _ _ H) as [Hi|]; [right|by right].
    rewrite <-Hn in Hi. destruct (flights r !! u) as [f|] eqn:Hu; [|done]. injection Hi as <-.
    destruct (Hl f eq_refl) as (t' & e & He & _). specialize (Hc u f Hu). rewrite He in Hc. by exists t'.
  - intros u i i' t [|x l1] l2.
    + intros [= <- <- <- <-]. rewrite <-Hn. destruct (flights r !! url) as [f|] eqn:Hu; [|done]. intros [= <-].
      destruct (Hl f eq_refl) as (t' & e & He & ?). specialize (Hc url f Hu). rewrite He in Hc. by exists t'.
    + intros [= <- H]. eapply Ha, H.
Qed.

Lemma restart_done_wf url id now err r : restarts_wf r -> restarts_wf (restart_done url id now err r).
Proof.
  intros Hw. unfold restart_done. destruct (flights r !! url) as [f|] eqn:Hu; [|done].
  case_bool_decide as Hid; [|done]. destruct (fl_completed f) eqn:Hcf; [done|]. cbn [andb negb].
  destruct Hw as [Hn Hc Hf Ho Ha]. split; cbn.
  - intros u. rewrite <-Hn. destruct (decide (u = url)) as [->|]; [|by rewrite lookup_insert_ne].
    rewrite lookup_insert_eq, Hu. cbn. by rewrite Hid.
  - intros u g. destruct (decide (u = url)) as [->|]; [rewrite lookup_insert_eq; intros [= <-]; cbn; set_solver|].
    rewrite lookup_insert_ne by done. intros Hg. specialize (Hc u g Hg).
    destruct (fl_completed g) as [[t ?]|]; [set_solver|]. intros [t Ht]. apply Hc. exists t. set_solver.
  - intros u i t. rewrite elem_of_cons. intros [H|[[= -> -> ->]|H]]; [apply (Hf u i t); by left| |apply (Hf u i t); by right].
    destruct (newest_in url (started r) id) as [t Ht]; [by rewrite <-Hn, Hu, <-Hid|]. apply (Hf url id t). by left.
  - intros u i t H. destruct (Ho u i t H) as [|[t' ?]]; [by left|right]. exists t'. set_solver.
  - intros u i i' t l1 l2 H1 H2. destruct (Ha u i i' t l1 l2 H1 H2) as (t' & ? & ?). exists t'. set_solver.
Qed.

Lemma restartOnce_wf url failedAt r : restarts_wf r -> restarts_wf (restartOnce url failedAt r).2.
Proof.
  intros Hw. unfold restartOnce. destruct (flights r !! url) as [f|] eqn:Hu; [|apply start_wf; [done|by rewrite Hu]].
  destruct (fl_completed f) as [[t e]|] eqn:Hcf; [|done].
  destruct (Z.ltb_spec failedAt t); [done|]. apply start_wf; [done|].
  rewrite Hu. intros g [= <-]. eauto.
Qed.

Lemma restart_run_wf ops : restarts_wf (restart_run ops).
Proof.
  induction ops as [|op ops IH] using rev_ind.
  { split; cbn; [by intros; rewrite lookup_empty|by intros; rewrite lookup_empty in *|set_solver..|]. by intros ? ? ? ? []. }
  unfold restart_run in *. rewrite foldl_app. destruct op; [by apply restartOnce_wf|by apply restart_done_wf].
Qed.

(** C36. However the callers of a recoverer and its restarts interleave, at most
    one restart of a server is under way at a time, and a restart follows another
    only for a failure that is not older than the end of that one: a caller whose
    dial failed before a restart was complete waits for it or takes its result. *)
Theorem one_restart_per_incident (ops : list restart_op) (url : bytes) (failedAt : Z) :
  let r := restart_run ops in
  (forall id id' t t', (url, id, t) ∈ started r -> (url, id', t') ∈ started r ->
     ~ over_at r url id -> ~ over_at r url id' -> id = id') /\
  (forall id id' t l1 l2, started r = l1 ++ (url, id', t) :: l2 -> newest url l2 = Some id ->
     exists t', (url, id, t') ∈ finished r /\ t' <= t) /\
  match restartOnce url failedAt r with
  | (JReturns _, r') => r' = r /\ exists id t, newest url (started r) = Some id /\ (url, id, t) ∈ finished r /\ failedAt < t
  | (JWaits id, r') => r' = r /\ newest url (started r) = Some id /\ ~ over_at r url id
  | (JStarts id, r') => (forall id' t, (url, id', t) ∈ started r -> over_at r url id' /\ id' <> id)
  end.
Proof.
  destruct (restart_run_wf ops) as [Hn Hc Hf Ho Ha]. cbn zeta. set (r := restart_run ops) in *. split_and!.
  - intros id id' t t' H H' Hid Hid'. destruct (Ho _ _ _ H) as [H1|]; [|done]. destruct (Ho _ _ _ H') as [H2|]; [|done]. congruence.
  - eauto.
  - assert (forall id' t, (url, id', t) ∈ started r -> id' <> length (started r)) as Hlt.
    { intros id' t H ->. assert (length (started r) < length (started r))%nat by (apply (Hf url _ t); auto). lia. }
    unfold restartOnce. specialize (Hn url). destruct (flights r !! url) as [f|] eqn:Hu; cbn in Hn.
    + specialize (Hc url f Hu). destruct (fl_completed f) as [[t e]|] eqn:Hcf; [|done].
      destruct (Z.ltb_spec failedAt t); [by eauto 6|]. intros id' t' H'. split; [|by eapply Hlt].
      destruct (Ho _ _ _ H') as [H1|]; [|done]. rewrite <-Hn in H1. injection H1 as <-. by exists t.
    + intros id' t' H'. split; [|by eapply Hlt]. destruct (Ho _ _ _ H') as [H1|]; [|done]. congruence.
Qed.
