(* ===== verification/Answer.v ===== *)
(** Answering the suspensions of a sandbox (src/answer.go) and driving a feed
    (Session.drive of src/session.go).

    Host code and Go values are not modelled: what they come to, what the
    session's lifecycle answers, what the checkout replies and which futures are
    settled is a world, read afresh at every effect, so that nothing is assumed
    about what other goroutines do in between. Effects are logged. *)

From S2P Require Import Prelude GoStrings Values Exceptions Events Requests PoolErrors Monterr Print.

(** ** The monad *)

Section answering.
(** Go values, functions, wrapped objects, futures and keyword records of the
    package host. *)
Context {hval func wrapper future kwrec : Type}.

(** What dynamic type tests and accessors of the package host say. *)
Class HostTypes := {
  asFuture : hval -> option (option future);
  isNotHandled : hval -> bool;
  asFunction : hval -> merror + option func;
  TypeName : hval -> bytes;
  WrapperName : wrapper -> bytes;
  asAttrError : merror -> option bytes;
  attrNotExposed : merror -> bool }.
Context `{HostTypes}.

(** Host code that is run. *)
Inductive host_call :=
| CallFunction (f : func) (args : list hval) (kwargs : kwrec)
| CallMethod (w : wrapper) (name : bytes) (args : list hval) (kwargs : kwrec)
| LazyAttr (w : wrapper) (name : bytes)
| CallOS (name : bytes) (args : list hval) (kwargs : kwrec)
| WaitFuture (f : future)
| ServeMount
| AwaitAny (fs : list future).

(** What is sent to the worker. *)
Inductive answer_req :=
| SResume (r : extresult)
| SLookup (kind : Z) (v : value) (e : option wexception)
| SFutures (l : list (Z * extresult)).

Inductive tev := TBegin | TRun (c : host_call) | TEnd | TRegister (id : Z) (f : future) | TForget (ids : list Z)
| TSend (r : answer_req) (reply : merror + event) | TReceived.

(** The answers at one moment. *)
Record moment := Moment {
  w_boundary : option merror;
  w_begin : option merror;
  w_end : option merror;
  w_before : option merror;
  w_deliver : wexception;
  w_abort : merror -> merror;
  w_register : option merror;
  w_entry : bytes -> option hval;
  w_object : bytes -> option wrapper;
  w_restore : value -> hval;
  w_kwargs : list (value * value) -> kwrec;
  w_run : host_call -> ran (merror + hval);
  w_wait : future -> merror + hval;
  w_mount : merror + (bool * extresult);
  w_prepare : hval -> merror + value;
  w_pending : Z -> option future;
  w_settled : future -> option (merror + hval);
  w_reply : merror + event;
  w_terminal : option merror;
  w_aborted : bool;
  w_print : printTarget;
  w_flush : option merror }.

Variable world : nat -> moment.

(** The clock and the log, the last effect first; no result is a panic that
    nothing recovers. *)
Record astate := AState { a_clock : nat; a_log : list tev }.
Definition M (A : Type) : Type := astate -> option A * astate.

#[local] Instance M_ret : MRet M := fun A a s => (Some a, s).
#[local] Instance M_bind : MBind M := fun A B k m s =>
  match m s with (Some a, s) => k a s | (None, s) => (None, s) end.

Definition now : M moment := fun s => (Some (world (a_clock s)), AState (S (a_clock s)) (a_log s)).
Definition log (e : tev) : M () := fun s => (Some (), AState (a_clock s) (e :: a_log s)).
Definition crash {A} : M A := fun s => (None, s).
Definition deref {A} (p : option A) : M A := match p with Some a => mret a | None => crash end.

Notation outcome := (merror + event)%type.

(** ** answer.go *)

(** The external lookup of the feed; then the session's host. *)
Variable lookup : gmap bytes hval.
Variable has_host : bool.
Variable has_os : bool.

Definition lookupEntry (name : bytes) : M (option hval) :=
  match lookup !! name with
  | Some entry => mret (Some entry)
  | None => if has_host then w ← now; mret (w_entry w name) else mret None
  end.

Definition stop (err : merror) : M merror := w ← now; mret (abortedTurn (w_abort w err)).

(** [callHost]; what [run] does is logged between the two ends of the callback. *)
Definition callHost {A} (c : host_call) (run : moment -> option (merror + A)) : M (merror + A) :=
  w ← now;
  match w_begin w with
  | Some err => e ← stop err; mret (inl e)
  | None =>
    _ ← log TBegin; _ ← log (TRun c);
    w ← now;
    result ← deref (run w);
    _ ← log TEnd;
    w ← now;
    match w_end w with
    | Some err => e ← stop err; mret (inl e)
    | None => mret result
    end
  end.

(** [safeCall], [safeMethod], [safeLazy] and [safeOS]. *)
Definition safe (c : host_call) (w : moment) : merror + hval :=
  match w_run w c with Returned r => r | Panicked r => inl (panicError r) end.
Definition runs (c : host_call) (w : moment) : option (merror + hval) := Some (safe c w).

Definition beforeResume : M (merror + option wexception) :=
  w ← now;
  match w_before w with
  | None => mret (inr None)
  | Some err =>
    if Is err errDeliverStop then w ← now; mret (inr (Some (w_deliver w)))
    else e ← stop err; mret (inl e)
  end.

Definition send (r : answer_req) : M outcome := w ← now; _ ← log (TSend r (w_reply w)); mret (w_reply w).

Definition ext_error (e : wexception) : extresult := ExtResult ExtError VNil (Some e) 0 [].
Definition ext_kind (k : Z) : extresult := ExtResult k VNil None 0 [].

Definition resumeWire (r : extresult) : M outcome :=
  b ← beforeResume;
  match b with
  | inl err => mret (inl err)
  | inr exc => send (SResume (match exc with Some e => ext_error e | None => r end))
  end.

Definition resumeLookup (kind : Z) (v : value) (e : option wexception) : M outcome :=
  b ← beforeResume;
  match b with
  | inl err => mret (inl err)
  | inr exc => send (match exc with Some e => SLookup LookupError VNil (Some e) | None => SLookup kind v e end)
  end.

Definition resumeFutures (ids : list Z) (results : list (Z * extresult)) : M outcome :=
  b ← beforeResume;
  match b with
  | inl err => mret (inl err)
  | inr exc =>
    let results := match exc with Some e => (fun id => (id, ext_error e)) <$> ids | None => results end in
    _ ← log (TForget (fst <$> results));
    send (SFutures results)
  end.

Definition resumeError (excType message : bytes) : M outcome := resumeWire (ext_error (NewException excType message)).

Definition parts_error (err : merror) : extresult :=
  let '(t, m) := ExceptionParts err in ext_error (NewException t m).

Definition too_deep : wexception := NewException (go "RuntimeError") (go "Max input depth exceeded").

Definition sendable (w : moment) (v : hval) : extresult :=
  match w_prepare w v with
  | inl err => parts_error err
  | inr prepared =>
    if ExceedsMaxDepth prepared then ext_error too_deep else ExtResult ExtReturn prepared None 0 []
  end.

Definition resumeReturn (v : hval) : M outcome := w ← now; resumeWire (sendable w v).

Definition settledResult (w : moment) (callID : Z) (r : merror + hval) : Z * extresult :=
  (callID, match r with inl err => parts_error err | inr v => sendable w v end).

Definition restoreArgs (w : moment) (args : list value) : list hval := w_restore w <$> args.

(** A result of [callHost] for which the turn was aborted. *)
Definition if_aborted {A} (r : merror + A) (go_on : M outcome) : M outcome :=
  match r with
  | inl err => if Is err errAborted then mret (inl err) else go_on
  | inr _ => go_on
  end.

Definition resumeOutcome (callID : Z) (eager : bool) (result : hval) : M outcome :=
  match asFuture result with
  | Some None => resumeError (go "TypeError") (go "host returned a nil Future")
  | Some (Some fut) =>
    if eager then
      r ← callHost (WaitFuture fut) (fun w => Some (w_wait w fut));
      if_aborted r (w ← now; resumeFutures [callID] [settledResult w callID r])
    else
      w ← now;
      match w_register w with
      | Some err =>
        match As as_protocol err with
        | Some _ => mret (inl (hostFailure err))
        | None => let '(t, m) := ExceptionParts err in resumeError t m
        end
      | None => _ ← log (TRegister callID fut); resumeWire (ext_kind ExtFuture)
      end
  | None => resumeReturn result
  end.

Definition answerFunctionCall (fc : funcall) : M outcome :=
  entry ← lookupEntry (fc_name fc);
  match entry with
  | None => resumeWire (ext_kind ExtNotFound)
  | Some entry =>
    match asFunction entry with
    | inl err => resumeError (go "TypeError") (fc_name fc ++ go ": " ++ Error err)
    | inr None => resumeError (go "TypeError") (go "'" ++ TypeName entry ++ go "' object is not callable")
    | inr (Some fn) =>
      w ← now;
      let c := CallFunction fn (restoreArgs w (fc_args fc)) (w_kwargs w (fc_kwargs fc)) in
      r ← callHost c (runs c);
      if_aborted r
        match r with
        | inl err => let '(t, m) := ExceptionParts err in resumeError t m
        | inr result => resumeOutcome (fc_callid fc) (fc_eager fc) result
        end
    end
  end.

(** A name the sandbox may not use: [strings.HasPrefix(name, "_")]. *)
Definition underscored (name : bytes) : bool := HasPrefix name (go "_").

Definition answerMethodCall (fc : funcall) : M outcome :=
  w ← now;
  let found := w_object w (fc_objectid fc) in
  if underscored (fc_name fc) && negb (bool_decide (fc_name fc = go "__call__")) then
    resumeError (go "AttributeError")
      (go "'" ++ (match found with Some o => WrapperName o | None => go "object" end)
       ++ go "' object has no attribute '" ++ fc_name fc ++ go "'")
  else
    match found with
    | None =>
      resumeError (go "RuntimeError")
        (go "no host object registered for method call '" ++ fc_name fc ++ go "' (id " ++ fc_objectid fc
         ++ go ") — the instance store is empty after loading a dump into a fresh session")
    | Some o =>
      let c := CallMethod o (fc_name fc) (restoreArgs w (fc_args fc)) (w_kwargs w (fc_kwargs fc)) in
      r ← callHost c (runs c);
      if_aborted r
        match r with
        | inl err =>
          match asAttrError err with
          | Some text => resumeError (go "AttributeError") text
          | None => let '(t, m) := ExceptionParts err in resumeError t m
          end
        | inr result => resumeOutcome (fc_callid fc) (fc_eager fc) result
        end
    end.

Definition answerObjectLookup (nl : namelookup) : M outcome :=
  w ← now;
  match w_object w (nl_objectid nl) with
  | None => resumeLookup LookupUndefined VNil None
  | Some o =>
    if underscored (nl_name nl) then resumeLookup LookupUndefined VNil None
    else
      r ← callHost (LazyAttr o (nl_name nl)) (runs (LazyAttr o (nl_name nl)));
      if_aborted r (
        w ← now;
        let prepared :=
          match r with
          | inl err => inl err
          | inr v =>
            match w_prepare w v with
            | inl err => inl err
            | inr p => if ExceedsMaxDepth p then inl (RaisedError (go "RuntimeError") (go "Max input depth exceeded")) else inr p
            end
          end in
        match prepared with
        | inr p => resumeLookup LookupValue p None
        | inl err =>
          if attrNotExposed err then resumeLookup LookupUndefined VNil None
          else let '(t, m) := ExceptionParts err in resumeLookup LookupError VNil (Some (NewException t m))
        end)
  end.

Definition answerNameLookup (nl : namelookup) : M outcome :=
  entry ← lookupEntry (nl_name nl);
  match entry with
  | None => resumeLookup LookupUndefined VNil None
  | Some entry =>
    match asFunction entry with
    | inr (Some _) => resumeLookup LookupValue (VFunction (Function (nl_name nl) None)) None
    | _ =>
      w ← now;
      match w_prepare w entry with
      | inl err => mret (inl (hostFailure err))
      | inr prepared => resumeLookup LookupValue prepared None
      end
    end
  end.

(** A request the checkout refused before sending anything: the exception. *)
Definition refused_before_send (r : outcome) : option (option wexception) :=
  match r with
  | inl err =>
    match As as_pool err with
    | Some (perr, _) =>
      match pe_kind perr with KindRuntime => if pe_presend perr then Some (pe_exception perr) else None | _ => None end
    | None => None
    end
  | inr _ => None
  end.

(** What the handler of OS calls came to, waited for if it is a future; waiting
    for a nil future panics, and nothing recovers it. *)
Definition run_os (c : host_call) (w : moment) : option (merror + hval) :=
  match safe c w with
  | inr r =>
    match asFuture r with
    | Some (Some fut) => Some (w_wait w fut)
    | Some None => None
    | None => Some (inr r)
    end
  | inl err => Some (inl err)
  end.

Definition answerOsCall (call : oscall) : M outcome :=
  m ← callHost ServeMount (fun w => Some (w_mount w));
  match m with
  | inl err => mret (inl err)
  | inr (true, result) =>
    r ← resumeWire result;
    match refused_before_send r with
    | Some exc => _ ← log TReceived; resumeWire (ExtResult ExtError VNil exc 0 [])
    | None => mret r
    end
  | inr (false, _) =>
    if negb has_os then resumeWire (ext_kind ExtNotHandled)
    else
      w ← now;
      let '(args, kw) := Args call in
      let c := CallOS (go (op_name (oc_op call))) (restoreArgs w args) (w_kwargs w kw) in
      r ← callHost c (run_os c);
      if_aborted r
        match r with
        | inl err => let '(t, m) := ExceptionParts err in resumeError t m
        | inr result => if isNotHandled result then resumeWire (ext_kind ExtNotHandled) else resumeReturn result
        end
  end.

(** The futures the worker waits for, each known and asked for once. *)
Fixpoint gather (pending : Z -> option future) (ids : list Z) (seen : gmap Z future) : Z + gmap Z future :=
  match ids with
  | [] => inr seen
  | id :: ids =>
    match pending id, seen !! id with
    | Some f, None => gather pending ids (<[id := f]> seen)
    | _, _ => inl id
    end
  end.

(** One future after the other: the settled ones are forgotten and answered. *)
Fixpoint collect_settled (futures : gmap Z future) (ids : list Z) : M (list (Z * extresult)) :=
  match ids with
  | [] => mret []
  | id :: ids =>
    w ← now;
    f ← deref (futures !! id);
    match w_settled w f with
    | None => collect_settled futures ids
    | Some r =>
      _ ← log (TForget [id]);
      w ← now;
      rest ← collect_settled futures ids;
      mret (settledResult w id r :: rest)
    end
  end.

Definition protocol_failure (text : bytes) : outcome := inl (hostFailure (ProtocolError text None)).

Definition answerResolveFutures (ids : list Z) : M outcome :=
  if bool_decide (ids = []) then mret (protocol_failure (go "worker reported ResolveFutures with no pending call ids"))
  else
    w ← now;
    match gather (w_pending w) ids ∅ with
    | inl id => mret (protocol_failure (go "worker reported unknown or duplicate pending call id " ++ itoa id))
    | inr futures =>
      r ← callHost (AwaitAny (omap (fun id => futures !! id) ids)) (fun _ => Some (inr ()));
      if_aborted r (results ← collect_settled futures ids; resumeFutures ids results)
    end.

Definition answer (ev : event) : M outcome :=
  w ← now;
  match w_boundary w with
  | Some err => e ← stop err; mret (inl e)
  | None =>
    match ev_kind ev with
    | EventFunctionCall =>
      fc ← deref (ev_funcall ev);
      if negb (bool_decide (fc_objectid fc = [])) then answerMethodCall fc else answerFunctionCall fc
    | EventOsCall => call ← deref (ev_oscall ev); answerOsCall call
    | EventNameLookup =>
      nl ← deref (ev_namelookup ev);
      if negb (bool_decide (nl_objectid nl = [])) then answerObjectLookup nl else answerNameLookup nl
    | EventResolveFutures => answerResolveFutures (ev_pending ev)
    | k => mret (protocol_failure (go "unexpected turn kind: " ++ go (eventName k)))
    end
  end.

(** ** Driving a feed *)

(** What [drive] does last: hand on the session's cause, the failure of the print
    target, end the session with an error, map an error, or return a value. *)
Inductive driven := Terminal (err : merror) | PrintFailed (err : merror) | Poisons (err : merror) | Maps (err : merror)
| Completes (v : hval).

(** [pt.finish()], then [pt.failure]. *)
Definition print_outcome (w : moment) : option merror :=
  let '(ferr, p) := pt_finish (w_flush w) (w_print w) in
  match ferr with Some e => Some e | None => pt_failure p end.

Definition is_runtime_or_typing (err : merror) : bool :=
  match As as_pool err with
  | Some (perr, _) => match pe_kind perr with KindRuntime | KindTyping => true | _ => false end
  | None => false
  end.

(** A round of [drive]: its result, or the event to answer. *)
Definition drive_round (w : moment) (r : outcome) : driven + event :=
  match w_terminal w with
  | Some t => inl (Terminal t)
  | None =>
    match r with
    | inl err =>
      let failed := if is_runtime_or_typing err || w_aborted w then print_outcome w else None in
      match failed with
      | Some e => inl (PrintFailed e)
      | None =>
        match As as_hostFailure err with
        | Some e => inl (Poisons e)
        | None => inl (Maps err)
        end
      end
    | inr ev =>
      match ev_kind ev with
      | EventComplete =>
        match print_outcome w with
        | Some e => inl (PrintFailed e)
        | None => inl (Completes (w_restore w (ev_value ev)))
        end
      | _ =>
        match pt_failure (w_print w) with
        | Some e => inl (Poisons e)
        | None => inr ev
        end
      end
    end
  end.

(** [drive] for [fuel] rounds; no result means that the feed is still going on. *)
Fixpoint drive (fuel : nat) (r : outcome) : M (option driven) :=
  match fuel with
  | O => mret None
  | S fuel =>
    _ ← log TReceived;
    w ← now;
    match drive_round w r with
    | inl d => mret (Some d)
    | inr ev => r ← answer ev; drive fuel r
    end
  end.

(** ** A calculus of logs *)

(** [m] adds a log [l], in order, to what was logged, and its result is as [Q]
    says, whatever the moment. *)
Definition adds {A} (m : M A) (Q : list tev -> option A -> Prop) : Prop :=
  forall s, exists l, a_log (m s).2 = rev l ++ a_log s /\ Q l (m s).1.

Lemma adds_ret {A} (a : A) Q : Q [] (Some a) -> adds (mret a) Q.
Proof. intros HQ s. by exists []. Qed.

Lemma adds_bind {A B} (m : M A) (k : A -> M B) (Q : list tev -> option B -> Prop) :
  adds m (fun l r => match r with Some a => adds (k a) (fun l' r' => Q (l ++ l') r') | None => Q l None end) ->
  adds (m ≫= k) Q.
Proof.
  intros Hm s. destruct (Hm s) as (l & Hl & Hk). unfold mbind, M_bind. destruct (m s) as [[a|] s1]; cbn in *.
  - destruct (Hk s1) as (l' & Hl' & HQ). exists (l ++ l'). split; [|done]. by rewrite Hl', Hl, rev_app_distr, app_assoc.
  - by exists l.
Qed.

Lemma adds_mono {A} (m : M A) (Q Q' : list tev -> option A -> Prop) :
  adds m Q -> (forall l r, Q l r -> Q' l r) -> adds m Q'.
Proof. intros Hm HQ s. destruct (Hm s) as (l & ? & ?). eauto. Qed.

Lemma adds_now (Q : list tev -> option moment -> Prop) : (forall n, Q [] (Some (world n))) -> adds now Q.
Proof. intros HQ s. exists []. split; [done|]. apply HQ. Qed.

Lemma adds_log e (Q : list tev -> option () -> Prop) : Q [e] (Some ()) -> adds (log e) Q.
Proof. intros HQ s. by exists [e]. Qed.

Lemma adds_deref {A} (p : option A) (Q : list tev -> option A -> Prop) :
  (forall a, p = Some a -> Q [] (Some a)) -> (p = None -> Q [] None) -> adds (deref p) Q.
Proof. intros H1 H2. destruct p; intros s; exists []; cbn; auto. Qed.

(** Host code runs between the ends of a callback. *)
Inductive phase := Outside | Begun | Ran.
Definition phase_step (p : option phase) (e : tev) : option phase :=
  match p, e with
  | Some Outside, TBegin => Some Begun
  | Some Begun, TRun _ => Some Ran
  | Some Ran, TEnd => Some Outside
  | _, (TBegin | TRun _ | TEnd) => None
  | Some Outside, _ => Some Outside
  | _, _ => None
  end.
Definition phase_after (l : list tev) : option phase := foldl phase_step (Some Outside) l.

(** Host code of the user, as opposed to waiting and to the mounts. *)
Definition user_code (e : tev) : bool :=
  match e with TRun (CallFunction _ _ _ | CallMethod _ _ _ _ | LazyAttr _ _ | CallOS _ _ _) => true | _ => false end.
Definition user_calls (l : list tev) : nat := length (filter (fun e => user_code e = true) l).

Definition sent (e : tev) : bool := match e with TSend _ _ => true | _ => false end.

(** Values a request carries are within the nesting limit. *)
Definition result_fits (r : extresult) : Prop := er_kind r = ExtReturn -> ExceedsMaxDepth (er_value r) = false.
Definition fits (q : answer_req) : Prop :=
  match q with
  | SResume r => result_fits r
  | SLookup k v _ => k = LookupValue -> ExceedsMaxDepth v = false
  | SFutures l => Forall (fun p => result_fits p.2) l
  end.

Section calculus.
(** What may be sent, what a mount may fail with, and when answering may crash. *)
Variables (K : answer_req -> Prop) (F : merror -> Prop) (C : Prop).

(** A log of callbacks that sends nothing, with at most [n] calls of user code. *)
Record quiet (n : nat) (l : list tev) : Prop := {
  q_phase : phase_after l = Some Outside;
  q_user : (user_calls l <= n)%nat;
  q_sent : Forall (fun e => sent e = false) l }.

(** How answering a suspension may end: with the reply to what was sent, with a
    stop, with a failure of the host, or with the failure of a mount. *)
Inductive ends : list tev -> outcome -> Prop :=
| ends_sent q rep : K q -> ends [TSend q rep] rep
| ends_aborted err : Is err errAborted = true -> ends [] (inl err)
| ends_failed err : ends [] (inl (hostFailure err))
| ends_mount err : F err -> ends [] (inl err).

(** When a request was refused before anything was sent, one more may follow. *)
Definition ends_twice (l : list tev) (r : outcome) : Prop :=
  ends l r \/ exists l1 rep exc l2, l = l1 ++ TReceived :: l2 /\ ends l1 rep /\ refused_before_send rep = Some exc /\ ends l2 r.

Definition answers (n : nat) (l : list tev) (r : option outcome) : Prop :=
  match r with
  | None => C
  | Some r => exists pre post, l = pre ++ post /\ quiet n pre /\ ends_twice post r
  end.

Lemma quiet_nil n : quiet n [].
Proof. split; cbn; [done|lia|done]. Qed.

Lemma quiet_app n m l l' : quiet n l -> quiet m l' -> quiet (n + m) (l ++ l').
Proof.
  intros [Hp Hu Hs] [Hp' Hu' Hs']. split.
  - unfold phase_after in *. by rewrite foldl_app, Hp.
  - unfold user_calls in *. rewrite filter_app, length_app. lia.
  - by apply Forall_app.
Qed.

Lemma answers_after n m l l' r : quiet n l -> answers m l' r -> answers (n + m) (l ++ l') r.
Proof.
  intros Hq. destruct r as [r|]; [|done]. intros (pre & post & -> & Hq' & He).
  exists (l ++ pre), post. rewrite app_assoc. split_and!; [done|by apply quiet_app|done].
Qed.

Lemma answers_after0 m l l' r : quiet 0 l -> answers m l' r -> answers m (l ++ l') r.
Proof. apply (answers_after 0). Qed.

Lemma answers_end n l r : ends l r -> answers n l (Some r).
Proof. intros He. exists [], l. split_and!; [done|apply quiet_nil|by left]. Qed.

Lemma answers_more n m l r : (n <= m)%nat -> answers n l r -> answers m l r.
Proof.
  intros Hn. destruct r; [|done]. intros (pre & post & -> & [] & He). exists pre, post. split_and!; [done| |done]. split; [done|lia|done].
Qed.

(** Reading a moment adds nothing. *)
Lemma answers_now {A} (k : moment -> M A) Q : (forall n, adds (k (world n)) Q) -> adds (now ≫= k) Q.
Proof. intros Hk. apply adds_bind, adds_now. intros n. apply Hk. Qed.

Lemma stop_adds (Q : list tev -> option merror -> Prop) err :
  (forall e, Is e errAborted = true -> Q [] (Some e)) -> adds (stop err) Q.
Proof. intros HQ. apply answers_now. intros w. apply adds_ret, HQ. cbn. reflexivity. Qed.

Lemma beforeResume_adds (Q : list tev -> option (merror + option wexception) -> Prop) :
  (forall e, Is e errAborted = true -> Q [] (Some (inl e))) -> (forall exc, Q [] (Some (inr exc))) -> adds beforeResume Q.
Proof.
  intros H1 H2. apply answers_now. intros n. destruct (w_before (world n)) as [err|]; [|by apply adds_ret].
  destruct (Is err errDeliverStop); [apply answers_now; intros n'; by apply adds_ret|].
  apply adds_bind, stop_adds. intros e He. apply adds_ret, H1, He.
Qed.

Lemma send_adds q : K q -> adds (send q) (answers 0).
Proof.
  intros Hq. apply answers_now. intros w. apply adds_bind, adds_log, adds_ret. apply answers_end. by constructor.
Qed.

(** What a resume sends: what it was given, or the exception of a stop. *)
Lemma resumeWire_ends r :
  K (SResume r) -> (forall e, K (SResume (ext_error e))) ->
  adds (resumeWire r) (fun l x => exists x', x = Some x' /\ ends l x').
Proof.
  intros Hr He. apply adds_bind, beforeResume_adds.
  - intros e Ha. apply adds_ret. eexists. split; [done|by constructor].
  - intros exc. apply answers_now. intros n. apply adds_bind, adds_log, adds_ret. eexists. split; [done|].
    constructor. by destruct exc.
Qed.

Lemma resumeWire_adds r :
  K (SResume r) -> (forall e, K (SResume (ext_error e))) -> adds (resumeWire r) (answers 0).
Proof.
  intros Hr He. eapply adds_mono; [by apply resumeWire_ends|]. intros l x (x' & -> & Hx). by apply answers_end.
Qed.

Lemma resumeLookup_ends k v e :
  K (SLookup k v e) -> (forall e, K (SLookup LookupError VNil (Some e))) ->
  adds (resumeLookup k v e) (fun l x => exists x', x = Some x' /\ ends l x').
Proof.
  intros Hr He. apply adds_bind, beforeResume_adds.
  - intros e' Ha. apply adds_ret. eexists. split; [done|by constructor].
  - intros exc. apply answers_now. intros n. apply adds_bind, adds_log, adds_ret. eexists. split; [done|].
    constructor. by destruct exc.
Qed.

Lemma resumeLookup_adds k v e :
  K (SLookup k v e) -> (forall e, K (SLookup LookupError VNil (Some e))) -> adds (resumeLookup k v e) (answers 0).
Proof.
  intros Hr He. eapply adds_mono; [by apply resumeLookup_ends|]. intros l x (x' & -> & Hx). by apply answers_end.
Qed.

Lemma quiet_one e : sent e = false -> user_code e = false -> phase_step (Some Outside) e = Some Outside -> quiet 0 [e].
Proof. intros H1 H2 H3. split; [done| |by constructor]. unfold user_calls. rewrite filter_cons_False by congruence. cbn. lia. Qed.

(** A callback runs host code once, between its two ends. *)
Lemma callHost_adds {A} c (run : moment -> option (merror + A)) :
  adds (callHost c run) (fun l r =>
    match r with
    | None => exists n, run (world n) = None
    | Some x => quiet (if user_code (TRun c) then 1 else 0) l /\
        ((exists n, run (world n) = Some x) \/ exists e, x = inl e /\ Is e errAborted = true)
    end).
Proof.
  apply answers_now. intros n0. destruct (w_begin (world n0)) as [err|].
  { apply adds_bind, stop_adds. intros e He. apply adds_ret. split; [apply quiet_nil|eauto]. }
  apply adds_bind, adds_log, adds_bind, adds_log, answers_now. intros w1. apply adds_bind, adds_deref; [|by eauto].
  intros x Hx. apply adds_bind, adds_log, answers_now. intros w2.
  assert (quiet (if user_code (TRun c) then 1 else 0) [TBegin; TRun c; TEnd]) as Hq.
  { split; [done| |by repeat constructor]. destruct c; vm_compute; lia. }
  destruct (w_end (world w2)) as [err|].
  - apply adds_bind, stop_adds. intros e He. apply adds_ret. split; [done|eauto].
  - apply adds_ret. split; [done|eauto].
Qed.

Lemma adds_more (m : M outcome) n : adds m (answers 0) -> adds m (answers n).
Proof. intros Hm. eapply adds_mono; [done|]. intros l r. apply answers_more. lia. Qed.

Lemma if_aborted_adds {A} (r : merror + A) go_on n :
  adds go_on (answers n) -> adds (if_aborted r go_on) (answers n).
Proof.
  intros Hg. destruct r as [err|a]; [|done]. cbn. destruct (Is err errAborted) eqn:He; [|done].
  apply adds_ret, answers_end. by constructor.
Qed.

(** A callback and what follows it. *)
Lemma callHost_then {A} c (run : moment -> option (merror + A)) (k : merror + A -> M outcome) n m :
  ((if user_code (TRun c) then 1 else 0) + n <= m)%nat ->
  (forall n, run (world n) = None -> C) ->
  (forall r, ((exists n, run (world n) = Some r) \/ exists e, r = inl e /\ Is e errAborted = true) -> adds (k r) (answers n)) ->
  adds (callHost c run ≫= k) (answers m).
Proof.
  intros Hm HC Hk. apply adds_bind. eapply adds_mono; [apply callHost_adds|]. intros l [r|]; cbn.
  - intros [Hq Hr]. eapply adds_mono; [by apply Hk|]. intros l' r' Hr'. eapply answers_more; [exact Hm|]. by apply answers_after.
  - intros [w Hw]. eauto.
Qed.

(** ** Every answer *)

(** Exceptions, the kinds without a value and values within the limit may
    always be sent. *)
Hypothesis HK : forall q, fits q -> K q.

Lemma error_fits e : result_fits (ExtResult ExtError VNil e 0 []).
Proof. done. Qed.

Lemma sendable_fits w v : result_fits (sendable w v).
Proof.
  unfold sendable, parts_error. destruct (w_prepare w v) as [err|p]; [destruct (ExceptionParts err); apply error_fits|].
  destruct (ExceedsMaxDepth p) eqn:Hd; [apply error_fits|by intros _].
Qed.

Lemma settled_fits w id r : result_fits (settledResult w id r).2.
Proof.
  destruct r as [err|v]; cbn; [unfold parts_error; destruct (ExceptionParts err); apply error_fits|apply sendable_fits].
Qed.

Lemma fitting_adds r : result_fits r -> adds (resumeWire r) (answers 0).
Proof. intros Hr. apply resumeWire_adds; intros; by apply HK. Qed.

Lemma resumeError_adds t m : adds (resumeError t m) (answers 0).
Proof. apply fitting_adds, error_fits. Qed.

Lemma parts_adds err : adds (let '(t, m) := ExceptionParts err in resumeError t m) (answers 0).
Proof. destruct (ExceptionParts err). apply resumeError_adds. Qed.

Lemma kind_adds k : k <> ExtReturn -> adds (resumeWire (ext_kind k)) (answers 0).
Proof. intros Hk. by apply fitting_adds. Qed.

Lemma futures_adds ids rs :
  Forall (fun p => result_fits p.2) rs -> adds (resumeFutures ids rs) (answers 0).
Proof.
  intros Hr. apply adds_bind, beforeResume_adds.
  - intros e' Ha. apply adds_ret, answers_end. by constructor.
  - intros exc. cbn zeta. apply adds_bind, adds_log. eapply adds_mono; [apply send_adds, HK|].
    + destruct exc as [e|]; [|done]. apply Forall_forall. by intros p (id & -> & _)%list_elem_of_fmap.
    + intros l r Hl. apply (answers_after0 _ [TForget _]); [|done]. by apply quiet_one.
Qed.

Lemma resumeReturn_adds v : adds (resumeReturn v) (answers 0).
Proof. apply answers_now. intros n. apply fitting_adds, sendable_fits. Qed.

Lemma resumeOutcome_adds id eager v : adds (resumeOutcome id eager v) (answers 0).
Proof.
  unfold resumeOutcome. destruct (asFuture v) as [[fut|]|]; [|apply resumeError_adds|apply resumeReturn_adds]. destruct eager.
  - apply (callHost_then _ _ _ 0); [done|done|]. intros r _. apply if_aborted_adds, answers_now. intros n.
    apply futures_adds. constructor; [apply settled_fits|done].
  - apply answers_now. intros n. destruct (w_register (world n)) as [err|].
    + destruct (As as_protocol err); [apply adds_ret, answers_end, ends_failed|apply parts_adds].
    + apply adds_bind, adds_log. eapply adds_mono; [by apply kind_adds|].
      intros l r Hl. apply (answers_after0 _ [TRegister _ _]); [by apply quiet_one|done].
Qed.

Lemma lookupEntry_adds {A} name (k : option hval -> M A) Q :
  (forall e, adds (k e) Q) -> adds (lookupEntry name ≫= k) Q.
Proof.
  intros Hk. unfold lookupEntry. apply adds_bind. destruct (lookup !! name); [apply adds_ret, Hk|].
  destruct has_host; [|apply adds_ret, Hk]. apply answers_now. intros n. apply adds_ret, Hk.
Qed.

Lemma answerFunctionCall_adds fc : adds (answerFunctionCall fc) (answers 1).
Proof.
  apply lookupEntry_adds. intros [entry|]; [|by apply adds_more, kind_adds].
  destruct (asFunction entry) as [err|[fn|]]; [apply adds_more, resumeError_adds| |apply adds_more, resumeError_adds].
  apply answers_now. intros n. apply (callHost_then _ _ _ 0); [done|done|]. intros r _. apply if_aborted_adds.
  destruct r as [err|v]; [apply parts_adds|apply resumeOutcome_adds].
Qed.

Lemma answerMethodCall_adds fc : adds (answerMethodCall fc) (answers 1).
Proof.
  apply answers_now. intros n. destruct (underscored _ && _); [apply adds_more, resumeError_adds|].
  destruct (w_object (world n) (fc_objectid fc)) as [o|]; [|apply adds_more, resumeError_adds].
  apply (callHost_then _ _ _ 0); [done|done|]. intros r _. apply if_aborted_adds.
  destruct r as [err|v]; [destruct (asAttrError err); [apply resumeError_adds|apply parts_adds]|apply resumeOutcome_adds].
Qed.

Lemma answerObjectLookup_adds nl : adds (answerObjectLookup nl) (answers 1).
Proof.
  assert (forall k v e, (k = LookupValue -> ExceedsMaxDepth v = false) -> adds (resumeLookup k v e) (answers 0)) as Hl
    by (intros; apply resumeLookup_adds; intros; by apply HK).
  apply answers_now. intros n. destruct (w_object _ _) as [o|]; [|by apply adds_more, Hl].
  destruct (underscored _); [by apply adds_more, Hl|].
  apply (callHost_then _ _ _ 0); [done|done|]. intros r _. apply if_aborted_adds, answers_now. intros n'. cbn zeta.
  case_match eqn:E; [destruct (attrNotExposed _); [by apply Hl|destruct (ExceptionParts _); by apply Hl]|].
  apply Hl. intros _. destruct r as [|x]; [done|]. destruct (w_prepare _ x); [done|].
  destruct (ExceedsMaxDepth _) eqn:Hd; [done|]. injection E as <-. done.
Qed.

Lemma answerNameLookup_adds nl :
  (forall v, K (SLookup LookupValue v None)) -> adds (answerNameLookup nl) (answers 0).
Proof.
  intros Hn. apply lookupEntry_adds. intros [entry|]; [|apply resumeLookup_adds; intros; by apply HK].
  destruct (asFunction entry) as [err|[fn|]]; [|apply resumeLookup_adds; intros; [done|by apply HK]|];
    (apply answers_now; intros n; destruct (w_prepare _ _);
     [apply adds_ret, answers_end, ends_failed|apply resumeLookup_adds; intros; [done|by apply HK]]).
Qed.

Lemma answerOsCall_adds call :
  (forall n b r, w_mount (world n) = inr (b, r) -> K (SResume r)) ->
  (forall n err, w_mount (world n) = inl err -> F err) ->
  ((exists n c v, safe c (world n) = inr v /\ asFuture v = Some None) -> C) ->
  adds (answerOsCall call) (answers 1).
Proof.
  intros Hm HF HC. apply (callHost_then _ _ _ 1); [done|done|]. intros r Hr.
  destruct r as [err|[[] result]].
  - apply adds_ret, answers_end. destruct Hr as [[n [= Hn]]|(e & [= <-] & He)]; [by eapply ends_mount, HF|by constructor].
  - destruct Hr as [[n [= Hn]]|(e & [=] & _)]. apply adds_bind.
    eapply adds_mono; [apply resumeWire_ends; [by eapply Hm|intros; by apply HK]|]. intros l x (x' & -> & Hx).
    destruct (refused_before_send x') as [exc|] eqn:Hx'; [|apply adds_ret; rewrite app_nil_r; by apply answers_end].
    apply adds_bind, adds_log. eapply adds_mono; [apply resumeWire_ends; intros; by apply HK|]. intros l' y (y' & -> & Hy).
    exists [], (l ++ TReceived :: l'). split_and!; [done|apply quiet_nil|]. right. by eauto 8.
  - destruct has_os; cbn [negb]; [|by apply adds_more, kind_adds]. apply answers_now. intros n. destruct (Args call) as [args kw].
    apply (callHost_then _ _ _ 0); [done| |].
    + intros n' Hn. apply HC. unfold run_os in Hn. destruct (safe _ _) as [|v] eqn:Hs; [done|].
      destruct (asFuture v) as [[]|] eqn:Hf; [done| |done]. eauto.
    + intros r _. apply if_aborted_adds. destruct r as [err|v]; [apply parts_adds|].
      destruct (isNotHandled v); [by apply kind_adds|apply resumeReturn_adds].
Qed.

Lemma gather_keeps pending ids seen m id :
  gather pending ids seen = inr m -> is_Some (seen !! id) -> is_Some (m !! id).
Proof.
  revert seen. induction ids as [|i ids IH]; intros seen; cbn; [by intros [= ->]|].
  destruct (pending i); [|done]. destruct (seen !! i) eqn:E; [done|]. intros Hg Hs. apply (IH _ Hg).
  rewrite lookup_insert_ne; [done|]. intros ->. by rewrite E in Hs; destruct Hs.
Qed.

Lemma gather_all pending ids seen m :
  gather pending ids seen = inr m -> Forall (fun id => is_Some (m !! id)) ids.
Proof.
  revert seen. induction ids as [|i ids IH]; intros seen; cbn; [done|].
  destruct (pending i) as [f|]; [|done]. destruct (seen !! i); [done|]. intros Hg. constructor; [|by eapply IH].
  eapply gather_keeps; [done|]. rewrite lookup_insert_eq. by eexists.
Qed.

Lemma collect_settled_adds futures ids :
  Forall (fun id => is_Some (futures !! id)) ids ->
  adds (collect_settled futures ids) (fun l r => quiet 0 l /\ exists rs, r = Some rs /\ Forall (fun p => result_fits p.2) rs).
Proof.
  induction 1 as [|id ids [f Hf] _ IH]; cbn [collect_settled].
  { apply adds_ret. split; [apply quiet_nil|]. eauto. }
  apply answers_now. intros n. apply adds_bind, adds_deref; [|by rewrite Hf]. intros f' [= <-]%(eq_trans (eq_sym Hf)).
  destruct (w_settled _ f) as [r|]; [|exact IH].
  apply adds_bind, adds_log, answers_now. intros n'. apply adds_bind. eapply adds_mono; [apply IH|].
  intros l x (Hq & rs & -> & Hrs). apply adds_ret. rewrite app_nil_r.
  split; [|eexists; split; [done|constructor; [apply settled_fits|done]]].
  apply (quiet_app 0 0 [TForget [id]]); [by apply quiet_one|done].
Qed.

Lemma answerResolveFutures_adds ids : adds (answerResolveFutures ids) (answers 0).
Proof.
  unfold answerResolveFutures. case_bool_decide; [apply adds_ret, answers_end, ends_failed|].
  apply answers_now. intros n. destruct (gather _ _ _) as [id|futures] eqn:Hg; [apply adds_ret, answers_end, ends_failed|].
  apply (callHost_then _ _ _ 0); [done|done|]. intros r _. apply if_aborted_adds, adds_bind.
  eapply adds_mono; [apply collect_settled_adds; by eapply gather_all|]. intros l x (Hq & rs & -> & Hrs).
  eapply adds_mono; [by apply futures_adds|]. intros l' y Hy. by apply answers_after0.
Qed.

(** The payload an event of its kind has. *)
Definition has_payload (ev : event) : Prop :=
  match ev_kind ev with
  | EventFunctionCall => is_Some (ev_funcall ev)
  | EventOsCall => is_Some (ev_oscall ev)
  | EventNameLookup => is_Some (ev_namelookup ev)
  | _ => True
  end.

Lemma answer_adds ev :
  (forall n b r, ev_kind ev = EventOsCall -> w_mount (world n) = inr (b, r) -> K (SResume r)) ->
  (forall n err, ev_kind ev = EventOsCall -> w_mount (world n) = inl err -> F err) ->
  (forall v, ev_kind ev = EventNameLookup -> K (SLookup LookupValue v None)) ->
  ((ev_kind ev = EventOsCall /\ exists n c v, safe c (world n) = inr v /\ asFuture v = Some None) -> C) ->
  (~ has_payload ev -> C) ->
  adds (answer ev) (answers 1).
Proof.
  intros Hm HF Hn HC Hp. apply answers_now. intros n. destruct (w_boundary _).
  { apply adds_bind, stop_adds. intros e He. apply adds_ret, answers_end. by constructor. }
  unfold has_payload in Hp.
  destruct (ev_kind ev) eqn:Hk; try (apply adds_ret, answers_end, ends_failed).
  - apply adds_bind, adds_deref; [intros fc _|intros He; apply Hp; rewrite He; by intros []].
    case_bool_decide; [apply answerFunctionCall_adds|apply answerMethodCall_adds].
  - apply adds_bind, adds_deref; [intros call _|intros He; apply Hp; rewrite He; by intros []].
    apply answerOsCall_adds; eauto.
  - apply adds_bind, adds_deref; [intros nl _|intros He; apply Hp; rewrite He; by intros []].
    case_bool_decide; [apply adds_more, answerNameLookup_adds; eauto|apply answerObjectLookup_adds].
  - apply adds_more, answerResolveFutures_adds.
Qed.
End calculus.

(** What answering [ev] may send: what fits, the answer of a mount as it is, and
    a value that a plain name stands for. *)
Definition may_send (ev : event) (q : answer_req) : Prop :=
  fits q \/ (ev_kind ev = EventOsCall /\ exists n b r, w_mount (world n) = inr (b, r) /\ q = SResume r)
  \/ (ev_kind ev = EventNameLookup /\ exists v, q = SLookup LookupValue v None).

Definition mount_fails (ev : event) (err : merror) : Prop :=
  ev_kind ev = EventOsCall /\ exists n, w_mount (world n) = inl err.


(** What the sandbox is told about a name it may not use. *)
Definition refusal (q : answer_req) : Prop :=
  match q with
  | SResume r => er_kind r = ExtError
  | SLookup k _ _ => k <> LookupValue
  | SFutures _ => False
  end.

Lemma refusals_only (m : M outcome) :
  adds m (fun l x => exists x', x = Some x' /\ ends refusal (fun _ => False) l x') ->
  adds m (fun l _ => forall e, e ∈ l -> exists q rep, e = TSend q rep /\ refusal q).
Proof. intros Hm. eapply adds_mono; [done|]. intros l x (x' & _ & He). destruct He; try done; set_solver. Qed.

Lemma underscored_head name : head name = Some "_"%byte -> underscored name = true.
Proof. destruct name as [|c name]; [done|]. intros [= ->]. unfold underscored, HasPrefix. by apply bool_decide_eq_true_2. Qed.

(** An event about a name with a leading underscore: a method of a host object
    other than [__call__], or an attribute of one. *)
Definition private_event (ev : event) : Prop :=
  match ev_kind ev with
  | EventFunctionCall => exists fc, ev_funcall ev = Some fc /\ fc_objectid fc <> [] /\
      head (fc_name fc) = Some "_"%byte /\ fc_name fc <> go "__call__"
  | EventNameLookup => exists nl, ev_namelookup ev = Some nl /\ nl_objectid nl <> [] /\ head (nl_name nl) = Some "_"%byte
  | _ => False
  end.

(** C13. Names with a leading underscore never reach a host object: for a method
    call (other than of [__call__]) or an attribute lookup with such a name no
    host code runs at all, and the sandbox is told nothing but an exception or
    that the name is undefined. *)
Theorem private_names_hidden (ev : event) :
  private_event ev ->
  forall e, e ∈ a_log (answer ev (AState 0 [])).2 -> exists q rep, e = TSend q rep /\ refusal q.
Proof.
  intros Hp. enough (adds (answer ev) (fun l _ => forall e, e ∈ l -> exists q rep, e = TSend q rep /\ refusal q)) as Ha.
  { destruct (Ha (AState 0 [])) as (l & -> & Hl). intros e. rewrite app_nil_r, list_elem_of_In, <-in_rev, <-list_elem_of_In. apply Hl. }
  apply answers_now. intros n. destruct (w_boundary _).
  { apply adds_bind, stop_adds. intros e He. apply adds_ret. set_solver. }
  unfold private_event in Hp. destruct (ev_kind ev); try done.
  - destruct Hp as (fc & -> & Ho & Hu%underscored_head & Hc). apply adds_bind, adds_deref; [|done]. intros fc' [= <-].
    rewrite bool_decide_eq_false_2 by done. cbn [negb]. apply answers_now. intros n'.
    rewrite Hu, bool_decide_eq_false_2 by done. cbn [negb andb]. by apply refusals_only, resumeWire_ends.
  - destruct Hp as (nl & -> & Ho & Hu%underscored_head). apply adds_bind, adds_deref; [|done]. intros nl' [= <-].
    rewrite bool_decide_eq_false_2 by done. cbn [negb]. apply answers_now. intros n'. rewrite Hu.
    destruct (w_object _ _); by apply refusals_only, resumeLookup_ends.
Qed.
End answering.

(** ** A small host *)

(** Values are Python values, [inl] those a handler returns as futures. *)
#[local] Instance demo_types : HostTypes (hval := option (option nat) + value) (func := unit) (wrapper := unit) (future := nat) := {|
  asFuture v := match v with inl (Some f) => Some f | _ => None end;
  isNotHandled _ := false;
  asFunction _ := inr (Some ());
  TypeName _ := go "thing";
  WrapperName _ := go "Thing";
  asAttrError _ := None;
  attrNotExposed _ := false |}.

Definition demo_moment (run : (option (option nat) + value)) (prepared : value) (reply : merror + event) :
    moment (hval := option (option nat) + value) (func := unit) (wrapper := unit) (future := nat) (kwrec := unit) :=
  Moment None None None None (NewException [] []) (fun e => e) None (fun _ => Some (inr VNil)) (fun _ => Some ()) inr (fun _ => ())
    (fun _ => Returned (inr run)) (fun _ => inr run) (inr (false, ext_kind ExtNotHandled)) (fun _ => inr prepared)
    (fun _ => None) (fun _ => None) reply None false (newPrintTarget None) None.

Definition event_of (k : eventkind) (fc : option funcall) (oc : option oscall) (nl : option namelookup) : event :=
  Event k [] fc oc nl [] VNil false None [] [] [] [] false 0 None None None.

Definition demo_private : event :=
  event_of EventFunctionCall (Some (FunctionCall (go "__dict__") [] [] 1 (go "id") false)) None None.

Lemma private_names_hidden_witness :
  private_event demo_private /\
  forall e, e ∈ a_log (answer (fun _ => demo_moment (inr VNil) VNil (inr demo_private)) ∅ true true demo_private (AState 0 [])).2 ->
    exists q rep, e = TSend q rep /\ refusal q.
Proof.
  assert (private_event demo_private) as Hp.
  { eexists. split; [reflexivity|]. split; [discriminate|]. split; [reflexivity|discriminate]. }
  split; [exact Hp|]. apply (private_names_hidden (fun _ => demo_moment (inr VNil) VNil (inr demo_private)) ∅ true true demo_private Hp).
Defined.

(** An OS handler that returns a nil future panics where nothing recovers it. *)
Example os_nil_future_panics :
  let ev := event_of EventOsCall None (Some (OsCall 1 OpGetenv [] [] [] [] [] false false [] VNil false (TimeZone 0 None) None)) None in
  (answer (fun _ => demo_moment (inl (Some None)) VNil (inr ev)) ∅ true true ev (AState 0 [])).1 = None.
Proof. vm_compute. reflexivity. Qed.

(** An answer that the checkout refuses before sending anything (its frame would
    be too large, say) ends the feed with that error: the session is kept, and
    its worker still waits for the answer. *)
Example refused_answer_leaves_worker_suspended :
  let ev := event_of EventFunctionCall (Some (FunctionCall (go "f") [] [] 1 [] false)) None None in
  let err := PoolFailure (runtimeError (go "RuntimeError") (go "request frame exceeds the maximum")) None in
  exists s, drive (fun _ => demo_moment (inr VNil) (VBytes []) (inl err)) ∅ true true 2 (inr ev) (AState 0 [])
    = (Some (Some (Maps err)), s).
Proof. eexists. vm_compute. reflexivity. Qed.
