(* ===== verification/HostObjects.v ===== *)
(** Host objects and the host registry (src/sandbox/host/classinstance.go and
    src/sandbox/host/host.go): which names of an object the sandbox can reach,
    the store that identifies objects across the wire, and the names a host
    registers. Reading fields and calling methods by reflection is a parameter. *)

From S2P Require Import Prelude GoStrings Monterr Stop.

(** ** Policies *)

Record AttrPolicy := MkPolicyOf { ap_set : bool; ap_all : bool; ap_names : list bytes }.

Definition no_names : AttrPolicy := MkPolicyOf false false [].
Definition All : AttrPolicy := MkPolicyOf true true [].
Definition Names (names : list bytes) : AttrPolicy := MkPolicyOf true false names.

(** [name != "" && name[0] != '_'] *)
Definition public (name : bytes) : bool :=
  match name with [] => false | c :: _ => negb (bool_decide (c = "_"%byte)) end.

Definition Allows (p : AttrPolicy) (name : bytes) : bool :=
  if negb (ap_set p) then false
  else if ap_all p then public name
  else bool_decide (name ∈ ap_names p).

Definition IsAll (p : AttrPolicy) : bool := ap_set p && ap_all p.

(** ** Wrapped objects *)

Section objects.
Context {hval args : Type}.
(** [errors.Is(err, ErrAttrNotExposed)] for an error of the user's code. *)
Variable attrNotExposed : merror -> bool.

(** A result, an [AttrError], or another error. *)
Inductive attr_result (A : Type) := AOk (a : A) | AAttr (msg : bytes) | AErr (err : merror).
#[global] Arguments AOk {A}.
#[global] Arguments AAttr {A}.
#[global] Arguments AErr {A}.

(** What of an object is touched. *)
Inductive touch := TRead (name : bytes) | TCall (name : bytes).

(** [ClassInstance], with its object: the names its fields have, what reading an
    attribute gives ([None] when there is none), whether methods are served by a
    provider, what calling one gives ([None] when there is none), and whether a
    result is a future, a nil one included. *)
Record ClassInstance := MkInstance {
  ci_name : bytes;
  ci_eager : AttrPolicy; ci_lazy : AttrPolicy; ci_methods : AttrPolicy;
  ci_convert : bytes -> hval -> merror + hval;
  ci_listed : list bytes;
  ci_read : bytes -> merror + option hval;
  ci_provider : bool;
  ci_call : bytes -> args -> option (merror + hval);
  ci_future : hval -> option (option hval) }.

Definition attrErr (c : ClassInstance) (name : bytes) : bytes :=
  go "'" ++ ci_name c ++ go "' object has no attribute '" ++ name ++ go "'".

Definition converted (c : ClassInstance) (name : bytes) (v : hval) : attr_result hval :=
  match ci_convert c name v with inl err => AErr err | inr v => AOk v end.

Definition lazyAttr (c : ClassInstance) (name : bytes) : list touch * attr_result hval :=
  if negb (Allows (ci_lazy c) name) then ([], AAttr (attrErr c name))
  else ([TRead name],
    match ci_read c name with
    | inl err => if attrNotExposed err then AAttr (attrErr c name) else AErr err
    | inr None => AAttr (attrErr c name)
    | inr (Some v) => converted c name v
    end).

(** The conversion of a future's value happens when it settles, so that it is
    handed on as it is. *)
Definition callMethod (c : ClassInstance) (name : bytes) (a : args) : list touch * attr_result hval :=
  if bool_decide (name = go "__call__") || negb (Allows (ci_methods c) name) then ([], AAttr (attrErr c name))
  else ([TCall name],
    match ci_call c name a with
    | None => AAttr (attrErr c name)
    | Some (inl err) => if ci_provider c && attrNotExposed err then AAttr (attrErr c name) else AErr err
    | Some (inr v) =>
      match ci_future c v with
      | Some None => AErr (ValueError (go "host returned a nil Future"))
      | Some (Some fut) => AOk fut
      | None => converted c name v
      end
    end).

(** The names an object sends with itself, and the loop over them; [nil] is what
    a missing attribute is sent as. *)
Definition eager_names (c : ClassInstance) : list bytes :=
  if ap_all (ci_eager c) then filter (fun n => public n = true) (ci_listed c) else ap_names (ci_eager c).

Fixpoint eager_loop (c : ClassInstance) (nil : hval) (names : list bytes) : list touch * (merror + list (bytes * hval)) :=
  match names with
  | [] => ([], inr [])
  | name :: names =>
    match (match ci_read c name with
           | inl err => if attrNotExposed err then inr nil else inl err
           | inr v => inr (default nil v)
           end) with
    | inl err => ([TRead name], inl err)
    | inr v =>
      match ci_convert c name v with
      | inl err => ([TRead name], inl err)
      | inr cv =>
        let '(t, rest) := eager_loop c nil names in
        (TRead name :: t, match rest with inl err => inl err | inr ps => inr ((name, cv) :: ps) end)
      end
    end
  end.

Definition eagerAttrs (c : ClassInstance) (nil : hval) : list touch * (merror + list (bytes * hval)) :=
  if negb (ap_set (ci_eager c)) then ([], inr []) else eager_loop c nil (eager_names c).
End objects.

(** ** The store *)

(** What reflection says of an object: a type descriptor, or a value of a type
    that is a reference (pointer, map, slice, function, channel), comparable with
    [==], or neither. *)
Inductive gokind := KReference (ptr : Z) | KComparable | KOther.
Inductive goidentity := IsType (t : Z) | IsValue (t : Z) (k : gokind) (v : Z).

(** Go's [==] and reflect.DeepEqual on values of one type. *)
Class GoEquality := { go_eq : Z -> Z -> bool; DeepEqual : Z -> Z -> bool }.
Class GoEqualityLaws `{GoEquality} := {
  go_eq_sym a b : go_eq a b = true -> go_eq b a = true;
  go_eq_trans a b c : go_eq a b = true -> go_eq b c = true -> go_eq a c = true;
  DeepEqual_sym a b : DeepEqual a b = true -> DeepEqual b a = true;
  DeepEqual_trans a b c : DeepEqual a b = true -> DeepEqual b c = true -> DeepEqual a c = true }.

Section store.
Context `{GoEquality}.

Definition sameObject (a b : goidentity) : bool :=
  match a, b with
  | IsType ta, IsType tb => ta =? tb
  | IsType _, _ | _, IsType _ => false
  | IsValue ta ka va, IsValue tb kb vb =>
    if negb (ta =? tb) then false
    else match ka, kb with
         | KReference pa, KReference pb => pa =? pb
         | KComparable, KComparable => go_eq va vb
         | KOther, KOther => DeepEqual va vb
         | _, _ => false
         end
  end.

(** A wrapper as the store sees it; [w_obj] tells wrappers of one object apart. *)
Record Wrapper := MkWrapper { wrapperID : bytes; identity : goidentity; w_obj : Z }.

Definition unlimitedObjects : Z := MaxUint64.

Record InstanceStore := MkStore { is_m : gmap bytes Wrapper; is_limit : Z; is_peak : Z }.

Definition NewInstanceStore (limit : Z) : InstanceStore := MkStore ∅ limit 0.

Definition Stats (s : InstanceStore) : Z * Z := (Z.of_nat (size (is_m s)), is_peak s).

Definition put (w : Wrapper) (onlyIfAbsent : bool) (s : InstanceStore) : option merror * InstanceStore :=
  match is_m s !! wrapperID w with
  | Some existing =>
    if negb (sameObject (identity existing) (identity w)) then
      (Some (HostConversionError (go "wrapper id '" ++ wrapperID w ++ go "' already identifies a different object in this session")), s)
    else if onlyIfAbsent then (None, s)
    else (None, MkStore (<[wrapperID w := w]> (is_m s)) (is_limit s) (is_peak s))
  | None =>
    if negb (is_limit s =? unlimitedObjects) && (is_limit s <=? Z.of_nat (size (is_m s)))
    then (Some (ResourceError (go "host object") (is_limit s)), s)
    else
      let m := <[wrapperID w := w]> (is_m s) in
      let n := Z.of_nat (size m) in
      (None, MkStore m (is_limit s) (if is_peak s <? n then n else is_peak s))
  end.

Definition store_Get (id : bytes) (s : InstanceStore) : option Wrapper := is_m s !! id.

(** ** The registry *)

Definition keywords : list bytes :=
  go <$> ["False"; "None"; "True"; "and"; "as"; "assert"; "async"; "await"; "break"; "class"; "continue"; "def"; "del";
          "elif"; "else"; "except"; "finally"; "for"; "from"; "global"; "if"; "import"; "in"; "is"; "lambda"; "nonlocal";
          "not"; "or"; "pass"; "raise"; "return"; "try"; "while"; "with"; "yield"]%string.

(** The bytes of an identifier; a rune beyond ASCII has bytes that are none. *)
Definition ident_byte (first : bool) (c : byte) : bool :=
  let z := byte_val c in
  (z =? 95) || ((97 <=? z) && (z <=? 122)) || ((65 <=? z) && (z <=? 90)) || (((48 <=? z) && (z <=? 57)) && negb first).

Definition identifier (name : bytes) : bool :=
  match name with [] => true | c :: rest => ident_byte true c && forallb (ident_byte false) rest end.

(** [validHostName]; [quoted] is the name as [%q] prints it. *)
Definition validHostName (quoted : bytes -> bytes) (name : bytes) : option merror :=
  if bool_decide (name = []) then Some (ValueError (go "host name must not be empty"))
  else if bool_decide (name ∈ keywords) then Some (ValueError (go "host name " ++ quoted name ++ go " is a Python keyword"))
  else if identifier name then None
  else Some (ValueError (go "host name " ++ quoted name ++ go " is not a Python identifier")).

(** A registered object: what [NewClassInstance] made, its class and method names
    as stubs show them, and whether its ID is pinned. *)
Record hostObject := MkObject { ho_wrapper : Wrapper; ho_class : bytes; ho_methods : list bytes; ho_pinned : bool }.

Record Host (F : Type) := MkHost { h_funcs : gmap bytes F; h_objects : gmap bytes hostObject }.
#[global] Arguments MkHost {F}.
#[global] Arguments h_funcs {F}.
#[global] Arguments h_objects {F}.

Context {F : Type} (quoted : bytes -> bytes).

Definition NewHost : Host F := MkHost ∅ ∅.

Definition taken_name (h : Host F) (name : bytes) : bool :=
  bool_decide (is_Some (h_funcs h !! name)) || bool_decide (is_Some (h_objects h !! name)).

Definition already (name : bytes) : merror := ValueError (go "host name " ++ quoted name ++ go " is already registered").

(** [Host.Func]: [fn] is what [Func] makes of the function, [params] what the
    check of its parameter names says. *)
Definition Host_Func (nopts : nat) (name : bytes) (fn : merror + F) (params : option merror) (h : Host F) :
    option merror * Host F :=
  if (1 <? Z.of_nat nopts) then (Some (ValueError (go "Host.Func accepts at most one options value")), h)
  else
    match validHostName quoted name with
    | Some err => (Some err, h)
    | None =>
      match fn with
      | inl err => (Some err, h)
      | inr f =>
        match params with
        | Some err => (Some err, h)
        | None =>
          if taken_name h name then (Some (already name), h)
          else (None, MkHost (<[name := f]> (h_funcs h)) (h_objects h))
        end
      end
    end.

Fixpoint first_invalid (names : list bytes) : option merror :=
  match names with
  | [] => None
  | n :: names => match validHostName quoted n with Some err => Some err | None => first_invalid names end
  end.

Definition Host_Object (name : bytes) (ci : merror + hostObject) (h : Host F) : option merror * Host F :=
  match validHostName quoted name with
  | Some err => (Some err, h)
  | None =>
    match ci with
    | inl err => (Some err, h)
    | inr o =>
      match validHostName quoted (ho_class o) with
      | Some err => (Some (Wrapped (go "host class: ") err), h)
      | None =>
        match first_invalid (ho_methods o) with
        | Some err => (Some (Wrapped (go "host method: ") err), h)
        | None =>
          if taken_name h name then (Some (already name), h)
          else (None, MkHost (h_funcs h) (<[name := o]> (h_objects h)))
        end
      end
    end
  end.

Definition LookupEntry (h : Host F) (name : bytes) : option (F + hostObject) :=
  match h_funcs h !! name with
  | Some f => Some (inl f)
  | None => match h_objects h !! name with Some o => Some (inr o) | None => None end
  end.

Definition sortedObjects (h : Host F) : list (bytes * hostObject) := sort_keys (map_to_list (h_objects h)).

Fixpoint register_loop (objs : list (bytes * hostObject)) (s : InstanceStore) : option merror * InstanceStore :=
  match objs with
  | [] => (None, s)
  | (name, o) :: objs =>
    match put (ho_wrapper o) true s with
    | (Some err, s) => (Some (Wrapped (go "register host object " ++ name ++ go ": ") err), s)
    | (None, s) => register_loop objs s
    end
  end.

Definition Register (h : Host F) (s : InstanceStore) : option merror * InstanceStore := register_loop (sortedObjects h) s.
End store.

(** ** Objects serve what their policies expose *)

Lemma all_is_public p name : IsAll p = true -> Allows p name = public name.
Proof. unfold IsAll, Allows. intros [-> ->]%andb_true_iff. done. Qed.

Definition touched (t : touch) : bytes := match t with TRead n | TCall n => n end.

Lemma eager_loop_touches {hval args : Type} notExposed (c : ClassInstance (hval := hval) (args := args)) nil names t :
  t ∈ (eager_loop notExposed c nil names).1 -> t ∈ TRead <$> names.
Proof.
  induction names as [|n names IH]; cbn [eager_loop fmap list_fmap]; [done|].
  case_match; [set_solver|]. destruct (ci_convert c n h); [set_solver|].
  destruct (eager_loop notExposed c nil names) as [ts r]. cbn in *. set_solver.
Qed.

(** Of a wrapped object no attribute is read and no method called but under a
    name that the policy for this use exposes; [__call__] is never called. *)
Lemma objects_confined {hval args : Type} notExposed (c : ClassInstance (hval := hval) (args := args)) name a nil t :
  (t ∈ (lazyAttr notExposed c name).1 -> t = TRead name /\ Allows (ci_lazy c) name = true) /\
  (t ∈ (callMethod notExposed c name a).1 -> t = TCall name /\ Allows (ci_methods c) name = true /\ name <> go "__call__") /\
  (t ∈ (eagerAttrs notExposed c nil).1 -> exists n, t = TRead n /\ Allows (ci_eager c) n = true).
Proof.
  unfold lazyAttr, callMethod, eagerAttrs. split_and!.
  - destruct (Allows (ci_lazy c) name); cbn; set_solver.
  - case_bool_decide; [set_solver|]. destruct (Allows (ci_methods c) name); cbn; set_solver.
  - destruct (ap_set (ci_eager c)) eqn:Hs; cbn [negb]; [|set_solver].
    intros (n & -> & Hn)%eager_loop_touches%list_elem_of_fmap. exists n. split; [done|].
    unfold Allows, eager_names in *. rewrite Hs. cbn [negb]. destruct (ap_all (ci_eager c)).
    + apply list_elem_of_filter in Hn as [? _]. done.
    + by apply bool_decide_eq_true_2.
Qed.

(** ** The store identifies objects *)

Section store_facts.
Context `{GoEqualityLaws}.

Lemma sameObject_sym a b : sameObject a b = true -> sameObject b a = true.
Proof.
  destruct a as [ta|ta [pa| |] va], b as [tb|tb [pb| |] vb]; cbn; try done; try (destruct (Z.eqb_spec ta tb) as [->|]; [|done]);
    rewrite ?Z.eqb_refl; cbn; try done; rewrite ?Z.eqb_eq; auto using go_eq_sym, DeepEqual_sym.
Qed.

Lemma sameObject_trans a b c : sameObject a b = true -> sameObject b c = true -> sameObject a c = true.
Proof.
  destruct a as [ta|ta [pa| |] va], b as [tb|tb [pb| |] vb], c as [tc|tc [pc| |] vc]; cbn; try done;
    try (destruct (Z.eqb_spec ta tb) as [->|]; [|done]); try (destruct (Z.eqb_spec tb tc) as [->|]; [|done]);
    rewrite ?Z.eqb_refl; cbn; try done; rewrite ?Z.eqb_eq; try congruence; eauto using go_eq_trans, DeepEqual_trans.
Qed.

(** Puts in order, with the wrappers that were accepted. *)
Definition put_all (limit : Z) (ops : list (Wrapper * bool)) : InstanceStore * list Wrapper :=
  foldl (fun '(s, acc) '(w, absent) => match put w absent s with (None, s) => (s, w :: acc) | (Some _, s) => (s, acc) end)
    (NewInstanceStore limit, []) ops.

Record store_wf (limit : Z) (s : InstanceStore) (acc : list Wrapper) : Prop := {
  sw_limit : is_limit s = limit;
  sw_size : limit <> unlimitedObjects -> Z.of_nat (size (is_m s)) <= Z.max 0 limit;
  sw_peak : is_peak s = Z.of_nat (size (is_m s));
  sw_id id w : is_m s !! id = Some w -> wrapperID w = id;
  sw_same w : w ∈ acc -> exists w', is_m s !! wrapperID w = Some w' /\ (w' = w \/ sameObject (identity w) (identity w') = true) }.

Lemma put_wf limit s acc w absent :
  store_wf limit s acc ->
  match put w absent s with
  | (None, s') => store_wf limit s' (w :: acc)
  | (Some _, s') => s' = s
  end.
Proof.
  intros [Hl Hs Hp Hi Ha]. unfold put. destruct (is_m s !! wrapperID w) as [x|] eqn:Hx.
  - destruct (sameObject (identity x) (identity w)) eqn:Hsame; cbn [negb]; [|done]. pose proof (sameObject_sym _ _ Hsame) as Hsame'.
    destruct absent; (split; cbn; [done| | | |]).
    1-3: done.
    + intros y [->|Hy]%elem_of_cons; [eauto|by apply Ha].
    + by rewrite map_size_insert_Some.
    + by rewrite map_size_insert_Some.
    + intros id y. destruct (decide (wrapperID w = id)) as [<-|]; [rewrite lookup_insert_eq; by intros [= <-]|].
      rewrite lookup_insert_ne by done. apply Hi.
    + intros y [->|Hy]%elem_of_cons; [rewrite lookup_insert_eq; eauto|].
      destruct (Ha y Hy) as (y' & Hy' & Hsy). destruct (decide (wrapperID w = wrapperID y)) as [Hid|]; [|rewrite lookup_insert_ne by done; eauto].
      rewrite Hid, lookup_insert_eq. exists w. split; [done|]. right. rewrite <-Hid, Hx in Hy'. injection Hy' as <-.
      destruct Hsy as [->|Hsy]; [done|by eapply sameObject_trans].
  - destruct (negb _ && _) eqn:Hfull; [done|]. apply andb_false_iff in Hfull. rewrite map_size_insert_None by done. split; cbn.
    + done.
    + intros Hu. rewrite map_size_insert_None by done. destruct Hfull as [Hf|Hf]; [|lia].
      apply negb_false_iff, Z.eqb_eq in Hf. congruence.
    + rewrite Hp, map_size_insert_None by done. destruct (Z.ltb_spec (Z.of_nat (size (is_m s))) (Z.of_nat (S (size (is_m s))))); lia.
    + intros id y. destruct (decide (wrapperID w = id)) as [<-|]; [rewrite lookup_insert_eq; by intros [= <-]|].
      rewrite lookup_insert_ne by done. apply Hi.
    + intros y [->|Hy]%elem_of_cons; [rewrite lookup_insert_eq; eauto|]. destruct (Ha y Hy) as (y' & Hy' & Hsy).
      rewrite lookup_insert_ne by congruence. eauto.
Qed.

(** C39. Whatever wrappers a session puts into its store, the store never holds
    more objects than its limit, its peak is its count, and every object that was
    accepted is found under its ID ever after, as the same object; a wrapper is
    refused when its ID stands for another object or the store is full, and then
    nothing changes. *)
Theorem store_identifies (limit : Z) (ops : list (Wrapper * bool)) (w : Wrapper) (absent : bool) :
  let '(s, accepted) := put_all limit ops in
  (limit <> unlimitedObjects -> Z.of_nat (size (is_m s)) <= Z.max 0 limit) /\
  Stats s = (is_peak s, is_peak s) /\
  (forall w, w ∈ accepted -> exists w', store_Get (wrapperID w) s = Some w' /\ wrapperID w' = wrapperID w /\
     (w' = w \/ sameObject (identity w) (identity w') = true)) /\
  (forall err s', put w absent s = (Some err, s') -> s' = s /\
     ((exists w', store_Get (wrapperID w) s = Some w' /\ sameObject (identity w') (identity w) = false) \/
      (store_Get (wrapperID w) s = None /\ limit <= Z.of_nat (size (is_m s))))).
Proof.
  assert (store_wf limit (put_all limit ops).1 (put_all limit ops).2) as Hw.
  { unfold put_all. induction ops as [|[x ab] ops IH] using rev_ind.
    - split; cbn; [done|intros _; rewrite map_size_empty; lia|by rewrite map_size_empty|by intros; rewrite lookup_empty in *|set_solver].
    - rewrite foldl_app. destruct (foldl _ _ ops) as [s acc]. cbn in *. pose proof (put_wf limit s acc x ab IH) as Hp.
      destruct (put x ab s) as [[|] s']; cbn; by subst. }
  destruct (put_all limit ops) as [s accepted]. cbn [fst snd] in Hw. pose proof (put_wf limit s accepted w absent Hw) as Hput.
  destruct Hw as [Hl Hs Hp Hi Ha]. split_and!.
  - done.
  - unfold Stats. by rewrite Hp.
  - intros x Hx. destruct (Ha x Hx) as (w' & ? & ?). exists w'. split_and!; [done| |done]. by apply Hi.
  - intros err s' He. rewrite He in Hput. split; [done|]. unfold put in He. unfold store_Get.
    destruct (is_m s !! wrapperID w) as [x|].
    + left. exists x. split; [done|]. destruct (sameObject _ _); [|done]. by destruct absent.
    + right. split; [done|]. destruct (negb _ && _) eqn:Hf; [|done]. apply andb_true_iff in Hf as [_ Hf]. lia.
Qed.
End store_facts.

#[local] Instance Z_equality : GoEquality := {| go_eq := Z.eqb; DeepEqual := Z.eqb |}.
#[local] Instance Z_equality_laws : GoEqualityLaws.
Proof. split; cbn; intros *; rewrite !Z.eqb_eq; congruence. Qed.

Lemma store_identifies_witness :
  let w := MkWrapper (go "a") (IsType 1) 0 in
  let s := (put_all 1 [(w, true); (MkWrapper (go "b") (IsType 2) 1, false)]).1 in
  Z.of_nat (size (is_m s)) <= Z.max 0 1 /\ exists w', store_Get (go "a") s = Some w'.
Proof.
  pose proof (store_identifies 1 [(MkWrapper (go "a") (IsType 1) 0, true); (MkWrapper (go "b") (IsType 2) 1, false)]
                (MkWrapper (go "a") (IsType 1) 0) true) as H.
  cbv zeta. destruct (put_all 1 _) as [s acc] eqn:E. destruct H as (H1 & _ & H2 & _). cbn [fst]. split; [apply H1; discriminate|].
  destruct (H2 (MkWrapper (go "a") (IsType 1) 0)) as (w' & Hw & _); [|exists w'; exact Hw].
  injection E as _ <-. apply elem_of_cons. left. reflexivity.
Defined.

(** ** The registry *)

Inductive host_op (F : Type) :=
| HFunc (nopts : nat) (name : bytes) (fn : merror + F) (params : option merror)
| HObject (name : bytes) (ci : merror + hostObject).
Arguments HFunc {F}.
Arguments HObject {F}.

Section registry_facts.
Context {F : Type} (quoted : bytes -> bytes).

Definition host_do (h : Host F) (op : host_op F) : option merror * Host F :=
  match op with
  | HFunc nopts name fn params => Host_Func quoted nopts name fn params h
  | HObject name ci => Host_Object quoted name ci h
  end.
Definition host_name (op : host_op F) : bytes := match op with HFunc _ n _ _ | HObject n _ => n end.

(** A registration that succeeds adds exactly its name, which was free and is an
    identifier; one that fails changes nothing. So a name once registered stands
    for the same entry for good. *)
Lemma registration_adds (h : Host F) (op : host_op F) :
  match host_do h op with
  | (Some _, h') => h' = h
  | (None, h') => LookupEntry h (host_name op) = None /\ is_Some (LookupEntry h' (host_name op)) /\
      identifier (host_name op) = true /\ host_name op ∉ keywords /\
      forall n, n <> host_name op -> LookupEntry h' n = LookupEntry h n
  end.
Proof.
  assert (forall name, validHostName quoted name = None -> identifier name = true /\ name ∉ keywords) as Hv.
  { intros name. unfold validHostName. repeat case_bool_decide; try done. by destruct (identifier name). }
  assert (forall name, taken_name h name = false -> h_funcs h !! name = None /\ h_objects h !! name = None) as Ht.
  { intros name. unfold taken_name. intros [H1 H2]%orb_false_iff. apply bool_decide_eq_false in H1, H2.
    by rewrite !eq_None_not_Some. }
  destruct op as [nopts name fn params|name ci]; cbn [host_do host_name]; unfold Host_Func, Host_Object, LookupEntry.
  - destruct (1 <? _); [done|]. destruct (validHostName quoted name) eqn:Hn; [done|]. destruct fn; [done|]. destruct params; [done|].
    destruct (taken_name h name) eqn:Hk; [done|]. destruct (Ht _ Hk) as [H1 H2], (Hv _ Hn). cbn [h_funcs h_objects].
    rewrite H1, H2, lookup_insert_eq. split_and!; [done|by eexists|done|done|]. intros n Hne. by rewrite lookup_insert_ne.
  - destruct (validHostName quoted name) eqn:Hn; [done|]. destruct ci; [done|]. destruct (validHostName _ (ho_class _)); [done|].
    destruct (first_invalid _ _); [done|]. destruct (taken_name h name) eqn:Hk; [done|]. destruct (Ht _ Hk) as [H1 H2], (Hv _ Hn).
    cbn [h_funcs h_objects]. rewrite H1, H2, lookup_insert_eq. split_and!; [done|by eexists|done|done|].
    intros n Hne. by rewrite lookup_insert_ne.
Qed.
End registry_facts.
