(* ===== verification/Budget.v ===== *)
(** The per-session budget of the turn engine, src/internal/pool/budget.go: the
    deadline of a turn and what an event from the worker does to the account. A
    [time.Duration] is an int64 number of nanoseconds and its arithmetic wraps. *)

From S2P Require Import Prelude Events.

Definition DefaultMaxSuspensions : Z := 1000.

Definition Microsecond : Z := 1000.

Record sessionBudget := SessionBudget {
  durationBudget : option Z;
  reportedExec : Z;
  suspensionLimit : Z;
  suspensionsSeen : Z }.

(** The deadline of a turn, with whether it has one. *)
Definition deadline (b : sessionBudget) (requestTimeout grace : Z)
    (graceDisabled control : bool) : Z * bool :=
  let '(d, has) := if 0 <? requestTimeout then (requestTimeout, true) else (0, false) in
  match durationBudget b with
  | Some budget =>
    if negb control && negb graceDisabled then
      let rem := int64 (budget - int64 (int64 (reportedExec b) * Microsecond)) in
      let rem := if rem <? 0 then 0 else rem in
      let back := int64 (rem + grace) in
      if negb has || (back <? d) then (back, true) else (d, has)
    else (d, has)
  | None => (d, has)
  end.

Definition observe (ev : event) (b : sessionBudget) : sessionBudget :=
  let exec := if reportedExec b <? ev_micros ev then ev_micros ev else reportedExec b in
  let budget :=
    match durationBudget b, ev_maxduration ev with
    | None, Some m => Some (int64 (int64 m * Microsecond))
    | d, _ => d
    end in
  let limit :=
    match ev_maxsusp ev with
    | Some m => if m <? suspensionLimit b then m else suspensionLimit b
    | None => suspensionLimit b
    end in
  let seen := if IsSuspension ev then uint64 (suspensionsSeen b + 1) else suspensionsSeen b in
  SessionBudget budget exec limit seen.

(** ** The account over a conversation *)

Definition observe_all (evs : list event) (b : sessionBudget) : sessionBudget :=
  fold_left (fun b ev => observe ev b) evs b.

(** The least suspension limit and the greatest execution time reported. *)
Definition least_limit (evs : list event) (limit : Z) : Z :=
  fold_left (fun l ev => match ev_maxsusp ev with Some m => Z.min l m | None => l end) evs limit.
Definition greatest_exec (evs : list event) (exec : Z) : Z :=
  fold_left (fun e ev => Z.max e (ev_micros ev)) evs exec.

(** The duration budget: the configured one, or else the first one reported. *)
Definition first_budget (evs : list event) : option Z :=
  head (omap (fun ev => (fun m => int64 (int64 m * Microsecond)) <$> ev_maxduration ev) evs).

Section account.
Lemma observe_all_cons ev evs b : observe_all (ev :: evs) b = observe_all evs (observe ev b).
Proof. done. Qed.

Lemma observe_exec ev b : reportedExec (observe ev b) = Z.max (reportedExec b) (ev_micros ev).
Proof. cbn. destruct (Z.ltb_spec (reportedExec b) (ev_micros ev)); lia. Qed.

Lemma observe_limit ev b : suspensionLimit (observe ev b)
  = match ev_maxsusp ev with Some m => Z.min (suspensionLimit b) m | None => suspensionLimit b end.
Proof. cbn. destruct (ev_maxsusp ev) as [m|]; [|done]. destruct (Z.ltb_spec m (suspensionLimit b)); lia. Qed.

Lemma exec_mono evs : forall e, e <= greatest_exec evs e.
Proof.
  unfold greatest_exec. induction evs as [|ev evs IH]; intros e; cbn; [lia|].
  specialize (IH (Z.max e (ev_micros ev))). lia.
Qed.

(** The exact remainder of the time budget, and the backstop it gives. *)
Definition backstop (budget exec grace : Z) : Z := Z.max 0 (budget - exec * Microsecond) + grace.

Lemma backstop_exact budget exec grace :
  0 <= exec -> exec * Microsecond < 2 ^ 63 -> 0 <= budget -> 0 <= grace -> budget + grace < 2 ^ 63 ->
  (let rem := int64 (budget - int64 (int64 exec * Microsecond)) in
   int64 ((if rem <? 0 then 0 else rem) + grace)) = backstop budget exec grace.
Proof.
  unfold backstop, Microsecond. intros. cbv zeta.
  rewrite (int64_small exec), (int64_small (exec * 1000)), (int64_small (budget - exec * 1000)) by lia.
  destruct (Z.ltb_spec (budget - exec * 1000) 0); rewrite int64_small by lia; lia.
Qed.
End account.

(** The account after a conversation: the execution time is the greatest
    one reported, the suspension limit the least one seen, the suspensions are
    counted one by one (in 64 bits), and the duration budget is the configured
    one or, without one, the first the worker announced. *)
Theorem observe_account (evs : list event) (b : sessionBudget) :
  0 <= suspensionsSeen b < 2 ^ 64 ->
  let b' := observe_all evs b in
  reportedExec b' = greatest_exec evs (reportedExec b)
  /\ suspensionLimit b' = least_limit evs (suspensionLimit b)
  /\ suspensionsSeen b' = uint64 (suspensionsSeen b + len (filter (fun ev => IsSuspension ev = true) evs))
  /\ durationBudget b' = match durationBudget b with Some d => Some d | None => first_budget evs end.
Proof.
  revert b. induction evs as [|ev evs IH]; intros b Hs.
  - cbn. split_and!; try done; [|by destruct (durationBudget b)].
    symmetry. change (len (@nil event)) with 0. rewrite Z.add_0_r. by apply uwrap_small.
  - cbv zeta. rewrite observe_all_cons.
    destruct (IH (observe ev b)) as (H1 & H2 & H3 & H4).
    { cbn. destruct (IsSuspension ev); [apply uint64_range|done]. }
    rewrite H1, H2, H3, H4, observe_exec, observe_limit. split_and!.
    + done.
    + done.
    + rewrite filter_cons. cbn [observe suspensionsSeen].
      destruct (IsSuspension ev); [rewrite decide_True, len_cons by done|by rewrite decide_False].
      unfold uint64, uwrap. rewrite Zplus_mod_idemp_l. f_equal. lia.
    + cbn. unfold first_budget. cbn. by destruct (durationBudget b), (ev_maxduration ev).
Qed.

(** A conversation that suspends twice, lowers the limit and reports time. *)
Definition sample_conversation : list event :=
  [set_ev_maxsusp (Some 5) (set_ev_maxduration (Some 2000000) new_event);
   set_ev_micros 700 (set_ev_kind EventFunctionCall new_event);
   set_ev_micros 500 (set_ev_kind EventOsCall new_event)].

Lemma observe_account_witness :
  let b := observe_all sample_conversation (SessionBudget None 0 DefaultMaxSuspensions 0) in
  b = SessionBudget (Some 2000000000) 700 5 2
  /\ reportedExec b = greatest_exec sample_conversation 0.
Proof.
  split; [vm_compute; reflexivity|].
  apply (observe_account sample_conversation (SessionBudget None 0 DefaultMaxSuspensions 0)). cbn. lia.
Defined.

(** The deadline of a turn that is not a control turn: while the reported
    times fit a Duration it is the lesser of the request timeout and what is
    left of the duration budget plus the grace, and no event the worker sends
    ever extends it. *)
Theorem deadline_tightens (b : sessionBudget) (evs : list event) (budget timeout grace : Z) :
  durationBudget b = Some budget -> 0 <= budget -> 0 <= grace -> budget + grace < 2 ^ 63 ->
  0 <= reportedExec b -> greatest_exec evs (reportedExec b) * Microsecond < 2 ^ 63 ->
  let later := deadline (observe_all evs b) timeout grace false false in
  let now := deadline b timeout grace false false in
  now = (if 0 <? timeout then Z.min timeout (backstop budget (reportedExec b) grace)
         else backstop budget (reportedExec b) grace, true)
  /\ later.2 = true /\ later.1 <= now.1 /\ (0 < timeout -> later.1 <= timeout).
Proof.
  intros Hd Hb Hg Hbg He Hx.
  assert (forall b, durationBudget b = Some budget -> 0 <= reportedExec b ->
    reportedExec b * Microsecond < 2 ^ 63 ->
    deadline b timeout grace false false
    = (if 0 <? timeout then Z.min timeout (backstop budget (reportedExec b) grace)
       else backstop budget (reportedExec b) grace, true)) as Hform.
  { intros b' Hd' He' Hx'. unfold deadline. rewrite Hd'. cbn [negb andb].
    pose proof (backstop_exact budget (reportedExec b') grace He' Hx' Hb Hg Hbg) as E. cbv zeta in E. rewrite E.
    destruct (Z.ltb_spec 0 timeout); cbn [negb orb]; [|done].
    destruct (Z.ltb_spec (backstop budget (reportedExec b') grace) timeout); f_equal; lia. }
  pose proof (exec_mono evs (reportedExec b)) as Hm.
  assert (durationBudget (observe_all evs b) = Some budget
    /\ reportedExec (observe_all evs b) = greatest_exec evs (reportedExec b)) as [Hd' He'].
  { clear -Hd. revert b Hd. induction evs as [|ev evs IH]; intros b Hd; [done|].
    destruct (IH (observe ev b)) as [H1 H2]; [by cbn; rewrite Hd|].
    rewrite observe_all_cons, H1, H2, observe_exec. done. }
  cbv zeta. rewrite (Hform b), (Hform (observe_all evs b)) by (try done; unfold Microsecond in *; lia).
  rewrite He'. cbn [fst snd]. unfold backstop, Microsecond in *. split_and!; [done|done| |].
  - destruct (0 <? timeout); lia.
  - intros. rewrite (proj2 (Z.ltb_lt 0 timeout)); lia.
Qed.

Lemma deadline_tightens_witness :
  let b := SessionBudget (Some 2000000000) 0 5 0 in
  deadline b 0 1000000 false false = (2001000000, true)
  /\ deadline (observe_all sample_conversation b) 0 1000000 false false = (2000300000, true)
  /\ (deadline (observe_all sample_conversation b) 0 1000000 false false).1
     <= (deadline b 0 1000000 false false).1.
Proof.
  cbv zeta. split; [vm_compute; reflexivity|]. split; [vm_compute; reflexivity|].
  apply (deadline_tightens (SessionBudget (Some 2000000000) 0 5 0) sample_conversation 2000000000 0 1000000);
    vm_compute; reflexivity || discriminate.
Defined.

(** A report that does not fit a Duration wraps around: a worker that has
    announced about 295 years of execution gets a deadline of about 290 years
    where an exact account leaves only the grace. *)
Lemma deadline_wraps :
  deadline (SessionBudget (Some 1000000000) 9300000000000000 5 0) 0 1000000 false false
  = (9146744074710551616, true)
  /\ backstop 1000000000 9300000000000000 1000000 = 1000000.
Proof. split; vm_compute; reflexivity. Qed.
