(* ===== verification/Lease.v ===== *)
(** Who ends a checkout, and when its observer is closed:
    src/internal/pool/lease.go and src/internal/pool/observer_lifecycle.go.

    Every operation here runs under one mutex, so concurrent goroutines perform
    some sequence of these operations; the theorems are about every sequence. *)

From S2P Require Import Prelude.

(** ** The checkout lease *)

Section lease.
Context {slot worker error : Type}.

Record checkoutLease := Lease {
  l_slot : option slot; l_worker : worker; l_cause : option error }.

Definition active (l : checkoutLease) : bool :=
  match l_slot l with Some _ => true | None => false end.

Definition finish (l : checkoutLease) : option slot * bool * checkoutLease :=
  let s := l_slot l in
  (s, match s with Some _ => true | None => false end, Lease None (l_worker l) (l_cause l)).

Definition terminate (cause : option error) (l : checkoutLease)
    : option worker * bool * checkoutLease :=
  match l_slot l with
  | None => (None, false, l)
  | Some _ => (Some (l_worker l), true, Lease None (l_worker l) cause)
  end.

(** A goroutine's operation and what it is told. *)
Inductive lease_op := LActive | LFinish | LTerminate (cause : option error).
Inductive lease_out :=
| OActive (b : bool) | OFinish (s : option slot) (won : bool) | OTerminate (w : option worker) (won : bool).

Definition lease_do (op : lease_op) (l : checkoutLease) : lease_out * checkoutLease :=
  match op with
  | LActive => (OActive (active l), l)
  | LFinish => let '(s, won, l) := finish l in (OFinish s won, l)
  | LTerminate cause => let '(w, won, l) := terminate cause l in (OTerminate w won, l)
  end.

Fixpoint lease_run (ops : list lease_op) (l : checkoutLease) : list lease_out * checkoutLease :=
  match ops with
  | [] => ([], l)
  | op :: ops =>
    let '(o, l) := lease_do op l in let '(os, l) := lease_run ops l in (o :: os, l)
  end.

Definition claims (op : lease_op) : bool := match op with LActive => false | _ => true end.

(** What an operation is told on a held lease, and on one that is gone. *)
Definition told_held (s : slot) (w : worker) (op : lease_op) : lease_out :=
  match op with
  | LActive => OActive true
  | LFinish => OFinish (Some s) true
  | LTerminate _ => OTerminate (Some w) true
  end.
Definition told_gone (op : lease_op) : lease_out :=
  match op with
  | LActive => OActive false
  | LFinish => OFinish None false
  | LTerminate _ => OTerminate None false
  end.

(** The cause recorded by the operation that won. *)
Definition cause_after (op : lease_op) (c : option error) : option error :=
  match op with LTerminate c' => c' | _ => c end.

Lemma lease_run_gone ops w c : lease_run ops (Lease None w c) = (map told_gone ops, Lease None w c).
Proof. induction ops as [|[] ops IH]; cbn; [done|by rewrite IH..]. Qed.

Lemma lease_run_held ops s w c : Forall (fun op => claims op = false) ops ->
  lease_run ops (Lease (Some s) w c) = (map (told_held s w) ops, Lease (Some s) w c).
Proof.
  induction 1 as [|op ops Hop _ IH]; [done|]. destruct op; try done. cbn. by rewrite IH.
Qed.

Lemma lease_run_app ops1 ops2 l :
  lease_run (ops1 ++ ops2) l
  = (let '(o1, l) := lease_run ops1 l in let '(o2, l) := lease_run ops2 l in (o1 ++ o2, l)).
Proof.
  revert l. induction ops1 as [|op ops1 IH]; intros l; cbn; [by destruct (lease_run ops2 l)|].
  destruct (lease_do op l) as [o l1]. rewrite IH. destruct (lease_run ops1 l1) as [o1 l2].
  by destruct (lease_run ops2 l2).
Qed.

(** A checkout ends once: whatever releases and terminations race for a
    held lease, the first of them gets the slot or the worker and every later
    one loses; [active] holds before it and never again; and the cause kept is
    that of the termination that won. *)
Theorem lease_single_winner (ops : list lease_op) (s : slot) (w : worker) (c : option error) :
  match list_find (fun op => claims op = true) ops with
  | None => lease_run ops (Lease (Some s) w c) = (map (told_held s w) ops, Lease (Some s) w c)
  | Some (i, op) =>
    lease_run ops (Lease (Some s) w c)
    = (map (told_held s w) (take (S i) ops) ++ map told_gone (drop (S i) ops),
       Lease None w (cause_after op c))
  end.
Proof.
  destruct (list_find (fun op => claims op = true) ops) as [[i op]|] eqn:E.
  - apply list_find_Some in E as (Hi & Hc & Hbefore).
    rewrite <- (take_drop_middle ops i op Hi) at 1. rewrite lease_run_app, lease_run_held.
    + rewrite (take_S_r _ _ _ Hi), map_app, <- app_assoc. cbn [lease_run].
      destruct op; try done; cbn; by rewrite lease_run_gone.
    + apply Forall_lookup_2. intros j op' [Hj Hlt]%lookup_take_Some.
      specialize (Hbefore j op' Hj Hlt). by apply not_true_is_false.
  - apply list_find_None in E. apply lease_run_held. eapply Forall_impl; [exact E|].
    intros op H. by apply not_true_is_false.
Qed.
End lease.

(** ** The observer's lifetime *)

Record observerLifetime := Life { users : Z; closing : bool; closed : bool }.

Definition new_life : observerLifetime := Life 0 false false.

(** [acquire] reports whether the caller is now a protocol owner; [release] and
    [close] report [closeNow]: whether the caller goes on to call [Closed]. *)
Definition obs_acquire (l : observerLifetime) : bool * observerLifetime :=
  if closing l then (false, l) else (true, Life (users l + 1) (closing l) (closed l)).

Definition obs_release (l : observerLifetime) : bool * observerLifetime :=
  let n := users l - 1 in
  let closeNow := closing l && (n =? 0) && negb (closed l) in
  (closeNow, Life n (closing l) (if closeNow then true else closed l)).

Definition obs_close (l : observerLifetime) : bool * observerLifetime :=
  let closeNow := (users l =? 0) && negb (closed l) in
  (closeNow, Life (users l) true (if closeNow then true else closed l)).

(** The lifetime with the owners that still have to release, and the number of
    [Closed] calls made. An owner releases once, after its [acquire] succeeded;
    [close] may be called any number of times. *)
Inductive obs_step : observerLifetime * nat * nat -> observerLifetime * nat * nat -> Prop :=
| obs_step_acquire l l' n k b :
    obs_acquire l = (b, l') -> obs_step (l, n, k) (l', if b then S n else n, k)
| obs_step_release l l' n k b :
    obs_release l = (b, l') -> obs_step (l, S n, k) (l', n, if b then S k else k)
| obs_step_close l l' n k b :
    obs_close l = (b, l') -> obs_step (l, n, k) (l', n, if b then S k else k).

Definition obs_reach := rtc obs_step.

Record obs_inv (x : observerLifetime * nat * nat) : Prop := ObsInv {
  oi_users : users x.1.1 = Z.of_nat x.1.2;
  oi_closed : closed x.1.1 = closing x.1.1 && (users x.1.1 =? 0);
  oi_calls : x.2 = if closed x.1.1 then 1%nat else 0%nat }.

Lemma obs_step_inv x y : obs_step x y -> obs_inv x -> obs_inv y.
Proof.
  intros Hs [Hu Hc Hk].
  destruct Hs as [l l' n k b E|l l' n k b E|l l' n k b E]; destruct l as [u cg cd]; cbn in *; subst.
  - unfold obs_acquire in E. cbn in E. destruct cg; simplify_eq/=; constructor; cbn; auto; lia.
  - unfold obs_release in E. cbn in E.
    replace (Z.of_nat (S n) - 1) with (Z.of_nat n) in E by lia.
    replace (Z.of_nat (S n) =? 0) with false in * by (symmetry; apply Z.eqb_neq; lia).
    destruct cg, n; simplify_eq/=; constructor; cbn; auto.
  - unfold obs_close in E. cbn in E. destruct cg, n; simplify_eq/=; constructor; cbn; auto.
Qed.

Lemma obs_reach_inv x y : obs_reach x y -> obs_inv x -> obs_inv y.
Proof. intros H. induction H as [x|x y z Hxy _ IH]; [done|]. intros Hx. by apply IH, (obs_step_inv x). Qed.

Lemma obs_reach_closed x y : obs_reach x y -> closed x.1.1 = true -> closed y.1.1 = true.
Proof.
  intros H. induction H as [x|x y z Hxy _ IH]; [done|]. intros Hx. apply IH. clear IH.
  destruct Hxy as [a a' n k b E|a a' n k b E|a a' n k b E]; cbn in *.
  - unfold obs_acquire in E. destruct (closing a); by simplify_eq.
  - unfold obs_release in E. simplify_eq. cbn. rewrite Hx. by destruct (closing a && (users a - 1 =? 0) && _).
  - unfold obs_close in E. simplify_eq. cbn. rewrite Hx. by destruct ((users a =? 0) && _).
Qed.

Lemma obs_init_inv : obs_inv (new_life, 0%nat, 0%nat).
Proof. by constructor. Qed.

(** [Closed] is called exactly once, by the last one out: in every
    reachable state the number of calls is one if the lifetime is closing and
    every owner has released, and zero otherwise, and once it has been called
    no later operation becomes an owner or calls it again. *)
Theorem observer_closed_once (l : observerLifetime) (owners calls : nat) :
  obs_reach (new_life, 0%nat, 0%nat) (l, owners, calls) ->
  calls = (if closing l && bool_decide (owners = 0%nat) then 1%nat else 0%nat)
  /\ (calls = 1%nat -> (obs_acquire l).1 = false /\ (obs_close l).1 = false
      /\ forall l' o' c', obs_reach (l, owners, calls) (l', o', c') -> o' = 0%nat /\ c' = 1%nat).
Proof.
  intros H. pose proof (obs_reach_inv _ _ H obs_init_inv) as Hinv. pose proof Hinv as [Hu Hc Hk].
  cbn [fst snd] in *. split.
  { rewrite Hk, Hc, Hu. destruct (closing l); cbn; [|done]. destruct owners; done. }
  intros ->. destruct (closed l) eqn:Hcd; [|done].
  symmetry in Hc. apply andb_true_iff in Hc as [Hcg Hz%Z.eqb_eq]. split_and!.
  - unfold obs_acquire. by rewrite Hcg.
  - cbn. rewrite Hcd. apply andb_false_r.
  - intros l' o' c' Hr. pose proof (obs_reach_closed _ _ Hr Hcd) as Hcd'. cbn in Hcd'.
    destruct (obs_reach_inv _ _ Hr Hinv) as [Hu' Hc' Hk']. cbn [fst snd] in *. rewrite Hcd' in *.
    symmetry in Hc'. apply andb_true_iff in Hc' as [_ Hz'%Z.eqb_eq]. split; [lia|done].
Qed.

Lemma observer_closed_once_witness :
  exists l, obs_reach (new_life, 0%nat, 0%nat) (l, 0%nat, 1%nat)
    /\ (obs_acquire l).1 = false.
Proof.
  exists (Life 0 true true).
  assert (obs_reach (new_life, 0%nat, 0%nat) (Life 0 true true, 0%nat, 1%nat)) as Hr.
  { eapply rtc_l; [exact (obs_step_acquire new_life (Life 1 false false) 0 0 true eq_refl)|].
    eapply rtc_l; [exact (obs_step_close (Life 1 false false) (Life 1 true false) 1 0 false eq_refl)|].
    eapply rtc_l; [exact (obs_step_release (Life 1 true false) (Life 0 true true) 0 0 true eq_refl)|].
    apply rtc_refl. }
  split; [exact Hr|]. apply (observer_closed_once (Life 0 true true) 0 1 Hr). reflexivity.
Defined.
