(* ===== verification/Pool.v ===== *)
(** The elastic worker pool, src/internal/pool/pool.go, and the reservations of
    a single-use pool, src/internal/pool/reservation.go.

    Every operation below is one section of code that runs under the pool's
    mutex, with the metrics it reports and the observers it closes recorded in
    the pool's trace. The reaper is a Go channel of capacity [MaxProcesses]: a
    send on a full channel blocks, with the mutex held, and a send on a closed
    one panics. The goroutines around the pool (acquisitions waiting for a
    spawn, checkouts, reservations, reapers) are the rest of the system's state,
    and [core_step] and [full_step] are their interleavings. Workers are
    numbers; whether one is alive, and its transport, are oracles. *)

From S2P Require Import Prelude PoolErrors.

Record config := Config {
  MinProcesses : Z; MaxProcesses : Z; MaxCheckoutsPerWorker : Z; SingleUse : bool }.

Record slot := Slot { sl_w : Z; served : Z; obs : option Z }.

Record retiredWorker := Retired { rw_w : Z; rw_obs : option Z; killed : bool; done_chan : bool }.

(** What the pool tells the outside: metrics, kills, observers and waiters. *)
Inductive effect :=
| WorkersLive (d : Z) | WorkersIdle (d : Z) | WorkersRetiring (d : Z)
| WorkerTerminated (reason : string) | Kill (w : Z) | CloseObserver (o : Z) | CloseDone.

(** [notify] counts the channels [wakeLocked] has closed. *)
Record pool := Pool {
  idle : list slot; starting : Z; active : Z; retiring : Z; notify : Z; closed : bool;
  reaper : list retiredWorker; reaped : bool; trace : list effect }.

Definition set_idle (v : list slot) (p : pool) : pool :=
  Pool v (starting p) (active p) (retiring p) (notify p) (closed p) (reaper p) (reaped p) (trace p).
Definition set_starting (v : Z) (p : pool) : pool :=
  Pool (idle p) v (active p) (retiring p) (notify p) (closed p) (reaper p) (reaped p) (trace p).
Definition set_active (v : Z) (p : pool) : pool :=
  Pool (idle p) (starting p) v (retiring p) (notify p) (closed p) (reaper p) (reaped p) (trace p).
Definition set_retiring (v : Z) (p : pool) : pool :=
  Pool (idle p) (starting p) (active p) v (notify p) (closed p) (reaper p) (reaped p) (trace p).
Definition set_notify (v : Z) (p : pool) : pool :=
  Pool (idle p) (starting p) (active p) (retiring p) v (closed p) (reaper p) (reaped p) (trace p).
Definition set_closed (v : bool) (p : pool) : pool :=
  Pool (idle p) (starting p) (active p) (retiring p) (notify p) v (reaper p) (reaped p) (trace p).
Definition set_reaper (v : list retiredWorker) (p : pool) : pool :=
  Pool (idle p) (starting p) (active p) (retiring p) (notify p) (closed p) v (reaped p) (trace p).
Definition set_reaped (v : bool) (p : pool) : pool :=
  Pool (idle p) (starting p) (active p) (retiring p) (notify p) (closed p) (reaper p) v (trace p).
Definition emit (e : effect) (p : pool) : pool :=
  Pool (idle p) (starting p) (active p) (retiring p) (notify p) (closed p) (reaper p) (reaped p)
    (trace p ++ [e]).

(** A section of code that holds the mutex completes, or it never does. *)
Inductive stuck := Blocks | Panics.
Inductive locked (A : Type) := Done (a : A) | Stuck (why : stuck).
Arguments Done {A} a.
Arguments Stuck {A} why.

#[export] Instance locked_mret : MRet locked := fun _ a => Done a.
#[export] Instance locked_mbind : MBind locked :=
  fun _ _ f m => match m with Done a => f a | Stuck w => Stuck w end.

Definition live (p : pool) : Z := starting p + active p + len (idle p) + retiring p.

Definition wakeLocked (p : pool) : pool := set_notify (notify p + 1) p.

Definition close_observer (o : option Z) (p : pool) : pool :=
  match o with Some o => emit (CloseObserver o) p | None => p end.

Definition maxReapers : Z := 8.

Section operations.
Variable c : config.
Variable alive : Z -> bool.
Variable websocket : Z -> bool.

Definition retireLocked (s : retiredWorker) (p : pool) : locked pool :=
  let p := emit (WorkersRetiring 1) (set_retiring (retiring p + 1) p) in
  if reaped p then Stuck Panics
  else if len (reaper p) <? MaxProcesses c then Done (set_reaper (reaper p ++ [s]) p)
  else Stuck Blocks.

(** ** acquire *)

(** The loop over idle workers, newest first: the first one alive is taken, the
    dead ones are killed and retired. One idle worker per iteration. *)
Fixpoint pop_idle (n : nat) (p : pool) : locked (option slot * pool) :=
  match n, last (idle p) with
  | S n, Some s =>
    let p := emit (WorkersIdle (-1)) (set_idle (removelast (idle p)) p) in
    if alive (sl_w s) then Done (Some s, set_active (active p + 1) p)
    else
      p ← retireLocked (Retired (sl_w s) None true false)
            (emit (Kill (sl_w s)) (emit (WorkerTerminated "died_idle") p));
      pop_idle n p
  | _, _ => Done (None, p)
  end.

Inductive acquired := AcqClosed | AcqIdle (s : slot) | AcqSpawn | AcqWait (wait : Z).

(** One iteration of [acquire], up to its spawn or its wait. *)
Definition acquire (p : pool) : locked (acquired * pool) :=
  if closed p then Done (AcqClosed, p)
  else
    '(taken, p) ← (if SingleUse c then Done (None, p) else pop_idle (length (idle p)) p);
    match taken with
    | Some s => Done (AcqIdle s, p)
    | None =>
      if live p <? MaxProcesses c then Done (AcqSpawn, set_starting (starting p + 1) p)
      else Done (AcqWait (notify p), p)
    end.

Inductive spawned := SpawnFailed | SpawnClosed | SpawnSlot (s : slot).

(** The rest of the iteration, after the spawner returned [w] or failed. *)
Definition acquire_spawned (w : option Z) (p : pool) : locked (spawned * pool) :=
  let p := set_starting (starting p - 1) p in
  match w with
  | None => Done (SpawnFailed, wakeLocked p)
  | Some w =>
    if closed p then
      p ← retireLocked (Retired w None false false)
            (emit (WorkerTerminated "closed") (emit (WorkersLive 1) p));
      Done (SpawnClosed, wakeLocked p)
    else Done (SpawnSlot (Slot w 0 None), emit (WorkersLive 1) (set_active (active p + 1) p))
  end.

(** ** release, retirement and reaping *)

Definition release (s : slot) (p : pool) : locked pool :=
  let o := obs s in
  let p := set_active (active p - 1) p in
  let recycle := SingleUse c || closed p || negb (alive (sl_w s))
    || ((0 <? MaxCheckoutsPerWorker c) && (MaxCheckoutsPerWorker c <=? served s)) in
  if recycle then
    let reason := if SingleUse c then "single_use"%string
      else if closed p then "closed"%string else "recycled"%string in
    let p := emit (WorkerTerminated reason) p in
    let p := if websocket (sl_w s) then close_observer o p else p in
    let o := if websocket (sl_w s) then None else o in
    p ← retireLocked (Retired (sl_w s) o false false) p;
    Done (wakeLocked p)
  else
    let p := emit (WorkersIdle 1) (set_idle (idle p ++ [Slot (sl_w s) (served s) None]) p) in
    Done (close_observer o (wakeLocked p)).

Definition retireLease (w : Z) (reason : string) (killed : bool) (p : pool) : locked pool :=
  let p := emit (WorkerTerminated reason) (set_active (active p - 1) p) in
  p ← retireLocked (Retired w None killed false) p;
  Done (wakeLocked p).

(** What a reaper does once its worker has exited. *)
Definition reap_exited (s : retiredWorker) (p : pool) : pool :=
  let p := close_observer (rw_obs s) p in
  let p := emit (WorkersLive (-1)) (emit (WorkersRetiring (-1)) (set_retiring (retiring p - 1) p)) in
  let p := wakeLocked p in
  if done_chan s then emit CloseDone p else p.

Fixpoint retire_idle (l : list slot) (p : pool) : locked pool :=
  match l with
  | [] => Done p
  | s :: l =>
    p ← retireLocked (Retired (sl_w s) None false true)
          (emit (WorkerTerminated "closed") (emit (WorkersIdle (-1)) p));
    retire_idle l p
  end.

Definition Close (p : pool) : locked pool :=
  if closed p then Done p
  else
    let p := set_closed true p in
    let l := idle p in
    p ← retire_idle l (set_idle [] p);
    Done (wakeLocked p).

Definition stopReapers (p : pool) : pool := if reaped p then p else set_reaped true p.

(** ** Reservations *)

Inductive reserved := ResClosed | ResHeld | ResWait (wait : Z).

Definition Reserve (p : pool) : reserved * pool :=
  if closed p then (ResClosed, p)
  else if live p <? MaxProcesses c then (ResHeld, set_starting (starting p + 1) p)
  else (ResWait (notify p), p).

Definition releaseReservation (p : pool) : pool := wakeLocked (set_starting (starting p - 1) p).

(** [Bind] after its spawn: on an open pool the worker takes the capacity over.
    On a closed one the reservation is given up and the worker is retired in a
    second section of the mutex. *)
Definition bind_spawned (p : pool) : bool * pool :=
  let isClosed := closed p in
  let p := set_starting (starting p - 1) p in
  if isClosed then (false, p) else (true, emit (WorkersLive 1) (set_active (active p + 1) p)).

Definition bind_retire (w : Z) (p : pool) : locked pool :=
  p ← retireLocked (Retired w None false false)
        (emit (WorkerTerminated "closed") (emit (WorkersLive 1) p));
  Done (wakeLocked p).

Definition reReserveLocked (p : pool) : pool := set_starting (starting p + 1) p.

Definition Handoff (s : slot) (p : pool) : locked pool :=
  let p := set_starting (starting p + 1) (set_active (active p - 1) p) in
  p ← retireLocked (Retired (sl_w s) None false false) (emit (WorkerTerminated "single_use") p);
  Done (close_observer (obs s) (wakeLocked p)).

(** ** New *)

Inductive created := NewInvalid | NewSpawnFailed (p : locked pool) | NewPool (p : pool).

Definition empty_pool : pool := Pool [] 0 0 0 0 false [] false [].

Fixpoint prewarm (n : nat) (spawn : list (option Z)) (p : pool) : created :=
  match n, spawn with
  | S n, Some w :: spawn =>
    prewarm n spawn (emit (WorkersIdle 1) (emit (WorkersLive 1) (set_idle (idle p ++ [Slot w 0 None]) p)))
  | S n, _ => NewSpawnFailed (Close p)
  | O, _ => NewPool p
  end.

(** The spawner's answers are given in order. *)
Definition New (spawn : list (option Z)) : created :=
  let n := if SingleUse c then 0 else MinProcesses c in
  if (MaxProcesses c =? 0) || (MaxProcesses c <? n) then NewInvalid
  else prewarm (Z.to_nat n) spawn empty_pool.

End operations.
