(* ===== verification/PoolFacts.v ===== *)
(** The pool as a concurrent system: interleavings of the mutex sections of
    Pool.v, the invariant they keep, and what goes wrong when reservations are
    retried. *)

From S2P Require Import Prelude Pool.

(** ** The system *)

(** The pool with the goroutines around it: [spawning] acquisitions that wait
    for their spawn, [out] the slots of checkouts whose lease is held, [held]
    reservations, [binding] workers spawned by a Bind that found the pool
    closed, [limbo] Binds that failed and have not taken their capacity back,
    [reaping] the workers in the hands of a reaper, and [drained] whether a
    Shutdown has seen the closed pool empty. *)
Record sys := Sys {
  pl : pool; spawning : nat; out : list slot; held : nat; binding : nat; limbo : nat;
  reaping : list retiredWorker; drained : bool }.

Definition set_pl (p : pool) (s : sys) : sys :=
  Sys p (spawning s) (out s) (held s) (binding s) (limbo s) (reaping s) (drained s).
Definition set_spawning (n : nat) (s : sys) : sys :=
  Sys (pl s) n (out s) (held s) (binding s) (limbo s) (reaping s) (drained s).
Definition set_out (l : list slot) (s : sys) : sys :=
  Sys (pl s) (spawning s) l (held s) (binding s) (limbo s) (reaping s) (drained s).
Definition set_held (n : nat) (s : sys) : sys :=
  Sys (pl s) (spawning s) (out s) n (binding s) (limbo s) (reaping s) (drained s).
Definition set_binding (n : nat) (s : sys) : sys :=
  Sys (pl s) (spawning s) (out s) (held s) n (limbo s) (reaping s) (drained s).
Definition set_limbo (n : nat) (s : sys) : sys :=
  Sys (pl s) (spawning s) (out s) (held s) (binding s) n (reaping s) (drained s).
Definition set_reaping (l : list retiredWorker) (s : sys) : sys :=
  Sys (pl s) (spawning s) (out s) (held s) (binding s) (limbo s) l (drained s).
Definition set_drained (b : bool) (s : sys) : sys :=
  Sys (pl s) (spawning s) (out s) (held s) (binding s) (limbo s) (reaping s) b.

Definition start (p : pool) : sys := Sys p 0 [] 0 0 0 [] false.

Definition reapers (c : config) : Z := Z.min (MaxProcesses c) maxReapers.

Section system.
Variable c : config.

(** What an acquisition's outcome does to its goroutine. A checkout may add an
    observer [o] to its slot. *)
Definition after_acquire (r : acquired) (o : option Z) (s : sys) : sys :=
  match r with
  | AcqIdle sl => set_out (out s ++ [Slot (sl_w sl) (served sl) o]) s
  | AcqSpawn => set_spawning (S (spawning s)) s
  | _ => s
  end.
Definition after_spawn (r : spawned) (o : option Z) (s : sys) : sys :=
  match r with
  | SpawnSlot sl => set_out (out s ++ [Slot (sl_w sl) (served sl) o]) s
  | _ => s
  end.

(** Everything but the retry of reservations: [n] more checkouts served for a
    released slot, and any oracles for liveness and transport. *)
Inductive core_step : sys -> sys -> Prop :=
| core_acquire alive r o p s :
    acquire c alive (pl s) = Done (r, p) -> core_step s (after_acquire r o (set_pl p s))
| core_spawned w r o p n s :
    spawning s = S n -> acquire_spawned c w (pl s) = Done (r, p) ->
    core_step s (after_spawn r o (set_spawning n (set_pl p s)))
| core_release alive ws i sl n p s :
    out s !! i = Some sl ->
    release c alive ws (Slot (sl_w sl) n (obs sl)) (pl s) = Done p ->
    core_step s (set_out (delete i (out s)) (set_pl p s))
| core_terminate i sl reason k p s :
    out s !! i = Some sl -> retireLease c (sl_w sl) reason k (pl s) = Done p ->
    core_step s (set_out (delete i (out s)) (set_pl p s))
| core_reap_take r q s :
    reaper (pl s) = r :: q -> len (reaping s) < reapers c ->
    core_step s (set_reaping (reaping s ++ [r]) (set_pl (set_reaper q (pl s)) s))
| core_reap_exited i r s :
    reaping s !! i = Some r ->
    core_step s (set_reaping (delete i (reaping s)) (set_pl (reap_exited r (pl s)) s))
| core_close p s :
    Close c (pl s) = Done p -> core_step s (set_pl p s)
| core_drained s :
    closed (pl s) = true -> live (pl s) = 0 -> core_step s (set_drained true s)
| core_stop s :
    drained s = true -> core_step s (set_pl (stopReapers (pl s)) s)
| core_reserve p s :
    SingleUse c = true -> Reserve c (pl s) = (ResHeld, p) ->
    core_step s (set_held (S (held s)) (set_pl p s))
| core_release_reservation n s :
    held s = S n -> core_step s (set_held n (set_pl (releaseReservation (pl s)) s))
| core_bind w o n p s :
    held s = S n -> bind_spawned (pl s) = (true, p) ->
    core_step s (set_out (out s ++ [Slot w 0 o]) (set_held n (set_pl p s))).

(** With the retry of reservations: a Bind on a closed pool, a Bind whose
    session setup fails and which then takes its capacity back, a Handoff. *)
Inductive full_step : sys -> sys -> Prop :=
| full_core s s' : core_step s s' -> full_step s s'
| full_bind_closed n p s :
    held s = S n -> bind_spawned (pl s) = (false, p) ->
    full_step s (set_binding (S (binding s)) (set_held n (set_pl p s)))
| full_bind_retire w n p s :
    binding s = S n -> bind_retire c w (pl s) = Done p ->
    full_step s (set_binding n (set_pl p s))
| full_bind_failed i sl k p s :
    SingleUse c = true -> out s !! i = Some sl ->
    retireLease c (sl_w sl) "discarded" k (pl s) = Done p ->
    full_step s (set_limbo (S (limbo s)) (set_out (delete i (out s)) (set_pl p s)))
| full_rereserve n s :
    limbo s = S n ->
    full_step s (set_limbo n (set_held (S (held s)) (set_pl (reReserveLocked (pl s)) s)))
| full_handoff i sl p s :
    out s !! i = Some sl -> Handoff c sl (pl s) = Done p ->
    full_step s (set_held (S (held s)) (set_out (delete i (out s)) (set_pl p s))).

(** The runs of a pool that [New] built. *)
Definition initial (s : sys) : Prop := exists spawn p, New c spawn = NewPool p /\ s = start p.
Definition core_reach (s : sys) : Prop := exists s0, initial s0 /\ rtc core_step s0 s.
Definition full_reach (s : sys) : Prop := exists s0, initial s0 /\ rtc full_step s0 s.
End system.

(** ** Gauges *)

Definition live_delta (e : effect) : Z := match e with WorkersLive d => d | _ => 0 end.
Definition idle_delta (e : effect) : Z := match e with WorkersIdle d => d | _ => 0 end.
Definition retiring_delta (e : effect) : Z := match e with WorkersRetiring d => d | _ => 0 end.

(** The value of a gauge after the reports of a trace. *)
Definition gauge (f : effect -> Z) (l : list effect) : Z := foldr (fun e n => f e + n) 0 l.

Lemma gauge_snoc f l e : gauge f (l ++ [e]) = gauge f l + f e.
Proof. unfold gauge. induction l as [|x l IH]; cbn; [lia|]. rewrite IH. lia. Qed.

(** The gauges show what the pool holds; workers being spawned are not live. *)
Record gauges_ok (p : pool) : Prop := GaugesOk {
  go_live : gauge live_delta (trace p) = active p + len (idle p) + retiring p;
  go_idle : gauge idle_delta (trace p) = len (idle p);
  go_retiring : gauge retiring_delta (trace p) = retiring p }.

(** The change an operation makes to the numbers of a pool. *)
Record moves (p p' : pool) (ds da di dr dq : Z) : Prop := Moves {
  mv_starting : starting p' = starting p + ds;
  mv_active : active p' = active p + da;
  mv_idle : len (idle p') = len (idle p) + di;
  mv_retiring : retiring p' = retiring p + dr;
  mv_queue : len (reaper p') = len (reaper p) + dq;
  mv_reaped : reaped p' = reaped p;
  mv_live : gauge live_delta (trace p') = gauge live_delta (trace p) + (da + di + dr);
  mv_gidle : gauge idle_delta (trace p') = gauge idle_delta (trace p) + di;
  mv_gretiring : gauge retiring_delta (trace p') = gauge retiring_delta (trace p) + dr }.

Ltac pool_fields :=
  cbn [idle starting active retiring notify closed reaper reaped trace set_idle set_starting
       set_active set_retiring set_notify set_closed set_reaper set_reaped emit wakeLocked
       mbind locked_mbind live_delta idle_delta retiring_delta] in *.
Ltac pool_solve :=
  pool_fields; rewrite ?gauge_snoc, ?len_app; pool_fields;
  repeat match goal with |- context [len [?x]] => change (len [x]) with 1 end;
  try done; try lia.

Section moves.
Lemma moves_refl p : moves p p 0 0 0 0 0.
Proof. constructor; (done || lia). Qed.

Lemma moves_wake p p' ds da di dr dq :
  moves p p' ds da di dr dq -> moves p (wakeLocked p') ds da di dr dq.
Proof. by intros []; constructor. Qed.

Lemma moves_observer o p p' ds da di dr dq :
  moves p p' ds da di dr dq -> moves p (close_observer o p') ds da di dr dq.
Proof. destruct o; [|done]. intros []; constructor; cbn [close_observer]; pool_solve. Qed.

Lemma moves_trans p1 p2 p3 ds da di dr dq ds' da' di' dr' dq' :
  moves p1 p2 ds da di dr dq -> moves p2 p3 ds' da' di' dr' dq' ->
  moves p1 p3 (ds + ds') (da + da') (di + di') (dr + dr') (dq + dq').
Proof. intros [] []. constructor; lia || congruence. Qed.

Lemma moves_cast p p' ds da di dr dq ds' da' di' dr' dq' :
  moves p p' ds da di dr dq -> ds = ds' -> da = da' -> di = di' -> dr = dr' -> dq = dq' ->
  moves p p' ds' da' di' dr' dq'.
Proof. by intros ? -> -> -> -> ->. Qed.

Lemma moves_gauges p p' ds da di dr dq : moves p p' ds da di dr dq -> gauges_ok p -> gauges_ok p'.
Proof. intros [] []. constructor; lia. Qed.

Lemma moves_live p p' ds da di dr dq :
  moves p p' ds da di dr dq -> live p' = live p + (ds + da + di + dr).
Proof. intros []. unfold live. lia. Qed.
End moves.

(** ** What each operation does *)

Section operations.
Variable c : config.

Lemma retireLocked_Done r p p' : retireLocked c r p = Done p' <->
  reaped p = false /\ len (reaper p) < MaxProcesses c
  /\ p' = set_reaper (reaper p ++ [r]) (emit (WorkersRetiring 1) (set_retiring (retiring p + 1) p)).
Proof.
  unfold retireLocked. pool_fields. destruct (reaped p); [by split; [|intros (? & _)]|].
  destruct (Z.ltb_spec (len (reaper p)) (MaxProcesses c)); split.
  - by intros [= <-].
  - by intros (_ & _ & ->).
  - done.
  - intros (_ & ? & _). lia.
Qed.

(** A section that emits, retires a worker and wakes completes iff there is room. *)
Lemma retire_bind {B} r p (f : pool -> locked B) :
  reaped p = false -> len (reaper p) < MaxProcesses c ->
  (retireLocked c r p ≫= f)
  = f (set_reaper (reaper p ++ [r]) (emit (WorkersRetiring 1) (set_retiring (retiring p + 1) p))).
Proof. intros. by rewrite (proj2 (retireLocked_Done r p _)) by done. Qed.

Lemma retire_bind_Done {B} r p (f : pool -> locked B) b : (retireLocked c r p ≫= f) = Done b ->
  reaped p = false /\ len (reaper p) < MaxProcesses c
  /\ f (set_reaper (reaper p ++ [r]) (emit (WorkersRetiring 1) (set_retiring (retiring p + 1) p))) = Done b.
Proof.
  destruct (retireLocked c r p) as [p1|] eqn:E; [|done].
  apply retireLocked_Done in E as (H1 & H2 & ->). done.
Qed.

Lemma len_removelast {A} (l : list A) x : last l = Some x -> len (removelast l) = len l - 1.
Proof.
  intros [l' ->]%last_Some. rewrite removelast_last, len_app.
  change (len [x]) with 1. lia.
Qed.

Lemma pop_idle_moves alive n : forall p r p', pop_idle c alive n p = Done (r, p') ->
  closed p' = closed p /\ notify p' = notify p /\ exists k, 0 <= k <= Z.of_nat n
  /\ match r with
     | None => moves p p' 0 0 (- k) k k
     | Some _ => moves p p' 0 1 (- k - 1) k k
     end.
Proof.
  induction n as [|n IH]; intros p r p'; cbn [pop_idle];
    [by intros [= <- <-]; split_and!; [..|exists 0; split; [lia|apply moves_refl]]|].
  destruct (last (idle p)) as [s|] eqn:El;
    [|by intros [= <- <-]; split_and!; [..|exists 0; split; [lia|apply moves_refl]]].
  apply len_removelast in El. destruct (alive (sl_w s)).
  - intros [= <- <-]. split_and!; [done..|]. exists 0. split; [lia|]. constructor; pool_solve.
  - intros (_ & _ & H)%retire_bind_Done. apply IH in H as (Hc & Hn & k & Hk & Hm).
    split_and!; [done|done|]. exists (k + 1). split; [lia|].
    assert (moves p (set_reaper (reaper p ++ [Retired (sl_w s) None true false])
      (emit (WorkersRetiring 1) (set_retiring (retiring p + 1) (emit (Kill (sl_w s))
        (emit (WorkerTerminated "died_idle") (emit (WorkersIdle (-1))
          (set_idle (removelast (idle p)) p))))))) 0 0 (-1) 1 1) as H1 by (constructor; pool_solve).
    destruct r as [r|]; (eapply moves_cast; [exact (moves_trans _ _ _ _ _ _ _ _ _ _ _ _ _ H1 Hm)|lia..]).
Qed.

Lemma pop_idle_room alive n : forall p, reaped p = false ->
  len (reaper p) + len (idle p) <= MaxProcesses c -> exists r p', pop_idle c alive n p = Done (r, p').
Proof.
  induction n as [|n IH]; intros p Hr Hroom; cbn [pop_idle]; [by eauto|].
  destruct (last (idle p)) as [s|] eqn:El; [|by eauto].
  apply len_removelast in El. destruct (alive (sl_w s)); [by eauto|].
  pose proof (len_nonneg (removelast (idle p))).
  rewrite retire_bind by (pool_fields; (done || lia)). apply IH; pool_solve.
Qed.

(** When every idle worker has been looked at, none is left. *)
Lemma pop_idle_none alive n : forall p p', (length (idle p) <= n)%nat ->
  pop_idle c alive n p = Done (None, p') -> idle p' = [].
Proof.
  induction n as [|n IH]; intros p p' Hn; cbn [pop_idle].
  - intros [= <-]. by destruct (idle p); [|cbn in Hn; lia].
  - destruct (last (idle p)) as [s|] eqn:El; [|intros [= <-]; by apply last_None].
    destruct (alive (sl_w s)); [done|]. intros (_ & _ & H)%retire_bind_Done.
    apply IH in H; [done|]. pool_fields. apply len_removelast in El. unfold len in El. lia.
Qed.

Lemma acquire_moves alive p r p' : acquire c alive p = Done (r, p') ->
  closed p' = closed p /\ notify p' = notify p /\ exists k, 0 <= k
  /\ (k = 0 \/ closed p = false)
  /\ match r with
     | AcqIdle _ => closed p = false /\ moves p p' 0 1 (- k - 1) k k
     | AcqSpawn => closed p = false /\ moves p p' 1 0 (- k) k k /\ live p < MaxProcesses c
     | _ => moves p p' 0 0 (- k) k k
     end.
Proof.
  unfold acquire. destruct (closed p) eqn:Hcl.
  { intros [= <- <-]. rewrite Hcl. split_and!; [done|done|].
    exists 0. split_and!; [lia|by left|apply moves_refl]. }
  destruct (if SingleUse c then _ else _) as [[t p1]|] eqn:E; cbn [mbind locked_mbind]; [|done].
  assert (closed p1 = closed p /\ notify p1 = notify p /\ exists k, 0 <= k
    /\ match t with None => moves p p1 0 0 (- k) k k | Some _ => moves p p1 0 1 (- k - 1) k k end)
    as (H1 & H2 & k & Hk & Hm).
  { destruct (SingleUse c).
    - injection E as <- <-. split_and!; [done|done|]. exists 0. split; [lia|apply moves_refl].
    - apply pop_idle_moves in E as (? & ? & k & ? & ?). split_and!; [done|done|]. exists k. split; [lia|done]. }
  destruct t as [s|]; [|destruct (Z.ltb_spec (live p1) (MaxProcesses c)) as [Hl|Hl]]; intros [= <- <-].
  - split_and!; [congruence|done|]. exists k. split_and!; [lia|by right|done|done].
  - split_and!; [pool_fields; congruence|done|]. exists k.
    pose proof (moves_live _ _ _ _ _ _ _ Hm). split_and!; [lia|by right|done| |lia].
    destruct Hm. constructor; pool_solve.
  - split_and!; [congruence|done|]. exists k. split_and!; [lia|by right|done].
Qed.

Lemma acquire_spawned_moves w p r p' : acquire_spawned c w p = Done (r, p') ->
  closed p' = closed p /\ notify p' = notify p + (match r with SpawnSlot _ => 0 | _ => 1 end)
  /\ match r with
     | SpawnFailed => moves p p' (-1) 0 0 0 0
     | SpawnClosed => closed p = true /\ moves p p' (-1) 0 0 1 1
     | SpawnSlot _ => closed p = false /\ moves p p' (-1) 1 0 0 0
     end.
Proof.
  unfold acquire_spawned. destruct w as [w|].
  - pool_fields. destruct (closed p) eqn:Hcl.
    + intros (_ & _ & [= <- <-])%retire_bind_Done. split_and!; [done..|]. constructor; pool_solve.
    + intros [= <- <-]. split_and!; [done|pool_solve|done|]. constructor; pool_solve.
  - intros [= <- <-]. split_and!; [done..|]. constructor; pool_solve.
Qed.

Lemma release_moves alive ws s p p' : release c alive ws s p = Done p' ->
  closed p' = closed p /\ notify p' = notify p + 1
  /\ (moves p p' 0 (-1) 0 1 1 \/ closed p = false /\ moves p p' 0 (-1) 1 0 0).
Proof.
  unfold release. pool_fields.
  destruct (SingleUse c || closed p || _ || _) eqn:Erec.
  - intros (_ & _ & [= <-])%retire_bind_Done.
    destruct (ws (sl_w s)), (obs s); cbn [close_observer]; pool_fields;
      (split_and!; [done..|left; constructor; pool_solve]).
  - intros [= <-]. apply orb_false_iff in Erec as [[[_ Hcl]%orb_false_iff _]%orb_false_iff _].
    destruct (obs s); cbn [close_observer]; pool_fields;
      (split_and!; [done..|right; split; [done|constructor; pool_solve]]).
Qed.

Lemma retireLease_moves w reason k p p' : retireLease c w reason k p = Done p' ->
  closed p' = closed p /\ notify p' = notify p + 1 /\ moves p p' 0 (-1) 0 1 1.
Proof.
  unfold retireLease. intros (_ & _ & [= <-])%retire_bind_Done. pool_fields.
  split_and!; [done..|]. constructor; pool_solve.
Qed.

Lemma reap_exited_moves r p : let p' := reap_exited r p in
  closed p' = closed p /\ notify p' = notify p + 1 /\ moves p p' 0 0 0 (-1) 0.
Proof.
  unfold reap_exited. destruct (done_chan r), (rw_obs r); cbn [close_observer]; pool_fields;
    (split_and!; [done..|constructor; pool_solve]).
Qed.

Lemma retire_idle_moves l : forall p p', retire_idle c l p = Done p' ->
  closed p' = closed p /\ notify p' = notify p /\ idle p' = idle p /\ starting p' = starting p
  /\ active p' = active p /\ retiring p' = retiring p + len l /\ reaped p' = reaped p
  /\ len (reaper p') = len (reaper p) + len l
  /\ gauge live_delta (trace p') = gauge live_delta (trace p)
  /\ gauge idle_delta (trace p') = gauge idle_delta (trace p) - len l
  /\ gauge retiring_delta (trace p') = gauge retiring_delta (trace p) + len l.
Proof.
  induction l as [|s l IH]; intros p p'; cbn [retire_idle].
  - intros [= <-]. change (len (@nil slot)) with 0. split_and!; done || lia.
  - intros (_ & _ & H)%retire_bind_Done. apply IH in H as (? & ? & ? & ? & ? & ? & ? & ? & ? & ? & ?).
    rewrite len_cons. pool_fields. rewrite ?gauge_snoc, ?len_app in *. pool_fields.
    change (len [Retired (sl_w s) None false true]) with 1 in *. split_and!; done || lia.
Qed.

Lemma retire_idle_room l : forall p, reaped p = false ->
  len (reaper p) + len l <= MaxProcesses c -> exists p', retire_idle c l p = Done p'.
Proof.
  induction l as [|s l IH]; intros p Hr Hroom; cbn [retire_idle]; [by eauto|].
  rewrite len_cons in Hroom. pose proof (len_nonneg l).
  rewrite retire_bind by (pool_fields; done || lia). apply IH; pool_solve.
Qed.

Lemma Close_moves p p' : Close c p = Done p' ->
  closed p' = true /\ (closed p = true /\ p' = p \/ closed p = false /\ notify p' = notify p + 1
    /\ idle p' = [] /\ moves p p' 0 0 (- len (idle p)) (len (idle p)) (len (idle p))).
Proof.
  unfold Close. destruct (closed p) eqn:Hcl; [intros [= <-]; by split; [|left]|].
  destruct (retire_idle _ _ _) as [p1|] eqn:E; cbn [mbind locked_mbind]; [|done]. intros [= <-].
  apply retire_idle_moves in E as (H1 & H2 & H3 & H4 & H5 & H6 & H7 & H8 & H9 & H10 & H11). pool_fields.
  split; [done|]. right. split_and!; [done|lia|done|].
  constructor; pool_fields; rewrite ?H3; change (len (@nil slot)) with 0; congruence || lia.
Qed.
End operations.

(** ** The invariant of the core system *)

Section invariant.
Variable c : config.
Hypothesis Hmax : 1 <= MaxProcesses c.

(** Every counter is the number of what it counts. *)
Record counted (s : sys) : Prop := Counted {
  ct_starting : starting (pl s) = Z.of_nat (spawning s) + Z.of_nat (held s);
  ct_active : active (pl s) = len (out s);
  ct_retiring : retiring (pl s) = len (reaper (pl s)) + len (reaping s);
  ct_gauges : gauges_ok (pl s) }.

Record inv (s : sys) : Prop := Inv {
  inv_counted : counted s;
  inv_live : live (pl s) <= MaxProcesses c;
  inv_reapers : len (reaping s) <= reapers c;
  inv_closed : closed (pl s) = true -> idle (pl s) = [];
  inv_drained : drained s = true -> closed (pl s) = true /\ live (pl s) = 0;
  inv_reaped : reaped (pl s) = true -> drained s = true }.

Lemma len_delete {A} (l : list A) i x : l !! i = Some x -> len (delete i l) = len l - 1.
Proof.
  intros H. unfold len. pose proof (lookup_lt_Some _ _ _ H).
  rewrite (length_delete l i) by (by eexists). lia.
Qed.

Lemma len_snoc {A} (l : list A) x : len (l ++ [x]) = len l + 1.
Proof. by rewrite len_app. Qed.

Lemma idle_nil (p : pool) : len (idle p) = 0 -> idle p = [].
Proof. unfold len. intros. apply nil_length_inv. lia. Qed.

(** A step whose pool moves keeps the invariant if the goroutines move along,
    capacity is only taken where there is some, and nothing becomes idle in a
    closed pool. *)
Lemma inv_moves s s' ds da di dr dq :
  inv s -> moves (pl s) (pl s') ds da di dr dq ->
  Z.of_nat (spawning s') + Z.of_nat (held s') = Z.of_nat (spawning s) + Z.of_nat (held s) + ds ->
  len (out s') = len (out s) + da ->
  len (reaping s') = len (reaping s) + (dr - dq) -> len (reaping s') <= reapers c ->
  closed (pl s') = closed (pl s) -> drained s' = drained s ->
  (ds + da + di + dr <= 0 \/ closed (pl s) = false /\ live (pl s) + (ds + da + di + dr) <= MaxProcesses c) ->
  (closed (pl s) = true -> di <= 0) ->
  inv s'.
Proof.
  intros [[Hst Hac Hre Hg] Hl Hrp Hc Hd Hrd] Hm E1 E2 E3 E4 E5 E6 Hcap Hid.
  pose proof (moves_gauges _ _ _ _ _ _ _ Hm Hg). pose proof (moves_live _ _ _ _ _ _ _ Hm) as Elive.
  destruct Hm. constructor; [constructor; done || lia|lia|done| | |by rewrite mv_reaped0, E6].
  - rewrite E5. intros Hcl. specialize (Hid Hcl). apply idle_nil.
    specialize (Hc Hcl). pose proof (len_nonneg (idle (pl s'))).
    rewrite Hc in *. change (len (@nil slot)) with 0 in *. lia.
  - rewrite E5, E6. intros Hdr. destruct (Hd Hdr) as [Hcl Hz]. split; [done|].
    assert (0 <= live (pl s')); [|destruct Hcap as [|[? ?]]; [lia|congruence]].
    unfold live. pose proof (len_nonneg (idle (pl s'))). pose proof (len_nonneg (out s')).
    pose proof (len_nonneg (reaper (pl s'))). pose proof (len_nonneg (reaping s')). lia.
Qed.

Ltac inv_side :=
  cbn [pl set_pl set_out set_held set_spawning set_reaping set_drained spawning held out reaping drained];
  rewrite ?len_snoc; (done || lia || (right; split; [done|lia]) || (intros; congruence)).

Lemma close_inv p s : Close c (pl s) = Done p -> inv s -> inv (set_pl p s).
Proof.
  intros (Hcl & [[Hc ->]|(Hc & _ & Hnil & Hm)])%Close_moves Hi; [by destruct s|].
  destruct Hi as [[Hst Hac Hre Hg] Hl Hrp Hci Hd Hrd].
  pose proof (moves_gauges _ _ _ _ _ _ _ Hm Hg). pose proof (moves_live _ _ _ _ _ _ _ Hm).
  destruct Hm. constructor; [constructor|..]; cbn [pl set_pl spawning held out reaping drained]; try done || lia.
  - intros Hdr. destruct (Hd Hdr). congruence.
  - by rewrite mv_reaped0.
Qed.

Lemma core_step_inv s s' : core_step c s s' -> inv s -> inv s'.
Proof.
  intros Hs Hi. pose proof (inv_reapers s Hi) as Hrp.
  destruct Hs as [alive r o p s E|w r o p n s Hn E|alive ws i sl n p s Hsl E|i sl reason k p s Hsl E
    |r q s Hq Hlt|i r s Hr|p s E|s Hcl Hz|s Hd|p s Hsu E|n s Hn|w o n p s Hn E].
  - apply acquire_moves in E as (H1 & _ & k & Hk & Hcl & Hm).
    destruct r; cbn [after_acquire]; [| destruct Hm as [Hop Hm]|destruct Hm as (Hop & Hm & Hl)|];
      (eapply inv_moves; [exact Hi|exact Hm|inv_side..]).
  - apply acquire_spawned_moves in E as (H1 & _ & Hm).
    destruct r; cbn [after_spawn]; [|destruct Hm as [? Hm]..];
      (eapply inv_moves; [exact Hi|exact Hm|inv_side..]).
  - apply len_delete in Hsl. apply release_moves in E as (H1 & _ & [Hm|[Hcl Hm]]);
      (eapply inv_moves; [exact Hi|exact Hm|inv_side..]).
  - apply len_delete in Hsl. apply retireLease_moves in E as (H1 & _ & Hm).
    eapply inv_moves; [exact Hi|exact Hm|inv_side..].
  - eapply (inv_moves s _ 0 0 0 0 (-1)); [exact Hi|..]; try inv_side.
    constructor; cbn [pl set_pl set_reaping]; pool_fields; rewrite ?Hq, ?len_cons; done || lia.
  - apply len_delete in Hr. destruct (reap_exited_moves r (pl s)) as (H1 & _ & Hm).
    eapply inv_moves; [exact Hi|exact Hm|inv_side..].
  - by apply close_inv.
  - destruct Hi as [[? ? ? []] ? ? ? ? ?]. by repeat constructor.
  - destruct Hi as [[? ? ? []] ? ? ? ? ?]. unfold stopReapers.
    destruct (inv_drained0 Hd). destruct (reaped (pl s)) eqn:Er; repeat constructor; cbn; auto.
  - unfold Reserve in E. destruct (closed (pl s)) eqn:Hcl; [done|].
    destruct (Z.ltb_spec (live (pl s)) (MaxProcesses c)); simplify_eq.
    eapply (inv_moves s _ 1 0 0 0 0); [exact Hi|constructor; cbn [pl set_pl set_held set_out releaseReservation]; pool_solve|inv_side..].
  - unfold releaseReservation. eapply (inv_moves s _ (-1) 0 0 0 0);
      [exact Hi|constructor; cbn [pl set_pl set_held]; pool_solve|inv_side..].
  - unfold bind_spawned in E. destruct (closed (pl s)) eqn:Hcl; simplify_eq.
    eapply (inv_moves s _ (-1) 1 0 0 0); [exact Hi|constructor; cbn [pl set_pl set_held set_out releaseReservation]; pool_solve|inv_side..].
Qed.


Lemma prewarm_fields n : forall spawn p0 p, prewarm c n spawn p0 = NewPool p ->
  moves p0 p 0 0 (Z.of_nat n) 0 0 /\ closed p = closed p0 /\ reaper p = reaper p0.
Proof.
  induction n as [|n IH]; intros spawn p0 p; cbn [prewarm].
  - intros [= <-]. split; [apply moves_refl|done].
  - destruct spawn as [|[w|] spawn]; try done. intros (Hm & H1 & H2)%IH. pool_fields. split; [|done].
    assert (moves p0 (emit (WorkersIdle 1) (emit (WorkersLive 1) (set_idle (idle p0 ++ [Slot w 0 None]) p0)))
      0 0 1 0 0) as H0 by (constructor; pool_solve).
    eapply moves_cast; [exact (moves_trans _ _ _ _ _ _ _ _ _ _ _ _ _ H0 Hm)|lia..].
Qed.

Lemma initial_inv s : initial c s -> inv s.
Proof.
  intros (spawn & p & E & ->). unfold New in E.
  destruct ((MaxProcesses c =? 0) || _) eqn:Hbad; [done|]. apply orb_false_iff in Hbad as [_ Hle].
  apply prewarm_fields in E as (Hm & Hcl & Hq). pose proof (moves_live _ _ _ _ _ _ _ Hm) as Hlive.
  assert (gauges_ok empty_pool) as Hg by by constructor.
  pose proof (moves_gauges _ _ _ _ _ _ _ Hm Hg). destruct Hm.
  change (live empty_pool) with 0 in Hlive. apply Z.ltb_ge in Hle.
  constructor; [constructor|..]; cbn [pl start spawning held out reaping drained]; try done.
  - by rewrite mv_retiring0, Hq.
  - lia.
  - change (len (@nil retiredWorker)) with 0. unfold reapers, maxReapers. lia.
  - by rewrite Hcl.
  - by rewrite mv_reaped0.
Qed.

Lemma core_reach_inv s : core_reach c s -> inv s.
Proof.
  intros (s0 & H0%initial_inv & Hr). induction Hr as [s|s s1 s2 Hs _ IH]; [done|].
  by apply IH, (core_step_inv s).
Qed.
End invariant.


Definition config2 : config := Config 1 2 0 false.

(** A prewarmed worker is checked out, a second one spawned, the first released
    and the second terminated. *)
Definition sample_sys : sys :=
  start (Pool [Slot 7 1 None] 0 0 1 2 false [Retired 8 None true false] false
    [WorkersLive 1; WorkersIdle 1; WorkersIdle (-1); WorkersLive 1; WorkersIdle 1;
     WorkerTerminated "abandoned"; WorkersRetiring 1]).

(** Take a step of a concrete run and evaluate the state it leads to. *)
Ltac take_step t :=
  eapply rtc_l; [eapply t; vm_compute; reflexivity|];
  match goal with |- rtc _ ?s _ =>
    let s' := eval vm_compute in s in replace s with s' by (vm_compute; reflexivity) end.

Lemma sample_sys_reach : core_reach config2 sample_sys.
Proof.
  eexists. split; [exists [Some 7]; eexists; split; [vm_compute; reflexivity|reflexivity]|].
  take_step (core_acquire config2 (fun _ => true) (AcqIdle (Slot 7 0 None)) None).
  take_step (core_acquire config2 (fun _ => true) AcqSpawn None).
  take_step (core_spawned config2 (Some 8) (SpawnSlot (Slot 8 0 None)) None).
  take_step (core_release config2 (fun _ => true) (fun _ => false) 0 (Slot 7 0 None) 1).
  take_step (core_terminate config2 0 (Slot 8 0 None) "abandoned" true).
  apply rtc_refl.
Qed.




(** ** Waiting for capacity *)

(** Whether [acquire] (or [Reserve]) would return or spawn rather than wait. *)
Definition can_acquire (c : config) (p : pool) : bool :=
  closed p || (negb (SingleUse c) && bool_decide (idle p <> [])) || (live p <? MaxProcesses c).

Section wakeups.
Variable c : config.

(** No step makes capacity available without closing the notify channel. *)
Definition quiet (p p' : pool) : Prop :=
  notify p' = notify p /\ (can_acquire c p' = true -> can_acquire c p = true).
Definition woken (p p' : pool) : Prop := notify p' = notify p + 1.

Lemma can_acquire_false p : can_acquire c p = false <->
  closed p = false /\ (SingleUse c = true \/ idle p = []) /\ MaxProcesses c <= live p.
Proof.
  unfold can_acquire. rewrite !orb_false_iff, andb_false_iff, negb_false_iff, bool_decide_eq_false, Z.ltb_ge.
  destruct (idle p); split; naive_solver.
Qed.

Lemma quiet_refl p : quiet p p.
Proof. done. Qed.

Lemma quiet_by p p' : notify p' = notify p ->
  (closed p = false -> SingleUse c = true \/ idle p = [] -> MaxProcesses c <= live p ->
   closed p' = false /\ (SingleUse c = true \/ idle p' = []) /\ MaxProcesses c <= live p') -> quiet p p'.
Proof.
  intros Hn H. split; [done|]. intros Hc. destruct (can_acquire c p) eqn:E; [done|].
  apply can_acquire_false in E as (? & ? & ?). rewrite (proj2 (can_acquire_false p')) in Hc; [done|auto].
Qed.

Lemma acquire_quiet alive p r p' : acquire c alive p = Done (r, p') -> quiet p p'.
Proof.
  intros E. pose proof E as (H1 & H2 & k & Hk & Hz & Hm)%acquire_moves.
  apply quiet_by; [done|]. intros Hcl Hid Hl. revert E. unfold acquire. rewrite Hcl.
  destruct (SingleUse c) eqn:Es; cbn [mbind locked_mbind].
  - rewrite (proj2 (Z.ltb_ge _ _)) by done. intros [= <- <-]. auto.
  - destruct Hid as [?|Hid]; [done|]. rewrite Hid. cbn. rewrite (proj2 (Z.ltb_ge _ _)) by done.
    intros [= <- <-]. auto.
Qed.

Lemma acquire_spawned_wakes w p r p' : acquire_spawned c w p = Done (r, p') ->
  quiet p p' \/ woken p p'.
Proof.
  intros E. pose proof E as (H1 & H2 & Hm)%acquire_spawned_moves.
  destruct r; [by right..|]. left. destruct Hm as [Hop Hm]. apply quiet_by; [lia|].
  intros ? Hid ?. pose proof (moves_live _ _ _ _ _ _ _ Hm). split_and!; [congruence| |lia].
  destruct Hid as [|Hid]; [by left|right]. apply idle_nil. destruct Hm.
  rewrite mv_idle0, Hid. done.
Qed.

Lemma core_step_wakes s s' : core_step c s s' -> quiet (pl s) (pl s') \/ woken (pl s) (pl s').
Proof.
  destruct 1 as [alive r o p s E|w r o p n s Hn E|alive ws i sl n p s Hsl E|i sl reason k p s Hsl E
    |r q s Hq Hlt|i r s Hr|p s E|s Hcl Hz|s Hd|p s Hsu E|n s Hn|w o n p s Hn E].
  - left. apply acquire_quiet in E. by destruct r.
  - apply acquire_spawned_wakes in E. by destruct r.
  - right. by apply release_moves in E as (_ & ? & _).
  - right. by apply retireLease_moves in E as (_ & ? & _).
  - by left.
  - right. apply (reap_exited_moves r (pl s)).
  - apply Close_moves in E as (_ & [[_ ->]|(_ & ? & _)]); [left; apply quiet_refl|by right].
  - by left.
  - left. unfold stopReapers. by destruct (reaped (pl s)).
  - left. unfold Reserve in E. destruct (closed (pl s)) eqn:Hcl; [done|].
    destruct (Z.ltb_spec (live (pl s)) (MaxProcesses c)); simplify_eq.
    apply quiet_by; [done|]. lia.
  - by right.
  - left. unfold bind_spawned in E. destruct (closed (pl s)) eqn:Hcl; simplify_eq.
    apply quiet_by; [done|]. unfold live. cbn. intros. split_and!; [done|done|lia].
Qed.

Lemma full_step_wakes s s' : full_step c s s' -> quiet (pl s) (pl s') \/ woken (pl s) (pl s').
Proof.
  destruct 1 as [s s' H|n p s Hn E|w n p s Hn E|i sl k p s Hsu Hsl E|n s Hn|i sl p s Hsl E].
  - by apply core_step_wakes.
  - left. unfold bind_spawned in E. destruct (closed (pl s)) eqn:Hcl; simplify_eq.
    apply quiet_by; [done|]. congruence.
  - right. unfold bind_retire in E. by apply retire_bind_Done in E as (_ & _ & [= <-]).
  - right. by apply retireLease_moves in E as (_ & ? & _).
  - left. apply quiet_by; [done|]. unfold live. cbn. intros. split_and!; [done|done|lia].
  - right. unfold Handoff in E. apply retire_bind_Done in E as (_ & _ & [= <-]).
    by destruct (obs sl).
Qed.

Lemma waits_for_capacity s s' : rtc (full_step c) s s' ->
  notify (pl s) <= notify (pl s')
  /\ (notify (pl s') = notify (pl s) -> can_acquire c (pl s) = false -> can_acquire c (pl s') = false).
Proof.
  induction 1 as [s|s s1 s2 Hs _ [IH1 IH2]]; [split; [lia|done]|].
  destruct (full_step_wakes s s1 Hs) as [[Hn Hq]|Hw]; unfold woken in *; (split; [lia|]); intros E Hf; [|lia].
  apply IH2; [lia|]. destruct (can_acquire c (pl s1)); [|done]. by rewrite Hq in Hf.
Qed.
End wakeups.

(** C31. No wake-up is lost, reservations included: a goroutine that [acquire]
    or [Reserve] made wait on a notify channel finds nothing to acquire for as
    long as that channel is not closed, whatever the others do meanwhile. *)
Theorem no_lost_wakeup (c : config) (s s' : sys) (wait : Z) :
  ((exists alive p0, acquire c alive p0 = Done (AcqWait wait, pl s))
   \/ SingleUse c = true /\ Reserve c (pl s) = (ResWait wait, pl s)) ->
  rtc (full_step c) s s' -> notify (pl s') = wait -> can_acquire c (pl s') = false.
Proof.
  intros Hw Hr E.
  assert (notify (pl s) = wait /\ can_acquire c (pl s) = false) as [Hn Hf].
  { rewrite can_acquire_false. destruct Hw as [(alive & p0 & Ha)|[Hsu Hres]].
    - unfold acquire in Ha. destruct (closed p0) eqn:Hcl; [done|].
      destruct (SingleUse c); cbn [mbind locked_mbind] in Ha.
      + destruct (Z.ltb_spec (live p0) (MaxProcesses c)); simplify_eq. auto.
      + destruct (pop_idle c alive (length (idle p0)) p0) as [[[|] p1]|] eqn:Ep; try done.
        cbn [mbind locked_mbind] in Ha. destruct (Z.ltb_spec (live p1) (MaxProcesses c)); simplify_eq.
        pose proof (pop_idle_none _ _ _ _ _ (le_n _) Ep). apply pop_idle_moves in Ep as (Ec & _ & _).
        rewrite Ec. auto.
    - unfold Reserve in Hres. destruct (closed (pl s)); [done|].
      destruct (Z.ltb_spec (live (pl s)) (MaxProcesses c)); simplify_eq. auto. }
  destruct (waits_for_capacity c s s' Hr) as [_ H]. apply H; [congruence|done].
Qed.

(** Two active workers fill the pool: a third acquisition waits. *)
Definition busy_sys : sys :=
  Sys (Pool [] 0 2 0 0 false [] false []) 0 [Slot 7 0 None; Slot 8 0 None] 0 0 0 [] false.

Lemma no_lost_wakeup_witness : can_acquire config2 (pl busy_sys) = false.
Proof.
  apply (no_lost_wakeup config2 busy_sys busy_sys 0); [|apply rtc_refl|reflexivity].
  left. exists (fun _ => true), (pl busy_sys). reflexivity.
Defined.

(** ** What the retry of reservations breaks *)

Definition config1 : config := Config 0 1 0 true.

(** Failed Binds that take their capacity back exceed MaxProcesses by more than
    one, with no worker retiring: three workers may be starting in a pool of one. *)
Lemma reservations_overshoot :
  exists s, full_reach config1 s /\ starting (pl s) = 3 /\ retiring (pl s) = 0.
Proof.
  eexists. split; [eexists; split; [exists []; eexists; split; [vm_compute; reflexivity|reflexivity]|]|].
  - take_step (fun p s H1 H2 => full_core config1 s _ (core_reserve config1 p s H1 H2)).
    take_step (fun p s H1 H2 => full_core config1 s _ (core_bind config1 1 None 0 p s H1 H2)).
    take_step (fun p s H1 H2 => full_bind_failed config1 0 (Slot 1 0 None) true p s eq_refl H1 H2).
    take_step (fun s H1 H2 => full_core config1 s _ (core_reap_take config1 (Retired 1 None true false) [] s H1 H2)).
    take_step (fun s H => full_core config1 s _ (core_reap_exited config1 0 (Retired 1 None true false) s H)).
    take_step (fun p s H1 H2 => full_core config1 s _ (core_reserve config1 p s H1 H2)).
    take_step (fun s H => full_rereserve config1 0 s H).
    take_step (fun p s H1 H2 => full_core config1 s _ (core_bind config1 2 None 1 p s H1 H2)).
    take_step (fun p s H1 H2 => full_core config1 s _ (core_bind config1 3 None 0 p s H1 H2)).
    take_step (fun p s H1 H2 => full_bind_failed config1 0 (Slot 2 0 None) true p s eq_refl H1 H2).
    take_step (fun s H1 H2 => full_core config1 s _ (core_reap_take config1 (Retired 2 None true false) [] s H1 H2)).
    take_step (fun p s H1 H2 => full_bind_failed config1 0 (Slot 3 0 None) true p s eq_refl H1 H2).
    take_step (fun s H => full_core config1 s _ (core_reap_exited config1 0 (Retired 2 None true false) s H)).
    take_step (fun s H1 H2 => full_core config1 s _ (core_reap_take config1 (Retired 3 None true false) [] s H1 H2)).
    take_step (fun s H => full_core config1 s _ (core_reap_exited config1 0 (Retired 3 None true false) s H)).
    take_step (fun p s H1 H2 => full_core config1 s _ (core_reserve config1 p s H1 H2)).
    take_step (fun s H => full_rereserve config1 1 s H).
    take_step (fun s H => full_rereserve config1 0 s H).
    apply rtc_refl.
  - split; reflexivity.
Qed.

(** After three failed Binds with a slow first worker, the retirement of the
    third one blocks with the mutex held while every reaper needs that mutex to
    finish: the pool is deadlocked. *)
Lemma reservations_deadlock :
  exists s sl, full_reach config1 s /\ sl ∈ out s
    /\ retireLease config1 (sl_w sl) "discarded" true (pl s) = Stuck Blocks
    /\ len (reaping s) = reapers config1.
Proof.
  eexists. exists (Slot 3 0 None).
  split; [eexists; split; [exists []; eexists; split; [vm_compute; reflexivity|reflexivity]|]|].
  - take_step (fun p s H1 H2 => full_core config1 s _ (core_reserve config1 p s H1 H2)).
    take_step (fun p s H1 H2 => full_core config1 s _ (core_bind config1 1 None 0 p s H1 H2)).
    take_step (fun p s H1 H2 => full_bind_failed config1 0 (Slot 1 0 None) true p s eq_refl H1 H2).
    take_step (fun s H1 H2 => full_core config1 s _ (core_reap_take config1 (Retired 1 None true false) [] s H1 H2)).
    take_step (fun s H => full_rereserve config1 0 s H).
    take_step (fun p s H1 H2 => full_core config1 s _ (core_bind config1 2 None 0 p s H1 H2)).
    take_step (fun p s H1 H2 => full_bind_failed config1 0 (Slot 2 0 None) true p s eq_refl H1 H2).
    take_step (fun s H => full_rereserve config1 0 s H).
    take_step (fun p s H1 H2 => full_core config1 s _ (core_bind config1 3 None 0 p s H1 H2)).
    apply rtc_refl.
  - split_and!; [by apply list_elem_of_singleton|reflexivity|reflexivity].
Qed.

(** A Bind that finds the pool closed gives its reservation up before it retires
    its worker; a Shutdown that looks in between stops the reapers, and the
    retirement sends on a closed channel. *)
Lemma bind_shutdown_panics :
  exists s, full_reach config1 s /\ (0 < binding s)%nat
    /\ forall w, bind_retire config1 w (pl s) = Stuck Panics.
Proof.
  eexists. split; [eexists; split; [exists []; eexists; split; [vm_compute; reflexivity|reflexivity]|]|].
  - take_step (fun p s H1 H2 => full_core config1 s _ (core_reserve config1 p s H1 H2)).
    take_step (fun p s H => full_core config1 s _ (core_close config1 p s H)).
    take_step (fun p s H1 H2 => full_bind_closed config1 0 p s H1 H2).
    take_step (fun s H1 H2 => full_core config1 s _ (core_drained config1 s H1 H2)).
    take_step (fun s H => full_core config1 s _ (core_stop config1 s H)).
    apply rtc_refl.
  - split; [by apply Nat.ltb_lt|]. reflexivity.
Qed.

(** Where the guarantees of C36 and C37 end: in a single-use pool of one
    worker, failed Binds that take their capacity back lead to three workers
    starting at once with none retiring; to a retirement that blocks with the
    mutex held while every reaper is waiting for that mutex; and a Bind that
    races with Shutdown sends on the closed reaper channel and panics. *)
Theorem reservation_retry_unsafe :
  (exists s, full_reach config1 s /\ MaxProcesses config1 = 1
     /\ starting (pl s) = 3 /\ retiring (pl s) = 0)
  /\ (exists s sl, full_reach config1 s /\ sl ∈ out s
     /\ retireLease config1 (sl_w sl) "discarded" true (pl s) = Stuck Blocks
     /\ len (reaping s) = reapers config1)
  /\ (exists s, full_reach config1 s /\ (0 < binding s)%nat
     /\ forall w, bind_retire config1 w (pl s) = Stuck Panics).
Proof.
  split_and!; [|exact reservations_deadlock|exact bind_shutdown_panics].
  destruct reservations_overshoot as (s & ? & ? & ?). by exists s.
Qed.
