(* ===== verification/Checkout.v ===== *)
(** The turn engine of a checkout, src/internal/pool/checkout.go, with
    [Handoff] and [restoreCarried] of src/internal/pool/reservation.go.

    A checkout talks to one worker. What the worker and the outside world
    answer (the result of every Send, Recv, Wait and Err, and terminations by
    other goroutines, which may happen whenever the engine waits) is a script
    that the operations consume; an operation whose script is used up is
    waiting. What the engine does to the outside (frames sent and received,
    output, kills, the worker handed back to the pool) is a trace. The
    checkout's own mutex makes operations a sequence. *)

From S2P Require Import Prelude Utf8 GoStrings VPath Protowire Proto Values ValueCodec Repr.
From S2P Require Import Exceptions Events Requests PoolErrors Budget Pool Lease.

(** ** State *)

Inductive pendingKind := pendingNone | pendingCall | pendingLookup | pendingFutures.

#[export] Instance pendingKind_eq_decision : EqDecision pendingKind.
Proof. solve_decision. Defined.

Record pending := Pending {
  pd_kind : pendingKind; pd_callid : Z; pd_name : bytes; pd_os : option oscall; pd_eager : bool }.

(** [pending{}] *)
Definition no_pending : pending := Pending pendingNone 0 [] None false.

(** Why a Send or a Recv failed: the caller's context is done, the turn's
    deadline has passed, the frame is too large, or anything else. *)
Inductive io_failure := FCancelled | FTimeout | FTooLarge (n m : Z) | FOther.

(** What the outside answers. *)
Inductive io :=
| IoSend (failed : option io_failure)
| IoRecv (r : io_failure + bytes)
| IoWait (st : Status) (exited : bool)
| IoErr (closed : option (Z * bytes))
| IoTerminated (cause : option goerror) (reason : string) (force : bool).

(** What the engine does. *)
Inductive action :=
| ASent (req : request) (payload : bytes)
| AReceived (ev : event)
| APrint (seg : printsegment)
| AKill (w : Z)
| ARetire (w : Z) (reason : string) (killed : bool)
| ARelease (s : slot)
| AHandoff (s : slot)
| AObserverClosed
| AMetrics (outcome : string).

Inductive outcome (A : Type) := Ret (a : A) | Fail (e : poolError) | Waiting | Panicked.
Arguments Ret {A} a.
Arguments Fail {A} e.
Arguments Waiting {A}.
Arguments Panicked {A}.

Record turn_config := TurnConfig {
  RequestTimeout : Z; DurationLimitGrace : Z; GraceDisabled : bool;
  MontyVersion : bytes; ProtocolVersion : Z }.

(** What an engine is set up with: the tables behind the texts of its errors
    (see Repr.v), its configuration, and whether the worker is reached over a
    WebSocket. *)
Class Engine := {
  IsPrint : Z -> bool;
  parse_error_text : Z -> bytes;
  cfg : turn_config;
  websocket : bool }.

(** The mount table of a feed: pool's MountTable interface. *)
Class MountTable (mounts : Type) :=
  HandleOsCall : mounts -> oscall -> bool * value * option wexception * mounts.

Section engine.
Context `{PW : Protowire} `{EN : Engine} {mounts : Type} `{MT : MountTable mounts}.

Record checkout := Checkout {
  co_lease : @checkoutLease slot Z goerror;
  co_pending : pending;
  co_mounts : option mounts;
  co_budget : sessionBudget;
  co_inflight : bool;
  co_cancelled : bool;
  co_cwdset : bool;
  co_abort : bool;
  co_sent : bool;
  co_obs : option observerLifetime;
  co_metrics : bool }.

Definition set_lease (v : @checkoutLease slot Z goerror) (c : checkout) : checkout :=
  Checkout v (co_pending c) (co_mounts c) (co_budget c) (co_inflight c) (co_cancelled c)
    (co_cwdset c) (co_abort c) (co_sent c) (co_obs c) (co_metrics c).
Definition set_pending (v : pending) (c : checkout) : checkout :=
  Checkout (co_lease c) v (co_mounts c) (co_budget c) (co_inflight c) (co_cancelled c)
    (co_cwdset c) (co_abort c) (co_sent c) (co_obs c) (co_metrics c).
Definition set_mounts (v : option mounts) (c : checkout) : checkout :=
  Checkout (co_lease c) (co_pending c) v (co_budget c) (co_inflight c) (co_cancelled c)
    (co_cwdset c) (co_abort c) (co_sent c) (co_obs c) (co_metrics c).
Definition set_budget (v : sessionBudget) (c : checkout) : checkout :=
  Checkout (co_lease c) (co_pending c) (co_mounts c) v (co_inflight c) (co_cancelled c)
    (co_cwdset c) (co_abort c) (co_sent c) (co_obs c) (co_metrics c).
Definition set_inflight (v : bool) (c : checkout) : checkout :=
  Checkout (co_lease c) (co_pending c) (co_mounts c) (co_budget c) v (co_cancelled c)
    (co_cwdset c) (co_abort c) (co_sent c) (co_obs c) (co_metrics c).
Definition set_cancelled (v : bool) (c : checkout) : checkout :=
  Checkout (co_lease c) (co_pending c) (co_mounts c) (co_budget c) (co_inflight c) v
    (co_cwdset c) (co_abort c) (co_sent c) (co_obs c) (co_metrics c).
Definition set_cwdset (v : bool) (c : checkout) : checkout :=
  Checkout (co_lease c) (co_pending c) (co_mounts c) (co_budget c) (co_inflight c) (co_cancelled c)
    v (co_abort c) (co_sent c) (co_obs c) (co_metrics c).
Definition set_abort (v : bool) (c : checkout) : checkout :=
  Checkout (co_lease c) (co_pending c) (co_mounts c) (co_budget c) (co_inflight c) (co_cancelled c)
    (co_cwdset c) v (co_sent c) (co_obs c) (co_metrics c).
Definition set_sent (v : bool) (c : checkout) : checkout :=
  Checkout (co_lease c) (co_pending c) (co_mounts c) (co_budget c) (co_inflight c) (co_cancelled c)
    (co_cwdset c) (co_abort c) v (co_obs c) (co_metrics c).
Definition set_obs (v : option observerLifetime) (c : checkout) : checkout :=
  Checkout (co_lease c) (co_pending c) (co_mounts c) (co_budget c) (co_inflight c) (co_cancelled c)
    (co_cwdset c) (co_abort c) (co_sent c) v (co_metrics c).
Definition set_metrics (v : bool) (c : checkout) : checkout :=
  Checkout (co_lease c) (co_pending c) (co_mounts c) (co_budget c) (co_inflight c) (co_cancelled c)
    (co_cwdset c) (co_abort c) (co_sent c) (co_obs c) v.

Record world := World { w_co : checkout; w_io : list io; w_trace : list action }.

(** ** The monad *)

Definition M (A : Type) : Type := world -> outcome A * world.

#[export] Instance M_ret : MRet M := fun _ a w => (Ret a, w).
#[export] Instance M_bind : MBind M := fun _ _ f m w =>
  match m w with
  | (Ret a, w) => f a w
  | (Fail e, w) => (Fail e, w)
  | (Waiting, w) => (Waiting, w)
  | (Panicked, w) => (Panicked, w)
  end.

Definition get_co : M checkout := fun w => (Ret (w_co w), w).
Definition modify (f : checkout -> checkout) : M () :=
  fun w => (Ret (), World (f (w_co w)) (w_io w) (w_trace w)).
Definition act (a : action) : M () :=
  fun w => (Ret (), World (w_co w) (w_io w) (w_trace w ++ [a])).
Definition fail {A} (e : poolError) : M A := fun w => (Fail e, w).
Definition panic {A} : M A := fun w => (Panicked, w).
Definition waiting {A} : M A := fun w => (Waiting, w).
(** The error as a value, for code that looks at [err]. *)
Definition try {A} (m : M A) : M (poolError + A) := fun w =>
  match m w with
  | (Ret a, w) => (Ret (inr a), w)
  | (Fail e, w) => (Ret (inl e), w)
  | (Waiting, w) => (Waiting, w)
  | (Panicked, w) => (Panicked, w)
  end.
Definition rethrow {A} (r : poolError + A) : M A := match r with inl e => fail e | inr a => mret a end.
(** [defer]: runs when [m] returns, fails or panics. *)
Definition deferred {A} (m : M A) (fin : M ()) : M A := fun w =>
  match m w with
  | (Waiting, w) => (Waiting, w)
  | (o, w) => (o, (fin w).2)
  end.

(** ** Ending the checkout *)

Definition finishMetrics (outcome : string) : M () :=
  c ← get_co;
  if co_metrics c then mret ()
  else _ ← modify (set_metrics true); act (AMetrics outcome).

Definition obs_do (f : observerLifetime -> bool * observerLifetime) : M bool :=
  c ← get_co;
  match co_obs c with
  | None => mret false
  | Some l => let '(b, l) := f l in _ ← modify (set_obs (Some l)); mret b
  end.

Definition closed_if (now : bool) : M () := if now then act AObserverClosed else mret ().

Definition observer_close : M () := now ← obs_do obs_close; closed_if now.
Definition observer_release : M () := now ← obs_do obs_release; closed_if now.
(** On a nil observer [acquire] succeeds. *)
Definition observer_acquire : M bool :=
  c ← get_co;
  match co_obs c with None => mret true | Some _ => obs_do obs_acquire end.

Definition checkout_terminate (cause : option goerror) (reason : string) (force : bool) : M bool :=
  c ← get_co;
  let '(w, won, l) := Lease.terminate cause (co_lease c) in
  _ ← modify (set_lease l);
  match w with
  | Some w =>
    let killed := force || negb websocket in
    _ ← (if killed then act (AKill w) else mret ());
    _ ← act (ARetire w reason killed);
    _ ← finishMetrics reason;
    _ ← observer_close;
    mret true
  | None => mret false
  end.

Definition discard (reason : string) : M () :=
  _ ← modify (fun c => set_inflight false (set_mounts None (set_pending no_pending c)));
  _ ← checkout_terminate None reason false;
  mret ().

Definition ensureReady : M () :=
  c ← get_co;
  if co_cancelled c then
    _ ← modify (set_cancelled false); fail (new_error KindCancelled [])
  else if negb (Lease.active (co_lease c)) then fail (new_error KindFinished [])
  else if co_inflight c then _ ← discard "discarded"; fail (new_error KindCancelled [])
  else mret ().

(** ** Asking the outside *)

(** Terminations by other goroutines take effect while the engine waits. *)
Fixpoint interrupts (n : nat) : M () :=
  match n with
  | O => mret ()
  | S n => fun w =>
    match w_io w with
    | IoTerminated cause reason force :: rest =>
      (_ ← checkout_terminate cause reason force; interrupts n) (World (w_co w) rest (w_trace w))
    | _ => (Ret (), w)
    end
  end.

Definition ask {A} (pick : io -> option A) : M A := fun w =>
  match interrupts (length (w_io w)) w with
  | (_, w) =>
    match w_io w with
    | x :: rest =>
      match pick x with
      | Some a => (Ret a, World (w_co w) rest (w_trace w))
      | None => (Waiting, w)
      end
    | [] => (Waiting, w)
    end
  end.

Definition ask_send : M (option io_failure) :=
  ask (fun x => match x with IoSend f => Some f | _ => None end).
Definition ask_recv : M (io_failure + bytes) :=
  ask (fun x => match x with IoRecv r => Some r | _ => None end).
Definition ask_wait : M (Status * bool) :=
  ask (fun x => match x with IoWait st ok => Some (st, ok) | _ => None end).
Definition ask_err : M (option (Z * bytes)) :=
  ask (fun x => match x with IoErr e => Some e | _ => None end).

(** ** Failures *)

Definition text (e : goerror) : bytes := err_text IsPrint parse_error_text e.

(** [reap(w, grace)] of checkout.go; the worker is the lease's. *)
Definition reap : M Status :=
  if websocket then mret unknown_status
  else
    '(st, ok) ← ask_wait;
    if ok : bool then mret st
    else
      c ← get_co;
      _ ← act (AKill (l_worker (co_lease c)));
      '(st, _) ← ask_wait;
      mret st.

Definition poison {A} (doing : bytes) : M A :=
  if websocket then
    _ ← discard "disconnected";
    closed ← ask_err;
    let '(code, reason) := default (0, []) closed in
    fail (PoolError KindDisconnected doing false unknown_status 0 None [] [] false code reason true false)
  else
    status ← reap;
    if st_exited status && (st_code status =? 65) then
      _ ← discard "oom";
      fail (PoolError KindRuntime [] false unknown_status 0
        (Some (NewException (go "MemoryError")
                 (go "the worker exceeded its memory limit and was terminated"))) [] [] false 0 [] true false)
    else
      _ ← discard "crash";
      fail (PoolError KindCrashed doing false status 0 None [] [] false 0 [] true false).

Definition poisonTimeout {A} (deadline : Z) : M A :=
  _ ← discard "turn_timeout";
  fail (PoolError KindTimeout [] false unknown_status deadline None [] [] false 0 [] true false).

Definition ioFailure {A} (f : io_failure) (doing : bytes) (deadline : Z) : M A :=
  match f with
  | FCancelled =>
    _ ← discard "abandoned";
    _ ← modify (set_cancelled true);
    fail (new_error KindCancelled [])
  | FTimeout => poisonTimeout deadline
  | FTooLarge n m =>
    _ ← discard "discarded";
    fail (protocolError (go "invalid payload from worker: " ++ text (FrameTooLarge n m)))
  | FOther => poison doing
  end.

(** ** Dispatching an event *)

Definition drop_feed : M () := modify (fun c => set_mounts None (set_pending no_pending c)).

Definition refuse {A} (message : bytes) : M A :=
  _ ← discard "discarded"; fail (protocolError message).

Definition dispatch (ev : event) (req : request) : M event :=
  match ev_kind ev with
  | EventFunctionCall =>
    match ev_funcall ev with
    | None => panic
    | Some fc =>
      _ ← modify (set_pending (Pending pendingCall (fc_callid fc) (fc_name fc) None (fc_eager fc)));
      mret ev
    end
  | EventOsCall =>
    match ev_oscall ev with
    | None => panic
    | Some oc =>
      if oc_op oc =? 0 then refuse (go "OsCall event with no call")
      else match oc_payloaderr oc with
           | Some e => refuse (go "invalid OS call payload: " ++ text e)
           | None =>
             _ ← modify (set_pending (Pending pendingCall (oc_callid oc) (go (op_name (oc_op oc))) (Some oc) false));
             mret ev
           end
    end
  | EventNameLookup =>
    match ev_namelookup ev with
    | None => panic
    | Some nl =>
      _ ← modify (set_pending (Pending pendingLookup 0 (nl_name nl) None false));
      mret ev
    end
  | EventResolveFutures =>
    _ ← modify (set_pending (Pending pendingFutures 0 [] None false));
    mret ev
  | EventComplete =>
    _ ← drop_feed;
    if negb (ev_hasvalue ev) then refuse (go "complete event with no value") else mret ev
  | EventError =>
    _ ← (match req with RDump => mret () | _ => drop_feed end);
    match ev_exception ev with
    | None => refuse (go "error event with no exception")
    | Some x => fail (PoolError KindRuntime [] false unknown_status 0 (Some x) [] [] false 0 [] false false)
    end
  | EventTypingError =>
    _ ← drop_feed;
    fail (PoolError KindTyping [] false unknown_status 0 None (ev_diagnostics ev) [] false 0 [] false false)
  | EventOk | EventDumpResult => mret ev
  | EventFatalError =>
    status ← reap;
    _ ← discard "fatal";
    fail (PoolError KindCrashed (ev_fatal ev) true status 0 None [] [] false 0 [] true false)
  | EventShutdown =>
    if negb websocket then refuse (go "subprocess worker sent a ShutdownDump")
    else
      _ ← discard "disconnected";
      fail (PoolError KindShutdown [] false unknown_status 0 None [] (ev_dump ev) (ev_hasdump ev) 0 [] true false)
  | EventPrint | EventNone => refuse (go "unexpected event")
  end.

(** ** A turn *)

Definition send_frame (req : request) (payload : bytes) : M (option io_failure) :=
  r ← ask_send;
  match r with
  | Some f => mret (Some f)
  | None => _ ← act (ASent req payload); mret None
  end.

Fixpoint print_segments (segs : list printsegment) : M () :=
  match segs with [] => mret () | s :: segs => _ ← act (APrint s); print_segments segs end.

Definition answers_abort (k : eventkind) : bool :=
  match k with EventError | EventFatalError | EventShutdown => true | _ => false end.

(** An OS call that [dispatch] will refuse; on a nil one it panics. *)
Definition broken_oscall (ev : event) : bool :=
  match ev_kind ev, ev_oscall ev with
  | EventOsCall, Some oc => (oc_op oc =? 0) || bool_decide (is_Some (oc_payloaderr oc))
  | EventOsCall, None => true
  | _, _ => false
  end.

Definition limit_exception (limit : Z) : wexception :=
  NewException (go "RuntimeError") (go "suspension limit " ++ itoa limit ++ go " exceeded").

(** The receive loop; every iteration consumes an answer of the script. *)
Fixpoint turn_loop (fuel : nat) (req : request) (onPrint : bool) (dl : Z) : M event :=
  match fuel with
  | O => waiting
  | S fuel =>
    r ← ask_recv;
    match r with
    | inl f => ioFailure f (go "waiting for a reply") dl
    | inr raw =>
      match DecodeEvent raw with
      | Err e => refuse (go "invalid payload from worker: " ++ text e)
      | Ok (ev, _) =>
        _ ← act (AReceived ev);
        if bool_decide (ev_kind ev = EventPrint) then
          _ ← (if onPrint then print_segments (ev_print ev) else mret ());
          turn_loop fuel req onPrint dl
        else
          _ ← modify (fun c => set_budget (observe ev (co_budget c)) c);
          c ← get_co;
          if co_abort c then
            _ ← modify (set_abort false);
            if negb (answers_abort (ev_kind ev))
            then refuse (go "worker answered AbortFeed with something other than an Error")
            else _ ← modify (set_inflight false); dispatch ev req
          else if IsSuspension ev && (suspensionLimit (co_budget c) <? suspensionsSeen (co_budget c)) then
            if broken_oscall ev then dispatch ev req
            else
              let abortReq := RAbortFeed (Some (limit_exception (suspensionLimit (co_budget c)))) in
              let abort := match EncodeRequest abortReq [] with Ok p => p | Err _ => [] end in
              r ← send_frame abortReq abort;
              match r with
              | Some f => ioFailure f (go "aborting a feed") dl
              | None => _ ← modify (set_abort true); turn_loop fuel req onPrint dl
              end
          else _ ← modify (set_inflight false); dispatch ev req
      end
    end
  end.

Definition receive (req : request) (onPrint : bool) (dl : Z) : M event :=
  fun w => turn_loop (length (w_io w)) req onPrint dl w.

Definition turn_body (req : request) (control onPrint : bool) : M event :=
  if existsb ExceedsMaxDepth (RequestValues req)
  then fail (runtimeError (go "RuntimeError") (go "Max input depth exceeded"))
  else match EncodeRequest req [] with
  | Err (ConversionError e) => fail (runtimeError (go "TypeError") (text e))
  | Err (Panic _) => panic
  | Err e => fail (runtimeError (go "RuntimeError") (text e))
  | Ok payload =>
    if MaxFrameLen <? len payload then
      fail (runtimeError (go "RuntimeError")
        (go "request frame of " ++ itoa (len payload) ++ go " bytes exceeds the maximum of "
         ++ itoa MaxFrameLen ++ go " bytes"))
    else
      c ← get_co;
      let '(dl, _) := deadline (co_budget c) (RequestTimeout cfg) (DurationLimitGrace cfg)
        (GraceDisabled cfg) control in
      _ ← modify (fun c => set_sent false (set_inflight true c));
      r ← send_frame req payload;
      match r with
      | Some f => ioFailure f (go "sending a request") dl
      | None =>
        _ ← modify (set_sent true);
        receive req onPrint dl
      end
  end.

Definition turn (req : request) (control onPrint : bool) : M event :=
  _ ← ensureReady;
  ok ← observer_acquire;
  if negb ok then fail (new_error KindFinished [])
  else deferred (turn_body req control onPrint) observer_release.

(** ** The operations of a checkout *)

Definition unexpected {A} (what : string) (ev : event) : M A :=
  refuse (go "unexpected reply to " ++ go what ++ go ": " ++ go (eventName (ev_kind ev))).

Definition pending_is (k : pendingKind) (c : checkout) : bool := bool_decide (pd_kind (co_pending c) = k).

Definition Checkout_Feed (code : bytes) (inputs : list (bytes * value)) (tbl : option mounts)
    (firstMount : bytes) (cwd : option bytes) (skipTypeCheck onPrint : bool) : M event :=
  _ ← ensureReady;
  c ← get_co;
  if negb (pending_is pendingNone c)
  then fail (protocolError (go "feed called while a suspension is awaiting an answer"))
  else
    dir ← match cwd with
          | Some d =>
            match ValidateCwd d with
            | Ok valid => mret valid
            | Err e => fail (runtimeError (go "ValueError") (text e))
            end
          | None =>
            mret (if negb (co_cwdset c)
                  then if bool_decide (firstMount = []) then go "/" else firstMount else [])
          end;
    _ ← modify (set_mounts tbl);
    r ← try (turn (RFeed (Feed code inputs skipTypeCheck dir)) false onPrint);
    c ← get_co;
    _ ← (if co_sent c && match r with inl e => negb (bool_decide (pe_kind e = KindTyping)) | inr _ => true end
         then modify (set_cwdset true) else mret ());
    rethrow r.

Definition fill_result (p : pending) (r : extresult) : extresult :=
  if er_kind r =? ExtFuture
  then ExtResult (er_kind r) (er_value r) (er_error r) (pd_callid p) (er_notfound r)
  else if er_kind r =? ExtNotFound
  then ExtResult (er_kind r) (er_value r) (er_error r) (er_future r) (pd_name p)
  else r.

(** [Resume], which is [resumeLocked] under the mutex. *)
Definition Checkout_Resume (result : extresult) (onPrint : bool) : M event :=
  _ ← ensureReady;
  c ← get_co;
  if negb (pending_is pendingCall c) then fail (protocolError (go "no suspended call to resume"))
  else if (er_kind result =? ExtNotHandled) && bool_decide (pd_os (co_pending c) = None)
  then fail (protocolError (go "NotHandled is only valid answering an OS call"))
  else turn (RResumeCall (pd_callid (co_pending c)) (fill_result (co_pending c) result)) false onPrint.

Definition Checkout_ResumeNameLookup (kind : Z) (v : value) (e : option wexception) (onPrint : bool) : M event :=
  _ ← ensureReady;
  c ← get_co;
  if negb (pending_is pendingLookup c)
  then fail (protocolError (go "no suspended name lookup to resume"))
  else turn (RResumeNameLookup kind v e) false onPrint.

Definition unresolved (results : list (Z * extresult)) : option Z :=
  fst <$> head (List.filter (fun r => negb ((er_kind r.2 =? ExtReturn) || (er_kind r.2 =? ExtError))) results).

Definition Checkout_ResumeFutures (results : list (Z * extresult)) (onPrint : bool) : M event :=
  _ ← ensureReady;
  c ← get_co;
  let p := co_pending c in
  _ ← (if pending_is pendingFutures c then mret ()
       else if pending_is pendingCall c && pd_eager p then
         match results with
         | [(id, _)] => if id =? pd_callid p then mret ()
                        else fail (protocolError (go "eager result must match the suspended call id"))
         | _ => fail (protocolError (go "eager result must match the suspended call id"))
         end
       else fail (protocolError (go "no suspended futures to resume")));
  match unresolved results with
  | Some id => fail (protocolError (go "future " ++ itoa id ++ go " must resolve to Return or Error"))
  | None => turn (RResumeFutures results) false onPrint
  end.

(** Whether the call was handled, and with what result. *)
Definition HandlePendingMount : M (option extresult) :=
  _ ← ensureReady;
  c ← get_co;
  if negb (pending_is pendingCall c) then fail (protocolError (go "no suspended call to resume"))
  else match pd_os (co_pending c), co_mounts c with
  | None, _ => fail (protocolError (go "resume_from_mounts is only valid answering an OS call"))
  | Some _, None => mret None
  | Some call, Some m =>
    _ ← modify (set_inflight true);
    let '(handled, result, exc, m) := HandleOsCall m call in
    _ ← modify (fun c => set_inflight false (set_mounts (Some m) c));
    mret (if handled : bool
          then Some match exc with
                    | None => ExtResult ExtReturn result None 0 []
                    | Some e => ExtResult ExtError VNil (Some e) 0 []
                    end
          else None)
  end.

Definition ResumeFromMounts (onPrint : bool) : M (option event) :=
  handled ← HandlePendingMount;
  match handled with
  | None => mret None
  | Some res =>
    r ← try (Checkout_Resume res onPrint);
    match r with
    | inr ev => mret (Some ev)
    | inl e =>
      if bool_decide (pe_kind e = KindRuntime) && pe_presend e
      then ev ← Checkout_Resume (ExtResult ExtError VNil (pe_exception e) 0 []) onPrint; mret (Some ev)
      else fail e
    end
  end.

Definition Checkout_Dump : M bytes :=
  ev ← turn RDump true false;
  if negb (bool_decide (ev_kind ev = EventDumpResult)) then unexpected "Dump" ev else mret (ev_state ev).

Definition keep_limit (limit : Z) (b : sessionBudget) : sessionBudget :=
  if limit <? suspensionLimit b
  then SessionBudget (durationBudget b) (reportedExec b) limit (suspensionsSeen b) else b.

(** A restored session: its pending event, if any, and its script name. *)
Definition Restore (state : bytes) (tbl : option mounts) (onPrint : bool) : M (option event * option bytes) :=
  _ ← ensureReady;
  _ ← modify (set_pending no_pending);
  c ← get_co;
  let saved := co_budget c in
  _ ← modify (fun c => set_mounts tbl (set_budget (SessionBudget None 0 (suspensionLimit (co_budget c)) 0) c));
  r ← try (turn (RLoad state) true onPrint);
  match r with
  | inl e =>
    _ ← (if pe_workerlost e then mret ()
         else modify (fun c => set_budget (keep_limit (suspensionLimit (co_budget c)) saved) c));
    fail e
  | inr ev =>
    _ ← modify (set_cwdset true);
    if bool_decide (ev_kind ev = EventOk) then mret (None, ev_restored ev)
    else if IsSuspension ev then mret (Some ev, ev_restored ev)
    else unexpected "Load" ev
  end.

(** [restoreCarried] of reservation.go *)
Definition restoreCarried (state : bytes) (b : sessionBudget) (cwdSet : bool) : M () :=
  c ← get_co;
  _ ← modify (set_budget (keep_limit (suspensionLimit (co_budget c)) b));
  ev ← turn (RLoad state) true false;
  if negb (bool_decide (ev_kind ev = EventOk)) then unexpected "Load" ev
  else modify (set_cwdset cwdSet).

Definition bad_requirement (r : bytes) : option bytes :=
  let trimmed := TrimSpace r in
  if bool_decide (trimmed = []) then
    Some (go "invalid requirement " ++ RustDebugString IsPrint r ++ go ": must not be empty")
  else if HasPrefix trimmed (go "-") then
    Some (go "invalid requirement " ++ RustDebugString IsPrint r
          ++ go ": must not start with '-' (it would be parsed as a uv option)")
  else None.

Definition InstallDependencies (requirements : list bytes) : M () :=
  _ ← ensureReady;
  c ← get_co;
  if negb (pending_is pendingNone c)
  then fail (protocolError (go "install_dependencies called while a suspension is awaiting an answer"))
  else if len requirements =? 0 then mret ()
  else match head (omap bad_requirement requirements) with
  | Some message => fail (runtimeError (go "ValueError") message)
  | None =>
    ev ← turn (RInstallDependencies requirements) true false;
    if negb (bool_decide (ev_kind ev = EventOk)) then unexpected "InstallDependencies" ev else mret ()
  end.

(** Gives the slot back through [give] if the lease is still held. *)
Definition finish_lease (give : slot -> action) (bump : Z) : M bool :=
  c ← get_co;
  let '(s, _, l) := Lease.finish (co_lease c) in
  _ ← modify (set_lease l);
  match s with
  | Some s => _ ← act (give (Slot (sl_w s) (served s + bump) (Pool.obs s))); mret true
  | None => mret false
  end.

Definition Checkout_Finish : M () :=
  c ← get_co;
  if negb (Lease.active (co_lease c)) then
    _ ← modify (set_cancelled false); finishMetrics "error"
  else if co_inflight c then discard "abandoned"
  else if websocket then
    won ← finish_lease ARelease 0;
    if won : bool then finishMetrics "ok" else mret ()
  else
    r ← try (turn RReset true false);
    match r with
    | inl e => _ ← discard "discarded"; _ ← finishMetrics "error"; fail e
    | inr ev =>
      if negb (bool_decide (ev_kind ev = EventOk)) then
        _ ← discard "discarded"; _ ← finishMetrics "error";
        fail (protocolError (go "unexpected reply to Reset: " ++ go (eventName (ev_kind ev))))
      else
        _ ← drop_feed;
        won ← finish_lease ARelease 1;
        if won : bool then finishMetrics "ok" else mret ()
    end.

(** [Abort] never succeeds: its answer is an error. *)
Definition Checkout_Abort (exc : option wexception) (onPrint : bool) : M () :=
  _ ← ensureReady;
  c ← get_co;
  if pending_is pendingNone c then fail (protocolError (go "abort without a pending suspension"))
  else
    _ ← modify (fun c => set_abort true (set_pending no_pending c));
    ev ← turn (RAbortFeed exc) false onPrint;
    unexpected "AbortFeed" ev.

Definition Checkout_Terminate (cause : option goerror) (reason : string) : M bool :=
  checkout_terminate cause reason true.

Definition Abandon : M bool := checkout_terminate None "abandoned" false.

Definition Checkout_Finished : M bool := c ← get_co; mret (negb (Lease.active (co_lease c))).
Definition Checkout_Pending : M bool := c ← get_co; mret (negb (pending_is pendingNone c)).
Definition PendingOsCall : M (option oscall) :=
  c ← get_co; mret (if pending_is pendingCall c then pd_os (co_pending c) else None).
Definition HasMounts : M bool := c ← get_co; mret (bool_decide (is_Some (co_mounts c))).

(** Whether the caller has to call the observer's release later. *)
Definition HoldObserver : M bool := observer_acquire.

(** [Handoff] of reservation.go: the slot's capacity becomes a reservation
    that keeps the session's budget and working directory. *)
Definition Checkout_Handoff : M (sessionBudget * bool) :=
  _ ← ensureReady;
  c ← get_co;
  if negb (pending_is pendingNone c) then fail (protocolError (go "handoff with a pending suspension"))
  else if negb websocket then fail (protocolError (go "handoff requires a remote worker"))
  else
    won ← finish_lease AHandoff 0;
    if negb won then fail (new_error KindFinished [])
    else
      _ ← drop_feed;
      _ ← observer_close;
      _ ← finishMetrics "ok";
      mret (co_budget c, co_cwdset c).

(** ** Opening a session *)

Definition applyLimits (conf : configure) (b : sessionBudget) : sessionBudget :=
  match cf_limits conf with
  | None => SessionBudget (durationBudget b) (reportedExec b) DefaultMaxSuspensions (suspensionsSeen b)
  | Some l =>
    SessionBudget
      (match lm_duration l with Some m => Some (int64 (int64 m * Microsecond)) | None => durationBudget b end)
      (reportedExec b)
      (default DefaultMaxSuspensions (lm_suspensions l))
      (suspensionsSeen b)
  end.

Definition newCheckout (s : slot) (observed : bool) : checkout :=
  Checkout (Lease (Some s) (sl_w s) None) no_pending None (SessionBudget None 0 0 0)
    false false false false false (if observed then Some new_life else None) false.

Definition with_versions (conf : configure) : configure :=
  Configure (cf_script conf) (cf_limits conf) (cf_typecheck conf) (cf_stubs conf) (MontyVersion cfg)
    (cf_annotations conf) (cf_format conf) (cf_color conf) (ProtocolVersion cfg) (cf_flush conf).

(** [Pool.Checkout] once a worker has been acquired. *)
Definition Pool_Checkout (conf : configure) : M () :=
  _ ← modify (fun c => set_budget (applyLimits (with_versions conf) (co_budget c)) c);
  r ← try (turn (RConfigure (with_versions conf)) true false);
  match r with
  | inl e => _ ← discard "discarded"; fail e
  | inr ev => if negb (bool_decide (ev_kind ev = EventOk)) then unexpected "Configure" ev else mret ()
  end.

(** [Pool.Bind] once its worker has taken the capacity over. *)
Definition Pool_Bind (conf : configure) (state : option bytes) (b : sessionBudget) (cwdSet : bool) : M () :=
  _ ← modify (fun c => set_budget (applyLimits (with_versions conf) (co_budget c)) c);
  r ← try (turn (RConfigure (with_versions conf)) true false);
  r ← match r with
      | inl e => mret (inl e)
      | inr ev =>
        if negb (bool_decide (ev_kind ev = EventOk))
        then mret (inl (protocolError (go "unexpected reply to Configure: " ++ go (eventName (ev_kind ev)))))
        else match state with
             | Some st => try (restoreCarried st b cwdSet)
             | None => mret (inr ())
             end
      end;
  match r with
  | inl e => _ ← discard "discarded"; fail e
  | inr _ => mret ()
  end.

End engine.
