(* ===== verification/CheckoutFacts.v ===== *)
(** What a turn and the operations of a checkout guarantee.

    The engine is a program in the monad of Checkout.v; its specifications are
    weakest preconditions with one postcondition per outcome. *)

From S2P Require Import Prelude Utf8 GoStrings VPath Protowire Proto Values ValueCodec Repr CodecSpec CodecRoundtrip CodecSound.
From S2P Require Import Exceptions Events EventFacts Requests PoolErrors Budget Pool Lease Checkout.

(** ** Weakest preconditions *)

Section wp.
Context {mounts : Type}.
Abbreviation world := (@world mounts).
Abbreviation M := (@M mounts).

Record post (A : Type) := Post {
  on_ret : A -> world -> Prop;
  on_fail : poolError -> world -> Prop;
  on_wait : world -> Prop;
  on_panic : world -> Prop }.
Arguments Post {A} on_ret on_fail on_wait on_panic.
Arguments on_ret {A} p a w.
Arguments on_fail {A} p e w.
Arguments on_wait {A} p w.
Arguments on_panic {A} p w.

Definition sat {A} (Q : post A) (r : outcome A * world) : Prop :=
  match r.1 with
  | Ret a => on_ret Q a r.2
  | Fail e => on_fail Q e r.2
  | Waiting => on_wait Q r.2
  | Panicked => on_panic Q r.2
  end.

Definition wp {A} (m : M A) (Q : post A) (w : world) : Prop := sat Q (m w).

(** The postcondition of [m] in [x ← m; f x]. *)
Definition andthen {A B} (f : A -> M B) (Q : post B) : post A :=
  Post (fun a w => wp (f a) Q w) (on_fail Q) (on_wait Q) (on_panic Q).

Lemma wp_bind {A B} (m : M A) (f : A -> M B) Q w : wp m (andthen f Q) w -> wp (m ≫= f) Q w.
Proof.
  unfold wp, sat. unfold mbind, M_bind. destruct (m w) as [[a|e| |] w']; done.
Qed.

Lemma wp_ret {A} (a : A) Q w : on_ret Q a w -> wp (mret a) Q w.
Proof. done. Qed.
Lemma wp_fail {A} e (Q : post A) w : on_fail Q e w -> wp (fail e) Q w.
Proof. done. Qed.
Lemma wp_get Q (w : world) : on_ret Q (w_co w) w -> wp get_co Q w.
Proof. done. Qed.
Lemma wp_modify f Q (w : world) :
  on_ret Q () (World (f (w_co w)) (w_io w) (w_trace w)) -> wp (modify f) Q w.
Proof. done. Qed.
Lemma wp_act a Q (w : world) :
  on_ret Q () (World (w_co w) (w_io w) (w_trace w ++ [a])) -> wp (act a) Q w.
Proof. done. Qed.

Lemma wp_try {A} (m : M A) Q w :
  wp m (Post (fun a w => on_ret Q (inr a) w) (fun e w => on_ret Q (inl e) w) (on_wait Q) (on_panic Q)) w ->
  wp (try m) Q w.
Proof. unfold wp, sat, try. destruct (m w) as [[a|e| |] w']; done. Qed.

Lemma wp_rethrow {A} (r : poolError + A) Q w :
  match r with inl e => on_fail Q e w | inr a => on_ret Q a w end -> wp (rethrow r) Q w.
Proof. by destruct r. Qed.

(** A [defer] that always returns. *)
Lemma wp_deferred {A} (m : M A) fin Q w :
  wp m (Post (fun a w => on_ret Q a (fin w).2) (fun e w => on_fail Q e (fin w).2)
             (on_wait Q) (fun w => on_panic Q (fin w).2)) w ->
  wp (deferred m fin) Q w.
Proof. unfold wp, sat, deferred. destruct (m w) as [[a|e| |] w']; done. Qed.

Lemma wp_mono {A} (m : M A) (Q Q' : post A) w :
  wp m Q w -> (forall a w, on_ret Q a w -> on_ret Q' a w) ->
  (forall e w, on_fail Q e w -> on_fail Q' e w) -> (forall w, on_wait Q w -> on_wait Q' w) ->
  (forall w, on_panic Q w -> on_panic Q' w) -> wp m Q' w.
Proof. unfold wp, sat. destruct (m w) as [[a|e| |] w']; cbn; auto. Qed.
End wp.

Arguments Post {mounts A} on_ret on_fail on_wait on_panic.
Arguments on_ret {mounts A} p a w.
Arguments on_fail {mounts A} p e w.
Arguments on_wait {mounts A} p w.
Arguments on_panic {mounts A} p w.

(** One step of symbolic execution. *)
Ltac wp_step :=
  cbn [andthen on_ret on_fail on_wait on_panic w_co w_io w_trace];
  lazymatch goal with
  | |- wp (_ ≫= _) _ _ => apply wp_bind
  | |- wp (mret _) _ _ => apply wp_ret
  | |- wp (fail _) _ _ => apply wp_fail
  | |- wp get_co _ _ => apply wp_get
  | |- wp (modify _) _ _ => apply wp_modify
  | |- wp (act _) _ _ => apply wp_act
  | |- wp (try _) _ _ => apply wp_try
  | |- wp (rethrow _) _ _ => apply wp_rethrow
  | |- wp (deferred _ _) _ _ => apply wp_deferred
  end;
  cbn [andthen on_ret on_fail on_wait on_panic w_co w_io w_trace].

(** Runs the engine's primitives on a concrete state. *)
Ltac run_engine :=
  cbv [checkout_terminate discard finishMetrics observer_close observer_release observer_acquire
       obs_do closed_if finish_lease drop_feed
       mbind M_bind mret M_ret get_co modify act fail panic waiting];
  cbn.

(** ** Giving the worker back *)

(** The ways a worker leaves a checkout. *)
Definition handback (a : action) : bool :=
  match a with ARetire _ _ _ | ARelease _ | AHandoff _ => true | _ => false end.
Definition handbacks (l : list action) : Z := len (List.filter handback l).

Section lease.
Context `{EN : Engine} {mounts : Type}.
Abbreviation world := (@world mounts).
Implicit Types w : world.

(** The checkout holds its worker. *)
Definition holds w : bool := Lease.active (co_lease (w_co w)).

(** Turns may still be observed. *)
Definition observer_open w : Prop :=
  match co_obs (w_co w) with Some l => closing l = false | None => True end.

(** What a part of the engine may do to a checkout that it does not end: only
    the lease's end, its observer and the metrics, by another goroutine. *)
Record same_session (w w' : world) : Prop := SameSession {
  ss_pending : co_pending (w_co w') = co_pending (w_co w);
  ss_mounts : co_mounts (w_co w') = co_mounts (w_co w);
  ss_budget : co_budget (w_co w') = co_budget (w_co w);
  ss_inflight : co_inflight (w_co w') = co_inflight (w_co w);
  ss_cancelled : co_cancelled (w_co w') = co_cancelled (w_co w);
  ss_cwdset : co_cwdset (w_co w') = co_cwdset (w_co w);
  ss_abort : co_abort (w_co w') = co_abort (w_co w);
  ss_sent : co_sent (w_co w') = co_sent (w_co w);
  ss_worker : l_worker (co_lease (w_co w')) = l_worker (co_lease (w_co w)) }.

Lemma same_session_refl w : same_session w w.
Proof. done. Qed.
Lemma same_session_trans w1 w2 w3 : same_session w1 w2 -> same_session w2 w3 -> same_session w1 w3.
Proof. intros [] []. constructor; congruence. Qed.

Definition is_terminated (x : io) : Prop := match x with IoTerminated _ _ _ => True | _ => False end.

(** [terminate] always returns, and afterwards the lease is gone. *)
Lemma terminate_spec cause reason force w :
  exists b w', checkout_terminate cause reason force w = (Ret b, w')
    /\ same_session w w' /\ holds w' = false /\ w_io w' = w_io w.
Proof.
  unfold holds. destruct w as [[l p m b i cc cw ab st ob mt] io0 tr].
  destruct l as [[s|] wk ca]; run_engine; [|eexists _, _; split_and!; [done|by constructor|done|done]].
  destruct (force || negb websocket), mt; run_engine; destruct ob as [ob|]; run_engine;
    try (destruct ((users ob =? 0) && negb (closed ob)); run_engine);
    (eexists _, _; split_and!; [done|by constructor|done|done]).
Qed.

(** The state after [discard]: no suspension, no mounts, nothing in flight, and
    the worker is gone. *)
Record discarded (w w' : world) : Prop := Discarded {
  dc_pending : co_pending (w_co w') = no_pending;
  dc_mounts : co_mounts (w_co w') = None;
  dc_inflight : co_inflight (w_co w') = false;
  dc_holds : holds w' = false;
  dc_budget : co_budget (w_co w') = co_budget (w_co w);
  dc_cancelled : co_cancelled (w_co w') = co_cancelled (w_co w);
  dc_abort : co_abort (w_co w') = co_abort (w_co w);
  dc_sent : co_sent (w_co w') = co_sent (w_co w);
  dc_io : w_io w' = w_io w }.

Lemma wp_discard reason (Q : post ()) w :
  (forall w', discarded w w' -> on_ret Q () w') -> wp (discard reason) Q w.
Proof.
  intros H. unfold discard. do 2 wp_step. apply wp_bind. unfold wp, sat.
  edestruct terminate_spec as (b & w' & -> & [] & Hh & Hio). cbn in *. apply H. by constructor.
Qed.

(** ** Waiting for the outside *)

(** [w'] is reached from [w] while the engine waits. *)
Record waited (w w' : world) : Prop := Waited {
  wt_session : same_session w w';
  wt_holds : holds w' = true -> holds w = true;
  wt_obs : holds w' = true -> co_obs (w_co w') = co_obs (w_co w);
  wt_lost : holds w = true -> holds w' = false -> Exists is_terminated (w_io w);
  wt_io : exists used, w_io w = used ++ w_io w' }.

Lemma waited_refl w : waited w w.
Proof. constructor; [done|done|done|by intros ->|by exists []]. Qed.

Lemma waited_trans w1 w2 w3 : waited w1 w2 -> waited w2 w3 -> waited w1 w3.
Proof.
  intros [Hs1 Hh1 Ho1 Hl1 [u1 E1]] [Hs2 Hh2 Ho2 Hl2 [u2 E2]]. constructor.
  - by eapply same_session_trans.
  - auto.
  - intros H. rewrite Ho2 by done. auto.
  - intros Ha Hb. destruct (holds w2) eqn:E; [|auto]. rewrite E1, Exists_app. right. auto.
  - exists (u1 ++ u2). by rewrite E1, E2, app_assoc.
Qed.

Lemma interrupts_spec n : forall w, exists w', interrupts n w = (Ret (), w') /\ waited w w'.
Proof.
  induction n as [|n IH]; intros w; cbn [interrupts]; [by exists w; split; [|apply waited_refl]|].
  destruct (w_io w) as [|[] rest] eqn:Eio; try (by exists w; split; [|apply waited_refl]).
  unfold mbind, M_bind.
  destruct (terminate_spec cause reason force (World (w_co w) rest (w_trace w)))
    as (b & w1 & -> & Hs & Hh & Hio1).
  destruct (IH w1) as (w2 & -> & Hw). exists w2. split; [done|].
  eapply waited_trans; [|exact Hw]. cbn in Hio1. constructor.
  - by destruct Hs; constructor.
  - congruence.
  - congruence.
  - intros _ _. rewrite Eio. by left.
  - exists [IoTerminated cause reason force]. by rewrite Eio, Hio1.
Qed.

Lemma wp_ask {A} (pick : io -> option A) (Q : post A) w :
  (forall a w', waited w w' -> (exists x, x ∈ w_io w /\ pick x = Some a) -> on_ret Q a w') ->
  (forall w', waited w w' -> on_wait Q w') -> wp (ask pick) Q w.
Proof.
  intros Hret Hwait. unfold wp, sat, ask.
  destruct (interrupts_spec (length (w_io w)) w) as (w1 & -> & Hw).
  destruct (w_io w1) as [|x rest] eqn:Eio; [by apply Hwait|].
  destruct (pick x) as [a|] eqn:Ex; [|by apply Hwait].
  cbn [fst snd]. apply Hret.
  - eapply waited_trans; [exact Hw|]. constructor; [by constructor|done|done|cbn; unfold holds; cbn; congruence|].
    exists [x]. by rewrite Eio.
  - exists x. destruct (wt_io _ _ Hw) as [used ->]. rewrite Eio. set_solver.
Qed.
End lease.

(** ** A turn *)

(** The suspension an event leaves the session in; [p0] before the turn. *)
Definition pending_after (ev : event) (p0 : pending) : pending :=
  match ev_kind ev with
  | EventFunctionCall =>
    match ev_funcall ev with
    | Some fc => Pending pendingCall (fc_callid fc) (fc_name fc) None (fc_eager fc)
    | None => p0
    end
  | EventOsCall =>
    match ev_oscall ev with
    | Some oc => Pending pendingCall (oc_callid oc) (go (op_name (oc_op oc))) (Some oc) false
    | None => p0
    end
  | EventNameLookup =>
    match ev_namelookup ev with
    | Some nl => Pending pendingLookup 0 (nl_name nl) None false
    | None => p0
    end
  | EventResolveFutures => Pending pendingFutures 0 [] None false
  | EventComplete => no_pending
  | _ => p0
  end.

(** The events a turn returns; their payload is there. *)
Definition returned (ev : event) : Prop :=
  kind_ok ev /\ (IsSuspension ev = true \/ ev_kind ev ∈ [EventComplete; EventOk; EventDumpResult]).

(** An error of the program in the sandbox: the session goes on. *)
Definition survives (e : poolError) : bool :=
  negb (pe_workerlost e) && (bool_decide (pe_kind e = KindRuntime) || bool_decide (pe_kind e = KindTyping)).

Definition is_dump (req : request) : bool := match req with RDump => true | _ => false end.

Definition over_limit (b : sessionBudget) : bool := suspensionLimit b <? suspensionsSeen b.

(** The frames the transport delivers are not longer than memory. *)
Definition frame_fits (x : io) : Prop :=
  match x with IoRecv (inr raw) => len raw < 2 ^ 63 | _ => True end.

Section turn.
Context `{PW : Protowire} `{!ProtowireLaws PW} `{EN : Engine} {mounts : Type}.
Abbreviation world := (@world mounts).
Implicit Types w : world.

(** In the middle of a turn that began with suspension [p0] and script [io0]. *)
Record in_turn (p0 : pending) (io0 : list io) w : Prop := InTurn {
  it_pending : co_pending (w_co w) = p0;
  it_cancelled : co_cancelled (w_co w) = false;
  it_open : holds w = true -> observer_open w;
  it_held : holds w = false -> Exists is_terminated io0;
  it_io : exists used, io0 = used ++ w_io w;
  it_fits : Forall frame_fits io0 }.

Lemma in_turn_waited p0 io0 w w' : in_turn p0 io0 w -> waited w w' -> in_turn p0 io0 w'.
Proof.
  intros [Hp Hc Ho Hh [u Hu] Hf] [[] Ha Hobs Hb [v Hv]]. constructor; [..|done].
  - congruence.
  - congruence.
  - intros E. unfold observer_open. rewrite Hobs by done. by apply Ho, Ha.
  - intros E. destruct (holds w) eqn:Ew; [|auto]. rewrite Hu, Exists_app. right. auto.
  - exists (u ++ v). by rewrite Hu, Hv, app_assoc.
Qed.

(** The session goes on, unless another goroutine has ended it. *)
Definition alive (io0 : list io) w : Prop :=
  co_cancelled (w_co w) = false /\ (holds w = true -> observer_open w)
  /\ (holds w = false -> Exists is_terminated io0).

(** What holds when a turn returns an event, and when it fails. *)
Definition ret_ok (p0 : pending) (io0 : list io) (ev : event) w : Prop :=
  returned ev /\ co_pending (w_co w) = pending_after ev p0 /\ co_inflight (w_co w) = false
  /\ co_abort (w_co w) = false /\ alive io0 w
  /\ (IsSuspension ev = true -> over_limit (co_budget (w_co w)) = false).

Definition fail_ok (p0 : pending) (io0 : list io) (req : request) (e : poolError) w : Prop :=
  pe_presend e = false /\ co_inflight (w_co w) = false
  /\ if survives e
     then co_pending (w_co w) = (if is_dump req && bool_decide (pe_kind e = KindRuntime)
                                 then p0 else no_pending)
          /\ alive io0 w
     else co_pending (w_co w) = no_pending /\ holds w = false.

Definition turn_post (p0 : pending) (io0 : list io) (req : request) : post event :=
  Post (ret_ok p0 io0) (fail_ok p0 io0 req) (fun _ => True) (fun _ => False).

Lemma wp_refuse {A} message (Q : post A) w :
  (forall w', discarded w w' -> on_fail Q (protocolError message) w') -> wp (refuse message) Q w.
Proof. intros H. unfold refuse. wp_step. apply wp_discard. intros w' Hd. wp_step. auto. Qed.

(** The engine kills and waits for a worker that does not exit by itself. *)
Lemma wp_reap (Q : post Status) w :
  (forall st w', waited w w' -> on_ret Q st w') -> (forall w', waited w w' -> on_wait Q w') -> wp reap Q w.
Proof.
  intros Hr Hw. unfold reap. destruct websocket; [apply wp_ret, Hr, waited_refl|].
  wp_step. apply wp_ask; [|auto]. intros [st ok] w1 H1 _. cbn [andthen on_ret]. destruct ok; [wp_step; auto|].
  do 4 wp_step. wp_step. apply wp_ask; cbn [on_ret on_wait andthen].
  - intros [st' ok'] w2 H2 _. wp_step. apply Hr. eapply waited_trans; [exact H1|].
    destruct H2 as [[] Ha Hb Hc Hd]. by constructor; [constructor|..].
  - intros w2 H2. apply Hw. eapply waited_trans; [exact H1|].
    destruct H2 as [[] Ha Hb Hc Hd]. by constructor; [constructor|..].
Qed.

(** A failure that ended the session. *)
Lemma fail_gone p0 io0 req e w :
  pe_presend e = false -> survives e = false -> co_inflight (w_co w) = false ->
  co_pending (w_co w) = no_pending -> holds w = false -> fail_ok p0 io0 req e w.
Proof. intros. unfold fail_ok. rewrite H0. done. Qed.

(** A failure of the sandboxed program only. *)
Lemma fail_lives p0 io0 req e w :
  pe_presend e = false -> survives e = true -> co_inflight (w_co w) = false ->
  co_pending (w_co w) = (if is_dump req && bool_decide (pe_kind e = KindRuntime) then p0 else no_pending) ->
  alive io0 w -> fail_ok p0 io0 req e w.
Proof. intros. unfold fail_ok. rewrite H0. done. Qed.

Lemma wp_poison doing p0 io0 req w : wp (poison doing) (turn_post p0 io0 req) w.
Proof.
  unfold poison. destruct websocket.
  - wp_step. apply wp_discard. intros w1 [].
    cbn [andthen on_ret]. wp_step. apply wp_ask; [|done]. intros cl w2 [[] Hh _ _ _] _. cbn [andthen on_ret].
    destruct (default (0, []) cl) as [code reason]. wp_step.
    apply fail_gone; [done|done|congruence..|]. destruct (holds w2); [by rewrite Hh in dc_holds0|done].
  - wp_step. apply wp_reap; [|done]. intros st w1 _. cbn [andthen on_ret].
    destruct (st_exited st && _); wp_step; apply wp_discard; intros w2 []; wp_step; by apply fail_gone.
Qed.

Lemma wp_ioFailure f doing dl p0 io0 req w : wp (ioFailure f doing dl) (turn_post p0 io0 req) w.
Proof.
  unfold ioFailure, poisonTimeout. destruct f as [| |n m|]; [..|by apply wp_poison];
    wp_step; apply wp_discard; intros w1 []; cbn [andthen on_ret]; repeat wp_step; by apply fail_gone.
Qed.

Lemma wp_refused {A} message p0 io0 req R w :
  wp (A:=A) (refuse message) (Post R (fail_ok p0 io0 req) (fun _ => True) (fun _ => False)) w.
Proof. apply wp_refuse. intros w1 []. by apply fail_gone. Qed.

(** When the loop dispatches an event. *)
Definition dispatchable (ev : event) w : Prop :=
  co_abort (w_co w) = false
  /\ (broken_oscall ev = true
      \/ co_inflight (w_co w) = false
         /\ (IsSuspension ev = true -> over_limit (co_budget (w_co w)) = false)).

(** An event that is returned. *)
Lemma ret_case p0 io0 ev w w' :
  in_turn p0 io0 w -> dispatchable ev w -> broken_oscall ev = false -> returned ev ->
  w_co w' = set_pending (pending_after ev p0) (w_co w) \/ w_co w' = set_mounts None (set_pending (pending_after ev p0) (w_co w)) ->
  ret_ok p0 io0 ev w'.
Proof.
  intros [Hp Hc Ho Hh Hio _] [Hab [Hb|[Hfl Hlim]]] Hok Hret E; [congruence|].
  unfold ret_ok, alive, observer_open, holds in *. by destruct E as [->| ->].
Qed.

Lemma broken_is_oscall ev : broken_oscall ev = true -> ev_kind ev = EventOsCall.
Proof. unfold broken_oscall. by destruct (ev_kind ev). Qed.

Lemma wp_dispatch ev req p0 io0 w :
  in_turn p0 io0 w -> kind_ok ev -> dispatchable ev w -> wp (dispatch ev req) (turn_post p0 io0 req) w.
Proof.
  intros Hi Hk Hd. pose proof Hk as Hk'. unfold kind_ok in Hk'. pose proof Hi as [Hp Hc Ho Hh Hio _]. pose proof Hd as [Hab Hd'].
  pose proof (ret_case p0 io0 ev w) as Hret. unfold pending_after, returned, IsSuspension, broken_oscall in Hret, Hd'.
  unfold dispatch, turn_post. destruct (ev_kind ev) eqn:Ek; try (by apply wp_refused).
  - destruct (ev_funcall ev); [|done]. repeat wp_step. apply Hret; auto.
  - destruct (ev_oscall ev) as [oc|]; [|done].
    destruct (oc_op oc =? 0); [by apply wp_refused|].
    destruct (oc_payloaderr oc); [by apply wp_refused|]. repeat wp_step. apply Hret; auto.
  - destruct (ev_namelookup ev); [|done]. repeat wp_step. apply Hret; auto.
  - repeat wp_step. apply Hret; auto.
  - unfold drop_feed. do 2 wp_step. destruct (ev_hasvalue ev); [|by apply wp_refused].
    repeat wp_step. apply Hret; [done..|split; [done|set_solver]|auto].
  - destruct Hd' as [|[Hfl _]]; [done|].
    destruct (is_dump req) eqn:Er; destruct req; try done; unfold drop_feed; repeat wp_step;
      (destruct (ev_exception ev); [|by apply wp_refused]); wp_step; by apply fail_lives.
  - destruct Hd' as [|[Hfl _]]; [done|]. unfold drop_feed. repeat wp_step. apply fail_lives; try done.
    by rewrite andb_false_r.
  - repeat wp_step. apply Hret; [done..|split; [done|set_solver]|]. left. rewrite <- Hp. by destruct w as [[]].
  - repeat wp_step. apply Hret; [done..|split; [done|set_solver]|]. left. rewrite <- Hp. by destruct w as [[]].
  - wp_step. apply wp_reap; [|done]. intros st w1 _. wp_step. apply wp_discard. intros w2 [].
    wp_step. by apply fail_gone.
  - destruct websocket; [|by apply wp_refused]. cbn [negb]. wp_step. apply wp_discard. intros w2 [].
    wp_step. by apply fail_gone.
Qed.

Lemma in_turn_step p0 io0 w w' :
  in_turn p0 io0 w -> co_pending (w_co w') = co_pending (w_co w) ->
  co_lease (w_co w') = co_lease (w_co w) -> co_cancelled (w_co w') = co_cancelled (w_co w) ->
  co_obs (w_co w') = co_obs (w_co w) -> w_io w' = w_io w -> in_turn p0 io0 w'.
Proof.
  intros [Hp Hc Ho Hh Hio Hf] E1 E2 E3 E4 E5. unfold holds, observer_open in *.
  by constructor; unfold holds, observer_open; rewrite ?E1, ?E2, ?E3, ?E4, ?E5.
Qed.

Lemma wp_print_segments segs (Q : post ()) w :
  (forall w', w_co w' = w_co w -> w_io w' = w_io w -> on_ret Q () w') -> wp (print_segments segs) Q w.
Proof.
  revert w. induction segs as [|g segs IH]; intros w HQ; cbn [print_segments]; wp_step; [by apply HQ|].
  wp_step. apply IH. intros w' E1 E2. by apply HQ.
Qed.

Lemma wp_send_frame req payload (Q : post (option io_failure)) w :
  (forall r w', waited w w' -> on_ret Q r w') -> (forall w', waited w w' -> on_wait Q w') ->
  wp (send_frame req payload) Q w.
Proof.
  intros Hr Hw. unfold send_frame. wp_step. apply wp_ask; [|auto]. intros [f|] w1 H1 _; repeat wp_step; [auto|].
  apply Hr. destruct H1 as [[] ? ? ? ?]. by constructor; [constructor|..].
Qed.

Lemma received_kind_ok p0 io0 w raw ev bg :
  in_turn p0 io0 w -> (exists x, x ∈ w_io w /\ match x with IoRecv r => Some r | _ => None end = Some (inr raw)) ->
  DecodeEvent raw = Ok (ev, bg) -> kind_ok ev.
Proof.
  intros [_ _ _ _ [u ->] Hf] (x & Hx & E) Hd. destruct x; simplify_eq/=.
  apply Forall_app in Hf as [_ Hf]. rewrite Forall_forall in Hf. specialize (Hf _ Hx).
  by apply event_decoded in Hd as (_ & Hk & _).
Qed.

Lemma wp_turn_loop fuel req onPrint dl p0 io0 : forall w,
  in_turn p0 io0 w -> wp (turn_loop fuel req onPrint dl) (turn_post p0 io0 req) w.
Proof.
  induction fuel as [|fuel IH]; intros w Hi; cbn [turn_loop]; [done|].
  wp_step. apply wp_ask; [|done]. intros [f|raw] w1 H1 Hx; cbn [andthen on_ret]; [apply wp_ioFailure|].
  pose proof (in_turn_waited _ _ _ _ Hi H1) as Hi1.
  destruct (DecodeEvent raw) as [[ev bg]|e] eqn:Ed; [|by apply wp_refused].
  pose proof (received_kind_ok _ _ _ _ _ _ Hi Hx Ed) as Hk. do 2 wp_step.
  case_bool_decide as Ep.
  { wp_step. destruct onPrint; [apply wp_print_segments; intros w2 E1 E2|wp_step];
      apply IH; (eapply in_turn_step; [exact Hi1|..]); cbn in *; congruence. }
  do 2 wp_step. do 2 wp_step.
  destruct (co_abort _) eqn:Eab.
  - do 2 wp_step. destruct (answers_abort (ev_kind ev)) eqn:Ea; [|by apply wp_refused]. cbn [negb].
    do 2 wp_step. apply wp_dispatch; [by eapply in_turn_step|done|].
    split; [done|]. right. split; [done|]. unfold IsSuspension. by destruct (ev_kind ev).
  - destruct (IsSuspension ev && _) eqn:El.
    + destruct (broken_oscall ev) eqn:Eb.
      { apply wp_dispatch; [by eapply in_turn_step|done|]. split; [done|]. by left. }
      wp_step. apply wp_send_frame; [|done]. intros [f|] w2 H2; cbn [andthen on_ret]; [apply wp_ioFailure|].
      do 2 wp_step. apply IH. eapply (in_turn_step _ _ w2); [|done..].
      eapply in_turn_waited; [|exact H2]. by eapply in_turn_step.
    + do 2 wp_step. apply wp_dispatch; [by eapply in_turn_step|done|].
      split; [done|]. right. split; [done|]. cbn. intros Hs. by rewrite Hs in El.
Qed.

(** A checkout an operation may start a turn on. *)
Record ready w : Prop := Ready {
  rd_inflight : co_inflight (w_co w) = false;
  rd_cancelled : co_cancelled (w_co w) = false;
  rd_holds : holds w = true;
  rd_open : observer_open w }.

Lemma wp_ensureReady (Q : post ()) w : ready w -> on_ret Q () w -> wp ensureReady Q w.
Proof.
  intros [Hf Hc Hh _] HQ. unfold ensureReady. do 2 wp_step.
  unfold holds in Hh. rewrite Hc, Hh, Hf. cbn [negb]. by wp_step.
Qed.

(** What acquiring the observer changes, and what releasing it may change. *)
Definition acquired w : world :=
  World (set_obs ((fun l => Life (users l + 1) (closing l) (closed l)) <$> co_obs (w_co w)) (w_co w))
    (w_io w) (w_trace w).

Lemma wp_observer_acquire (Q : post bool) w :
  observer_open w -> on_ret Q true (acquired w) -> wp observer_acquire Q w.
Proof.
  unfold observer_open, wp, sat, acquired. destruct w as [[l p m b i cc cw ab st [o|] mt] io0 tr]; cbn.
  - intros Ho. destruct o as [u cl cd]. cbn in Ho. subst cl. run_engine. done.
  - intros _. run_engine. done.
Qed.

Lemma release_spec w : exists o tr,
  (observer_release w).2 = World (set_obs o (w_co w)) (w_io w) (w_trace w ++ tr)
  /\ closing <$> o = closing <$> co_obs (w_co w) /\ (observer_open w -> tr = []).
Proof.
  unfold observer_open. destruct w as [[l p m b i cc cw ab st [o|] mt] io0 tr]; run_engine.
  - destruct (closing o) eqn:Ec; cbn; [destruct ((users o - 1 =? 0) && negb (closed o))|]; run_engine;
      [exists (Some (Life (users o - 1) true true)), [AObserverClosed]; done|..];
      eexists _, []; rewrite app_nil_r; (split_and!; [done|done|done]).
  - exists None, []. rewrite app_nil_r. auto.
Qed.

(** Releasing the observer changes nothing a turn promises. *)
Lemma release_alive io0 w : alive io0 w -> alive io0 (observer_release w).2.
Proof.
  intros (Hc & Ho & Hh). destruct (release_spec w) as (o & tr & -> & E & _).
  unfold alive, holds, observer_open in *. cbn. split_and!; auto. intros H. specialize (Ho H).
  destruct o, (co_obs (w_co w)); cbn in *; simplify_eq; congruence.
Qed.

Lemma release_acquired w : observer_open w -> (observer_release (acquired w)).2 = w.
Proof.
  unfold observer_open, acquired. destruct w as [[l p m b i cc cw ab st [[u cl cd]|] mt] io0 tr]; cbn; [|done].
  intros ->. run_engine. by rewrite Z.add_simpl_r.
Qed.

(** What a turn guarantees to the operation that runs it. *)
Definition turn_spec (req : request) w : post event :=
  Post (ret_ok (co_pending (w_co w)) (w_io w))
    (fun e w' => (exists ty m, e = runtimeError ty m) /\ w' = w
                 \/ fail_ok (co_pending (w_co w)) (w_io w) req e w')
    (fun _ => True) (fun _ => no_nil req = false).

Lemma wp_turn req control onPrint w :
  ready w -> Forall frame_fits (w_io w) -> wp (turn req control onPrint) (turn_spec req w) w.
Proof.
  intros Hr Hf. pose proof Hr as [_ _ Hh Ho]. unfold turn. wp_step. apply wp_ensureReady; [done|].
  wp_step. apply wp_observer_acquire; [done|]. cbn [andthen on_ret negb]. wp_step.
  unfold turn_body. destruct (existsb _ _); [wp_step; left; rewrite release_acquired by done; eauto|].
  destruct (EncodeRequest req []) as [payload|[]] eqn:Ee;
    try (wp_step; left; rewrite release_acquired by done; eauto);
    [|destruct (no_nil req) eqn:En; [by pose proof (request_converts req [] En) as Hc; rewrite Ee in Hc|done]].
  destruct (MaxFrameLen <? len payload); [wp_step; left; rewrite release_acquired by done; eauto|].
  do 2 wp_step. destruct (deadline _ _ _ _ _) as [dl ?]. do 2 wp_step.
  eapply wp_mono with (Q := turn_post (co_pending (w_co w)) (w_io w) req); [|cbn|cbn|done|done].
  - wp_step. apply wp_send_frame; [|done]. intros [f|] w1 H1; cbn [andthen on_ret]; [apply wp_ioFailure|].
    do 2 wp_step. unfold receive. apply wp_turn_loop.
    eapply (in_turn_step _ _ w1); [|done..]. eapply in_turn_waited; [|exact H1].
    constructor; [done|apply Hr| | |by exists []|done]; unfold holds, observer_open in *; cbn; [|congruence].
    intros _. destruct (co_obs (w_co w)) as [[]|]; [done|done].
  - intros ev w1 (H1 & H2 & H3 & H4 & H5%release_alive & H6).
    destruct (release_spec w1) as (o & tr & E & _). rewrite E in *. by unfold ret_ok.
  - intros e w1 (H1 & H2 & H3). right. unfold fail_ok. split; [done|].
    destruct (survives e); [destruct H3 as [H3 H4%release_alive]|];
      destruct (release_spec w1) as (o & tr & E & _); rewrite E in *; done.
Qed.

(** The rule for operations: [turn] fails before it sends, or ends as above. *)
Lemma wp_turn_rule req control onPrint (Q : post event) w :
  ready w -> Forall frame_fits (w_io w) -> no_nil req = true ->
  (forall ev w', ret_ok (co_pending (w_co w)) (w_io w) ev w' -> on_ret Q ev w') ->
  (forall ty m, on_fail Q (runtimeError ty m) w) ->
  (forall e w', fail_ok (co_pending (w_co w)) (w_io w) req e w' -> on_fail Q e w') ->
  (forall w', on_wait Q w') -> wp (turn req control onPrint) Q w.
Proof.
  intros Hr Hf Hn Hret Hpre Hfail Hw. eapply wp_mono; [by apply wp_turn|cbn..]; auto; [|congruence].
  intros e w' [((ty & m & ->) & ->)|H]; auto.
Qed.
End turn.
