(* ===== verification/CheckoutStream.v ===== *)
(** A turn that goes through: one request out, output streamed as it comes, and
    the first event that is not output handed to the caller. *)

From S2P Require Import Prelude Utf8 GoStrings VPath Protowire Proto Values ValueCodec Repr.
From S2P Require Import Exceptions Events EventFacts Requests PoolErrors Budget Pool Lease Checkout CheckoutFacts.

Section stream.
Context `{PW : Protowire} `{EN : Engine} {mounts : Type}.
Abbreviation world := (@world mounts).
Implicit Types w : world.

(** Events the engine hands on: the payload is there and usable. *)
Definition deliverable (ev : event) : Prop :=
  returned ev /\ broken_oscall ev = false
  /\ (ev_kind ev = EventComplete -> ev_hasvalue ev = true).

(** [raws] are frames of print events, with their segments. *)
Definition decodes_to (raw : bytes) (ev : event) : Prop := exists bg, DecodeEvent raw = Ok (ev, bg).
Definition prints (raws : list bytes) (evs : list event) : Prop :=
  Forall2 (fun raw ev => decodes_to raw ev /\ ev_kind ev = EventPrint) raws evs.

(** What a print event does, given whether the caller listens. *)
Definition echo (onPrint : bool) (ev : event) : list action :=
  AReceived ev :: if onPrint then map APrint (ev_print ev) else [].

Lemma ask_now {A} (pick : io -> option A) x a rest w :
  w_io w = x :: rest -> pick x = Some a -> ~ is_terminated x ->
  ask pick w = (Ret a, World (w_co w) rest (w_trace w)).
Proof.
  intros E Hp Hn. unfold ask. rewrite E. cbn [length interrupts]. rewrite E.
  destruct x; try (by destruct Hn); cbn [w_io w_co w_trace]; by rewrite E, Hp.
Qed.

Lemma print_segments_run segs w :
  print_segments segs w = (Ret (), World (w_co w) (w_io w) (w_trace w ++ map APrint segs)).
Proof.
  revert w. induction segs as [|g segs IH]; intros w; cbn [print_segments map].
  - rewrite app_nil_r. by destruct w.
  - unfold mbind, M_bind, act. cbn. rewrite IH. cbn. by rewrite <- app_assoc.
Qed.

Lemma loop_print fuel req onPrint dl raw ev rest w :
  w_io w = IoRecv (inr raw) :: rest -> decodes_to raw ev -> ev_kind ev = EventPrint ->
  turn_loop (S fuel) req onPrint dl w
  = turn_loop fuel req onPrint dl (World (w_co w) rest (w_trace w ++ echo onPrint ev)).
Proof.
  intros Eio [bg Ed] Ek. cbn [turn_loop]. unfold ask_recv. unfold mbind, M_bind.
  rewrite (ask_now _ _ (inr raw) rest w Eio eq_refl) by auto. rewrite Ed. cbn [act fst snd].
  unfold act. cbn [w_co w_io w_trace]. rewrite bool_decide_eq_true_2 by done.
  destruct onPrint; [rewrite print_segments_run|]; cbn [w_co w_io w_trace mret M_ret echo].
  - by rewrite <- app_assoc.
  - done.
Qed.

Lemma loop_prints raws evs fuel req onPrint dl rest w :
  prints raws evs -> w_io w = map (fun r => IoRecv (inr r)) raws ++ rest ->
  turn_loop (length raws + fuel) req onPrint dl w
  = turn_loop fuel req onPrint dl (World (w_co w) rest (w_trace w ++ flat_map (echo onPrint) evs)).
Proof.
  intros H. revert w. induction H as [|raw ev raws evs [Hd Hk] _ IH]; intros w Eio.
  - cbn in *. rewrite app_nil_r, <- Eio. by destruct w.
  - cbn [length Nat.add map app] in *. rewrite (loop_print _ _ _ _ _ _ _ _ Eio Hd Hk), IH by done.
    cbn [w_co w_trace flat_map]. by rewrite <- app_assoc.
Qed.

(** The budget and the suspension after a delivered event. *)
Definition delivered (ev : event) (c : checkout (mounts := mounts)) : checkout :=
  let c := set_inflight false (set_budget (observe ev (co_budget c)) c) in
  let c := set_pending (pending_after ev (co_pending c)) c in
  if bool_decide (ev_kind ev = EventComplete) then set_mounts None c else c.

Lemma dispatch_delivers ev req w :
  deliverable ev ->
  dispatch ev req w
  = (Ret ev, World (let c := set_pending (pending_after ev (co_pending (w_co w))) (w_co w) in
                    if bool_decide (ev_kind ev = EventComplete) then set_mounts None c else c)
               (w_io w) (w_trace w)).
Proof.
  intros ([Hk Hr] & Hb & Hc). unfold dispatch, pending_after, broken_oscall, kind_ok, IsSuspension in *.
  destruct w as [c io0 tr].
  destruct (ev_kind ev) eqn:E; try (destruct Hk as [x Hx]; rewrite Hx in * ); try done.
  all: unfold drop_feed, mbind, M_bind, modify, mret, M_ret; cbn [w_co w_io w_trace].
  all: try reflexivity.
  all: try (by exfalso; destruct Hr; [done|set_solver]).
  - apply orb_false_iff in Hb as [Hb1 Hb2]. rewrite Hb1. apply bool_decide_eq_false in Hb2.
    destruct (oc_payloaderr x); [by destruct Hb2|done].
  - by rewrite Hc.
  - by destruct c.
  - by destruct c.
Qed.

Lemma loop_delivers fuel req onPrint dl raw ev rest w :
  w_io w = IoRecv (inr raw) :: rest -> decodes_to raw ev -> deliverable ev -> co_abort (w_co w) = false ->
  (IsSuspension ev = true -> over_limit (observe ev (co_budget (w_co w))) = false) ->
  turn_loop (S fuel) req onPrint dl w
  = (Ret ev, World (delivered ev (w_co w)) rest (w_trace w ++ [AReceived ev])).
Proof.
  intros Eio [bg Ed] Hdv Hab Hlim. cbn [turn_loop]. unfold ask_recv. unfold mbind, M_bind.
  rewrite (ask_now _ _ (inr raw) rest w Eio eq_refl) by auto. rewrite Ed.
  unfold act. cbn [w_co w_io w_trace].
  assert (ev_kind ev <> EventPrint) as Hk.
  { destruct Hdv as ([_ Hr] & _). unfold IsSuspension in Hr. intros E. rewrite E in Hr. destruct Hr; [done|set_solver]. }
  rewrite bool_decide_eq_false_2 by done. unfold modify, get_co. cbn [w_co w_io w_trace].
  change (co_abort (set_budget _ _)) with (co_abort (w_co w)). rewrite Hab.
  destruct (IsSuspension ev) eqn:Es.
  - specialize (Hlim eq_refl). unfold over_limit in Hlim. cbn [andb].
    change (co_budget (set_budget ?b _)) with b. rewrite Hlim. by rewrite dispatch_delivers.
  - cbn [andb]. by rewrite dispatch_delivers.
Qed.

Lemma ensureReady_run w : ready w -> ensureReady w = (Ret (), w).
Proof.
  intros [Hf Hc Hh _]. unfold ensureReady, mbind, M_bind, get_co. unfold holds in Hh. by rewrite Hc, Hh, Hf.
Qed.

Lemma acquire_run w : observer_open w -> observer_acquire w = (Ret true, acquired w).
Proof.
  unfold observer_open, acquired. destruct w as [[l p m b i cc cw ab st [[u cl cd]|] mt] io0 tr]; cbn; [|done].
  intros ->. by run_engine.
Qed.

Lemma body_streams req control onPrint payload raw ev raws evs rest w :
  co_abort (w_co w) = false -> existsb ExceedsMaxDepth (RequestValues req) = false ->
  EncodeRequest req [] = Ok payload -> len payload <= MaxFrameLen ->
  prints raws evs -> decodes_to raw ev -> deliverable ev ->
  (IsSuspension ev = true -> over_limit (observe ev (co_budget (w_co w))) = false) ->
  w_io w = IoSend None :: map (fun r => IoRecv (inr r)) raws ++ IoRecv (inr raw) :: rest ->
  turn_body req control onPrint w
  = (Ret ev, World (delivered ev (set_sent true (set_sent false (set_inflight true (w_co w))))) rest
               (w_trace w ++ ASent req payload :: flat_map (echo onPrint) evs ++ [AReceived ev])).
Proof.
  intros Hab Hdep Henc Hlen Hpr Hd Hdv Hlim Eio. unfold turn_body. rewrite Hdep, Henc.
  apply Z.ltb_ge in Hlen. rewrite Hlen. unfold mbind, M_bind, get_co, modify.
  destruct (deadline _ _ _ _ _) as [dl ?]. unfold send_frame, ask_send, mbind, M_bind.
  rewrite (ask_now _ (IoSend None) None (map (fun r => IoRecv (inr r)) raws ++ IoRecv (inr raw) :: rest)) by auto.
  unfold act, mret, M_ret. cbn [w_co w_io w_trace]. unfold receive. cbn [w_io]. rewrite length_app, length_map. cbn [length].
  rewrite (loop_prints raws evs _ _ _ _ (IoRecv (inr raw) :: rest)) by done. cbn [w_co w_io w_trace].
  rewrite (loop_delivers _ _ _ _ raw ev rest) by done. cbn [w_co w_trace]. by rewrite <- !app_assoc.
Qed.

(** C21. A turn streams: when the request goes out and the worker answers with
    any number of print events and then an event to hand on, within the
    suspension limit, the turn returns that event, having sent one frame and
    passed every print segment to the caller in order, and leaves the rest of
    the worker's answers unread. *)
Theorem turn_streams (req : request) (control onPrint : bool) (payload raw : bytes) (ev : event)
    (raws : list bytes) (evs : list event) (rest : list io) (w : world) :
  ready w -> co_abort (w_co w) = false ->
  existsb ExceedsMaxDepth (RequestValues req) = false ->
  EncodeRequest req [] = Ok payload -> len payload <= MaxFrameLen ->
  prints raws evs -> decodes_to raw ev -> deliverable ev ->
  (IsSuspension ev = true -> over_limit (observe ev (co_budget (w_co w))) = false) ->
  w_io w = IoSend None :: map (fun r => IoRecv (inr r)) raws ++ IoRecv (inr raw) :: rest ->
  exists w', turn req control onPrint w = (Ret ev, w')
    /\ w_io w' = rest
    /\ w_trace w' = w_trace w ++ ASent req payload :: flat_map (echo onPrint) evs ++ [AReceived ev]
    /\ co_pending (w_co w') = pending_after ev (co_pending (w_co w))
    /\ co_budget (w_co w') = observe ev (co_budget (w_co w)).
Proof.
  intros Hr Hab Hdep Henc Hlen Hpr Hd Hdv Hlim Eio. unfold turn, mbind, M_bind.
  rewrite ensureReady_run, acquire_run by (done || apply Hr). cbn [negb]. unfold deferred.
  erewrite body_streams by done. destruct (release_spec (mounts := mounts)
    (World (delivered ev (set_sent true (set_sent false (set_inflight true (w_co (acquired w)))))) rest
       (w_trace w ++ ASent req payload :: flat_map (echo onPrint) evs ++ [AReceived ev])))
    as (o & tr & Erel & Hcl & Htr).
  rewrite Htr, app_nil_r in Erel.
  2: { unfold observer_open, delivered, acquired. cbn. destruct Hr as [_ _ _ Ho]. unfold observer_open in Ho.
       case_bool_decide; cbn; by destruct (co_obs (w_co w)) as [[]|]. }
  eexists. split; [reflexivity|]. change (w_trace (acquired w)) with (w_trace w). rewrite Erel. cbn [w_io w_trace w_co].
  split_and!; [done|done|..]; unfold delivered; case_bool_decide; done.
Qed.

(** ** Past the suspension limit *)

(** The request the engine sends to end a feed that suspends too often. *)
Definition limit_abort (b : sessionBudget) : request := RAbortFeed (Some (limit_exception (suspensionLimit b))).

Lemma loop_over_limit fuel req onPrint dl raw ev abort rest w :
  w_io w = IoRecv (inr raw) :: IoSend None :: rest -> decodes_to raw ev -> co_abort (w_co w) = false ->
  IsSuspension ev = true -> broken_oscall ev = false ->
  over_limit (observe ev (co_budget (w_co w))) = true ->
  EncodeRequest (limit_abort (observe ev (co_budget (w_co w)))) [] = Ok abort ->
  turn_loop (S fuel) req onPrint dl w
  = turn_loop fuel req onPrint dl
      (World (set_abort true (set_budget (observe ev (co_budget (w_co w))) (w_co w))) rest
         (w_trace w ++ [AReceived ev; ASent (limit_abort (observe ev (co_budget (w_co w)))) abort])).
Proof.
  intros Eio [bg Ed] Hab Hs Hb Hlim Henc. cbn [turn_loop]. unfold ask_recv. unfold mbind, M_bind.
  rewrite (ask_now _ _ (inr raw) _ w Eio eq_refl) by auto. rewrite Ed. unfold act. cbn [w_co w_io w_trace].
  assert (ev_kind ev <> EventPrint) as Hk by (unfold IsSuspension in Hs; by destruct (ev_kind ev)).
  rewrite bool_decide_eq_false_2 by done. unfold modify, get_co. cbn [w_co w_io w_trace].
  change (co_abort (set_budget _ _)) with (co_abort (w_co w)). rewrite Hab.
  change (co_budget (set_budget ?b _)) with b. unfold over_limit in Hlim. rewrite Hs, Hlim, Hb. cbn [andb].
  unfold send_frame, ask_send, mbind, M_bind.
  rewrite (ask_now _ (IoSend None) None rest) by auto. unfold act, mret, M_ret. cbn [w_co w_io w_trace].
  fold (limit_abort (observe ev (co_budget (w_co w)))). rewrite Henc. by rewrite <- app_assoc.
Qed.

Lemma loop_raises fuel req onPrint dl raw ev x rest w :
  w_io w = IoRecv (inr raw) :: rest -> decodes_to raw ev -> co_abort (w_co w) = true ->
  ev_kind ev = EventError -> ev_exception ev = Some x -> is_dump req = false ->
  exists w', turn_loop (S fuel) req onPrint dl w
    = (Fail (PoolError KindRuntime [] false unknown_status 0 (Some x) [] [] false 0 [] false false), w')
    /\ w_io w' = rest /\ w_trace w' = w_trace w ++ [AReceived ev] /\ co_pending (w_co w') = no_pending
    /\ co_lease (w_co w') = co_lease (w_co w) /\ co_obs (w_co w') = co_obs (w_co w)
    /\ co_inflight (w_co w') = false /\ co_abort (w_co w') = false.
Proof.
  intros Eio [bg Ed] Hab Hk Hx Hd. cbn [turn_loop]. unfold ask_recv. unfold mbind, M_bind.
  rewrite (ask_now _ _ (inr raw) _ w Eio eq_refl) by auto. rewrite Ed. unfold act. cbn [w_co w_io w_trace].
  rewrite bool_decide_eq_false_2 by (by rewrite Hk). unfold modify, get_co. cbn [w_co w_io w_trace].
  change (co_abort (set_budget _ _)) with (co_abort (w_co w)). rewrite Hab, Hk. cbn [answers_abort negb].
  unfold dispatch. rewrite Hk, Hx. unfold drop_feed, mbind, M_bind, modify, fail. cbn [w_co w_io w_trace].
  destruct req; try done; eexists; split_and!; reflexivity.
Qed.

(** C22. The suspension limit is enforced: when the worker suspends once too
    often, the turn does not hand the suspension on but tells the worker to abort
    the feed with "suspension limit N exceeded", and when the worker answers with
    the error, the turn fails with that error, the session being idle and kept. *)
Theorem turn_over_limit (req : request) (control onPrint : bool) (payload abort raw raw2 : bytes)
    (ev ev2 : event) (x : wexception) (rest : list io) (w : world) :
  ready w -> co_abort (w_co w) = false ->
  existsb ExceedsMaxDepth (RequestValues req) = false -> is_dump req = false ->
  EncodeRequest req [] = Ok payload -> len payload <= MaxFrameLen ->
  decodes_to raw ev -> IsSuspension ev = true -> broken_oscall ev = false ->
  over_limit (observe ev (co_budget (w_co w))) = true ->
  EncodeRequest (limit_abort (observe ev (co_budget (w_co w)))) [] = Ok abort ->
  decodes_to raw2 ev2 -> ev_kind ev2 = EventError -> ev_exception ev2 = Some x ->
  w_io w = IoSend None :: IoRecv (inr raw) :: IoSend None :: IoRecv (inr raw2) :: rest ->
  exists e w', turn req control onPrint w = (Fail e, w')
    /\ pe_kind e = KindRuntime /\ pe_exception e = Some x /\ w_io w' = rest
    /\ w_trace w' = w_trace w ++ [ASent req payload; AReceived ev;
                                  ASent (limit_abort (observe ev (co_budget (w_co w)))) abort; AReceived ev2]
    /\ holds w' = true /\ co_pending (w_co w') = no_pending /\ co_abort (w_co w') = false.
Proof.
  intros Hr Hab Hdep Hdump Henc Hlen Hd Hs Hb Hlim Henc2 Hd2 Hk2 Hx Eio. unfold turn, mbind, M_bind.
  rewrite ensureReady_run, acquire_run by (done || apply Hr). cbn [negb]. unfold deferred, turn_body.
  rewrite Hdep, Henc. apply Z.ltb_ge in Hlen. rewrite Hlen. unfold mbind, M_bind, get_co, modify.
  destruct (deadline _ _ _ _ _) as [dl ?]. unfold send_frame, ask_send, mbind, M_bind.
  rewrite (ask_now _ (IoSend None) None (IoRecv (inr raw) :: IoSend None :: IoRecv (inr raw2) :: rest)) by auto.
  unfold act, mret, M_ret. cbn [w_co w_io w_trace]. unfold receive. cbn [w_io length].
  rewrite (loop_over_limit _ _ _ _ raw ev abort (IoRecv (inr raw2) :: rest)) by done. cbn [w_co w_trace].
  edestruct (loop_raises (S (length rest)) req onPrint dl raw2 ev2 x rest) as (w1 & -> & E1 & E2 & E3 & E4 & E5 & E6 & E7);
    [reflexivity|done|reflexivity|done..|].
  destruct (release_spec w1) as (o & tr & Erel & Hcl & Htr).
  rewrite Htr, app_nil_r in Erel.
  2: { unfold observer_open, acquired in *. rewrite E5. cbn. destruct Hr as [_ _ _ Ho]. unfold observer_open in Ho.
       by destruct (co_obs (w_co w)) as [[]|]. }
  eexists _, _. split; [reflexivity|]. rewrite Erel. cbn [w_io w_trace w_co].
  split_and!; [done|done|done| | |done|done].
  - rewrite E2. cbn. by rewrite <- !app_assoc.
  - unfold holds. cbn. rewrite E4. apply Hr.
Qed.

(** ** The working directory of a session *)

Lemma turn_too_deep req control onPrint w :
  ready w -> existsb ExceedsMaxDepth (RequestValues req) = true ->
  turn req control onPrint w = (Fail (runtimeError (go "RuntimeError") (go "Max input depth exceeded")), w).
Proof.
  intros Hr Hd. unfold turn, mbind, M_bind. rewrite ensureReady_run, acquire_run by (done || apply Hr).
  cbn [negb]. unfold deferred, turn_body. rewrite Hd. unfold fail. by rewrite release_acquired by apply Hr.
Qed.

(** Where the first working directory is lost: a feed that is rejected
    before anything is sent (here, for an input nested too deeply) still marks
    the session's working directory as set when an earlier turn, such as the
    Configure that opened the session, has gone out; the feeds after it then send
    no working directory although the worker has never been given one. *)
Theorem rejected_feed_marks_cwd (code : bytes) (inputs : list (bytes * value)) (tbl : option mounts)
    (firstMount : bytes) (skip onPrint : bool) (w : world) :
  ready w -> co_pending (w_co w) = no_pending -> co_sent (w_co w) = true ->
  existsb ExceedsMaxDepth (map snd inputs) = true ->
  exists e w', Checkout_Feed code inputs tbl firstMount None skip onPrint w = (Fail e, w')
    /\ pe_presend e = true /\ w_trace w' = w_trace w /\ w_io w' = w_io w /\ co_cwdset (w_co w') = true.
Proof.
  intros Hr Hp Hs Hd. unfold Checkout_Feed. unfold mbind, M_bind. rewrite ensureReady_run by done.
  unfold get_co, pending_is. rewrite Hp. cbn [pd_kind no_pending]. rewrite bool_decide_eq_true_2 by done. cbn [negb].
  unfold mret, M_ret, modify, try. rewrite turn_too_deep; [|by destruct Hr; constructor|done].
  cbn -[bool_decide]. rewrite Hs. rewrite bool_decide_eq_false_2 by done. cbn.
  eexists _, _. split_and!; reflexivity.
Qed.
End stream.

(** ** A concrete conversation *)

Definition demo_engine : Engine := {|
  IsPrint := fun _ => true;
  parse_error_text := fun _ => [];
  cfg := TurnConfig 0 0 true [] 1;
  websocket := true |}.

(** A mount table that handles nothing. *)
Definition demo_mounts : MountTable () := fun m _ => (false, VNil, None, m).

Definition demo_world (script : list io) : world (mounts := ()) :=
  World (set_budget (SessionBudget None 0 10 0) (newCheckout (Slot 7 0 None) true)) script [].

(** The frame of [print("hi")]. *)
Definition sample_print : bytes :=
  appendMessage (PW := pwref) [] 1
    (appendMessage (PW := pwref) [] 3 (appendStringField (PW := pwref) [] 2 (go "hi"))).

Definition event_of (raw : bytes) : event :=
  match DecodeEvent (PW := pwref) raw with Ok (ev, _) => ev | Err _ => new_event end.

Definition demo_request : request := RFeed (Feed (go "f(7)") [] false (go "/")).

Lemma turn_streams_witness :
  exists w', turn (PW := pwref) (EN := demo_engine) demo_request false true
    (demo_world [IoSend None; IoRecv (inr sample_print); IoRecv (inr sample_event)])
  = (Ret (event_of sample_event), w')
    /\ List.filter (fun a => match a with APrint _ => true | _ => false end) (w_trace w')
       = [APrint (PrintSegment 1 (go "hi"))].
Proof.
  destruct (EncodeRequest (PW := pwref) demo_request []) as [payload|] eqn:Ee;
    [|exfalso; vm_compute in Ee; discriminate].
  destruct (turn_streams (PW := pwref) (EN := demo_engine) demo_request false true payload sample_event
    (event_of sample_event) [sample_print] [event_of sample_print] []
    (demo_world [IoSend None; IoRecv (inr sample_print); IoRecv (inr sample_event)]))
    as (w' & E & _ & Htr & _).
  - by constructor.
  - reflexivity.
  - reflexivity.
  - exact Ee.
  - vm_compute in Ee. injection Ee as <-. vm_compute. discriminate.
  - constructor; [|constructor]. split; [eexists; vm_compute; reflexivity|vm_compute; reflexivity].
  - eexists; vm_compute; reflexivity.
  - split; [|split]; [|vm_compute; reflexivity|vm_compute; discriminate].
    split; [vm_compute; eexists; reflexivity|left; vm_compute; reflexivity].
  - intros _. vm_compute. reflexivity.
  - reflexivity.
  - exists w'. split; [exact E|]. rewrite Htr. vm_compute. reflexivity.
Defined.

(** The frame of an error event. *)
Definition sample_error : bytes :=
  appendMessage (PW := pwref) [] 7 (appendMessage (PW := pwref) [] 1
    (appendExceptionBody (PW := pwref) [] (NewException (go "RuntimeError") (go "suspension limit 0 exceeded")))).

Definition demo_limited (script : list io) : world (mounts := ()) :=
  World (set_budget (SessionBudget None 0 0 0) (newCheckout (Slot 7 0 None) true)) script [].

Lemma turn_over_limit_witness :
  let w := demo_limited [IoSend None; IoRecv (inr sample_event); IoSend None; IoRecv (inr sample_error)] in
  exists e w', turn (PW := pwref) (EN := demo_engine) demo_request false true w = (Fail e, w')
    /\ pe_kind e = KindRuntime /\ holds w' = true.
Proof.
  cbv zeta.
  destruct (EncodeRequest (PW := pwref) demo_request []) as [payload|] eqn:Ee;
    [|exfalso; vm_compute in Ee; discriminate].
  destruct (EncodeRequest (PW := pwref) (limit_abort (SessionBudget None 0 0 1)) []) as [abort|] eqn:Ea;
    [|exfalso; vm_compute in Ea; discriminate].
  destruct (ev_exception (event_of sample_error)) as [x|] eqn:Ex; [|exfalso; vm_compute in Ex; discriminate].
  destruct (turn_over_limit (PW := pwref) (EN := demo_engine) demo_request false true payload abort sample_event
    sample_error (event_of sample_event) (event_of sample_error) x []
    (demo_limited [IoSend None; IoRecv (inr sample_event); IoSend None; IoRecv (inr sample_error)]))
    as (e & w' & E & Hk & _ & _ & _ & Hh & _).
  - by constructor.
  - reflexivity.
  - reflexivity.
  - reflexivity.
  - exact Ee.
  - vm_compute in Ee. injection Ee as <-. vm_compute. discriminate.
  - eexists; vm_compute; reflexivity.
  - vm_compute; reflexivity.
  - vm_compute; reflexivity.
  - vm_compute; reflexivity.
  - exact Ea.
  - eexists; vm_compute; reflexivity.
  - vm_compute; reflexivity.
  - exact Ex.
  - reflexivity.
  - exists e, w'. split; [exact E|]. split; [exact Hk|exact Hh].
Defined.

(** A list nested 300 deep. *)
Definition demo_deep : value := Nat.iter 300 (fun v => VList [v]) VNil.

Lemma rejected_feed_marks_cwd_witness :
  let w := World (set_sent true (newCheckout (mounts := ()) (Slot 7 0 None) true)) [] [] in
  exists e w', Checkout_Feed (PW := pwref) (EN := demo_engine) (go "x") [(go "x", demo_deep)] None [] None false true w
    = (Fail e, w') /\ co_cwdset (w_co w) = false /\ co_cwdset (w_co w') = true.
Proof.
  cbv zeta. destruct (rejected_feed_marks_cwd (PW := pwref) (EN := demo_engine) (go "x") [(go "x", demo_deep)] None []
    false true (World (set_sent true (newCheckout (mounts := ()) (Slot 7 0 None) true)) [] []))
    as (e & w' & E & _ & _ & _ & Hc).
  - by constructor.
  - reflexivity.
  - reflexivity.
  - vm_compute. reflexivity.
  - exists e, w'. split; [exact E|]. split; [reflexivity|exact Hc].
Defined.
