(* ===== verification/CheckoutOps.v ===== *)
(** The session a checkout offers its caller: an abstract machine with three
    kinds of state, and the proof that every operation of Checkout.v refines it,
    whatever the worker answers and whoever ends the session meanwhile. *)

From S2P Require Import Prelude Utf8 GoStrings VPath Protowire Proto Values ValueCodec Repr CodecSpec CodecRoundtrip CodecSound.
From S2P Require Import Exceptions Events EventFacts Requests PoolErrors Budget Pool Lease Checkout CheckoutFacts CheckoutStream.

(** ** The abstract session *)

Inductive session := Idle | Suspended (p : pending) | Gone.

Inductive operation (mounts : Type) :=
| OpFeed (code : bytes) (inputs : list (bytes * value)) (tbl : option mounts) (firstMount : bytes)
    (cwd : option bytes) (skipTypeCheck onPrint : bool)
| OpResume (result : extresult) (onPrint : bool)
| OpLookup (kind : Z) (v : value) (e : option wexception) (onPrint : bool)
| OpFutures (results : list (Z * extresult)) (onPrint : bool)
| OpMounts (onPrint : bool)
| OpDump
| OpRestore (state : bytes) (tbl : option mounts) (onPrint : bool)
| OpInstall (requirements : list bytes)
| OpAbort (exc : option wexception) (onPrint : bool)
| OpHandoff
| OpFinish
| OpTerminate (cause : option goerror) (reason : string).
Arguments OpFeed {mounts}.
Arguments OpResume {mounts}.
Arguments OpLookup {mounts}.
Arguments OpFutures {mounts}.
Arguments OpMounts {mounts}.
Arguments OpDump {mounts}.
Arguments OpRestore {mounts}.
Arguments OpInstall {mounts}.
Arguments OpAbort {mounts}.
Arguments OpHandoff {mounts}.
Arguments OpFinish {mounts}.
Arguments OpTerminate {mounts}.

(** What an operation tells its caller: an event, or that it is done. *)
Abbreviation answer := (option event).

(** Whether the session accepts an operation. *)
Definition accepts `{EN : Engine} {mounts} (s : session) (op : operation mounts) : bool :=
  match op, s with
  | (OpFinish | OpTerminate _ _), _ => true
  | _, Gone => false
  | (OpDump | OpRestore _ _ _), _ => true
  | (OpFeed _ _ _ _ _ _ _ | OpInstall _), Idle => true
  | OpHandoff, Idle => websocket
  | OpAbort _ _, Suspended _ => true
  | OpResume r _, Suspended p =>
    bool_decide (pd_kind p = pendingCall)
    && negb ((er_kind r =? ExtNotHandled) && bool_decide (pd_os p = None))
  | OpMounts _, Suspended p => bool_decide (pd_kind p = pendingCall) && bool_decide (is_Some (pd_os p))
  | OpLookup _ _ _ _, Suspended p => bool_decide (pd_kind p = pendingLookup)
  | OpFutures rs _, Suspended p =>
    (bool_decide (pd_kind p = pendingFutures)
     || bool_decide (pd_kind p = pendingCall) && pd_eager p
        && match rs with [(id, _)] => id =? pd_callid p | _ => false end)
    && bool_decide (unresolved rs = None)
  | _, _ => false
  end.

(** The session after an event has been returned. *)
Definition after (ev : event) (s : session) : session :=
  if IsSuspension ev then Suspended (pending_after ev no_pending)
  else if bool_decide (ev_kind ev = EventComplete) then Idle else s.

(** The session after an answer. *)
Definition answered {mounts} (s : session) (op : operation mounts) (a : answer) : session :=
  match op, a with
  | (OpHandoff | OpTerminate _ _), _ => Gone
  | OpRestore _ _ _, None => Idle
  | _, Some ev => after ev s
  | _, None => s
  end.

(** The session after an operation that the engine refused before sending
    anything: [Abort] and [Restore] have dropped the suspension by then. *)
Definition unsent {mounts} (op : operation mounts) (s : session) : session :=
  match op with OpAbort _ _ | OpRestore _ _ _ => Idle | _ => s end.

(** The session after an error of the sandboxed program. *)
Definition raised {mounts} (op : operation mounts) (e : poolError) (s : session) : session :=
  match op with
  | OpDump => if bool_decide (pe_kind e = KindRuntime) then s else Idle
  | _ => Idle
  end.

(** What an operation may answer, and where the session is then. *)
Inductive allowed `{EN : Engine} {mounts} (s : session) (op : operation mounts)
    : outcome answer -> session -> Prop :=
| al_gone e : s = Gone -> accepts s op = false -> pe_kind e ∈ [KindFinished; KindCancelled] ->
    allowed s op (Fail e) Gone
| al_refused e : s <> Gone -> accepts s op = false -> pe_kind e = KindProtocol -> allowed s op (Fail e) s
| al_unsent e : accepts s op = true -> pe_presend e = true -> allowed s op (Fail e) (unsent op s)
| al_raised e : accepts s op = true -> survives e = true -> pe_presend e = false ->
    allowed s op (Fail e) (raised op e s)
| al_lost e : accepts s op = true -> survives e = false -> allowed s op (Fail e) Gone
| al_answered a : accepts s op = true -> op <> OpFinish -> (forall exc b, op <> OpAbort exc b) ->
    (forall ev, a = Some ev -> returned ev) -> allowed s op (Ret a) (answered s op a)
| al_finished o : op = OpFinish -> allowed s op o Gone.

Section session.
Context `{PW : Protowire} `{!ProtowireLaws PW} `{EN : Engine} {mounts : Type} `{MT : MountTable mounts}.
Abbreviation world := (@world mounts).
Abbreviation operation := (operation mounts).
Implicit Types (w : world) (op : operation) (s : session).

Definition session_of (p : pending) : session :=
  match pd_kind p with pendingNone => Idle | _ => Suspended p end.

Definition abs w : session := if holds w then session_of (co_pending (w_co w)) else Gone.

Definition told {A} (f : A -> answer) (m : @M mounts A) : @M mounts answer := a ← m; mret (f a).

Definition run_op op : @M mounts answer :=
  match op with
  | OpFeed code inputs tbl firstMount cwd skip onPrint =>
    told Some (Checkout_Feed code inputs tbl firstMount cwd skip onPrint)
  | OpResume result onPrint => told Some (Checkout_Resume result onPrint)
  | OpLookup kind v e onPrint => told Some (Checkout_ResumeNameLookup kind v e onPrint)
  | OpFutures results onPrint => told Some (Checkout_ResumeFutures results onPrint)
  | OpMounts onPrint => ResumeFromMounts onPrint
  | OpDump => told (fun _ => None) (Checkout_Dump)
  | OpRestore state tbl onPrint => told fst (Restore state tbl onPrint)
  | OpInstall reqs => told (fun _ => None) (InstallDependencies reqs)
  | OpAbort exc onPrint => told (fun _ => None) (Checkout_Abort exc onPrint)
  | OpHandoff => told (fun _ => None) (Checkout_Handoff)
  | OpFinish => told (fun _ => None) (Checkout_Finish)
  | OpTerminate cause reason => told (fun _ => None) (Checkout_Terminate cause reason)
  end.

(** ** Between operations *)

(** Nothing is in flight, and a session that is not over can start a turn. *)
Definition settled w : Prop :=
  co_inflight (w_co w) = false
  /\ (holds w = true -> co_cancelled (w_co w) = false /\ observer_open w).

Lemma settled_ready w : settled w -> holds w = true -> ready w.
Proof. intros [Hf H] Hh. destruct (H Hh). by constructor. Qed.

(** Where the caller finds the session: at [s'], or gone if another goroutine
    ended it. *)
Definition lands (io0 : list io) (s' : session) w : Prop :=
  settled w /\ (abs w = s' \/ abs w = Gone /\ Exists is_terminated io0).

Lemma lands_gone io0 w : co_inflight (w_co w) = false -> holds w = false -> lands io0 Gone w.
Proof. intros Hf Hh. unfold lands, settled, abs. rewrite Hh. by split; [|left]. Qed.

Lemma lands_alive io0 p w :
  co_inflight (w_co w) = false -> alive io0 w -> co_pending (w_co w) = p -> lands io0 (session_of p) w.
Proof.
  intros Hf (Hc & Ho & Hh) <-. unfold lands, settled, abs. destruct (holds w); split; auto.
Qed.

Lemma lands_here io0 w : ready w -> lands io0 (session_of (co_pending (w_co w))) w.
Proof. intros [Hf Hc Hh Ho]. unfold lands, settled, abs. rewrite Hh. by split; [|left]. Qed.

Lemma lands_discarded io0 w w' : discarded w w' -> lands io0 Gone w'.
Proof. intros []. by apply lands_gone. Qed.

Lemma session_of_after ev p : returned ev -> session_of (pending_after ev p) = after ev (session_of p).
Proof.
  unfold returned, kind_ok, after, pending_after, IsSuspension. intros [Hk Hr].
  destruct (ev_kind ev) eqn:E; try (destruct Hk as [x Hx]; rewrite Hx); try done;
    by destruct Hr as [|[?|[?|[?|?]%elem_of_cons]%elem_of_cons]%elem_of_cons].
Qed.

(** ** Refinement, operation by operation *)

Definition ends op w (o : outcome answer) w' : Prop :=
  exists s', allowed (abs w) op o s' /\ lands (w_io w) s' w'.

Definition op_post op w : post answer :=
  Post (fun a w' => ends op w (Ret a) w') (fun e w' => ends op w (Fail e) w') (fun _ => True) (fun _ => False).

Lemma abs_ready w : ready w -> abs w = session_of (co_pending (w_co w)).
Proof. intros [_ _ Hh _]. unfold abs. by rewrite Hh. Qed.

Lemma session_of_alive p : session_of p <> Gone.
Proof. unfold session_of. by destruct (pd_kind p). Qed.

Lemma refused_ends op w m : ready w -> accepts (abs w) op = false -> ends op w (Fail (protocolError m)) w.
Proof.
  intros Hr Ha. exists (abs w). split; [apply al_refused; [|done|done]|].
  - rewrite abs_ready by done. apply session_of_alive.
  - rewrite abs_ready by done. by apply lands_here.
Qed.

Lemma unsent_ends op w ty m w' :
  accepts (abs w) op = true -> ready w' -> session_of (co_pending (w_co w')) = unsent op (abs w) ->
  ends op w (Fail (runtimeError ty m)) w'.
Proof.
  intros Ha Hr E. exists (unsent op (abs w)). split; [by apply al_unsent|]. rewrite <- E. by apply lands_here.
Qed.

Lemma lost_ends op w e w' :
  accepts (abs w) op = true -> survives e = false -> lands (w_io w) Gone w' -> ends op w (Fail e) w'.
Proof. intros. exists Gone. split; [by apply al_lost|done]. Qed.

Lemma fail_ends op w p0 req e w' :
  accepts (abs w) op = true -> op <> OpDump -> is_dump req = false ->
  fail_ok p0 (w_io w) req e w' -> ends op w (Fail e) w'.
Proof.
  intros Ha Hop Hreq (Hp & Hf & H). rewrite Hreq in H. cbn in H. destruct (survives e) eqn:Es.
  - exists (raised op e (abs w)). split; [by apply al_raised|].
    replace (raised op e (abs w)) with (session_of no_pending) by (by destruct op; try (by destruct Hop)). apply lands_alive; by destruct H.
  - apply lost_ends; [done..|]. destruct H. by apply lands_gone.
Qed.

Lemma answer_ends op w ev w' :
  accepts (abs w) op = true -> ready w -> answered (abs w) op (Some ev) = after ev (abs w) ->
  op <> OpFinish -> (forall exc b, op <> OpAbort exc b) ->
  ret_ok (co_pending (w_co w)) (w_io w) ev w' -> ends op w (Ret (Some ev)) w'.
Proof.
  intros Ha Hr E H1 H2 (Hret & Hp & Hf & _ & Hal & _). exists (after ev (abs w)). split.
  - rewrite <- E. apply al_answered; [done..|]. by intros ? [= <-].
  - rewrite abs_ready, <- session_of_after by done. by apply lands_alive.
Qed.

Lemma accepts_idle w : ready w -> pending_is pendingNone (w_co w) = true -> abs w = Idle.
Proof.
  intros Hr H. rewrite abs_ready by done. unfold pending_is, session_of in *.
  by apply bool_decide_eq_true in H as ->.
Qed.
Lemma accepts_suspended w : ready w -> pending_is pendingNone (w_co w) = false ->
  abs w = Suspended (co_pending (w_co w)).
Proof.
  intros Hr H. rewrite abs_ready by done. unfold pending_is, session_of in *.
  apply bool_decide_eq_false in H. by destruct (pd_kind (co_pending (w_co w))).
Qed.
Lemma pending_excl k w : k <> pendingNone -> pending_is k (w_co w) = true -> pending_is pendingNone (w_co w) = false.
Proof.
  unfold pending_is. intros Hk H%bool_decide_eq_true. apply bool_decide_eq_false. congruence.
Qed.

(** What the caller hands over refers to no nil exception. *)
Definition op_no_nil op : bool :=
  match op with
  | OpResume r _ => no_nil (RResumeCall 0 r)
  | OpLookup k v e _ => no_nil (RResumeNameLookup k v e)
  | OpFutures rs _ => no_nil (RResumeFutures rs)
  | OpAbort e _ => no_nil (RAbortFeed e)
  | _ => true
  end.

Lemma wp_when (b : bool) f (Q : post ()) w :
  on_ret Q () w -> on_ret Q () (World (f (w_co w)) (w_io w) (w_trace w)) ->
  wp (if b then modify f else mret ()) Q w.
Proof. by destruct b; intros; wp_step. Qed.

Lemma wp_when_not (b : bool) f (Q : post ()) w :
  on_ret Q () w -> on_ret Q () (World (f (w_co w)) (w_io w) (w_trace w)) ->
  wp (if b then mret () else modify f) Q w.
Proof. by destruct b; intros; wp_step. Qed.

Lemma feed_refines code inputs tbl fm cwd skip onPrint w :
  ready w -> Forall frame_fits (w_io w) ->
  wp (run_op (OpFeed code inputs tbl fm cwd skip onPrint)) (op_post (OpFeed code inputs tbl fm cwd skip onPrint) w) w.
Proof.
  intros Hr Hf. cbn [run_op]. unfold told, Checkout_Feed, op_post. do 2 wp_step. apply wp_ensureReady; [done|].
  do 2 wp_step. destruct (pending_is pendingNone (w_co w)) eqn:Ep; cbn [negb].
  2: { wp_step. apply refused_ends; [done|]. by rewrite accepts_suspended. }
  assert (abs w = Idle) as Ha by by apply accepts_idle.
  wp_step. cut (forall dir, wp
    (_ ← modify (set_mounts tbl);
     r ← try (turn (RFeed (Feed code inputs skip dir)) false onPrint);
     c ← get_co;
     _ ← (if co_sent c && match r with inl e => negb (bool_decide (pe_kind e = KindTyping)) | inr _ => true end
          then modify (set_cwdset true) else mret ());
     rethrow r) (andthen (fun ev => mret (Some ev)) (op_post (OpFeed code inputs tbl fm cwd skip onPrint) w)) w); unfold op_post.
  { intros Hdir. destruct cwd as [d|]; [|by wp_step]. destruct (ValidateCwd d); [by wp_step|].
    wp_step. apply unsent_ends; [by rewrite Ha|done|]. by rewrite <- abs_ready. }
  intros dir. do 4 wp_step. apply wp_turn_rule; [by destruct Hr; constructor|done|done|..]; cbn [on_wait andthen on_ret]; [..|done].
  - intros ev w1 H. do 3 wp_step. apply wp_when; repeat wp_step; (apply answer_ends; [by rewrite Ha|done..|exact H]).
  - intros ty m. do 3 wp_step. apply wp_when; wp_step; (apply unsent_ends; [by rewrite Ha|destruct Hr; by constructor|]);
      cbn [w_co unsent]; by rewrite abs_ready.
  - intros e w1 H. do 3 wp_step. apply wp_when; wp_step; 
      (apply (fail_ends _ _ (co_pending (w_co w)) (RFeed (Feed code inputs skip dir))); [by rewrite Ha|done..|exact H]).
Qed.

(** The operations that answer the worker and hand on its next event. *)
Definition plain op : bool :=
  match op with
  | OpFeed _ _ _ _ _ _ _ | OpResume _ _ | OpLookup _ _ _ _ | OpFutures _ _ | OpMounts _ => true
  | _ => false
  end.

Lemma turn_refines op req control onPrint w w' :
  plain op = true -> is_dump req = false -> no_nil req = true -> accepts (abs w) op = true ->
  ready w -> ready w' -> co_pending (w_co w') = co_pending (w_co w) -> w_io w' = w_io w ->
  Forall frame_fits (w_io w) ->
  wp (turn req control onPrint) (andthen (fun ev => mret (Some ev)) (op_post op w)) w'.
Proof.
  intros Hp Hd Hn Ha Hr Hr' Epend Eio Hf. unfold op_post.
  apply wp_turn_rule; rewrite ?Eio; [done|done|done|..]; cbn [andthen on_ret on_fail on_wait]; rewrite ?Epend; [..|done].
  - intros ev w1 H. wp_step. apply answer_ends; [done|done|by destruct op|by destruct op|by destruct op|done].
  - intros ty m. apply unsent_ends; [done|done|]. rewrite Epend, <- abs_ready by done. by destruct op.
  - intros e w1 H. eapply fail_ends; [done|by destruct op|exact Hd|exact H].
Qed.

(** The guard of an operation, on the pending suspension. *)
Lemma accepts_pending op w : ready w -> accepts (abs w) op = accepts (session_of (co_pending (w_co w))) op.
Proof. intros Hr. by rewrite abs_ready. Qed.

Lemma no_nil_fill id p r : no_nil (RResumeCall 0 r) = true -> no_nil (RResumeCall id (fill_result p r)) = true.
Proof.
  intros H. unfold fill_result. destruct (er_kind r =? ExtFuture) eqn:E1; [cbn; apply Z.eqb_eq in E1; by rewrite E1|].
  destruct (er_kind r =? ExtNotFound) eqn:E2; [cbn; apply Z.eqb_eq in E2; by rewrite E2|done].
Qed.

(** [Resume] past its guards. *)
Lemma wp_resume result onPrint (Q : post event) w :
  ready w -> accepts (mounts := mounts) (abs w) (OpResume result onPrint) = true ->
  wp (turn (RResumeCall (pd_callid (co_pending (w_co w))) (fill_result (co_pending (w_co w)) result)) false onPrint) Q w ->
  wp (Checkout_Resume result onPrint) Q w.
Proof.
  intros Hr Hg HQ. unfold Checkout_Resume. wp_step. apply wp_ensureReady; [done|].
  do 2 wp_step. rewrite (accepts_pending _ w Hr) in Hg. unfold session_of, pending_is in *.
  destruct (pd_kind (co_pending (w_co w))) eqn:Ek; cbn [accepts] in Hg; rewrite ?Ek in Hg; try done.
  apply andb_true_iff in Hg as [_ Hg]. apply negb_true_iff in Hg. rewrite Hg. done.
Qed.

Lemma resume_refines result onPrint w :
  ready w -> Forall frame_fits (w_io w) -> no_nil (RResumeCall 0 result) = true ->
  wp (run_op (OpResume result onPrint)) (op_post (OpResume result onPrint) w) w.
Proof.
  intros Hr Hf Hn. cbn [run_op]. unfold told. wp_step.
  destruct (accepts (mounts := mounts) (abs w) (OpResume result onPrint)) eqn:Ha;
    [apply wp_resume; [done..|]; apply turn_refines; auto using no_nil_fill|].
  unfold Checkout_Resume, op_post. wp_step. apply wp_ensureReady; [done|].
  do 2 wp_step. unfold pending_is. case_bool_decide as Ek; cbn [negb]; [|wp_step; by apply refused_ends].
  pose proof Ha as Hg. rewrite (accepts_pending _ w Hr) in Hg. unfold session_of in Hg. rewrite Ek in Hg.
  cbn [accepts] in Hg. rewrite Ek in Hg. cbn in Hg. apply negb_false_iff in Hg. rewrite Hg.
  wp_step. by apply refused_ends.
Qed.

Lemma lookup_refines kind v e onPrint w :
  ready w -> Forall frame_fits (w_io w) -> no_nil (RResumeNameLookup kind v e) = true ->
  wp (run_op (OpLookup kind v e onPrint)) (op_post (OpLookup kind v e onPrint) w) w.
Proof.
  intros Hr Hf Hn. cbn [run_op]. unfold told, Checkout_ResumeNameLookup. do 2 wp_step. apply wp_ensureReady; [done|].
  do 2 wp_step. assert (accepts (mounts := mounts) (abs w) (OpLookup kind v e onPrint) = pending_is pendingLookup (w_co w)) as Ha.
  { rewrite abs_ready by done. unfold session_of, pending_is. cbn. by destruct (pd_kind (co_pending (w_co w))) eqn:E; cbn; rewrite ?E. }
  destruct (pending_is pendingLookup (w_co w)) eqn:Ep; cbn [negb].
  - by apply turn_refines.
  - wp_step. by apply refused_ends.
Qed.

Lemma futures_refines results onPrint w :
  ready w -> Forall frame_fits (w_io w) -> no_nil (RResumeFutures results) = true ->
  wp (run_op (OpFutures results onPrint)) (op_post (OpFutures results onPrint) w) w.
Proof.
  intros Hr Hf Hn. cbn [run_op]. unfold told, Checkout_ResumeFutures. do 2 wp_step. apply wp_ensureReady; [done|].
  do 2 wp_step. set (p := co_pending (w_co w)).
  assert (accepts (mounts := mounts) (abs w) (OpFutures results onPrint) =
    (pending_is pendingFutures (w_co w) || pending_is pendingCall (w_co w) && pd_eager p
       && match results with [(id, _)] => id =? pd_callid p | _ => false end)
    && bool_decide (unresolved results = None)) as Ha.
  { rewrite abs_ready by done. unfold session_of, pending_is. cbn. subst p.
    by destruct (pd_kind (co_pending (w_co w))) eqn:E; cbn; rewrite ?E. }
  assert (forall g : bool, accepts (mounts := mounts) (abs w) (OpFutures results onPrint) = g && bool_decide (unresolved results = None) ->
    (g = true -> wp match unresolved results with
      | Some id => fail (protocolError (go "future " ++ itoa id ++ go " must resolve to Return or Error"))
      | None => turn (RResumeFutures results) false onPrint
      end (andthen (fun ev => mret (Some ev)) (op_post (OpFutures results onPrint) w)) w)) as Hrest.
  { intros g Hg ->. destruct (unresolved results); cbn in Hg; [|by apply turn_refines].
    wp_step. by apply refused_ends. }
  wp_step. destruct (pending_is pendingFutures (w_co w)); [wp_step; by apply (Hrest true)|].
  destruct (pending_is pendingCall (w_co w) && pd_eager p); [|wp_step; apply refused_ends; [done|by rewrite Ha]].
  destruct results as [|[id r] [|]]; try (wp_step; apply refused_ends; [done|by rewrite Ha]).
  cbn [orb andb] in Ha. destruct (id =? pd_callid p); [|wp_step; apply refused_ends; [done|by rewrite Ha]].
  wp_step. by apply (Hrest true).
Qed.

Lemma mounts_refines onPrint w :
  ready w -> Forall frame_fits (w_io w) ->
  wp (run_op (OpMounts onPrint)) (op_post (OpMounts onPrint) w) w.
Proof.
  intros Hr Hf. cbn [run_op]. unfold ResumeFromMounts, HandlePendingMount, op_post. do 2 wp_step.
  apply wp_ensureReady; [done|]. do 2 wp_step.
  assert (accepts (mounts := mounts) (abs w) (OpMounts onPrint)
    = pending_is pendingCall (w_co w) && bool_decide (is_Some (pd_os (co_pending (w_co w))))) as Ha.
  { rewrite abs_ready by done. unfold session_of, pending_is. cbn.
    by destruct (pd_kind (co_pending (w_co w))) eqn:E; cbn; rewrite ?E. }
  destruct (pending_is pendingCall (w_co w)) eqn:Ep; cbn [negb]; [|wp_step; by apply refused_ends].
  destruct (pd_os (co_pending (w_co w))) as [call|] eqn:Eo; [|wp_step; by apply refused_ends].
  assert (forall w', ready w' -> co_pending (w_co w') = co_pending (w_co w) -> ends (OpMounts onPrint) w (Ret None) w') as Hnone.
  { intros w' Hr' E. exists (abs w). split; [by apply (al_answered (abs w) (OpMounts onPrint) None)|].
    rewrite (abs_ready w), <- E by done. by apply lands_here. }
  destruct (co_mounts (w_co w)) as [m|]; [|repeat wp_step; by apply Hnone].
  do 2 wp_step. destruct (HandleOsCall m call) as [[[handled v] exc] m']. do 3 wp_step.
  set (w1 := World _ _ _).
  assert (ready w1) as Hr1 by (destruct Hr; by constructor).
  destruct handled; [|wp_step; by apply Hnone].
  set (res := match exc with None => _ | Some _ => _ end). do 2 wp_step.
  assert (forall r, negb (er_kind r =? ExtNotHandled) = true ->
    accepts (mounts := mounts) (abs w1) (OpResume r onPrint) = true) as Hacc.
  { intros r Hk. rewrite abs_ready by done. unfold session_of. cbn [w_co co_pending w1].
    unfold pending_is in Ep. apply bool_decide_eq_true in Ep. cbn. rewrite Ep. cbn. rewrite Ep. cbn.
    apply negb_true_iff in Hk. by rewrite Hk. }
  apply wp_resume; [done|apply Hacc; by destruct exc|].
  apply wp_turn_rule; [done|done|apply no_nil_fill; by destruct exc|..]; cbn [andthen on_ret on_fail on_wait]; [..|done].
  - intros ev w2 H. wp_step. by apply answer_ends.
  - intros ty msg. cbn [runtimeError pe_kind pe_presend pe_exception]. rewrite bool_decide_eq_true_2 by done. cbn [andb]. wp_step.
    apply wp_resume; [done|by apply Hacc|]. by apply turn_refines.
  - intros e w2 H. destruct (bool_decide (pe_kind e = KindRuntime) && pe_presend e) eqn:Ee;
      [|wp_step; eapply fail_ends; [done..| |exact H]; done].
    apply andb_true_iff in Ee as [_ Ee]. destruct H as [H _]. congruence.
Qed.

Lemma dump_refines w :
  ready w -> Forall frame_fits (w_io w) -> wp (run_op OpDump) (op_post OpDump w) w.
Proof.
  intros Hr Hf. cbn [run_op]. unfold told, Checkout_Dump, op_post. do 2 wp_step.
  assert (accepts (mounts := mounts) (abs w) OpDump = true) as Ha.
  { rewrite abs_ready by done. unfold session_of. by destruct (pd_kind (co_pending (w_co w))). }
  apply wp_turn_rule; [done|done|done|..]; cbn [andthen on_ret on_fail on_wait]; [..|done].
  - intros ev w1 (Hret & Hp & Hfl & _ & Hal & _). case_bool_decide as Ek; cbn [negb].
    + repeat wp_step. exists (abs w). split; [by apply (al_answered (abs w) OpDump None)|].
      rewrite abs_ready by done. apply lands_alive; [done..|]. unfold pending_after in Hp. by rewrite Ek in Hp.
    + apply wp_refuse. intros w2 Hd. apply lost_ends; [done..|]. by eapply lands_discarded.
  - intros ty m. by apply unsent_ends; [..|by rewrite <- abs_ready].
  - intros e w1 (Hp & Hfl & H). destruct (survives e) eqn:Es.
    + exists (raised (mounts := mounts) OpDump e (abs w)). split; [by apply al_raised|]. destruct H as [H Hal]. cbn in H |- *.
      rewrite abs_ready by done. case_bool_decide; [by apply lands_alive|].
      by apply (lands_alive _ no_pending).
    + destruct H. apply lost_ends; [done..|]. by apply lands_gone.
Qed.

Lemma restore_refines state tbl onPrint w :
  ready w -> Forall frame_fits (w_io w) ->
  wp (run_op (OpRestore state tbl onPrint)) (op_post (OpRestore state tbl onPrint) w) w.
Proof.
  intros Hr Hf. cbn [run_op]. unfold told, Restore, op_post. do 2 wp_step. apply wp_ensureReady; [done|].
  do 8 wp_step.
  assert (accepts (mounts := mounts) (abs w) (OpRestore state tbl onPrint) = true) as Ha.
  { rewrite abs_ready by done. unfold session_of. by destruct (pd_kind (co_pending (w_co w))). }
  apply wp_turn_rule; [by destruct Hr; constructor|done|done|..]; cbn [andthen on_ret on_fail on_wait w_io w_co]; [..|done].
  - intros ev w1 (Hret & Hp & Hfl & _ & Hal & _). do 2 wp_step.
    assert (forall a, answered (mounts := mounts) (abs w) (OpRestore state tbl onPrint) a = session_of (co_pending (w_co w1)) ->
      (forall ev, a = Some ev -> returned ev) ->
      ends (OpRestore state tbl onPrint) w (Ret a) (World (set_cwdset true (w_co w1)) (w_io w1) (w_trace w1))) as Hans.
    { intros a E Hev. exists (session_of (co_pending (w_co w1))). split; [rewrite <- E; by apply al_answered|].
      by apply lands_alive. }
    case_bool_decide as Ek; [repeat wp_step; apply Hans; [|done]; rewrite Hp; unfold pending_after; by rewrite Ek|].
    destruct (IsSuspension ev) eqn:Es.
    + repeat wp_step. apply Hans; [|by intros ? [= <-]]. rewrite Hp, session_of_after by done. cbn.
      unfold after. by rewrite Es.
    + apply wp_refuse. intros w2 Hd. apply lost_ends; [done..|]. by eapply lands_discarded.
  - intros ty m. wp_step. apply wp_when_not; repeat wp_step; (apply unsent_ends; [done|destruct Hr; by constructor|done]).
  - intros e w1 H. wp_step. apply wp_when_not; repeat wp_step;
      (apply (fail_ends _ _ no_pending (RLoad state)); [done..|exact H]).
Qed.

Lemma install_refines reqs w :
  ready w -> Forall frame_fits (w_io w) ->
  wp (run_op (OpInstall reqs)) (op_post (OpInstall reqs) w) w.
Proof.
  intros Hr Hf. cbn [run_op]. unfold told, InstallDependencies, op_post. do 2 wp_step. apply wp_ensureReady; [done|].
  do 2 wp_step. destruct (pending_is pendingNone (w_co w)) eqn:Ep; cbn [negb].
  2: { wp_step. apply refused_ends; [done|]. by rewrite accepts_suspended. }
  assert (accepts (mounts := mounts) (abs w) (OpInstall reqs) = true) as Ha by by rewrite accepts_idle.
  assert (forall w', lands (w_io w) (abs w) w' -> ends (OpInstall reqs) w (Ret None) w') as Hok.
  { intros w' Hl. exists (abs w). split; [by apply (al_answered (abs w) (OpInstall reqs) None)|done]. }
  destruct (len reqs =? 0).
  { repeat wp_step. apply Hok. rewrite abs_ready by done. by apply lands_here. }
  destruct (head (omap bad_requirement reqs)).
  { wp_step. apply unsent_ends; [done..|]. by rewrite <- abs_ready. }
  wp_step. apply wp_turn_rule; [done|done|done|..]; cbn [andthen on_ret on_fail on_wait]; [..|done].
  - intros ev w1 (Hret & Hp & Hfl & _ & Hal & _). case_bool_decide as Ek; cbn [negb].
    + repeat wp_step. apply Hok. rewrite abs_ready by done. apply lands_alive; [done..|].
      unfold pending_after in Hp. by rewrite Ek in Hp.
    + apply wp_refuse. intros w2 Hd. apply lost_ends; [done..|]. by eapply lands_discarded.
  - intros ty m. apply unsent_ends; [done..|]. by rewrite <- abs_ready.
  - intros e w1 H. eapply fail_ends; [done..| |exact H]; done.
Qed.

Lemma abort_refines exc onPrint w :
  ready w -> Forall frame_fits (w_io w) -> no_nil (RAbortFeed exc) = true ->
  wp (run_op (OpAbort exc onPrint)) (op_post (OpAbort exc onPrint) w) w.
Proof.
  intros Hr Hf Hn. cbn [run_op]. unfold told, Checkout_Abort, op_post. do 2 wp_step. apply wp_ensureReady; [done|].
  do 2 wp_step. destruct (pending_is pendingNone (w_co w)) eqn:Ep.
  { wp_step. apply refused_ends; [done|]. by rewrite accepts_idle. }
  assert (accepts (mounts := mounts) (abs w) (OpAbort exc onPrint) = true) as Ha by by rewrite accepts_suspended.
  do 3 wp_step. apply wp_turn_rule; [by destruct Hr; constructor|done|done|..];
    cbn [andthen on_ret on_fail on_wait w_io w_co]; [..|done].
  - intros ev w1 H. apply wp_refuse. intros w2 Hd. apply lost_ends; [done..|]. by eapply lands_discarded.
  - intros ty m. apply unsent_ends; [done| |done]. destruct Hr; by constructor.
  - intros e w1 H. apply (fail_ends _ _ no_pending (RAbortFeed exc)); [done..|exact H].
Qed.

(** Ending the lease, the metrics and the observer leaves the session's state. *)
Lemma wp_finish_lease give bump (Q : post bool) w :
  (forall b w', same_session w w' -> holds w' = false -> (holds w = true -> b = true) -> on_ret Q b w') ->
  wp (finish_lease give bump) Q w.
Proof.
  intros H. unfold wp, sat. destruct w as [[[[sl|] wk ca] p m b i cc cw ab st ob mt] io0 tr]; run_engine; by apply H.
Qed.

Lemma wp_finishMetrics outcome (Q : post ()) w :
  (forall w', same_session w w' -> holds w' = holds w -> on_ret Q () w') -> wp (finishMetrics outcome) Q w.
Proof.
  intros H. unfold wp, sat. destruct w as [[l p m b i cc cw ab st ob []] io0 tr]; run_engine; by apply H.
Qed.

Lemma wp_observer_close (Q : post ()) w :
  (forall w', same_session w w' -> holds w' = holds w -> on_ret Q () w') -> wp observer_close Q w.
Proof.
  intros H. unfold wp, sat. destruct w as [[l p m b i cc cw ab st [o|] mt] io0 tr]; run_engine; [|by apply H].
  destruct ((users o =? 0) && negb (closed o)); run_engine; by apply H.
Qed.

Lemma handoff_refines w :
  ready w -> wp (run_op OpHandoff) (op_post OpHandoff w) w.
Proof.
  intros Hr. cbn [run_op]. unfold told, Checkout_Handoff, op_post. do 2 wp_step. apply wp_ensureReady; [done|].
  do 2 wp_step. destruct (pending_is pendingNone (w_co w)) eqn:Ep; cbn [negb].
  2: { wp_step. apply refused_ends; [done|]. by rewrite accepts_suspended. }
  assert (accepts (mounts := mounts) (abs w) OpHandoff = websocket) as Ha by by rewrite accepts_idle.
  destruct websocket; cbn [negb]; [|wp_step; by apply refused_ends].
  wp_step. apply wp_finish_lease. intros b w1 Hs1 Hh1 Hb. cbn [andthen on_ret].
  destruct Hr as [Hf Hc Hh Ho]. rewrite (Hb Hh). cbn [negb]. unfold drop_feed. do 3 wp_step.
  apply wp_observer_close. intros w2 Hs2 Hh2. wp_step. apply wp_finishMetrics. intros w3 Hs3 Hh3.
  repeat wp_step. exists Gone. split; [by apply (al_answered (abs w) OpHandoff None)|].
  apply lands_gone; [|unfold holds in *; cbn in Hh2; congruence].
  destruct Hs1, Hs2, Hs3. cbn in *. congruence.
Qed.

Lemma finish_refines w :
  settled w -> Forall frame_fits (w_io w) -> wp (run_op OpFinish) (op_post OpFinish w) w.
Proof.
  intros Hst Hf. cbn [run_op]. unfold told, Checkout_Finish, op_post. do 3 wp_step.
  assert (forall o w', lands (w_io w) Gone w' -> ends OpFinish w o w') as Hend.
  { intros o w' Hl. exists Gone. by split; [apply al_finished|]. }
  destruct (active (co_lease (w_co w))) eqn:Ea; cbn [negb].
  2: { do 2 wp_step. apply wp_finishMetrics. intros w1 [] Hh1. repeat wp_step. apply Hend.
       apply lands_gone; [destruct Hst; cbn in *; congruence|]. by unfold holds in *; cbn in *; rewrite Hh1. }
  pose proof (settled_ready w Hst Ea) as Hr. rewrite (rd_inflight _ Hr).
  assert (forall w1 give bump, co_inflight (w_co w1) = false ->
    wp (won ← finish_lease give bump; if won : bool then finishMetrics "ok" else mret ())
      (andthen (fun _ => mret None) (op_post OpFinish w)) w1) as Hfin.
  { intros w1 give bump Hf1. unfold op_post. wp_step. apply wp_finish_lease. intros b w2 [] Hh2 _. cbn [andthen on_ret].
    destruct b; [apply wp_finishMetrics; intros w3 [] Hh3|]; repeat wp_step; apply Hend; apply lands_gone; congruence. }
  assert (forall e w1, wp (_ ← discard "discarded"; _ ← finishMetrics "error"; fail e)
      (andthen (fun _ : () => mret None) (op_post OpFinish w)) w1) as Hbad.
  { intros e w1. unfold op_post. wp_step. apply wp_discard. intros w2 []. wp_step. apply wp_finishMetrics.
    intros w3 [] Hh3. repeat wp_step. apply Hend. apply lands_gone; congruence. }
  destruct websocket; [by apply Hfin, Hr|]. do 2 wp_step.
  apply wp_turn_rule; [done|done|done|..]; cbn [andthen on_ret on_fail on_wait]; [..|done].
  - intros ev w1 (_ & _ & Hfl & _). case_bool_decide; cbn [negb]; [|by apply Hbad].
    unfold drop_feed. do 2 wp_step. by apply Hfin.
  - intros. by apply Hbad.
  - intros. by apply Hbad.
Qed.

Lemma terminate_refines cause reason w :
  settled w -> wp (run_op (OpTerminate cause reason)) (op_post (OpTerminate cause reason) w) w.
Proof.
  intros [Hf _]. cbn [run_op]. unfold told, Checkout_Terminate, op_post. wp_step. unfold wp, sat.
  destruct (terminate_spec cause reason true w) as (b & w1 & -> & [] & Hh & _). cbn -[ends].
  exists Gone. split; [|apply lands_gone; congruence].
  apply (al_answered (abs w) (OpTerminate cause reason) None); [by destruct (abs w)|done..].
Qed.

(** ** Once the session is over *)

Lemma wp_ensureReady_gone (Q : post ()) w :
  holds w = false ->
  (forall e w', pe_kind e ∈ [KindFinished; KindCancelled] -> w_trace w' = w_trace w -> w_io w' = w_io w ->
     holds w' = false -> co_inflight (w_co w') = co_inflight (w_co w) -> on_fail Q e w') ->
  wp ensureReady Q w.
Proof.
  intros Hh H. unfold ensureReady. do 2 wp_step. destruct (co_cancelled (w_co w)).
  - repeat wp_step. apply H; [set_solver|done..].
  - unfold holds in Hh. rewrite Hh. cbn [negb]. wp_step. apply H; [set_solver|done..].
Qed.

Definition ending op : bool := match op with OpFinish | OpTerminate _ _ => true | _ => false end.

Lemma gone_refines op w :
  settled w -> holds w = false -> ending op = false -> wp (run_op op) (op_post op w) w.
Proof.
  intros [Hf _] Hh He. assert (abs w = Gone) as Ha by (unfold abs; by rewrite Hh).
  assert (forall e w', pe_kind e ∈ [KindFinished; KindCancelled] -> w_trace w' = w_trace w -> w_io w' = w_io w ->
     holds w' = false -> co_inflight (w_co w') = co_inflight (w_co w) -> ends op w (Fail e) w') as Hend.
  { intros e w' Hk _ _ Hh' Hf'. exists Gone. split; [|by apply lands_gone; congruence].
    apply al_gone; [done|rewrite Ha; by destruct op|done]. }
  unfold op_post. destruct op; try done; cbn [run_op]; unfold told, Checkout_Feed, Checkout_Resume,
    Checkout_ResumeNameLookup, Checkout_ResumeFutures, ResumeFromMounts, HandlePendingMount, Checkout_Dump,
    Restore, InstallDependencies, Checkout_Abort, Checkout_Handoff, turn;
    repeat (wp_step; try (apply wp_ensureReady_gone; [done|exact Hend])).
Qed.

End session.


