(* ===== verification/CheckoutEnds.v ===== *)
(** How a checkout ends: its worker leaves it exactly once, and its duration is
    reported exactly once, whichever operations run and however they end. *)

From S2P Require Import Prelude Utf8 GoStrings VPath Protowire Proto Values ValueCodec Repr.
From S2P Require Import Exceptions Events Requests PoolErrors Budget Pool Lease Checkout CheckoutFacts CheckoutOps.

Definition is_metrics (a : action) : bool := match a with AMetrics _ => true | _ => false end.
Definition reports (l : list action) : Z := len (List.filter is_metrics l).

(** An action that neither gives the worker back nor reports. *)
Definition neutral (a : action) : bool := negb (handback a) && negb (is_metrics a).

Section credit.
Context {mounts : Type}.
Abbreviation world := (@world mounts).
Implicit Types w : world.

(** The worker is with the checkout or has been given back; the report is due
    or has been made; and it is made when the worker leaves. *)
Definition worker_credit w : Z := handbacks (w_trace w) + Z.b2z (holds w).
Definition report_credit w : Z := reports (w_trace w) + Z.b2z (negb (co_metrics (w_co w))).
Definition coupled w : Prop := co_metrics (w_co w) = negb (holds w).

(** Only the checkout's own worker is ever given back. *)
Definition gives (wk : Z) (a : action) : Prop :=
  match a with
  | ARetire x _ _ => x = wk
  | ARelease sl | AHandoff sl => sl_w sl = wk
  | _ => True
  end.
Definition own w : Prop :=
  match l_slot (co_lease (w_co w)) with Some sl => sl_w sl = l_worker (co_lease (w_co w)) | None => True end
  /\ Forall (gives (l_worker (co_lease (w_co w)))) (w_trace w).

Record kept (w w' : world) : Prop := Kept {
  kp_own : own w -> own w';
  kp_lease : l_worker (co_lease (w_co w')) = l_worker (co_lease (w_co w));
  kp_worker : worker_credit w' = worker_credit w;
  kp_report : report_credit w' = report_credit w;
  kp_coupled : coupled w -> coupled w' }.

End credit.

(** Counts what a concrete run did. *)
Ltac settle_credit :=
  constructor; unfold own, worker_credit, report_credit, coupled, holds, handbacks, reports, len; cbn;
    [intros [? ?]; split; [done|]; rewrite ?Forall_app, ?Forall_singleton; cbn; by split_and?
    |done|rewrite ?List.filter_app, ?length_app; cbn; lia..|done].

Section ends.
Context `{EN : Engine} {mounts : Type}.
Abbreviation world := (@world mounts).
Abbreviation M := (@M mounts).
Implicit Types w : world.

#[export] Instance kept_preorder : PreOrder (kept (mounts := mounts)).
Proof.
  split; [done|]. intros w1 w2 w3 [] []. constructor; [auto|congruence|congruence|congruence|auto].
Qed.

Definition keeps {A} (m : M A) : Prop := forall w, kept w (m w).2.

Lemma filter_neutral f l tr :
  (forall a, neutral a = true -> f a = false) -> forallb neutral tr = true ->
  len (List.filter f (l ++ tr)) = len (List.filter f l).
Proof.
  intros Hf Htr. rewrite List.filter_app. unfold len. rewrite length_app.
  replace (List.filter f tr) with (@nil action); [cbn; lia|].
  induction tr as [|a tr IH]; [done|]. cbn in *. apply andb_true_iff in Htr as [Ha Htr].
  rewrite (Hf a Ha). auto.
Qed.

Lemma kept_step w w' tr :
  co_lease (w_co w') = co_lease (w_co w) -> co_metrics (w_co w') = co_metrics (w_co w) ->
  w_trace w' = w_trace w ++ tr -> forallb neutral tr = true -> kept w w'.
Proof.
  intros E1 E2 E3 Htr. unfold neutral in Htr.
  constructor; unfold own, worker_credit, report_credit, coupled, holds, handbacks, reports; rewrite ?E1, ?E2, ?E3.
  - intros [H1 H2]. split; [done|]. apply Forall_app. split; [done|]. apply Forall_forall. intros a Ha.
    rewrite forallb_forall in Htr. specialize (Htr a (proj1 (list_elem_of_In _ _) Ha)). by destruct a.
  - done.
  - rewrite filter_neutral; [done| |done]. intros []; cbn; done.
  - rewrite filter_neutral; [done| |done]. intros []; cbn; done.
  - done.
Qed.

(** ** Composition *)

Lemma keeps_ret {A} (a : A) : keeps (mret a).
Proof. by intros w. Qed.
Lemma keeps_fail {A} e : keeps (A := A) (fail e).
Proof. by intros w. Qed.
Lemma keeps_panic {A} : keeps (A := A) panic.
Proof. by intros w. Qed.
Lemma keeps_waiting {A} : keeps (A := A) waiting.
Proof. by intros w. Qed.
Lemma keeps_get : keeps get_co.
Proof. by intros w. Qed.
Lemma keeps_bind {A B} (m : M A) (f : A -> M B) : keeps m -> (forall a, keeps (f a)) -> keeps (m ≫= f).
Proof.
  intros Hm Hf w. specialize (Hm w). unfold mbind, M_bind.
  destruct (m w) as [[a|e| |] w']; cbn in *; [|done..]. by etrans; [|apply Hf].
Qed.
Lemma keeps_try {A} (m : M A) : keeps m -> keeps (try m).
Proof. intros Hm w. specialize (Hm w). unfold try. by destruct (m w) as [[a|e| |] w']. Qed.
Lemma keeps_rethrow {A} (r : poolError + A) : keeps (rethrow r).
Proof. by destruct r. Qed.
Lemma keeps_deferred {A} (m : M A) fin : keeps m -> keeps fin -> keeps (deferred m fin).
Proof.
  intros Hm Hf w. specialize (Hm w). unfold deferred.
  destruct (m w) as [[a|e| |] w']; cbn in *; [..|done|]; (by etrans; [|apply Hf]).
Qed.
Lemma keeps_modify f :
  (forall c, co_lease (f c) = co_lease c /\ co_metrics (f c) = co_metrics c) -> keeps (modify f).
Proof.
  intros Hf w. destruct (Hf (w_co w)). apply (kept_step _ _ []); [done|done| |done].
  cbn. by rewrite app_nil_r.
Qed.
Lemma keeps_act a : neutral a = true -> keeps (act a).
Proof. intros Ha w. apply (kept_step _ _ [a]); [done..|]. cbn. by rewrite Ha. Qed.

Lemma keeps_terminate cause reason force : keeps (checkout_terminate cause reason force).
Proof.
  intros w. destruct w as [[l p m b i cc cw ab st ob mt] io0 tr].
  destruct l as [[s|] wk ca]; run_engine; [|done].
  destruct (force || negb websocket), mt; run_engine; destruct ob as [ob|]; run_engine;
    try (destruct ((users ob =? 0) && negb (closed ob)); run_engine);
    settle_credit.
Qed.

Lemma keeps_discard reason : keeps (discard reason).
Proof.
  apply keeps_bind; [apply keeps_modify; by intros []|]. intros _.
  apply keeps_bind; [apply keeps_terminate|intros; apply keeps_ret].
Qed.

Lemma keeps_interrupts n : keeps (interrupts n).
Proof.
  induction n as [|n IH]; intros w; [done|]. cbn [interrupts].
  destruct (w_io w) as [|[] rest]; try done.
  etrans; [|apply (keeps_bind _ _ (keeps_terminate _ _ _) (fun _ => IH))].
  apply (kept_step _ _ []); [done|done|by cbn; rewrite app_nil_r|done].
Qed.

Lemma keeps_ask {A} (pick : io -> option A) : keeps (ask pick).
Proof.
  intros w. unfold ask. pose proof (keeps_interrupts (length (w_io w)) w) as H.
  destruct (interrupts (length (w_io w)) w) as [o w1]. cbn in H.
  destruct (w_io w1) as [|x rest]; [done|]. destruct (pick x); [|done].
  etrans; [exact H|]. apply (kept_step _ _ []); [done|done|by cbn; rewrite app_nil_r|done].
Qed.
End ends.

#[export] Hint Resolve keeps_ret keeps_fail keeps_panic keeps_waiting keeps_get keeps_rethrow
  keeps_terminate keeps_discard keeps_ask : keeps.

(** Follows the code of an operation. *)
Ltac keep :=
  repeat first
  [ solve [auto with keeps]
  | lazymatch goal with
    | |- keeps (_ ≫= _) => apply keeps_bind; [|intros ?]
    | |- keeps (try _) => apply keeps_try
    | |- keeps (deferred _ _) => apply keeps_deferred
    | |- keeps (modify _) => apply keeps_modify; by intros []
    | |- keeps (act _) => apply keeps_act; reflexivity
    | |- keeps (match ?x with _ => _ end) => destruct x
    | |- keeps ((fun _ => _) _) => cbv beta
    end ].

Section operations.
Context `{PW : Protowire} `{EN : Engine} {mounts : Type} `{MT : MountTable mounts}.
Abbreviation world := (@world mounts).
Abbreviation M := (@M mounts).
Abbreviation keeps := (keeps (mounts := mounts)).
Implicit Types w : world.

Lemma keeps_observer_acquire : keeps observer_acquire.
Proof. unfold observer_acquire, obs_do. keep. Qed.
Lemma keeps_observer_release : keeps observer_release.
Proof. unfold observer_release, obs_do, closed_if. keep. Qed.
Lemma keeps_observer_close : keeps observer_close.
Proof. unfold observer_close, obs_do, closed_if. keep. Qed.
Lemma keeps_ensureReady : keeps ensureReady.
Proof. unfold ensureReady. keep. Qed.
Lemma keeps_reap : keeps reap.
Proof. unfold reap, ask_wait. keep. Qed.
#[local] Hint Resolve keeps_observer_acquire keeps_observer_release keeps_observer_close keeps_ensureReady
  keeps_reap : keeps.
Lemma keeps_ioFailure {A} f doing dl : keeps (ioFailure (A := A) f doing dl).
Proof. unfold ioFailure, poisonTimeout, poison, ask_err. keep. Qed.
Lemma keeps_refuse {A} m : keeps (refuse (A := A) m).
Proof. unfold refuse. keep. Qed.
#[local] Hint Resolve keeps_ioFailure keeps_refuse : keeps.
Lemma keeps_drop_feed : keeps drop_feed.
Proof. unfold drop_feed. keep. Qed.
#[local] Hint Resolve keeps_drop_feed : keeps.
Lemma keeps_dispatch ev req : keeps (dispatch ev req).
Proof. unfold dispatch. keep. Qed.
Lemma keeps_send_frame req payload : keeps (send_frame req payload).
Proof. unfold send_frame, ask_send. keep. Qed.
Lemma keeps_print segs : keeps (print_segments segs).
Proof. induction segs as [|g segs IH]; cbn [print_segments]; keep. Qed.
#[local] Hint Resolve keeps_dispatch keeps_send_frame keeps_print : keeps.
Lemma keeps_turn_loop fuel req onPrint dl : keeps (turn_loop fuel req onPrint dl).
Proof. induction fuel as [|fuel IH]; cbn [turn_loop]; unfold ask_recv; keep. Qed.
Lemma keeps_receive req onPrint dl : keeps (receive req onPrint dl).
Proof. intros w. apply keeps_turn_loop. Qed.
#[local] Hint Resolve keeps_receive : keeps.
Lemma keeps_turn req control onPrint : keeps (turn req control onPrint).
Proof. unfold turn, turn_body. keep. Qed.
#[local] Hint Resolve keeps_turn : keeps.
Lemma keeps_resume r onPrint : keeps (Checkout_Resume r onPrint).
Proof. unfold Checkout_Resume. keep. Qed.
#[local] Hint Resolve keeps_resume : keeps.

(** ** The operations that end a checkout *)

Lemma kept_finishMetrics outcome w : holds w = false -> kept w (finishMetrics outcome w).2.
Proof.
  intros Hh. destruct w as [[[[sl|] wk ca] p m b i cc cw ab st ob []] io0 tr]; run_engine; try done.
  settle_credit.
Qed.

Lemma keeps_discard_report {A} outcome e :
  keeps (_ ← discard "discarded"; _ ← finishMetrics outcome; fail (A := A) e).
Proof.
  intros w. pose proof (keeps_discard "discarded" w) as Hk.
  assert (wp (discard "discarded") (Post (fun _ w' => holds w' = false) (fun _ _ => False)
    (fun _ => False) (fun _ => False)) w) as Hd by (apply wp_discard; by intros w' []).
  unfold wp, sat in Hd. unfold mbind, M_bind. destruct (discard "discarded" w) as [[u|e'| |] w1]; cbn in *; [|done..].
  pose proof (kept_finishMetrics outcome w1 Hd) as Hm.
  destruct (finishMetrics outcome w1) as [[]]; cbn in *; by etrans.
Qed.

Lemma keeps_finish_report bump :
  keeps (won ← finish_lease ARelease bump; if won : bool then finishMetrics "ok" else mret ()).
Proof.
  intros w. destruct w as [[[[sl|] wk ca] p m b i cc cw ab st ob mt] io0 tr]; run_engine; [|done].
  destruct mt; run_engine; settle_credit.
Qed.

Lemma keeps_handoff_report {A} (x : A) :
  keeps (won ← finish_lease AHandoff 0;
         if negb won then fail (new_error KindFinished [])
         else _ ← drop_feed; _ ← observer_close; _ ← finishMetrics "ok"; mret x).
Proof.
  intros w. destruct w as [[[[sl|] wk ca] p m b i cc cw ab st ob mt] io0 tr]; run_engine; [|done].
  destruct ob as [ob|]; run_engine; [destruct ((users ob =? 0) && negb (closed ob)); run_engine|];
    destruct mt; run_engine; settle_credit.
Qed.

#[local] Hint Resolve keeps_discard_report keeps_finish_report : keeps.

Lemma keeps_apply {A} (m : M A) w : keeps m -> kept w (m w).2.
Proof. auto. Qed.

Lemma keeps_finish : keeps Checkout_Finish.
Proof.
  intros w. unfold Checkout_Finish. unfold mbind at 1, M_bind at 1, get_co at 1. cbv beta iota.
  destruct (active (co_lease (w_co w))) eqn:Ea; cbn [negb].
  - apply keeps_apply. keep.
  - unfold mbind, M_bind, modify. cbn [fst snd].
    etrans; [|apply kept_finishMetrics; exact Ea].
    apply (kept_step _ _ []); [done|done|by cbn; rewrite app_nil_r|done].
Qed.

Lemma keeps_handoff : keeps Checkout_Handoff.
Proof.
  unfold Checkout_Handoff. apply keeps_bind; [keep|intros _]. apply keeps_bind; [keep|intros c].
  destruct (negb _); [keep|]. destruct (negb _); [keep|]. apply keeps_handoff_report.
Qed.
Lemma keeps_restoreCarried st b cwd : keeps (restoreCarried st b cwd).
Proof. unfold restoreCarried, unexpected. keep. Qed.
#[local] Hint Resolve keeps_finish keeps_handoff keeps_restoreCarried : keeps.

Lemma keeps_run_op op : keeps (run_op op).
Proof.
  destruct op; cbn [run_op]; unfold told, Checkout_Feed, Checkout_ResumeNameLookup, Checkout_ResumeFutures,
    ResumeFromMounts, HandlePendingMount, Checkout_Dump, Restore, InstallDependencies, Checkout_Abort,
    Checkout_Terminate, unexpected; keep.
Qed.

(** Opening a session: a plain checkout, or one bound to a reservation. *)
Inductive opening :=
| OpenCheckout (conf : configure)
| OpenBind (conf : configure) (state : option bytes) (b : sessionBudget) (cwdSet : bool).

Definition run_opening (o : opening) : M () :=
  match o with
  | OpenCheckout conf => Pool_Checkout conf
  | OpenBind conf state b cwdSet => Pool_Bind conf state b cwdSet
  end.

Lemma keeps_opening o : keeps (run_opening o).
Proof. destruct o; cbn [run_opening]; unfold Pool_Checkout, Pool_Bind, unexpected; keep. Qed.

(** The checkout of slot [s] after an opening and a sequence of operations. *)
Definition life (s : slot) (observed : bool) (script : list io) (o : opening) (ops : list (operation mounts)) : world :=
  fold_left (fun w op => (run_op op w).2) ops
    (run_opening o (World (newCheckout s observed) script [])).2.

Lemma kept_life s observed script o ops :
  kept (World (newCheckout s observed) script []) (life s observed script o ops).
Proof.
  unfold life. etrans; [apply (keeps_opening o)|]. generalize (run_opening o (World (newCheckout s observed) script [])).2.
  induction ops as [|op ops IH]; intros w; [reflexivity|]. cbn [fold_left]. etrans; [apply keeps_run_op|apply IH].
Qed.
End operations.

(** C4. A checkout gives its worker back exactly once: after any opening and any
    sequence of operations, whatever the worker and other goroutines did, no
    worker has left the checkout while it is active, and afterwards exactly one
    retirement, release or handoff has happened, of the checkout's own worker,
    with exactly one report of the session's duration. *)
Theorem worker_given_back_once `{PW : Protowire} `{EN : Engine} {mounts : Type} `{MT : MountTable mounts}
    (s : slot) (observed : bool) (script : list io) (o : opening) (ops : list (operation mounts)) :
  let w := life s observed script o ops in
  handbacks (w_trace w) = (if holds w then 0 else 1)
  /\ reports (w_trace w) = (if holds w then 0 else 1)
  /\ Forall (gives (sl_w s)) (w_trace w).
Proof.
  cbv zeta. pose proof (kept_life s observed script o ops) as H. revert H.
  generalize (life s observed script o ops). intros w [Hown Hlw Hwk Hrep Hcp].
  cbn in Hlw. specialize (Hcp eq_refl). destruct Hown as [_ Hown]; [by repeat constructor|].
  unfold worker_credit, report_credit in Hwk, Hrep. rewrite Hcp in Hrep. rewrite Hlw in Hown.
  split_and!; [..|done]; destruct (holds w); cbn [negb Z.b2z] in *;
    change (handbacks (w_trace (World (newCheckout s observed) script []))) with 0 in *;
    change (reports (w_trace (World (newCheckout s observed) script []))) with 0 in *; cbn in Hwk, Hrep; lia.
Qed.
