(* ===== verification/Dict.v ===== *)
(** Python equality, dicts and sets: src/internal/value/dict.go, and the names
    of types of src/internal/value/pytype.go.

    Go's [==] on a struct compares its pointer fields as addresses, and two
    values of the model say nothing about where they live; whether the pointers
    that two operands hold are the same is a parameter, [same]. *)

From S2P Require Import Prelude Utf8 GoStrings Values ValueCodec Repr CodecSpec.

(** ** Numbers *)

Inductive number := numNone | numInt (i : Z) | numBig (b : Z) | numFloat (f : Z).

Definition uintNumber (x : Z) : number := if x <=? MaxInt64 then numInt x else numBig x.

Definition asNumber (v : value) : number :=
  match v with
  | VBool true => numInt 1
  | VBool false => numInt 0
  | VInt (KUint | KUint64) x => uintNumber x
  | VInt _ x => numInt x
  | VBig None => numNone
  | VBig (Some x) => if in_int 64 x then numInt x else numBig x
  | VFloat32 x => numFloat (f32_to_f64 x)
  | VFloat64 x => numFloat x
  | _ => numNone
  end.

(** [math.IsInf(f, 0)] and [math.IsNaN(f)] *)
Definition IsInf (f : Z) : bool := (f64_exponent f =? 2047) && (f64_mantissa f =? 0).
Definition IsNaN (f : Z) : bool := (f64_exponent f =? 2047) && negb (f64_mantissa f =? 0).

(** A finite float64 in units of its smallest step, 2^-1074. *)
Definition f64_unit : Z := 2 ^ 1074.
Definition f64_steps (f : Z) : Z :=
  (if f64_sign f then -1 else 1)
  * (if f64_exponent f =? 0 then f64_mantissa f
     else (2 ^ 52 + f64_mantissa f) * 2 ^ (f64_exponent f - 1)).

(** Go's [==] on float64. *)
Definition float_eq (x y : Z) : bool :=
  negb (IsNaN x) && negb (IsNaN y)
  && ((x =? y) || (x mod 2 ^ 63 =? 0) && (y mod 2 ^ 63 =? 0)).

Definition floatEqualsInt (f i : Z) : bool :=
  if IsInf f || IsNaN f || negb (Z.rem (f64_steps f) f64_unit =? 0) then false
  else Z.quot (f64_steps f) f64_unit =? i.

(** [toBig], of a number that is an int64 or a *big.Int. *)
Definition toBig (x : number) : Z := match x with numInt i => i | numBig b => b | _ => 0 end.

Definition numbersEqual (x y : number) : bool :=
  match x, y with
  | numInt i, numInt j => i =? j
  | numFloat f, numFloat g => float_eq f g
  | numFloat f, _ => floatEqualsInt f (toBig y)
  | _, numFloat g => floatEqualsInt g (toBig x)
  | _, _ => toBig x =? toBig y
  end.

(** ** Equality *)

(** The pointers a value may hold: the fields of datetimes, timezones,
    functions, types and instances, and a value that is itself a pointer. *)
Inductive pointer := POffset | PName | PDocstring | PTypeAttrs | PAttrs | PSelf.

Section equality.
(** Whether the two operands hold the same pointer there. For values of host
    types, which the model knows by name only, [same PSelf] is what [==] or
    [reflect.DeepEqual] answers. *)
Variable same : pointer -> value -> value -> bool.

Definition pointers_eq {A} (p : pointer) (a b : value) (x y : option A) : bool :=
  match x, y with
  | None, None => true
  | Some _, Some _ => same p a b
  | _, _ => false
  end.

(** [a == b] of the types that [Equal] does not treat itself. *)
Definition struct_eq (a b : value) : bool :=
  match a, b with
  | VEllipsis, VEllipsis => true
  | VNotImplemented, VNotImplemented => true
  | VBig None, VBig None => true
  | VDate x, VDate y => (d_year x =? d_year y) && (d_month x =? d_month y) && (d_day x =? d_day y)
  | VTime x, VTime y =>
    (t_hour x =? t_hour y) && (t_minute x =? t_minute y) && (t_second x =? t_second y)
    && (t_micro x =? t_micro y) && pointers_eq POffset a b (t_offset x) (t_offset y)
    && pointers_eq PName a b (t_tzname x) (t_tzname y) && (t_fold x =? t_fold y)
  | VDateTime x, VDateTime y =>
    (dt_year x =? dt_year y) && (dt_month x =? dt_month y) && (dt_day x =? dt_day y)
    && (dt_hour x =? dt_hour y) && (dt_minute x =? dt_minute y) && (dt_second x =? dt_second y)
    && (dt_micro x =? dt_micro y) && pointers_eq POffset a b (dt_offset x) (dt_offset y)
    && pointers_eq PName a b (dt_tzname x) (dt_tzname y)
  | VTimeDelta x, VTimeDelta y =>
    (td_days x =? td_days y) && (td_seconds x =? td_seconds y) && (td_micros x =? td_micros y)
  | VTimeZone x, VTimeZone y =>
    (tz_offset x =? tz_offset y) && pointers_eq PName a b (tz_name x) (tz_name y)
  | VException x, VException y =>
    bool_decide (exc_type x = exc_type y) && bool_decide (exc_message x = exc_message y)
  | VType (PyType n id o dc at_), VType (PyType n' id' o' dc' at') =>
    bool_decide (n = n') && bool_decide (id = id') && (o =? o') && Bool.eqb dc dc'
    && pointers_eq PTypeAttrs a b at_ at'
  | VInstance (Instance_ (PyType n ti o dc ta) id at_), VInstance (Instance_ (PyType n' ti' o' dc' ta') id' at') =>
    bool_decide (n = n') && bool_decide (ti = ti') && (o =? o') && Bool.eqb dc dc'
    && pointers_eq PTypeAttrs a b ta ta' && bool_decide (id = id') && pointers_eq PAttrs a b at_ at'
  | VInstancePtr _, VInstancePtr _ => same PSelf a b
  | VFunction x, VFunction y =>
    bool_decide (fn_name x = fn_name y) && pointers_eq PDocstring a b (fn_doc x) (fn_doc y)
  | VBuiltinFunction x, VBuiltinFunction y => bool_decide (x = y)
  | VPath x, VPath y => bool_decide (x = y)
  | VFileHandlePtr _, VFileHandlePtr _ => same PSelf a b
  | VFileHandle x, VFileHandle y =>
    bool_decide (fh_path x = fh_path y) && bool_decide (fh_mode x = fh_mode y)
    && (fh_position x =? fh_position y)
  | VCycle x, VCycle y =>
    (cy_identity x =? cy_identity y) && bool_decide (cy_placeholder x = cy_placeholder y)
  | VOther x, VOther y => bool_decide (x = y) && same PSelf a b
  | _, _ => false
  end.

(** The functions that call [Equal] on the parts of containers. *)
Section parts.
Variable Equal : value -> value -> bool.

(** [find]; [None] is -1. *)
Fixpoint find_from (pairs : list (value * value)) (k : value) : option nat :=
  match pairs with
  | [] => None
  | p :: pairs => if Equal p.1 k then Some 0%nat else S <$> find_from pairs k
  end.
Definition dict_find (d : option (list (value * value))) (k : value) : option nat := find_from (Pairs d) k.

Definition dict_get (d : option (list (value * value))) (k : value) : option value :=
  match dict_find d k with Some i => snd <$> Pairs d !! i | None => None end.

Definition containsEqual (items : list value) (v : value) : bool := existsb (fun it => Equal it v) items.

Definition setsEqual (a b : list value) : bool :=
  if negb (len a =? len b) then false else forallb (containsEqual b) a.

Fixpoint seq_loop (a b : list value) : bool :=
  match a, b with x :: a, y :: b => Equal x y && seq_loop a b | _, _ => true end.
Definition seqEqual (a b : list value) : bool :=
  if negb (len a =? len b) then false else seq_loop a b.

Definition dict_equal (d o : option (list (value * value))) : bool :=
  if negb (Len d =? Len o) then false
  else forallb (fun p => match dict_get o p.1 with Some v => Equal p.2 v | None => false end) (Pairs d).

Definition equal_step (a b : value) : bool :=
  match asNumber a, asNumber b with
  | numNone, numNone =>
    match a, b with
    | VNil, _ => match b with VNil => true | _ => false end
    | VStr x, VStr y | VBytes x, VBytes y => bool_decide (x = y)
    | VList x, VList y | VTuple x, VTuple y => seqEqual x y
    | VDict x, VDict y => dict_equal x y
    | (VSet x | VFrozenSet x), (VSet y | VFrozenSet y) => setsEqual (Items x) (Items y)
    | VNamedTuple _ _ x, VNamedTuple _ _ y => seqEqual x y
    | VNamedTuple _ _ x, VTuple y => seqEqual x y
    | _, _ => struct_eq a b
    end
  | numNone, _ | _, numNone => false
  | x, y => numbersEqual x y
  end.
End parts.

(** [Equal], with how deep it may look. *)
Fixpoint Equal_fuel (n : nat) (a b : value) : bool :=
  match n with O => false | S n => equal_step (Equal_fuel n) a b end.

Definition Equal (a b : value) : bool := Equal_fuel (S (Z.to_nat (nest a))) a b.

(** ** Dicts and sets

    A dict is its pairs; methods that change one return the new pairs. *)

Definition Get (d : list (value * value)) (k : value) : option value := dict_get Equal (Some d) k.

Definition Has (d : list (value * value)) (k : value) : bool :=
  bool_decide (is_Some (dict_find Equal (Some d) k)).

Definition Set_ (d : list (value * value)) (k v : value) : list (value * value) :=
  match dict_find Equal (Some d) k with
  | Some i => alter (fun p => (p.1, v)) i d
  | None => d ++ [(k, v)]
  end.

Definition Append (d : list (value * value)) (k v : value) : list (value * value) := d ++ [(k, v)].

Definition Delete (d : list (value * value)) (k : value) : list (value * value) * bool :=
  match dict_find Equal (Some d) k with
  | Some i => (take i d ++ drop (S i) d, true)
  | None => (d, false)
  end.

Definition NewDict (pairs : list (value * value)) : list (value * value) :=
  fold_left (fun d p => Set_ d p.1 p.2) pairs [].

Definition Keys (d : option (list (value * value))) : list value := map fst (Pairs d).
Definition Values_ (d : option (list (value * value))) : list value := map snd (Pairs d).

(** [StringMap]: the Go map, when every key is a string. *)
Fixpoint string_map (pairs : list (value * value)) (out : gmap bytes value) : option (gmap bytes value) :=
  match pairs with
  | [] => Some out
  | (VStr s, v) :: pairs => string_map pairs (<[s := v]> out)
  | _ :: _ => None
  end.
Definition StringMap (d : option (list (value * value))) : option (gmap bytes value) := string_map (Pairs d) ∅.

(** [Set.Add], and what [NewSet] and [NewFrozenSet] do with each item. *)
Definition Add (s : list value) (v : value) : list value :=
  if containsEqual Equal s v then s else s ++ [v].
Definition NewSet (items : list value) : list value := fold_left Add items [].
Definition set_Has (s : option (list value)) (v : value) : bool := containsEqual Equal (Items s) v.
End equality.

#[global] Arguments Equal same a b : simpl never.

(** ** Type names (pytype.go) *)

(** What [reflect.Kind] tells about a host type. *)
Inductive host_kind := KMap | KSlice | KFunc | KOtherKind.

Definition PyTypeName (kind : bytes -> host_kind) (v : value) : bytes :=
  match v with
  | VNil => go "NoneType"
  | VBool _ => go "bool"
  | VInt _ _ | VBig _ => go "int"
  | VFloat32 _ | VFloat64 _ => go "float"
  | VStr _ => go "str"
  | VBytes _ => go "bytes"
  | VTuple _ => go "tuple"
  | VList _ => go "list"
  | VDict _ => go "dict"
  | VSet _ => go "set"
  | VFrozenSet _ => go "frozenset"
  | VDate _ => go "date"
  | VDateTime _ => go "datetime"
  | VTime _ => go "time"
  | VTimeDelta _ => go "timedelta"
  | VTimeZone _ => go "timezone"
  | VException e => exc_type e
  | VType _ => go "type"
  | VPath _ => go "PosixPath"
  | VFileHandlePtr _ => go "TextIOWrapper"
  | VEllipsis => go "ellipsis"
  | VNotImplemented => go "NotImplementedType"
  | VFunction _ => go "function"
  | VBuiltinFunction _ => go "builtin_function_or_method"
  | VNamedTuple n _ _ => n
  | VInstance (Instance_ (PyType n _ _ _ _) _ _) => n
  | VInstancePtr _ | VFileHandle _ | VCycle _ => go "object"
  | VOther t =>
    match kind t with
    | KMap => go "dict" | KSlice => go "list" | KFunc => go "function" | KOtherKind => go "object"
    end
  end.
