(* ===== verification/DictFacts.v ===== *)
(** Python equality is an equivalence, and a dict a map up to it.

    [py_eq] is the reference: what Python's [==] means for the values of the
    model, by their shape. [Equal] decides it for values without NaN, pointers
    and named tuples whose sets and dicts have no duplicates. *)

From Stdlib Require Import Permutation.
From S2P Require Import Prelude Utf8 GoStrings Values ValueCodec Repr CodecSpec Dict.

(** ** Fuel *)

Definition children (v : value) : list value :=
  match v with
  | VList l | VTuple l | VNamedTuple _ _ l => l
  | VSet s | VFrozenSet s => Items s
  | VDict d => map fst (Pairs d) ++ map snd (Pairs d)
  | _ => []
  end.

Lemma zmax_in x l : x ∈ l -> x <= zmax l.
Proof. induction 1 as [|y l x _ IH]; rewrite zmax_cons; lia. Qed.

Lemma elem_of_map {A B} (f : A -> B) (l : list A) y : y ∈ map f l <-> exists x, y = f x /\ x ∈ l.
Proof. rewrite list_elem_of_In, in_map_iff. setoid_rewrite list_elem_of_In. naive_solver. Qed.

Lemma elem_of_map_2 {A B} (f : A -> B) (l : list A) x : x ∈ l -> f x ∈ map f l.
Proof. rewrite elem_of_map. eauto. Qed.

Lemma nest_child v x : x ∈ children v -> nest x < nest v.
Proof.
  assert (forall l, x ∈ l -> nest x < zmax (map (fun x => 1 + nest x) l)) as Hl.
  { intros l Hx. pose proof (zmax_in (1 + nest x) _ (elem_of_map_2 (fun x => 1 + nest x) _ _ Hx)). lia. }
  assert (forall d, x ∈ map fst d ++ map snd d ->
    nest x < zmax (map (fun p : value * value => 1 + Z.max (nest p.1) (nest p.2)) d)) as Hd.
  { intros d Hx. assert (exists p, p ∈ d /\ (x = p.1 \/ x = p.2)) as (p & Hp & Hxp).
    { apply elem_of_app in Hx as [Hx|Hx]; apply elem_of_map in Hx as (p & -> & Hp); eauto. }
    pose proof (zmax_in _ _ (elem_of_map_2 (fun p : value * value => 1 + Z.max (nest p.1) (nest p.2)) _ _ Hp)).
    destruct Hxp as [->| ->]; lia. }
  destruct v as [| | | | | | | | | |l|l|n fs l|[d|]|[l|]|[l|]| | | | | | | | | | | | | | | |]; cbn [children nest Items Pairs default]; auto;
    intros H; apply not_elem_of_nil in H; done.
Qed.

(** ** Numbers *)

(** The exact value of a number: finite, in steps of 2^-1074, or infinite. *)
Inductive numval := Fin (steps : Z) | Inf (neg : bool).

Definition float_value (f : Z) : option numval :=
  if IsNaN f then None else if IsInf f then Some (Inf (f64_sign f)) else Some (Fin (f64_steps f)).

Definition number_value (x : number) : option numval :=
  match x with
  | numNone => None
  | numInt i | numBig i => Some (Fin (i * f64_unit))
  | numFloat f => float_value f
  end.

(** The size of a finite float, by its exponent and mantissa. *)
Definition magnitude (e m : Z) : Z := if e =? 0 then m else (2 ^ 52 + m) * 2 ^ (e - 1).

Lemma magnitude_lt e m e' m' : 0 <= m < 2 ^ 52 -> 0 <= m' < 2 ^ 52 -> 0 <= e < e' -> magnitude e m < magnitude e' m'.
Proof.
  intros Hm Hm' He. unfold magnitude. rewrite (proj2 (Z.eqb_neq e' 0)) by lia.
  assert (2 ^ 52 * 2 ^ (e' - 1) <= (2 ^ 52 + m') * 2 ^ (e' - 1)) by (apply Z.mul_le_mono_nonneg_r; lia).
  destruct (Z.eqb_spec e 0) as [->|Hne].
  - assert (2 ^ 0 <= 2 ^ (e' - 1)) by (apply Z.pow_le_mono_r; lia). nia.
  - assert ((2 ^ 52 + m) * 2 ^ (e - 1) < 2 ^ 53 * 2 ^ (e - 1)) by (apply Z.mul_lt_mono_pos_r; lia).
    assert (2 ^ 53 * 2 ^ (e - 1) = 2 ^ 52 * 2 ^ e) as E.
    { rewrite <- !Z.pow_add_r by lia. f_equal. lia. }
    assert (2 ^ e <= 2 ^ (e' - 1)) by (apply Z.pow_le_mono_r; lia). nia.
Qed.

Lemma magnitude_inj e m e' m' : 0 <= m < 2 ^ 52 -> 0 <= m' < 2 ^ 52 -> 0 <= e -> 0 <= e' ->
  magnitude e m = magnitude e' m' -> e = e' /\ m = m'.
Proof.
  intros Hm Hm' He He' H. destruct (Z.lt_total e e') as [Hlt|[<-|Hlt]].
  - pose proof (magnitude_lt e m e' m'). lia.
  - split; [done|]. unfold magnitude in H. destruct (Z.eqb_spec e 0); [done|].
    pose proof (Z.pow_pos_nonneg 2 (e - 1) ltac:(lia) ltac:(lia)). apply Z.mul_cancel_r in H; lia.
  - pose proof (magnitude_lt e' m' e m). lia.
Qed.

Lemma magnitude_zero e m : 0 <= m < 2 ^ 52 -> 0 <= e -> magnitude e m = 0 -> e = 0 /\ m = 0.
Proof. intros Hm He H. apply (magnitude_inj e m 0 0); lia || done. Qed.

(** A float64 is its sign, exponent and mantissa. *)
Lemma f64_split f : 0 <= f < 2 ^ 64 ->
  f = (if f64_sign f then 2 ^ 63 else 0) + f64_exponent f * 2 ^ 52 + f64_mantissa f
  /\ 0 <= f64_exponent f < 2048 /\ 0 <= f64_mantissa f < 2 ^ 52.
Proof.
  intros Hf. unfold f64_sign, f64_exponent, f64_mantissa.
  destruct (Z.leb_spec (2 ^ 63) f); Z.to_euclidean_division_equations; lia.
Qed.

Lemma f64_steps_eq f : f64_steps f = (if f64_sign f then -1 else 1) * magnitude (f64_exponent f) (f64_mantissa f).
Proof. done. Qed.

Lemma float_eq_spec f g : 0 <= f < 2 ^ 64 -> 0 <= g < 2 ^ 64 ->
  float_eq f g = true <-> exists n, float_value f = Some n /\ float_value g = Some n.
Proof.
  intros Hf Hg. pose proof (f64_split f Hf) as (Ef & Ee & Em). pose proof (f64_split g Hg) as (Eg & Ee' & Em').
  unfold float_eq, float_value, IsInf, IsNaN. rewrite !f64_steps_eq.
  set (e := f64_exponent f) in *. set (m := f64_mantissa f) in *. set (s := f64_sign f) in *.
  set (e' := f64_exponent g) in *. set (m' := f64_mantissa g) in *. set (s' := f64_sign g) in *. clearbody e m s e' m' s'.
  assert (f mod 2 ^ 63 = e * 2 ^ 52 + m) as -> by (destruct s; Z.to_euclidean_division_equations; lia).
  assert (g mod 2 ^ 63 = e' * 2 ^ 52 + m') as -> by (destruct s'; Z.to_euclidean_division_equations; lia).
  assert (magnitude 0 0 = 0) as H0 by done.
  pose proof (magnitude_inj e m e' m' ltac:(lia) ltac:(lia) ltac:(lia) ltac:(lia)) as Hinj.
  pose proof (magnitude_zero e m ltac:(lia) ltac:(lia)). pose proof (magnitude_zero e' m' ltac:(lia) ltac:(lia)).
  assert (0 <= magnitude e m) by (unfold magnitude; destruct (e =? 0); [lia|apply Z.mul_nonneg_nonneg; lia]).
  assert (0 <= magnitude e' m') by (unfold magnitude; destruct (e' =? 0); [lia|apply Z.mul_nonneg_nonneg; lia]).
  assert (Hsame : e = e' -> m = m' -> magnitude e m = magnitude e' m') by (by intros -> ->).
  assert (Hz : e = 0 -> m = 0 -> magnitude e m = 0) by (by intros -> ->).
  assert (Hz' : e' = 0 -> m' = 0 -> magnitude e' m' = 0) by (by intros -> ->).
  set (M := magnitude e m) in *. set (M' := magnitude e' m') in *. clearbody M M'.
  destruct (Z.eqb_spec e 2047), (Z.eqb_spec e' 2047), (Z.eqb_spec m 0), (Z.eqb_spec m' 0); cbn [andb negb];
    rewrite ?orb_true_iff, ?andb_true_iff, ?Z.eqb_eq; split.
  all: try done.
  all: try (intros (? & E1 & E2); try discriminate; injection E1 as <-; injection E2 as E2).
  all: try (destruct s, s'; (lia || done)).
  all: intros H'; eexists; split; [reflexivity|]; do 2 f_equal.
  all: destruct s, s'; lia || done.
Qed.

Lemma float_int_spec f i : floatEqualsInt f i = true <-> float_value f = Some (Fin (i * f64_unit)).
Proof.
  unfold floatEqualsInt, float_value. destruct (IsNaN f), (IsInf f); cbn; try done.
  assert (0 < f64_unit) as Hu by (apply Z.pow_pos_nonneg; lia). generalize dependent f64_unit. intros u Hu.
  pose proof (Z.quot_rem (f64_steps f) u ltac:(lia)) as Hqr.
  destruct (Z.eqb_spec (Z.rem (f64_steps f) u) 0) as [E|E]; cbn.
  - rewrite Z.eqb_eq. split; [intros <-; do 2 f_equal; lia|]. intros [= H]. rewrite H in *. apply Z.quot_mul. lia.
  - split; [done|]. intros [= H]. rewrite H, Z.rem_mul in E by lia. done.
Qed.

(** Floats in range, as a number of Go always is. *)
Definition number_ok (x : number) : Prop := match x with numFloat f => 0 <= f < 2 ^ 64 | numNone => False | _ => True end.

Lemma numbersEqual_spec x y : number_ok x -> number_ok y ->
  numbersEqual x y = true <-> exists n, number_value x = Some n /\ number_value y = Some n.
Proof.
  assert (0 < f64_unit) as Hu by (apply Z.pow_pos_nonneg; lia).
  assert (forall i j, (i =? j) = true <-> exists n, Some (Fin (i * f64_unit)) = Some n /\ Some (Fin (j * f64_unit)) = Some n) as Hint.
  { intros i j. rewrite Z.eqb_eq. generalize dependent f64_unit. intros u Hu. split; [intros ->; eauto|].
    intros (n & [= <-] & [= H]). apply Z.mul_cancel_r in H; lia. }
  destruct x, y; cbn [number_ok numbersEqual number_value toBig]; intros Hx Hy; try done; auto.
  1,2: rewrite float_int_spec; split; [eauto|intros (n & [= <-] & ?); done].
  1,2: rewrite float_int_spec; split; [eauto|intros (n & ? & [= <-]); done].
  by apply float_eq_spec.
Qed.

(** ** Python's equality *)

(** What Python sees of a value. *)
Inductive shape := SNum (n : option numval) | SSeq (tuple : bool) (l : list value) | SSet (l : list value)
  | SDict (d : list (value * value)) | SAtom (v : value).

Definition shape_of (v : value) : shape :=
  match asNumber v with
  | numNone =>
    match v with
    | VList l => SSeq false l
    | VTuple l | VNamedTuple _ _ l => SSeq true l
    | VSet s | VFrozenSet s => SSet (Items s)
    | VDict d => SDict (Pairs d)
    | _ => SAtom v
    end
  | x => SNum (number_value x)
  end.

(** Numbers are equal by value, sequences item by item, sets and dicts when
    their items or pairs can be brought into the same order. *)
Inductive py_eq (a b : value) : Prop :=
| py_num n : shape_of a = SNum (Some n) -> shape_of b = SNum (Some n) -> py_eq a b
| py_atom v : shape_of a = SAtom v -> shape_of b = SAtom v -> py_eq a b
| py_seq t l l' : shape_of a = SSeq t l -> shape_of b = SSeq t l' -> Forall2 py_eq l l' -> py_eq a b
| py_set l l' l'' : shape_of a = SSet l -> shape_of b = SSet l' -> l' ≡ₚ l'' -> Forall2 py_eq l l'' -> py_eq a b
| py_dict d d' d'' : shape_of a = SDict d -> shape_of b = SDict d' -> d' ≡ₚ d'' ->
    Forall2 (fun p q => py_eq p.1 q.1 /\ py_eq p.2 q.2) d d'' -> py_eq a b.

Definition py_pair (p q : value * value) : Prop := py_eq p.1 q.1 /\ py_eq p.2 q.2.

(** The parts of a shape are children of its value. *)
Definition parts (s : shape) : list value :=
  match s with SSeq _ l | SSet l => l | SDict d => map fst d ++ map snd d | _ => [] end.

Lemma parts_children v : parts (shape_of v) = children v.
Proof.
  destruct v as [| |  |[]|[]|[z|]| | | | | | | | | | | | | | | | | | | | | | | | | |]; try done; cbn;
    unfold shape_of, asNumber, uintNumber; by repeat case_match.
Qed.

Lemma shape_nest v x : x ∈ parts (shape_of v) -> nest x < nest v.
Proof. rewrite parts_children. apply nest_child. Qed.

Lemma part_pair (d : list (value * value)) p : p ∈ d -> p.1 ∈ parts (SDict d) /\ p.2 ∈ parts (SDict d).
Proof. intros Hp. cbn. rewrite !elem_of_app. split; [left; by apply (elem_of_map_2 fst)|right; by apply (elem_of_map_2 snd)]. Qed.

Lemma Forall2_in {A B} (P Q : A -> B -> Prop) l k :
  Forall2 P l k -> (forall x y, x ∈ l -> y ∈ k -> P x y -> Q x y) -> Forall2 Q l k.
Proof. induction 1; intros H'; constructor; [apply H'; [by left..|done]|]. apply IHForall2. intros. apply H'; [by right..|done]. Qed.

Lemma Forall2_chain {A} (P Q R : A -> A -> Prop) l k m :
  Forall2 P l k -> Forall2 Q k m -> (forall x y z, x ∈ l -> P x y -> Q y z -> R x z) -> Forall2 R l m.
Proof.
  intros H. revert m. induction H as [|x y l k Hxy _ IH]; intros m Hm HR; inv Hm; constructor; [eapply HR; [by left|done..]|].
  apply IH; [done|]. intros. eapply HR; [by right|done..].
Qed.

Lemma py_sym_bounded n : forall a b, nest a < n -> py_eq a b -> py_eq b a.
Proof.
  induction n as [n IH] using (well_founded_induction (Z.lt_wf 0)). intros a b Hn Hab.
  assert (forall x y, x ∈ parts (shape_of a) -> py_eq x y -> py_eq y x) as Hin.
  { intros x y Hx. apply shape_nest in Hx. pose proof (nest_nonneg x). eapply (IH (nest a)); lia. }
  destruct Hab as [m Ha Hb|v Ha Hb|t l l' Ha Hb Hl|l l' l'' Ha Hb Hp Hl|d d' d'' Ha Hb Hp Hd]; rewrite Ha in Hin; cbn [parts] in Hin.
  - by eapply py_num.
  - by eapply py_atom.
  - eapply py_seq; [done..|]. apply Forall2_flip. eapply Forall2_in; [done|]. intros. by apply Hin.
  - assert (Forall2 py_eq l'' l) as Hf by (apply Forall2_flip; eapply Forall2_in; [done|]; intros; by apply Hin).
    destruct (Permutation_Forall2 (symmetry Hp) Hf) as (k & Hk & Hk'). by eapply py_set.
  - assert (Forall2 py_pair d'' d) as Hf.
    { apply Forall2_flip. eapply Forall2_in; [done|]. intros p q Hpd%part_pair _ [H1 H2]. split; by apply Hin; [apply Hpd|]. }
    destruct (Permutation_Forall2 (symmetry Hp) Hf) as (k & Hk & Hk'). by eapply py_dict.
Qed.

#[export] Instance py_sym : Symmetric py_eq.
Proof. intros a b. apply (py_sym_bounded (nest a + 1)). lia. Qed.

Lemma py_trans_bounded n : forall a b c, nest a < n -> py_eq a b -> py_eq b c -> py_eq a c.
Proof.
  induction n as [n IH] using (well_founded_induction (Z.lt_wf 0)). intros a b c Hn Hab Hbc.
  assert (forall x y z, x ∈ parts (shape_of a) -> py_eq x y -> py_eq y z -> py_eq x z) as Hin.
  { intros x y z Hx. apply shape_nest in Hx. pose proof (nest_nonneg x). eapply (IH (nest a)); lia. }
  destruct Hab as [m Ha Hb|v Ha Hb|t l l' Ha Hb Hl|l l' l'' Ha Hb Hp Hl|d d' d'' Ha Hb Hp Hd]; rewrite Ha in Hin; cbn [parts] in Hin;
    destruct Hbc as [m' Hb' Hc|v' Hb' Hc|t' k k' Hb' Hc Hk|k k' k'' Hb' Hc Hp' Hk|e e' e'' Hb' Hc Hp' He];
    rewrite Hb in Hb'; try discriminate; simplify_eq.
  - by eapply py_num.
  - by eapply py_atom.
  - eapply py_seq; [done..|]. by eapply Forall2_chain.
  - destruct (Permutation_Forall2 Hp Hk) as (m & Hm & Hm'). eapply py_set; [done|done|by etrans|].
    by eapply Forall2_chain.
  - destruct (Permutation_Forall2 Hp He) as (m & Hm & Hm'). eapply py_dict; [done|done|by etrans|].
    eapply Forall2_chain; [done|done|]. intros p q r Hpd%part_pair [] []. split; eapply Hin; try done; apply Hpd.
Qed.

#[export] Instance py_trans : Transitive py_eq.
Proof. intros a b c. apply (py_trans_bounded (nest a + 1)). lia. Qed.

(** ** Matching lists *)

Lemma match_perm {A} (R : A -> A -> Prop) (a b : list A) :
  length a = length b -> (forall x, x ∈ a -> exists y, y ∈ b /\ R x y) ->
  ForallOrdPairs (fun x x' => forall y, R x y -> R x' y -> False) a ->
  exists b', b ≡ₚ b' /\ Forall2 R a b'.
Proof.
  revert b. induction a as [|x a IH]; intros b Hlen Hex Hap.
  - destruct b; [|done]. by exists [].
  - inv Hap. destruct (Hex x) as (y & Hy & Hxy); [by left|].
    apply list_elem_of_split in Hy as (b1 & b2 & ->).
    destruct (IH (b1 ++ b2)) as (b' & Hp & Hf); [|..|done|].
    + rewrite length_app in *. cbn in Hlen. lia.
    + intros x' Hx'. destruct (Hex x') as (y' & Hy' & Hxy'); [by right|]. exists y'. split; [|done].
      apply elem_of_app in Hy' as [Hy'|Hy']; [set_solver|]. apply elem_of_cons in Hy' as [->|Hy']; [|set_solver].
      exfalso. eapply (Forall_forall _ a) in H1; eauto.
    + exists (y :: b'). split; [|by constructor]. by rewrite <- Hp, Permutation_middle.
Qed.

Section equality.
Variable same : pointer -> value -> value -> bool.
Abbreviation Equal := (Equal same).
Abbreviation equal_step := (equal_step same).

Section ext.
Variables e e' : value -> value -> bool.
Implicit Types l : list value.

Lemma seq_loop_ext l l' : (forall x y, x ∈ l -> y ∈ l' -> e x y = e' x y) -> seq_loop e l l' = seq_loop e' l l'.
Proof.
  revert l'. induction l as [|x l IH]; intros [|y l'] H; try done. cbn. rewrite H, IH; [done|set_solver..].
Qed.

Lemma containsEqual_ext l v : (forall x, x ∈ l -> e x v = e' x v) -> containsEqual e l v = containsEqual e' l v.
Proof. induction l as [|x l IH]; intros H; [done|]. cbn. rewrite H by set_solver. f_equal. apply IH. set_solver. Qed.

Lemma find_from_ext d k : (forall x, x ∈ map fst d -> e x k = e' x k) -> find_from e d k = find_from e' d k.
Proof. induction d as [|p d IH]; intros H; [done|]. cbn. rewrite H, IH; [done|set_solver..]. Qed.

Lemma forallb_ext_in {A} (f g : A -> bool) (l : list A) : (forall x, x ∈ l -> f x = g x) -> forallb f l = forallb g l.
Proof. induction l as [|x l IH]; intros H; [done|]. cbn. rewrite H, IH; [done|set_solver..]. Qed.

Lemma find_from_lookup d k i : find_from e d k = Some i -> exists p, d !! i = Some p /\ e p.1 k = true.
Proof.
  revert i. induction d as [|p d IH]; intros i H; [done|]. cbn in H. destruct (e p.1 k) eqn:E.
  - injection H as <-. eauto.
  - apply fmap_Some in H as (j & Hj & ->). apply IH in Hj as (q & ? & ?). eauto.
Qed.

Lemma equal_step_ext a b :
  (forall x y, x ∈ children a -> y ∈ children b -> e x y = e' x y /\ e y x = e' y x) ->
  equal_step e a b = equal_step e' a b.
Proof.
  intros H. unfold Dict.equal_step. destruct (asNumber a), (asNumber b); try done.
  assert (forall l l', (forall x y, x ∈ l -> y ∈ l' -> e x y = e' x y /\ e y x = e' y x) -> seqEqual e l l' = seqEqual e' l l') as Hseq.
  { intros l l' Hl. unfold seqEqual. destruct (negb _); [done|]. apply seq_loop_ext. naive_solver. }
  assert (forall l l', (forall x y, x ∈ l -> y ∈ l' -> e x y = e' x y /\ e y x = e' y x) -> setsEqual e l l' = setsEqual e' l l') as Hset.
  { intros l l' Hl. unfold setsEqual. destruct (negb _); [done|]. apply forallb_ext_in. intros x Hx.
    apply containsEqual_ext. naive_solver. }
  destruct a; try done; destruct b; try done; cbn [children] in H; auto.
  unfold dict_equal. destruct (negb _); [done|]. apply forallb_ext_in. intros p Hp.
  assert (forall y, y ∈ map fst (Pairs d0) -> e y p.1 = e' y p.1) as Hk.
  { intros y Hy. apply (H p.1 y); apply elem_of_app; left; [by apply (elem_of_map_2 fst)|done]. }
  unfold dict_get, dict_find. rewrite <- (find_from_ext _ _ Hk).
  destruct (find_from e (Pairs d0) p.1) as [i|] eqn:Ei; [|done].
  destruct (find_from_lookup _ _ _ Ei) as (q & Hq & _). rewrite Hq. cbn.
  apply (H p.2 q.2); apply elem_of_app; right; apply (elem_of_map_2 snd); [done|]. by eapply list_elem_of_lookup_2.
Qed.
End ext.

Lemma Equal_fuel_enough n : forall m a b,
  (Z.min (nest a) (nest b) < Z.of_nat n)%Z -> (Z.min (nest a) (nest b) < Z.of_nat m)%Z ->
  Equal_fuel same n a b = Equal_fuel same m a b.
Proof.
  induction n as [|n IH]; intros [|m] a b Hn Hm;
    try (pose proof (nest_nonneg a); pose proof (nest_nonneg b); lia).
  cbn [Equal_fuel]. apply equal_step_ext. intros x y Hx%nest_child Hy%nest_child. split; apply IH; lia.
Qed.

(** [Equal] satisfies its recursive equation: it always looks deep enough. *)
Lemma Equal_unfold a b : Equal a b = equal_step Equal a b.
Proof.
  unfold Dict.Equal at 1. cbn [Equal_fuel]. apply equal_step_ext. intros x y Hx%nest_child Hy%nest_child.
  pose proof (nest_nonneg x). pose proof (nest_nonneg y). unfold Dict.Equal. split; apply Equal_fuel_enough; lia.
Qed.

(** ** Values that [Equal] compares as Python does *)

Fixpoint distinct (l : list value) : bool :=
  match l with [] => true | x :: l => forallb (fun y => negb (Equal x y)) l && distinct l end.

Definition isNone {A} (o : option A) : bool := match o with None => true | Some _ => false end.

(** No NaN, no pointers, no named tuples, no duplicates in sets and dicts. *)
Fixpoint pure_value (v : value) : bool :=
  match v with
  | VFloat32 f => in_uint 64 (f32_to_f64 f) && negb (IsNaN (f32_to_f64 f))
  | VFloat64 f => in_uint 64 f && negb (IsNaN f)
  | VList l | VTuple l => forallb pure_value l
  | VSet (Some l) | VFrozenSet (Some l) => forallb pure_value l && distinct l
  | VDict (Some d) => forallb (pair_all pure_value) d && distinct (map fst d)
  | VTime t => isNone (t_offset t) && isNone (t_tzname t)
  | VDateTime t => isNone (dt_offset t) && isNone (dt_tzname t)
  | VTimeZone t => isNone (tz_name t)
  | VType (PyType _ _ _ _ a) => isNone a
  | VInstance (Instance_ (PyType _ _ _ _ t) _ a) => isNone t && isNone a
  | VFunction f => isNone (fn_doc f)
  | VNamedTuple _ _ _ | VInstancePtr _ | VFileHandlePtr _ | VOther _ => false
  | _ => true
  end.

Lemma distinct_pairs l : distinct l = true -> ForallOrdPairs (fun x y => Equal x y = false) l.
Proof.
  induction l as [|x l IH]; cbn; [constructor|]. rewrite andb_true_iff. intros [H1 H2]. constructor; [|by apply IH].
  apply Forall_forall. intros y Hy%list_elem_of_In. rewrite forallb_forall in H1. apply negb_true_iff. by apply H1.
Qed.

(** The parts of a pure value are pure, and apart where that is asked. *)
Lemma pure_parts v x : pure_value v = true -> x ∈ parts (shape_of v) -> pure_value x = true.
Proof.
  rewrite parts_children.
  assert (forall l, forallb pure_value l = true -> x ∈ l -> pure_value x = true) as Hl.
  { intros l H Hx. rewrite forallb_forall in H. by apply H, list_elem_of_In. }
  assert (forall d, forallb (pair_all pure_value) d = true -> x ∈ map fst d ++ map snd d -> pure_value x = true) as Hd.
  { intros d H Hx. rewrite forallb_forall in H.
    apply elem_of_app in Hx as [Hx|Hx]; apply elem_of_map in Hx as (p & -> & Hp%list_elem_of_In%H);
      by apply andb_true_iff in Hp as [??]. }
  destruct v as [| | | | | | | | | |l|l|n fs l|[d|]|[l|]|[l|]| | | | | | | | | | | | | | | |];
    cbn [pure_value children Items Pairs default]; rewrite ?andb_true_iff; intros H Hx;
    try (by apply not_elem_of_nil in Hx); try (eapply Hl; [apply H|done]); try done; eapply Hd; [apply H|done].
Qed.

Lemma pure_set v l : pure_value v = true -> shape_of v = SSet l -> ForallOrdPairs (fun x y => Equal x y = false) l.
Proof.
  destruct v as [| |  |[]|[]|[z|]| | | | | | | |[d|]|[k|]|[k|]| | | | | | | | | | | | | | | |]; unfold shape_of, asNumber, uintNumber;
    repeat case_match; try done; cbn; intros Hv [= <-]; try constructor; apply andb_true_iff in Hv as [_ Hv]; by apply distinct_pairs.
Qed.

Lemma pure_dict v d : pure_value v = true -> shape_of v = SDict d ->
  ForallOrdPairs (fun p q => Equal p.1 q.1 = false) d.
Proof.
  assert (distinct (map fst d) = true -> ForallOrdPairs (fun p q => Equal p.1 q.1 = false) d) as Hd.
  { intros H%distinct_pairs. remember (map fst d) as l eqn:El. revert d El.
    induction H as [|x l Hx _ IH]; intros [|p d] El; try done; [constructor|]. injection El as -> El. constructor; [|by apply IH].
    apply Forall_forall. intros q Hq. rewrite Forall_forall in Hx. apply Hx. rewrite El. by apply (elem_of_map_2 fst). }
  destruct v as [| |  |[]|[]|[z|]| | | | | | | |[e|]|[k|]|[k|]| | | | | | | | | | | | | | | |]; unfold shape_of, asNumber, uintNumber;
    repeat case_match; try done; cbn; intros Hv [= <-]; [|constructor]. apply andb_true_iff in Hv as [_ Hv]; by apply Hd.
Qed.

Definition atom_eq (a b : value) : bool :=
  match a, b with
  | VNil, VNil => true
  | VStr x, VStr y | VBytes x, VBytes y => bool_decide (x = y)
  | _, _ => struct_eq same a b
  end.

Lemma atom_eq_spec a b x y : pure_value a = true -> pure_value b = true -> shape_of a = SAtom x -> shape_of b = SAtom y ->
  x = a /\ y = b /\ (atom_eq a b = true <-> a = b).
Proof.
  intros Ha Hb Sa Sb.
  assert (forall v w, shape_of v = SAtom w -> w = v) as Hw.
  { intros v w. unfold shape_of. destruct (asNumber v); try done. destruct v; congruence. }
  split; [by apply Hw|]. split; [by apply Hw|]. clear Hw.
  assert (asNumber a = numNone) as Na by (unfold shape_of in Sa; by destruct (asNumber a)).
  destruct a as [| | | | |[z|]| | | | | | | | | | | | | | | | |[n id o dc [d|]]|[[n ti o dc [d|]] id [e|]]| | | | | | | |];
    try discriminate Ha; try discriminate Sa; clear Sa;
    destruct b as [| | | | |[z'|]| | | | | | | | | | | | | | | | |[n' id' o' dc' [d'|]]|[[n' ti' o' dc' [d'|]] id' [e'|]]| | | | | | | |];
    try discriminate Hb; try discriminate Sb; clear Sb; try done;
    try (exfalso; clear -Na; cbn in Na; unfold uintNumber in Na; repeat case_match; discriminate).
  all: repeat match goal with
       | t : time |- _ => destruct t as [? ? ? ? [?|] [?|] ?]
       | t : datetime |- _ => destruct t as [? ? ? ? ? ? ? [?|] [?|]]
       | t : timezone |- _ => destruct t as [? [?|]]
       | t : function |- _ => destruct t as [? [?|]]
       | t : date |- _ => destruct t | t : timedelta |- _ => destruct t | t : exception |- _ => destruct t
       | t : filehandle |- _ => destruct t | t : cycle |- _ => destruct t
       end; try discriminate Ha; try discriminate Hb;
    cbn; rewrite ?andb_true_iff, ?Z.eqb_eq, ?bool_decide_eq_true, ?Bool.eqb_true_iff; naive_solver.
Qed.

Lemma atom_eq_shape a b x y : pure_value a = true -> pure_value b = true -> shape_of a = SAtom x -> shape_of b = SAtom y ->
  atom_eq a b = true <-> py_eq a b.
Proof.
  intros Ha Hb Sa Sb. destruct (atom_eq_spec a b x y Ha Hb Sa Sb) as (-> & -> & H). rewrite H. split.
  - intros <-. by eapply py_atom.
  - destruct 1; congruence.
Qed.

(** One step of [Equal], by shapes. *)
Definition shape_eq (e : value -> value -> bool) (a b : value) : bool :=
  match shape_of a, shape_of b with
  | SNum _, SNum _ => numbersEqual (asNumber a) (asNumber b)
  | SSeq t l, SSeq t' l' => Bool.eqb t t' && seqEqual e l l'
  | SSet l, SSet l' => setsEqual e l l'
  | SDict d, SDict d' => dict_equal e (Some d) (Some d')
  | SAtom _, SAtom _ => atom_eq a b
  | _, _ => false
  end.

Lemma equal_step_shape e a b : pure_value a = true -> pure_value b = true -> equal_step e a b = shape_eq e a b.
Proof.
  intros Ha Hb. unfold Dict.equal_step, shape_eq, shape_of.
  destruct (asNumber a) eqn:Ea, (asNumber b) eqn:Eb; try done.
  - destruct a; try discriminate Ha; try discriminate Ea; destruct b; try discriminate Hb; try discriminate Eb; try reflexivity.
    all: try (destruct p; reflexivity). all: try (destruct t as [? ? ? ? ?]; reflexivity). all: destruct i as [[] ? ?]; reflexivity.
  - by destruct a.
  - by destruct a.
  - by destruct a.
  - by destruct b.
  - by destruct b.
  - by destruct b.
Qed.

Lemma len_length {A} (a b : list A) : (len a =? len b) = true <-> length a = length b.
Proof. unfold len. rewrite Z.eqb_eq. lia. Qed.

Lemma seqEqual_spec e l l' : (forall x y, x ∈ l -> y ∈ l' -> e x y = true <-> py_eq x y) ->
  seqEqual e l l' = true <-> Forall2 py_eq l l'.
Proof.
  intros He. unfold seqEqual.
  assert (length l = length l' -> seq_loop e l l' = true <-> Forall2 py_eq l l') as Hloop.
  { revert l' He. induction l as [|x l IH]; intros [|y l'] He Hlen; try done. cbn.
    rewrite andb_true_iff, Forall2_cons, He by (by left). rewrite IH; [done| |by injection Hlen].
    intros. apply He; by right. }
  destruct (len l =? len l') eqn:El; cbn.
  - apply Hloop. by apply len_length.
  - split; [done|]. intros H%Forall2_length%len_length. congruence.
Qed.

Lemma containsEqual_spec e l v : (forall x, x ∈ l -> e x v = true <-> py_eq x v) ->
  containsEqual e l v = true <-> exists x, x ∈ l /\ py_eq v x.
Proof.
  intros He. unfold containsEqual. rewrite existsb_exists. setoid_rewrite <- list_elem_of_In. split.
  - intros (x & Hx & H). exists x. split; [done|]. symmetry. by apply He.
  - intros (x & Hx & H). exists x. split; [done|]. apply He; [done|]. by symmetry.
Qed.

Lemma Forall2_perm_matched {A} (R : A -> A -> Prop) a b b' : b ≡ₚ b' -> Forall2 R a b' ->
  length a = length b /\ forall x, x ∈ a -> exists y, y ∈ b /\ R x y.
Proof.
  intros Hp Hf. split; [by rewrite Hp, (Forall2_length _ _ _ Hf)|]. intros x Hx. apply list_elem_of_lookup_1 in Hx as [i Hi].
  destruct (Forall2_lookup_l _ _ _ _ _ Hf Hi) as (y & Hy & Hr). exists y. split; [|done].
  rewrite Hp. by eapply list_elem_of_lookup_2.
Qed.

Lemma setsEqual_spec e l l' : (forall x y, x ∈ l -> y ∈ l' -> e y x = true <-> py_eq y x) ->
  ForallOrdPairs (fun x y => ~ py_eq x y) l ->
  setsEqual e l l' = true <-> exists l'', l' ≡ₚ l'' /\ Forall2 py_eq l l''.
Proof.
  intros He Hap. unfold setsEqual. destruct (len l =? len l') eqn:El; cbn.
  - rewrite forallb_forall. setoid_rewrite <- list_elem_of_In. split.
    + intros H. apply match_perm; [by apply len_length| |].
      * intros x Hx. apply (containsEqual_spec e l' x); auto.
      * clear -Hap. induction Hap as [|x l Hx _ IH]; constructor; [|done]. eapply Forall_impl; [done|].
        intros x' Hne y H1 H2. apply Hne. by rewrite H1.
    + intros (l'' & Hp & Hf) x Hx. destruct (Forall2_perm_matched _ _ _ _ Hp Hf) as [_ Hm].
      apply containsEqual_spec; auto.
  - split; [done|]. intros (l'' & Hp & Hf). destruct (Forall2_perm_matched _ _ _ _ Hp Hf) as [Hl%len_length _]. congruence.
Qed.

Lemma find_from_some e d k p : p ∈ d -> e p.1 k = true -> exists i, find_from e d k = Some i.
Proof.
  induction d as [|q d IH]; intros Hp H; [by apply not_elem_of_nil in Hp|]. cbn.
  destruct (e q.1 k) eqn:E; [by eexists|]. apply elem_of_cons in Hp as [->|Hp]; [congruence|].
  destruct (IH Hp H) as [i ->]. by eexists.
Qed.

(** In a dict without duplicates a key is found exactly where it is. *)
Lemma dict_get_spec e d k v :
  (forall p, p ∈ d -> e p.1 k = true <-> py_eq p.1 k) -> ForallOrdPairs (fun p q => ~ py_eq p.1 q.1) d ->
  dict_get e (Some d) k = Some v <-> exists p, p ∈ d /\ py_eq p.1 k /\ p.2 = v.
Proof.
  intros He Hap. unfold dict_get, dict_find. change (Pairs (Some d)) with d.
  assert (forall p q, p ∈ d -> q ∈ d -> py_eq p.1 k -> py_eq q.1 k -> p = q) as Huniq.
  { intros p q Hp%list_elem_of_In Hq%list_elem_of_In H1 H2.
    destruct (ForallOrdPairs_In Hap p q Hp Hq) as [->|[H|H]]; [done|destruct H..]; [by rewrite H1|by rewrite H2]. }
  split.
  - destruct (find_from e d k) as [i|] eqn:Ei; [|done]. destruct (find_from_lookup _ _ _ _ Ei) as (p & Hp & Hk). rewrite Hp. cbn.
    intros [= <-]. exists p. assert (p ∈ d) by by eapply list_elem_of_lookup_2. split; [done|]. split; [by apply He|done].
  - intros (p & Hp & Hk & <-). destruct (find_from_some e d k p) as [i Ei]; [done|by apply He|]. rewrite Ei.
    destruct (find_from_lookup _ _ _ _ Ei) as (q & Hq & Hqk). rewrite Hq. cbn. do 2 f_equal.
    assert (q ∈ d) by by eapply list_elem_of_lookup_2. apply Huniq; try done. by apply He.
Qed.

Lemma dict_equal_spec e d d' :
  (forall x y, x ∈ parts (SDict d) -> y ∈ parts (SDict d') -> (e x y = true <-> py_eq x y) /\ (e y x = true <-> py_eq y x)) ->
  ForallOrdPairs (fun p q => ~ py_eq p.1 q.1) d -> ForallOrdPairs (fun p q => ~ py_eq p.1 q.1) d' ->
  dict_equal e (Some d) (Some d') = true <-> exists d'', d' ≡ₚ d'' /\ Forall2 py_pair d d''.
Proof.
  intros He Hd Hd'. unfold dict_equal, Len. change (Pairs (Some d)) with d. change (Pairs (Some d')) with d'.
  assert (forall p, p ∈ d -> match dict_get e (Some d') p.1 with Some v => e p.2 v | None => false end = true
    <-> exists q, q ∈ d' /\ py_pair p q) as Hget.
  { intros p Hp. destruct (part_pair d p Hp) as [Hp1 Hp2].
    assert (forall q, q ∈ d' -> e q.1 p.1 = true <-> py_eq q.1 p.1) as Hk by (intros q Hq; apply He; [done|by apply part_pair]).
    pose proof (fun v => dict_get_spec e d' p.1 v Hk Hd') as Hg. split.
    - destruct (dict_get e (Some d') p.1) as [v|] eqn:Ev; [|done]. intros H2.
      destruct (proj1 (Hg v) eq_refl) as (q & Hq & Hqk & <-). exists q. split; [done|]. split; [by symmetry|].
      by apply (He p.2 q.2 Hp2 (proj2 (part_pair d' q Hq))).
    - intros (q & Hq & [H1 H2]). rewrite (proj2 (Hg q.2)) by (exists q; split_and!; [done|by symmetry|done]).
      by apply (He p.2 q.2 Hp2 (proj2 (part_pair d' q Hq))). }
  destruct (len d =? len d') eqn:El; cbn [negb].
  - rewrite forallb_forall. setoid_rewrite <- list_elem_of_In. split.
    + intros H. apply match_perm; [by apply len_length| |].
      * intros p Hp. by apply Hget, H.
      * clear -Hd. induction Hd as [|p d Hp _ IH]; constructor; [|done]. eapply Forall_impl; [done|].
        intros p' Hne q [H1 _] [H2 _]. apply Hne. by rewrite H1.
    + intros (d'' & Hp & Hf) p Hpd. destruct (Forall2_perm_matched _ _ _ _ Hp Hf) as [_ Hm]. apply Hget; auto.
  - split; [done|]. intros (d'' & Hp & Hf). destruct (Forall2_perm_matched _ _ _ _ Hp Hf) as [Hl%len_length _]. congruence.
Qed.

Lemma ForallOrdPairs_in {A} (P Q : A -> A -> Prop) l :
  ForallOrdPairs P l -> (forall x y, x ∈ l -> y ∈ l -> P x y -> Q x y) -> ForallOrdPairs Q l.
Proof.
  induction 1 as [|x l Hx _ IH]; intros H; constructor.
  - rewrite Forall_forall in *. intros y Hy. apply H; [by left|by right|by apply Hx].
  - apply IH. intros. apply H; [by right..|done].
Qed.

Lemma shape_num v o : shape_of v = SNum o -> asNumber v <> numNone /\ o = number_value (asNumber v).
Proof. unfold shape_of. destruct (asNumber v); [destruct v; done|..]; intros [= <-]; done. Qed.

Lemma pure_number v : pure_value v = true -> asNumber v <> numNone -> number_ok (asNumber v).
Proof.
  intros Hv. destruct v as [| | |[]|k z|[z|]| | | | | | | | | | | | | | | | | | | | | | | | | |]; try done; cbn.
  - destruct k; unfold uintNumber; by repeat case_match.
  - by destruct (in_int 64 z).
  - intros _. cbn [pure_value] in Hv. apply andb_true_iff in Hv as [Hv _]. bool_lia.
  - intros _. cbn [pure_value] in Hv. apply andb_true_iff in Hv as [Hv _]. bool_lia.
Qed.

Lemma pure_numval v : pure_value v = true -> asNumber v <> numNone -> exists n, number_value (asNumber v) = Some n.
Proof.
  assert (forall f, negb (IsNaN f) = true -> exists n, float_value f = Some n) as Hf.
  { intros f Hf. unfold float_value. destruct (IsNaN f); [done|]. destruct (IsInf f); eauto. }
  intros Hv. destruct v as [| | |[]|k z|[z|]| | | | | | | | | | | | | | | | | | | | | | | | | |]; try done; cbn; eauto.
  - destruct k; unfold uintNumber; repeat case_match; cbn; eauto.
  - destruct (in_int 64 z); cbn; eauto.
  - intros _. apply Hf. apply andb_true_iff in Hv. tauto.
  - intros _. apply Hf. apply andb_true_iff in Hv. tauto.
Qed.

Lemma Equal_spec_bounded n : forall a b, nest a < n -> nest b < n -> pure_value a = true -> pure_value b = true ->
  Equal a b = true <-> py_eq a b.
Proof.
  induction n as [n IH] using (well_founded_induction (Z.lt_wf 0)). intros a b Hna Hnb Ha Hb.
  assert (forall x y, (x ∈ parts (shape_of a) \/ x ∈ parts (shape_of b)) -> (y ∈ parts (shape_of a) \/ y ∈ parts (shape_of b)) ->
    Equal x y = true <-> py_eq x y) as Hin.
  { intros x y Hx Hy.
    assert (nest x < n - 1 /\ pure_value x = true) as [] by
      (destruct Hx as [Hx|Hx]; (split; [apply shape_nest in Hx; lia|by eapply pure_parts; [|exact Hx]])).
    assert (nest y < n - 1 /\ pure_value y = true) as [] by
      (destruct Hy as [Hy|Hy]; (split; [apply shape_nest in Hy; lia|by eapply pure_parts; [|exact Hy]])).
    pose proof (nest_nonneg x). apply (IH (n - 1)); lia || done. }
  rewrite Equal_unfold, equal_step_shape by done. unfold shape_eq.
  destruct (shape_of a) as [oa|ta la|la|da|va] eqn:Sa, (shape_of b) as [ob|tb lb|lb|db|vb] eqn:Sb; cbn [parts] in Hin;
    try (split; [done|destruct 1; congruence]).
  - destruct (shape_num _ _ Sa) as [Na ->], (shape_num _ _ Sb) as [Nb ->].
    rewrite numbersEqual_spec by by apply pure_number. split.
    + intros (v & H1 & H2). apply (py_num _ _ v); congruence.
    + destruct 1 as [v H1 H2| | | |]; try congruence. exists v. split; congruence.
  - rewrite andb_true_iff, Bool.eqb_true_iff, seqEqual_spec by auto. split.
    + intros [<- Hf]. by eapply py_seq.
    + destruct 1; try congruence. simplify_eq. split; congruence.
  - rewrite setsEqual_spec; [|auto|].
    + split; [intros (l & Hp & Hf); by eapply py_set|]. destruct 1 as [| | |k k' k'' E1 E2 Hp Hf|]; try congruence.
      rewrite Sa in E1. rewrite Sb in E2. injection E1 as <-. injection E2 as <-. eauto.
    + eapply ForallOrdPairs_in; [exact (pure_set a la Ha Sa)|]. intros x y Hx Hy H1 H2%Hin; [congruence|auto..].
  - rewrite dict_equal_spec; [|auto|..].
    + split; [intros (l & Hp & Hf); by eapply py_dict|]. destruct 1 as [| | | |k k' k'' E1 E2 Hp Hf]; try congruence.
      rewrite Sa in E1. rewrite Sb in E2. injection E1 as <-. injection E2 as <-. eauto.
    + eapply ForallOrdPairs_in; [exact (pure_dict a da Ha Sa)|]. intros x y Hx%part_pair Hy%part_pair H1 H2%Hin; [congruence|naive_solver..].
    + eapply ForallOrdPairs_in; [exact (pure_dict b db Hb Sb)|]. intros x y Hx%part_pair Hy%part_pair H1 H2%Hin; [congruence|naive_solver..].
  - by eapply atom_eq_shape.
Qed.

Lemma Equal_spec a b : pure_value a = true -> pure_value b = true -> Equal a b = true <-> py_eq a b.
Proof. apply (Equal_spec_bounded (Z.max (nest a) (nest b) + 1)); lia. Qed.

Lemma py_refl_bounded n : forall a, nest a < n -> pure_value a = true -> py_eq a a.
Proof.
  induction n as [n IH] using (well_founded_induction (Z.lt_wf 0)). intros a Hn Ha.
  assert (forall x, x ∈ parts (shape_of a) -> py_eq x x) as Hin.
  { intros x Hx. pose proof (shape_nest _ _ Hx). pose proof (nest_nonneg x).
    apply (IH (nest a)); [lia..|by eapply pure_parts; [|exact Hx]]. }
  assert (forall A (R : A -> A -> Prop) l, (forall x, x ∈ l -> R x x) -> Forall2 R l l) as Hrefl.
  { intros A R l H. induction l as [|x l IHl]; constructor; [apply H; by left|apply IHl; intros; apply H; by right]. }
  destruct (shape_of a) as [o|t l|l|d|v] eqn:Sa; cbn [parts] in Hin.
  - destruct (shape_num _ _ Sa) as [Na ->]. destruct (pure_numval a Ha Na) as [v Hv]. apply (py_num _ _ v); congruence.
  - eapply py_seq; eauto.
  - eapply py_set; eauto.
  - eapply py_dict; [done|done|done|]. apply Hrefl. intros p Hp%part_pair. split; apply Hin; apply Hp.
  - by eapply py_atom.
Qed.

Lemma Equal_cong a b c : pure_value a = true -> pure_value b = true -> pure_value c = true ->
  Equal a b = true -> Equal a c = Equal b c.
Proof.
  intros Ha Hb Hc Hab. apply eq_true_iff_eq. rewrite !Equal_spec in * by done. split; intros H; [|by etrans].
  etrans; [by symmetry|done].
Qed.

Lemma Equal_sym a b : pure_value a = true -> pure_value b = true -> Equal a b = Equal b a.
Proof. intros Ha Hb. apply eq_true_iff_eq. rewrite !Equal_spec by done. split; by intros ?%symmetry. Qed.

(** ** Dicts as maps up to equality *)

Abbreviation Get := (Get same).
Abbreviation Has := (Has same).
Abbreviation Set_ := (Set_ same).
Abbreviation Delete := (Delete same).
Abbreviation NewDict := (NewDict same).

Definition pure_keys (d : list (value * value)) : Prop := Forall (fun p => pure_value p.1 = true) d.
Definition dict_ok (d : list (value * value)) : Prop := pure_keys d /\ distinct (map fst d) = true.

Lemma Get_cons p d k : Get (p :: d) k = if Equal p.1 k then Some p.2 else Get d k.
Proof.
  unfold Dict.Get, dict_get, dict_find. change (Pairs (Some (p :: d))) with (p :: d). change (Pairs (Some d)) with d. cbn [find_from].
  destruct (Equal p.1 k); [done|]. by destruct (find_from _ d k).
Qed.

Lemma Has_cons p d k : Has (p :: d) k = Equal p.1 k || Has d k.
Proof.
  unfold Dict.Has, dict_find. change (Pairs (Some (p :: d))) with (p :: d). change (Pairs (Some d)) with d. cbn [find_from].
  destruct (Equal p.1 k); [done|]. by destruct (find_from _ d k).
Qed.

Lemma Set_cons p d k v : Set_ (p :: d) k v = if Equal p.1 k then (p.1, v) :: d else p :: Set_ d k v.
Proof.
  unfold Dict.Set_, dict_find. change (Pairs (Some (p :: d))) with (p :: d). change (Pairs (Some d)) with d. cbn [find_from].
  destruct (Equal p.1 k); [done|]. by destruct (find_from _ d k).
Qed.

Lemma Delete_cons p d k : Delete (p :: d) k
  = if Equal p.1 k then (d, true) else let '(d', found) := Delete d k in (p :: d', found).
Proof.
  unfold Dict.Delete, dict_find. change (Pairs (Some (p :: d))) with (p :: d). change (Pairs (Some d)) with d. cbn [find_from].
  destruct (Equal p.1 k); [done|]. by destruct (find_from _ d k).
Qed.

Lemma Has_Get d k : Has d k = negb (isNone (Get d k)).
Proof. induction d as [|p d IH]; [done|]. rewrite Has_cons, Get_cons, IH. by destruct (Equal p.1 k). Qed.

Lemma Set_Get d k v k' : pure_keys d -> pure_value k = true -> pure_value k' = true ->
  Get (Set_ d k v) k' = if Equal k k' then Some v else Get d k'.
Proof.
  intros Hd Hk Hk'. induction Hd as [|p d Hp _ IH]; [unfold Dict.Set_; cbn; by rewrite Get_cons|].
  rewrite Set_cons, Get_cons. destruct (Equal p.1 k) eqn:E; rewrite Get_cons; cbn.
  - rewrite (Equal_cong p.1 k k' Hp Hk Hk' E). by destruct (Equal k k').
  - rewrite IH. destruct (Equal p.1 k') eqn:E', (Equal k k') eqn:E''; try done.
    rewrite (Equal_sym k k') in E'' by done. rewrite (Equal_cong p.1 k' k), E'' in E by done. done.
Qed.

Lemma Set_keys d k v : map fst (Set_ d k v) = if Has d k then map fst d else map fst d ++ [k].
Proof.
  induction d as [|p d IH]; [done|]. rewrite Set_cons, Has_cons. destruct (Equal p.1 k); [done|]. cbn. rewrite IH.
  by destruct (Has d k).
Qed.

Lemma Has_none d k : Has d k = false <-> Forall (fun x => Equal x k = false) (map fst d).
Proof.
  induction d as [|p d IH]; [by split|]. rewrite Has_cons, orb_false_iff, IH. cbn. by rewrite Forall_cons.
Qed.

Lemma distinct_snoc l k : distinct l = true -> Forall (fun x => Equal x k = false) l -> distinct (l ++ [k]) = true.
Proof.
  induction l as [|x l IH]; [done|]. cbn. rewrite !andb_true_iff, Forall_cons. intros [H1 H2] [H3 H4].
  split; [|by apply IH]. rewrite forallb_app, H1. cbn. by rewrite H3.
Qed.

Lemma Set_ok d k v : dict_ok d -> pure_value k = true -> dict_ok (Set_ d k v).
Proof.
  assert (forall d, pure_keys d <-> Forall (fun x => pure_value x = true) (map fst d)) as Hpk.
  { intros e. unfold pure_keys. induction e as [|p e IH]; [by split|]. cbn. by rewrite !Forall_cons, IH. }
  intros [H1 H2] Hk. unfold dict_ok. rewrite Hpk, Set_keys in *. destruct (Has d k) eqn:E; [done|].
  split; [by apply Forall_app; auto|]. apply distinct_snoc; [done|]. by apply Has_none.
Qed.

Lemma Delete_spec d k : dict_ok d -> pure_value k = true ->
  dict_ok (Delete d k).1 /\ (Delete d k).1 `sublist_of` d /\ (Delete d k).2 = Has d k
  /\ forall k', pure_value k' = true -> Get (Delete d k).1 k' = if Equal k k' then None else Get d k'.
Proof.
  intros [H1 H2] Hk. induction H1 as [|p d Hp Hd IH].
  - split; [by split; [constructor|]|]. split; [constructor|]. split; [done|]. intros k' _. by destruct (Equal k k').
  - cbn in H2. apply andb_true_iff in H2 as [H2 H3]. rewrite Delete_cons, Has_cons. destruct (Equal p.1 k) eqn:E; cbn.
    + split_and!; [done|by constructor|done|]. intros k' Hk'. rewrite Get_cons, (Equal_cong p.1 k k' Hp Hk Hk' E).
      destruct (Equal k k') eqn:E'; [|done].
      assert (Has d k' = false) as Hh.
      { apply Has_none. apply Forall_forall. intros x Hx. rewrite forallb_forall in H2.
        assert (pure_value x = true) as Hpx.
        { apply elem_of_map in Hx as (q & -> & Hq). by eapply (proj1 (Forall_forall _ _) Hd). }
        pose proof (H2 x (proj1 (list_elem_of_In _ _) Hx)) as Hne. apply negb_true_iff in Hne.
        rewrite (Equal_sym x k') by done. rewrite <- (Equal_cong k k' x), <- (Equal_cong p.1 k x) by done. done. }
      rewrite Has_Get in Hh. by destruct (Get d k').
    + destruct (IH H3) as ((I1 & I2) & I3 & I4 & I5). destruct (Delete d k) as [d' found]. cbn in *.
      split_and!; [|by constructor|done|].
      * split; [by constructor|]. cbn. rewrite I2, andb_true_r. rewrite forallb_forall in *. intros x Hx. apply H2.
        rewrite <- list_elem_of_In in *. apply elem_of_map in Hx as (q & -> & Hq). apply (elem_of_map_2 fst).
        eapply elem_of_submseteq; [exact Hq|by apply sublist_submseteq].
      * intros k' Hk'. rewrite !Get_cons, I5 by done. destruct (Equal p.1 k') eqn:E', (Equal k k') eqn:E''; try done.
        rewrite (Equal_sym k k') in E'' by done. rewrite (Equal_cong p.1 k' k), E'' in E by done. done.
Qed.

(** The last value given for a key. *)
Definition last_value (pairs : list (value * value)) (k : value) (start : option value) : option value :=
  fold_left (fun o p => if Equal p.1 k then Some p.2 else o) pairs start.

Lemma NewDict_from pairs d : pure_keys pairs -> dict_ok d ->
  dict_ok (fold_left (fun d p => Set_ d p.1 p.2) pairs d)
  /\ forall k, pure_value k = true -> Get (fold_left (fun d p => Set_ d p.1 p.2) pairs d) k = last_value pairs k (Get d k).
Proof.
  intros Hp. revert d. induction Hp as [|p pairs Hp _ IH]; intros d Hd; [done|]. cbn.
  destruct (IH (Set_ d p.1 p.2)) as [H1 H2]; [by apply Set_ok|]. split; [done|]. intros k Hk.
  rewrite H2, Set_Get by (done || apply Hd). done.
Qed.
End equality.





(** Where [Equal] departs from Python. A named tuple equals the tuple of its
    values, but that tuple does not equal it, so whether a dict finds a key depends
    on which of the two it holds; and two aware datetimes with equal fields are
    different unless they share the pointers to their offsets, as two decoded ones
    never do. *)
Theorem equal_departs_from_python (same : pointer -> value -> value -> bool) (n : bytes) (fs : list bytes) (l : list value)
    (v : value) (t : datetime) (off : Z) :
  forallb (pure_value same) l = true -> dt_offset t = Some off -> same POffset (VDateTime t) (VDateTime t) = false ->
  Equal same (VNamedTuple n fs l) (VTuple l) = true
  /\ Equal same (VTuple l) (VNamedTuple n fs l) = false
  /\ py_eq (VTuple l) (VNamedTuple n fs l)
  /\ Get same [(VNamedTuple n fs l, v)] (VTuple l) = Some v
  /\ Get same [(VTuple l, v)] (VNamedTuple n fs l) = None
  /\ Equal same (VDateTime t) (VDateTime t) = false.
Proof.
  intros Hl Ht Hs.
  assert (forall x, x ∈ l -> pure_value same x = true) as Hin.
  { intros x Hx. rewrite forallb_forall in Hl. by apply Hl, list_elem_of_In. }
  assert (forall x, x ∈ l -> py_eq x x) as Hpy by (intros x Hx; eapply py_refl_bounded with (n := nest x + 1); [lia|auto]).
  assert (Forall2 py_eq l l) as Hf.
  { clear -Hpy. induction l as [|x l IH]; constructor; [apply Hpy; by left|apply IH; intros; apply Hpy; by right]. }
  assert (Equal same (VNamedTuple n fs l) (VTuple l) = true) as H1.
  { rewrite Equal_unfold. cbn. apply seqEqual_spec; [|done]. intros. apply Equal_spec; auto. }
  assert (Equal same (VTuple l) (VNamedTuple n fs l) = false) as H2 by (by rewrite Equal_unfold).
  split_and!; [done|done|by eapply py_seq| | |].
  - by rewrite Get_cons; cbn [fst]; rewrite H1.
  - by rewrite Get_cons; cbn [fst]; rewrite H2.
  - rewrite Equal_unfold. cbn. rewrite Ht. cbn. rewrite Hs, !andb_false_r. done.
Qed.

Lemma equal_departs_from_python_witness :
  let t := DateTime 2024 1 1 0 0 0 0 (Some 3600) None in
  Equal (fun _ _ _ => false) (VTuple [VInt KInt 1]) (VNamedTuple (go "P") [go "x"] [VInt KInt 1]) = false
  /\ Equal (fun _ _ _ => false) (VDateTime t) (VDateTime t) = false.
Proof.
  intros t.
  destruct (equal_departs_from_python (fun _ _ _ => false) (go "P") [go "x"] [VInt KInt 1] VNil t 3600
    ltac:(vm_compute; reflexivity) eq_refl eq_refl) as (_ & H & _ & _ & _ & H').
  split; assumption.
Defined.
