(* ===== verification/OsAccess.v ===== *)
(** The in-memory file system and environment of sandboxed code,
    src/sandbox/osaccess: file.go, osaccess.go and the dispatch of ops.go.

    Directories and files are objects that the tree refers to: a store maps
    their identities to their contents, so that two references to one file, or
    the test [d == other] on directories, mean what they mean in the code. The
    files are [MemoryFile]s; other implementations of the File interface are the
    host's code. *)

From S2P Require Import Prelude Utf8 GoStrings Values Repr.

(** ** Paths *)

Definition slash_ : byte := "/"%byte.

Record purePath := PurePath { pp_root : bytes; pp_parts : list bytes }.

Definition is_segment (seg : bytes) : bool :=
  negb (bool_decide (seg = [])) && negb (bool_decide (seg = go ".")).

Definition parsePath (s : bytes) : purePath :=
  PurePath
    (if HasPrefix s (go "/")
     then if HasPrefix s (go "//") && negb (HasPrefix s (go "///")) then go "//" else go "/"
     else [])
    (List.filter is_segment (split_byte slash_ s)).

Definition pp_String (p : purePath) : bytes :=
  let s := pp_root p ++ join_byte slash_ (pp_parts p) in
  if bool_decide (s = []) then go "." else s.

Definition isAbs (p : purePath) : bool := negb (bool_decide (pp_root p = [])).

Definition allParts (p : purePath) : list bytes :=
  if bool_decide (pp_root p = []) then pp_parts p else pp_root p :: pp_parts p.

Definition pp_name (p : purePath) : bytes := default [] (last (pp_parts p)).

Definition pp_parent (p : purePath) : purePath :=
  match pp_parts p with [] => p | _ => PurePath (pp_root p) (removelast (pp_parts p)) end.

Definition pp_join (p other : purePath) : purePath :=
  if isAbs other then other else PurePath (pp_root p) (pp_parts p ++ pp_parts other).

Definition relativeTo (p prefix : purePath) : option purePath :=
  let all := allParts p in
  let pre := allParts prefix in
  if bool_decide (take (length pre) all = pre) then Some (PurePath [] (drop (length pre) all)) else None.

(** ** Objects *)

(** What a file holds: a string, bytes, or a value of another Go type. *)
Inductive content := CText (s : bytes) | CBytes (s : bytes) | COther (goType : bytes).

Record memfile := MemFile {
  mf_path : bytes; mf_name : bytes; mf_content : content; mf_perm : Z; mf_deleted : bool }.

Inductive entry := EFile (f : nat) | EDir (d : nat).

#[export] Instance entry_eq_decision : EqDecision entry.
Proof. solve_decision. Defined.

Record dirobj := DirObj { dir_names : list bytes; dir_entries : gmap bytes entry }.

Record osaccess := OSAccess {
  fs_dirs : gmap nat dirobj; fs_files : gmap nat memfile; fs_tree : nat;
  fs_list : list nat; fs_environ : gmap bytes bytes }.

Definition set_dirs (m : gmap nat dirobj) (o : osaccess) : osaccess :=
  OSAccess m (fs_files o) (fs_tree o) (fs_list o) (fs_environ o).
Definition set_files (m : gmap nat memfile) (o : osaccess) : osaccess :=
  OSAccess (fs_dirs o) m (fs_tree o) (fs_list o) (fs_environ o).
Definition set_list (l : list nat) (o : osaccess) : osaccess :=
  OSAccess (fs_dirs o) (fs_files o) (fs_tree o) l (fs_environ o).

Definition default_perm : Z := 420. (* 0o644 *)

Definition NewMemoryFile (path : bytes) (c : content) (perm : Z) : memfile :=
  let p := parsePath path in MemFile (pp_String p) (pp_name p) c perm false.

Definition newDir : dirobj := DirObj [] ∅.

Definition dir_set (name : bytes) (e : entry) (d : dirobj) : dirobj :=
  DirObj (match dir_entries d !! name with Some _ => dir_names d | None => dir_names d ++ [name] end)
         (<[name := e]> (dir_entries d)).

Fixpoint remove_first (name : bytes) (l : list bytes) : list bytes :=
  match l with
  | [] => []
  | n :: l => if bool_decide (n = name) then l else n :: remove_first name l
  end.

(** [None] is the KeyError. *)
Definition dir_del (name : bytes) (d : dirobj) : option dirobj :=
  match dir_entries d !! name with
  | None => None
  | Some _ => Some (DirObj (remove_first name (dir_names d)) (delete name (dir_entries d)))
  end.

(** ** The state and error monad of the operations *)

(** [monterr.Raise(excType, message)], and [ErrNotImplemented]. *)
Inductive oserror := Raise (excType message : bytes) | ErrNotImplemented.

Definition OS (A : Type) : Type := osaccess -> (oserror + A) * osaccess.

#[export] Instance OS_ret : MRet OS := fun _ a o => (inr a, o).
#[export] Instance OS_bind : MBind OS := fun _ _ f m o =>
  match m o with (inl e, o) => (inl e, o) | (inr a, o) => f a o end.

Definition raise {A} (e : oserror) : OS A := fun o => (inl e, o).
Definition get_os : OS osaccess := fun o => (inr o, o).
Definition put_os (o : osaccess) : OS () := fun _ => (inr (), o).
Definition lift {A} (r : oserror + A) : OS A := fun o => (r, o).

Definition dir_at (d : nat) (o : osaccess) : dirobj := default newDir (fs_dirs o !! d).
Definition file_at (f : nat) (o : osaccess) : memfile :=
  default (MemFile [] [] (COther []) 0 false) (fs_files o !! f).

Definition with_dir (d : nat) (x : dirobj) (o : osaccess) : osaccess := set_dirs (<[d := x]> (fs_dirs o)) o.
Definition with_file (f : nat) (x : memfile) (o : osaccess) : osaccess := set_files (<[f := x]> (fs_files o)) o.

(** [newDir()] as an object. *)
Definition alloc_dir (o : osaccess) : nat * osaccess :=
  let d := fresh (dom (fs_dirs o)) in (d, with_dir d newDir o).

Definition setdefault (d : nat) (name : bytes) (o : osaccess) : entry * osaccess :=
  match dir_entries (dir_at d o) !! name with
  | Some e => (e, o)
  | None =>
    let '(sub, o) := alloc_dir o in
    (EDir sub, with_dir d (dir_set name (EDir sub) (dir_at d o)) o)
  end.

(** ** Lookup *)

(** The walk of [entry] from directory [d]. *)
Fixpoint walk (o : osaccess) (d : nat) (parts : list bytes) : option entry :=
  match parts with
  | [] => None
  | [part] => dir_entries (dir_at d o) !! part
  | part :: parts =>
    match dir_entries (dir_at d o) !! part with
    | Some (EDir next) => walk o next parts
    | _ => None
    end
  end.

Definition fs_entry (o : osaccess) (p : purePath) : option entry := walk o (fs_tree o) (allParts p).

Section osaccess.
Variable IsPrint : Z -> bool.
Variable parse_error_text : Z -> bytes.

Definition quoted (p : purePath) : bytes := StringRepr IsPrint (pp_String p).

Definition errNotFound (p : purePath) : oserror :=
  Raise (go "FileNotFoundError") (go "[Errno 2] No such file or directory: " ++ quoted p).
Definition errIsDir (p : purePath) : oserror :=
  Raise (go "IsADirectoryError") (go "[Errno 21] Is a directory: " ++ quoted p).
Definition errNotDir (p : purePath) : oserror :=
  Raise (go "NotADirectoryError") (go "[Errno 20] Not a directory: " ++ quoted p).
Definition errExists (p : purePath) : oserror :=
  Raise (go "FileExistsError") (go "[Errno 17] File exists: " ++ quoted p).

(** [MemoryFile.String] and [dir.String]; a directory is below fewer
    directories than there are, which bounds the recursion. *)
Definition file_String (f : memfile) : bytes :=
  go "MemoryFile(path=" ++ mf_path f ++ go ", content="
  ++ (match mf_content f with CText _ => go "'...'" | _ => go "b'...'" end)
  ++ go ", permissions=" ++ itoa (mf_perm f) ++ go ")".

Fixpoint describe_fuel (fuel : nat) (o : osaccess) (e : option entry) : bytes :=
  match fuel, e with
  | _, None => go "None"
  | _, Some (EFile f) => file_String (file_at f o)
  | O, Some (EDir _) => go "{...}"
  | S fuel, Some (EDir d) =>
    go "{" ++ commas (map (fun n => StringRepr IsPrint n ++ go ": "
                                    ++ describe_fuel fuel o (dir_entries (dir_at d o) !! n))
                          (dir_names (dir_at d o))) ++ go "}"
  end.
Definition describe (o : osaccess) (e : option entry) : bytes := describe_fuel (S (size (fs_dirs o))) o e.

(** [d.contains(other)]: identity of directory objects. *)
Fixpoint contains_fuel (fuel : nat) (o : osaccess) (d other : nat) : bool :=
  bool_decide (d = other) ||
  match fuel with
  | O => false
  | S fuel =>
    existsb (fun kv => match kv.2 with EDir sub => contains_fuel fuel o sub other | _ => false end)
      (map_to_list (dir_entries (dir_at d o)))
  end.
Definition contains (o : osaccess) (d other : nat) : bool := contains_fuel (size (fs_dirs o)) o d other.

Definition entryExists (p : purePath) : OS entry := fun o =>
  match fs_entry o p with None => (inl (errNotFound p), o) | Some e => (inr e, o) end.

Definition fs_file (p : purePath) : OS nat :=
  e ← entryExists p;
  match e with EFile f => mret f | EDir _ => raise (errIsDir p) end.

Definition fs_dir (p : purePath) : OS nat :=
  e ← entryExists p;
  match e with EDir d => mret d | EFile _ => raise (errNotDir p) end.

Definition parentDir (p : purePath) : OS nat := fun o =>
  match fs_entry o (pp_parent p) with
  | Some (EDir d) => (inr d, o)
  | e => (inl (Raise (go "AssertionError")
                (go "Expected parent of a file to always be a directory, got " ++ describe o e)), o)
  end.

(** [parent.del(name)] *)
Definition del_entry (d : nat) (name : bytes) : OS () := fun o =>
  match dir_del name (dir_at d o) with
  | None => (inl (Raise (go "KeyError") (StringRepr IsPrint name)), o)
  | Some x => (inr (), with_dir d x o)
  end.
Definition set_entry (d : nat) (name : bytes) (e : entry) : OS () := fun o =>
  (inr (), with_dir d (dir_set name e (dir_at d o)) o).

(** ** Contents *)

(** [utf8.FullRune] *)
Definition FullRune (s : bytes) : bool :=
  match s with
  | [] => false
  | b0 :: rest =>
    let v := byte_val b0 in
    let need := if v <? 194 then 1 else if v <? 224 then 2 else if v <? 240 then 3 else if v <? 245 then 4 else 1 in
    if need <=? len s then true
    else match rest with
    | [] => false
    | b1 :: rest =>
      let lo := if v =? 224 then 160 else if v =? 240 then 144 else 128 in
      let hi := if v =? 237 then 159 else if v =? 244 then 143 else 191 in
      if negb (between lo hi b1) then true
      else match rest with
      | [] => false
      | b2 :: _ => negb (cont b2)
      end
    end
  end.

Fixpoint decode_loop (fuel : nat) (i : Z) (s : bytes) : option (byte * Z * string) :=
  match fuel, s with
  | S fuel, b0 :: rest =>
    let '(r, w) := decode_rune b0 rest in
    if (r =? RuneError) && (w =? 1)%nat then
      let v := byte_val b0 in
      Some (b0, i, if (194 <=? v) && (v <=? 244)
                   then if negb (FullRune s) then "unexpected end of data" else "invalid continuation byte"
                   else "invalid start byte")
    else decode_loop fuel (i + Z.of_nat w) (drop (w - 1) rest)
  | _, _ => None
  end.

Definition decodeUTF8 (b : bytes) : oserror + bytes :=
  match decode_loop (length b) 0 b with
  | None => inr b
  | Some (c, i, reason) =>
    inl (Raise (go "UnicodeDecodeError")
           (go "'utf-8' codec can't decode byte 0x" ++ hex_pad 2 (byte_val c) ++ go " in position "
            ++ itoa i ++ go ": " ++ go reason))
  end.

Definition contentTypeError (t : bytes) : oserror :=
  Raise (go "TypeError") (go "file content must be str or bytes, got " ++ t).

Definition contentText (c : content) : oserror + bytes :=
  match c with CText s => inr s | CBytes s => decodeUTF8 s | COther t => inl (contentTypeError t) end.
Definition contentBytes (c : content) : oserror + bytes :=
  match c with CText s | CBytes s => inr s | COther t => inl (contentTypeError t) end.
Definition contentSize (c : content) : oserror + Z :=
  match c with CText s | CBytes s => inr (len s) | COther t => inl (contentTypeError t) end.

(** [f.WriteContent(c)], [f.SetPath(p)], [f.Delete()] *)
Definition write_content (f : nat) (c : content) : OS () := fun o =>
  let x := file_at f o in
  (inr (), with_file f (MemFile (mf_path x) (mf_name x) c (mf_perm x) (mf_deleted x)) o).
Definition set_path (f : nat) (p : bytes) : OS () := fun o =>
  let x := file_at f o in
  (inr (), with_file f (MemFile p (mf_name x) (mf_content x) (mf_perm x) (mf_deleted x)) o).
Definition delete_file (f : nat) : OS () := fun o =>
  let x := file_at f o in
  (inr (), with_file f (MemFile (mf_path x) (mf_name x) (mf_content x) (mf_perm x) true) o).

Definition writeFile (p : purePath) (data : content) : OS () :=
  o ← get_os;
  match fs_entry o p with
  | Some (EFile f) => write_content f data
  | Some (EDir _) => raise (errIsDir p)
  | None =>
    match fs_entry o (pp_parent p) with
    | Some (EDir parent) =>
      let f := fresh (dom (fs_files o)) in
      _ ← put_os (with_file f (NewMemoryFile (pp_String p) data default_perm) o);
      _ ← set_entry parent (pp_name p) (EFile f);
      o ← get_os;
      put_os (set_list (fs_list o ++ [f]) o)
    | _ => raise (errNotFound p)
    end
  end.

(** [data] is a string if [text], else bytes. *)
Definition appendData (p : purePath) (text : bool) (data : bytes) : OS () :=
  o ← get_os;
  match fs_entry o p with
  | Some (EFile f) =>
    let c := mf_content (file_at f o) in
    if text
    then existing ← lift (contentText c); write_content f (CText (existing ++ data))
    else existing ← lift (contentBytes c); write_content f (CBytes (existing ++ data))
  | Some (EDir _) => raise (errIsDir p)
  | None => writeFile p (if text then CText data else CBytes data)
  end.

(** ** The operations *)

Definition PathExists (path : bytes) : OS bool :=
  o ← get_os; mret (bool_decide (is_Some (fs_entry o (parsePath path)))).
Definition PathIsFile (path : bytes) : OS bool :=
  o ← get_os; mret (match fs_entry o (parsePath path) with Some (EFile _) => true | _ => false end).
Definition PathIsDir (path : bytes) : OS bool :=
  o ← get_os; mret (match fs_entry o (parsePath path) with Some (EDir _) => true | _ => false end).
Definition PathIsSymlink (path : bytes) : OS bool := mret false.

Definition PathOpen (path mode : bytes) : OS filehandle :=
  let p := parsePath path in
  match NewFileHandle (pp_String p) mode 0 with
  | Err e => raise (Raise (go "ValueError") (err_text IsPrint parse_error_text e))
  | Ok h =>
    let empty := if Binary h then CBytes [] else CText [] in
    o ← get_os;
    _ ← (if mode_prefix "r"%byte h then
           match fs_entry o p with
           | None => raise (errNotFound p)
           | Some (EDir _) => raise (errIsDir p)
           | Some (EFile _) => mret ()
           end
         else if mode_prefix "w"%byte h then writeFile p empty
         else match fs_entry o p with
              | None => writeFile p empty
              | Some (EDir _) => raise (errIsDir p)
              | Some (EFile _) => mret ()
              end);
    mret h
  end.

(** [f.ReadContent()] of a MemoryFile never fails. *)
Definition PathReadText (path : bytes) : OS bytes :=
  f ← fs_file (parsePath path); o ← get_os; lift (contentText (mf_content (file_at f o))).
Definition PathReadBytes (path : bytes) : OS bytes :=
  f ← fs_file (parsePath path); o ← get_os; lift (contentBytes (mf_content (file_at f o))).

Definition PathWriteText (path data : bytes) : OS Z :=
  _ ← writeFile (parsePath path) (CText data); mret (len (runes data)).
Definition PathWriteBytes (path data : bytes) : OS Z :=
  _ ← writeFile (parsePath path) (CBytes data); mret (len data).
Definition PathAppendText (path data : bytes) : OS Z :=
  _ ← appendData (parsePath path) true data; mret (len (runes data)).
Definition PathAppendBytes (path data : bytes) : OS Z :=
  _ ← appendData (parsePath path) false data; mret (len data).

(** The loop of [mkdir(parents=True)]. *)
Fixpoint make_parents (p : purePath) (d : nat) (parts : list bytes) : OS () :=
  match parts with
  | [] => mret ()
  | part :: parts => fun o =>
    let '(e, o) := setdefault d part o in
    match e with
    | EDir sub => make_parents p sub parts o
    | EFile _ => (inl (errNotDir p), o)
    end
  end.

Definition PathMkdir (path : bytes) (parents existOK : bool) : OS () :=
  let p := parsePath path in
  o ← get_os;
  match fs_entry o p with
  | Some (EFile _) => raise (errExists p)
  | Some (EDir _) => if existOK then mret () else raise (errExists p)
  | None =>
    match fs_entry o (pp_parent p) with
    | Some (EDir parent) =>
      let '(d, o) := alloc_dir o in
      _ ← put_os o; set_entry parent (pp_name p) (EDir d)
    | Some (EFile _) => raise (errNotDir p)
    | None => if negb parents then raise (errNotFound p) else make_parents p (fs_tree o) (allParts p)
    end
  end.

Definition PathUnlink (path : bytes) : OS () :=
  let p := parsePath path in
  f ← fs_file p;
  _ ← delete_file f;
  parent ← parentDir p;
  o ← get_os;
  del_entry parent (mf_name (file_at f o)).

Definition PathRmdir (path : bytes) : OS () :=
  let p := parsePath path in
  d ← fs_dir p;
  o ← get_os;
  if 0 <? len (dir_names (dir_at d o))
  then raise (Raise (go "OSError") (go "[Errno 39] Directory not empty: " ++ quoted p))
  else parent ← parentDir p; del_entry parent (pp_name p).

Definition PathIterdir (path : bytes) : OS (list bytes) :=
  let p := parsePath path in
  d ← fs_dir p;
  o ← get_os;
  mret (map (fun name => pp_String (pp_join p (parsePath name))) (dir_names (dir_at d o))).

(** [rebasePaths]; the depth of the tree bounds the recursion. *)
Fixpoint rebase_fuel (fuel : nat) (d : nat) (old new : purePath) : OS () :=
  match fuel with
  | O => mret ()
  | S fuel => fun o =>
    (fix names (l : list bytes) : OS () :=
       match l with
       | [] => mret ()
       | name :: l =>
         o ← get_os;
         _ ← match dir_entries (dir_at d o) !! name with
             | Some (EFile f) =>
               let current := parsePath (mf_path (file_at f o)) in
               match relativeTo current old with
               | None => raise (Raise (go "ValueError")
                           (quoted current ++ go " is not in the subpath of " ++ quoted old))
               | Some rel => set_path f (pp_String (pp_join new rel))
               end
             | Some (EDir sub) => rebase_fuel fuel sub old new
             | None => mret ()
             end;
         names l
       end) (dir_names (dir_at d o)) o
  end.
Definition rebasePaths (d : nat) (old new : purePath) : OS () :=
  o ← get_os; rebase_fuel (S (size (fs_dirs o))) d old new.

Definition PathRename (path target : bytes) : OS () :=
  let src := parsePath path in
  let dst := parsePath target in
  let pair := quoted src ++ go " -> " ++ quoted dst in
  let notFound := Raise (go "FileNotFoundError") (go "[Errno 2] No such file or directory: " ++ pair) in
  o ← get_os;
  match fs_entry o src with
  | None => raise notFound
  | Some srcEntry =>
    parent ← parentDir src;
    match fs_entry o (pp_parent dst) with
    | Some (EDir targetParent) =>
      match srcEntry, fs_entry o dst with
      | EFile f, Some (EDir _) =>
        raise (Raise (go "IsADirectoryError") (go "[Errno 21] Is a directory: " ++ pair))
      | EFile f, t =>
        _ ← (match t with Some (EFile t) => delete_file t | _ => mret () end);
        o ← get_os;
        _ ← del_entry parent (pp_name (parsePath (mf_path (file_at f o))));
        set_entry targetParent (pp_name dst) (EFile f)
      | EDir _, Some (EFile _) =>
        raise (Raise (go "NotADirectoryError") (go "[Errno 20] Not a directory: " ++ pair))
      | EDir srcDir, t =>
        if match t with Some (EDir t) => 0 <? len (dir_names (dir_at t o)) | _ => false end
        then raise (Raise (go "OSError") (go "[Errno 66] Directory not empty: " ++ pair))
        else if contains o srcDir targetParent
        then raise (Raise (go "OSError") (go "[Errno 22] Invalid argument: " ++ pair))
        else
          _ ← del_entry parent (pp_name src);
          _ ← set_entry targetParent (pp_name dst) (EDir srcDir);
          rebasePaths srcDir src dst
      end
    | _ => raise notFound
    end
  end.

Definition PathAbsolute (path : bytes) : OS bytes :=
  let p := parsePath path in
  mret (if isAbs p then pp_String p else pp_String (pp_join (parsePath (go "/")) p)).
Definition PathResolve (path : bytes) : OS bytes := PathAbsolute path.

Definition Getenv {A} (key : bytes) (of_string : bytes -> A) (def : A) : OS A :=
  o ← get_os; mret (match fs_environ o !! key with Some v => of_string v | None => def end).
Definition GetEnviron : OS (gmap bytes bytes) := o ← get_os; mret (fs_environ o).

(** ** Building the tree *)

(** Walks to the directory of a file, creating directories on the way. *)
Fixpoint place_dirs (f : nat) (d : nat) (parts : list bytes) : OS nat :=
  match parts with
  | [] => mret d
  | part :: parts => fun o =>
    let '(e, o) := setdefault d part o in
    match e with
    | EDir sub => place_dirs f sub parts o
    | EFile _ =>
      (inl (Raise (go "ValueError")
         (go "Cannot put file " ++ describe o (Some (EFile f)) ++ go " within sub-directory of file "
          ++ describe o (Some e))), o)
    end
  end.

Definition place (root : purePath) (f : nat) : OS () :=
  o ← get_os;
  let p := parsePath (mf_path (file_at f o)) in
  let p' := if isAbs p then p else pp_join root p in
  _ ← (if isAbs p then mret () else set_path f (pp_String p'));
  let parts := allParts p' in
  d ← place_dirs f (fs_tree o) (removelast parts);
  set_entry d (default [] (last parts)) (EFile f).

Fixpoint place_all (root : purePath) (files : list nat) : OS () :=
  match files with [] => mret () | f :: files => _ ← place root f; place_all root files end.

(** [New(files, environ, WithRootDir(rootDir))]; [heap] holds the file objects. *)
Definition New_osaccess (heap : gmap nat memfile) (files : list nat) (environ : gmap bytes bytes)
    (rootDir : bytes) : (oserror + ()) * osaccess :=
  let root := parsePath rootDir in
  let o := OSAccess {[ 0%nat := DirObj [go "/"] {[ go "/" := EDir 1 ]}; 1%nat := newDir ]}
             heap 0 files environ in
  if negb (isAbs root)
  then (inl (Raise (go "AssertionError") (go "Root directory must be absolute, got " ++ pp_String root)), o)
  else place_all root files o.
End osaccess.

(** ** Stat results *)

Record StatResult := Stat {
  st_mode : Z; st_ino : Z; st_dev : Z; st_nlink : Z; st_uid : Z; st_gid : Z; st_size : Z;
  st_atime : Z; st_mtime : Z; st_ctime : Z }.

(** [mtime] is the bits of a float64; [now] those of the current time. *)
Definition fileStat (size mode : Z) (mtime : option Z) (now : Z) : StatResult :=
  let mode := if mode <? 512 then Z.lor mode 32768 else mode in
  let t := default now mtime in
  Stat mode 0 0 1 0 0 size t t t.
Definition FileStat (size mode : Z) (mtime : option Z) (now : Z) : StatResult :=
  fileStat size (if mode =? 0 then default_perm else mode) mtime now.
Definition DirStat (mode : Z) (mtime : option Z) (now : Z) : StatResult :=
  let mode := if mode =? 0 then 493 else mode in
  let mode := if mode <? 512 then Z.lor mode 16384 else mode in
  let t := default now mtime in
  Stat mode 0 0 2 0 0 4096 t t t.

Definition statFields : list bytes :=
  map go ["st_mode"; "st_ino"; "st_dev"; "st_nlink"; "st_uid"; "st_gid"; "st_size"; "st_atime"; "st_mtime"; "st_ctime"].

Definition stat_NamedTuple (s : StatResult) : value :=
  VNamedTuple (go "StatResult") statFields
    (map (VInt KInt64) [st_mode s; st_ino s; st_dev s; st_nlink s; st_uid s; st_gid s; st_size s]
     ++ map VFloat64 [st_atime s; st_mtime s; st_ctime s]).

Definition PathStat (IsPrint : Z -> bool) (now : Z) (path : bytes) : OS StatResult :=
  e ← entryExists IsPrint (parsePath path);
  match e with
  | EDir _ => mret (DirStat 0 None now)
  | EFile f =>
    o ← get_os;
    size ← lift (contentSize (mf_content (file_at f o)));
    mret (fileStat size (mf_perm (file_at f o)) None now)
  end.

(** ** Dispatch *)

(** The operations an OS handler answers, over a state [S]. *)
Record Ops (S : Type) := {
  op_PathExists : bytes -> S -> (oserror + bool) * S;
  op_PathIsFile : bytes -> S -> (oserror + bool) * S;
  op_PathIsDir : bytes -> S -> (oserror + bool) * S;
  op_PathIsSymlink : bytes -> S -> (oserror + bool) * S;
  op_PathOpen : bytes -> bytes -> S -> (oserror + filehandle) * S;
  op_PathReadText : bytes -> S -> (oserror + bytes) * S;
  op_PathReadBytes : bytes -> S -> (oserror + bytes) * S;
  op_PathWriteText : bytes -> bytes -> S -> (oserror + Z) * S;
  op_PathWriteBytes : bytes -> bytes -> S -> (oserror + Z) * S;
  op_PathAppendText : bytes -> bytes -> S -> (oserror + Z) * S;
  op_PathAppendBytes : bytes -> bytes -> S -> (oserror + Z) * S;
  op_PathMkdir : bytes -> bool -> bool -> S -> (oserror + ()) * S;
  op_PathUnlink : bytes -> S -> (oserror + ()) * S;
  op_PathRmdir : bytes -> S -> (oserror + ()) * S;
  op_PathIterdir : bytes -> S -> (oserror + list bytes) * S;
  op_PathStat : bytes -> S -> (oserror + StatResult) * S;
  op_PathRename : bytes -> bytes -> S -> (oserror + ()) * S;
  op_PathResolve : bytes -> S -> (oserror + bytes) * S;
  op_PathAbsolute : bytes -> S -> (oserror + bytes) * S;
  op_Getenv : bytes -> value -> S -> (oserror + value) * S;
  op_GetEnviron : S -> (oserror + gmap bytes bytes) * S;
  op_DateToday : S -> (oserror + date) * S;
  op_DatetimeNow : option timezone -> S -> (oserror + datetime) * S }.

Section dispatch.
Context {S : Type} (ops : Ops S).
(** fmt's [%T], and the printing of values (see Repr.v). *)
Variable type_text : value -> bytes.
Variable repr : value -> bytes.

Abbreviation call A := (S -> (oserror + A) * S).

Definition stop {A} (e : oserror) : call A := fun s => (inl e, s).
(** The result of a method as a value. *)
Definition answer {A} (m : call A) (f : A -> value) : call value := fun s =>
  match m s with (inl e, s) => (inl e, s) | (inr a, s) => (inr (f a), s) end.

Definition arity (method : string) (n lo hi : Z) : option oserror :=
  if (lo <=? n) && (n <=? hi) then None
  else if n <? lo then
    Some (Raise (go "TypeError")
      (go method ++ go "() missing " ++ itoa (lo - n) ++ go " required positional argument(s)"))
  else
    Some (Raise (go "TypeError")
      (go method ++ go "() takes " ++ itoa hi ++ go " positional argument(s) but " ++ itoa n ++ go " were given")).

Definition pathArg (method : string) (v : value) : oserror + bytes :=
  match v with
  | VPath p | VStr p => inr p
  | VFileHandlePtr h | VFileHandle h => inr (fh_path h)
  | _ => inl (Raise (go "TypeError") (go method ++ go "() expected a path, got " ++ type_text v))
  end.

Definition stringArg (method : string) (v : value) : oserror + bytes :=
  match v with
  | VStr s => inr s
  | _ => inl (Raise (go "TypeError") (go method ++ go "() expected str, got " ++ type_text v))
  end.

Definition truthy (v : option value) : bool :=
  match v with
  | None | Some VNil => false
  | Some (VBool b) => b
  | Some (VInt (KInt64 | KInt) z) => negb (z =? 0)
  | Some (VFloat64 f) => negb ((f =? 0) || (f =? 2 ^ 63))
  | Some (VStr s) => negb (bool_decide (s = []))
  | Some _ => true
  end.

(** Runs [k] on the arguments if there are between [lo] and [hi] of them. *)
Definition with_arity (method : string) (args : list value) (lo hi : Z) (k : call value) : call value :=
  match arity method (len args) lo hi with Some e => stop e | None => k end.
Definition with_path (method : string) (v : value) (k : bytes -> call value) : call value :=
  match pathArg method v with inl e => stop e | inr p => k p end.
Definition with_string (method : string) (v : value) (k : bytes -> call value) : call value :=
  match stringArg method v with inl e => stop e | inr s => k s end.
Definition arg (args : list value) (i : nat) : value := nth i args VNil.

Definition pathCall {A} (args : list value) (method : string) (fn : bytes -> call A) (f : A -> value) : call value :=
  with_arity method args 1 1 (with_path method (arg args 0) (fun p => answer (fn p) f)).

Definition textCall (args : list value) (method : string) (fn : bytes -> bytes -> call Z) : call value :=
  with_arity method args 2 2 (with_path method (arg args 0) (fun p =>
    with_string method (arg args 1) (fun data => answer (fn p data) (VInt KInt)))).

Definition bytesCall (args : list value) (method : string) (fn : bytes -> bytes -> call Z) : call value :=
  with_arity method args 2 2 (with_path method (arg args 0) (fun p =>
    match arg args 1 with
    | VBytes data => answer (fn p data) (VInt KInt)
    | v => stop (Raise (go "TypeError") (go method ++ go "() data must be bytes, got " ++ type_text v))
    end)).

(** The pairs of a string map in the order of their keys. *)
Definition sorted_pairs {A} (f : A -> value) (m : gmap bytes A) : list (value * value) :=
  map (fun kv => (VStr kv.1, f kv.2)) (sort_keys (map_to_list m)).

Definition kwargsRepr (kwargs : gmap bytes value) : bytes := repr (VDict (Some (sorted_pairs id kwargs))).
Definition environDict (env : gmap bytes bytes) : value := VDict (Some (sorted_pairs VStr env)).

Definition tz_arg (v : value) : oserror + option timezone :=
  match v with
  | VNil => inr None
  | VTimeZone tz => inr (Some tz)
  | v => inl (Raise (go "TypeError")
           (go "datetime_now() argument must be a timezone or None, got " ++ type_text v))
  end.

Definition nothing : () -> value := fun _ => VNil.

(** [dispatch]: the switch on the name of the call. *)
Definition dispatch_os (name : bytes) (args : list value) (kwargs : gmap bytes value) : call value :=
  let called s := bool_decide (name = go s) in
  if called "Path.exists" then pathCall args "path_exists" (op_PathExists S ops) VBool
  else if called "Path.is_file" then pathCall args "path_is_file" (op_PathIsFile S ops) VBool
  else if called "Path.is_dir" then pathCall args "path_is_dir" (op_PathIsDir S ops) VBool
  else if called "Path.is_symlink" then pathCall args "path_is_symlink" (op_PathIsSymlink S ops) VBool
  else if called "open" then
    with_arity "path_open" args 2 2 (with_path "path_open" (arg args 0) (fun p =>
      with_string "path_open" (arg args 1) (fun mode => answer (op_PathOpen S ops p mode) VFileHandlePtr)))
  else if called "Path.read_text" then pathCall args "path_read_text" (op_PathReadText S ops) VStr
  else if called "Path.read_bytes" then pathCall args "path_read_bytes" (op_PathReadBytes S ops) VBytes
  else if called "Path.write_text" then textCall args "path_write_text" (op_PathWriteText S ops)
  else if called "Path.write_bytes" then bytesCall args "path_write_bytes" (op_PathWriteBytes S ops)
  else if called "Path.append_text" then textCall args "path_append_text" (op_PathAppendText S ops)
  else if called "Path.append_bytes" then bytesCall args "path_append_bytes" (op_PathAppendBytes S ops)
  else if called "Path.mkdir" then
    if 2 <? Z.of_nat (size kwargs) then
      stop (Raise (go "AssertionError") (go "Unexpected keyword arguments: " ++ kwargsRepr kwargs))
    else with_arity "path_mkdir" args 1 1 (with_path "path_mkdir" (arg args 0) (fun p =>
      answer (op_PathMkdir S ops p (truthy (kwargs !! go "parents")) (truthy (kwargs !! go "exist_ok"))) nothing))
  else if called "Path.unlink" then pathCall args "path_unlink" (op_PathUnlink S ops) nothing
  else if called "Path.rmdir" then pathCall args "path_rmdir" (op_PathRmdir S ops) nothing
  else if called "Path.iterdir" then
    pathCall args "path_iterdir" (op_PathIterdir S ops) (fun l => VList (map VPath l))
  else if called "Path.stat" then pathCall args "path_stat" (op_PathStat S ops) stat_NamedTuple
  else if called "Path.rename" then
    with_arity "path_rename" args 2 2 (with_path "path_rename" (arg args 0) (fun p =>
      with_path "path_rename" (arg args 1) (fun target => answer (op_PathRename S ops p target) nothing)))
  else if called "Path.resolve" then pathCall args "path_resolve" (op_PathResolve S ops) VStr
  else if called "Path.absolute" then pathCall args "path_absolute" (op_PathAbsolute S ops) VStr
  else if called "os.getenv" then
    with_arity "getenv" args 1 2 (with_string "getenv" (arg args 0) (fun key =>
      answer (op_Getenv S ops key (arg args 1)) id))
  else if called "os.environ" then
    with_arity "get_environ" args 0 0 (answer (op_GetEnviron S ops) environDict)
  else if called "date.today" then
    with_arity "date_today" args 0 0 (answer (op_DateToday S ops) VDate)
  else if called "datetime.now" then
    with_arity "datetime_now" args 0 1
      match tz_arg (arg args 0) with
      | inl e => stop e
      | inr tz => answer (op_DatetimeNow S ops tz) VDateTime
      end
  else stop ErrNotImplemented.

Inductive os_answer := NotHandled | Handled (v : value).

Definition Dispatch (name : bytes) (args : list value) (kwargs : gmap bytes value) : call os_answer := fun s =>
  match dispatch_os name args kwargs s with
  | (inl ErrNotImplemented, s) => (inr NotHandled, s)
  | (inl e, s) => (inl e, s)
  | (inr v, s) => (inr (Handled v), s)
  end.
End dispatch.

(** [Base]: declines everything but the clock, which is a parameter. *)
Definition Base (S : Type) (today : date) (now : option timezone -> datetime) : Ops S :=
  let no {A} : S -> (oserror + A) * S := fun s => (inl ErrNotImplemented, s) in
  {| op_PathExists _ := no; op_PathIsFile _ := no; op_PathIsDir _ := no; op_PathIsSymlink _ := no;
     op_PathOpen _ _ := no; op_PathReadText _ := no; op_PathReadBytes _ := no; op_PathWriteText _ _ := no;
     op_PathWriteBytes _ _ := no; op_PathAppendText _ _ := no; op_PathAppendBytes _ _ := no;
     op_PathMkdir _ _ _ := no; op_PathUnlink _ := no; op_PathRmdir _ := no; op_PathIterdir _ := no;
     op_PathStat _ := no; op_PathRename _ _ := no; op_PathResolve _ := no; op_PathAbsolute _ := no;
     op_Getenv _ _ := no; op_GetEnviron := no;
     op_DateToday := fun s => (inr today, s); op_DatetimeNow tz := fun s => (inr (now tz), s) |}.

(** The operations of an [OSAccess]. *)
Definition osaccess_ops (IsPrint : Z -> bool) (parse_error_text : Z -> bytes) (clock : Z)
    (today : date) (now : option timezone -> datetime) : Ops osaccess :=
  {| op_PathExists := PathExists; op_PathIsFile := PathIsFile; op_PathIsDir := PathIsDir;
     op_PathIsSymlink := PathIsSymlink; op_PathOpen := PathOpen IsPrint parse_error_text;
     op_PathReadText := PathReadText IsPrint; op_PathReadBytes := PathReadBytes IsPrint;
     op_PathWriteText := PathWriteText IsPrint; op_PathWriteBytes := PathWriteBytes IsPrint;
     op_PathAppendText := PathAppendText IsPrint; op_PathAppendBytes := PathAppendBytes IsPrint;
     op_PathMkdir := PathMkdir IsPrint; op_PathUnlink := PathUnlink IsPrint; op_PathRmdir := PathRmdir IsPrint;
     op_PathIterdir := PathIterdir IsPrint; op_PathStat := PathStat IsPrint clock;
     op_PathRename := PathRename IsPrint; op_PathResolve := PathResolve; op_PathAbsolute := PathAbsolute;
     op_Getenv key def := Getenv key VStr def; op_GetEnviron := GetEnviron;
     op_DateToday := fun s => (inr today, s); op_DatetimeNow tz := fun s => (inr (now tz), s) |}.
