(* ===== verification/OsAccessFacts.v ===== *)
(** What the in-memory file system guarantees: paths print and parse back, the
    store stays a tree, and its operations refine updates of a map from paths to
    nodes, except that a file renamed to another name cannot be removed again. *)

From S2P Require Import Prelude Utf8 GoStrings Values Repr OsAccess.

(** ** Paths *)

Section paths.
Implicit Types p : purePath.

(** The paths [parsePath] makes. *)
Record path_ok p : Prop := PathOk {
  po_root : pp_root p ∈ [[]; go "/"; go "//"];
  po_parts : Forall (fun s => is_segment s = true /\ slash_ ∉ s) (pp_parts p) }.

Lemma parsePath_ok s : path_ok (parsePath s).
Proof.
  constructor; cbn.
  - rewrite !elem_of_cons. destruct (HasPrefix s _); [destruct (_ && _)|]. all:
      first [by left|by right; left|by right; right; left].
  - apply Forall_forall. intros x Hx%list_elem_of_In%filter_In. destruct Hx as [Hx Hseg]. split; [done|].
    pose proof (split_byte_parts slash_ s) as H. rewrite Forall_forall in H. apply H. by apply list_elem_of_In.
Qed.

Lemma parent_ok p : path_ok p -> path_ok (pp_parent p).
Proof.
  intros [Hr Hp]. unfold pp_parent. destruct (pp_parts p) as [|x l] eqn:E; [by constructor; rewrite ?E|].
  constructor; cbn [pp_root pp_parts]; [done|]. rewrite removelast_firstn_len. by apply Forall_take.
Qed.

Lemma filter_segments l : Forall (fun s => is_segment s = true /\ slash_ ∉ s) l -> List.filter is_segment l = l.
Proof. induction 1 as [|x l [Hx _] _ IH]; [done|]. cbn. by rewrite Hx, IH. Qed.

Lemma split_segments l : Forall (fun s => is_segment s = true /\ slash_ ∉ s) l ->
  List.filter is_segment (split_byte slash_ (join_byte slash_ l)) = l.
Proof.
  intros H. destruct l as [|x l]; [done|]. rewrite split_join; [by apply filter_segments|done|].
  eapply Forall_impl; [exact H|]. by intros ? [].
Qed.

Lemma split_slash s : split_byte slash_ (slash_ :: s) = [] :: split_byte slash_ s.
Proof. cbn. done. Qed.

(** The first byte of the printed parts is no slash. *)
Lemma join_no_slash l s : Forall (fun s => is_segment s = true /\ slash_ ∉ s) l ->
  join_byte slash_ l = slash_ :: s -> False.
Proof.
  intros H E. destruct l as [|x l]; [done|]. inv H. destruct H2 as [Hx Hs]. destruct x as [|c x]; [done|].
  assert (c = slash_) as -> by (destruct l; cbn in E; by injection E). set_solver.
Qed.

(** A path prints and parses back as itself. *)
Lemma path_print_parse p : path_ok p -> parsePath (pp_String p) = p.
Proof.
  intros [Hr Hp]. destruct p as [r l]. cbn in *. unfold pp_String. cbn [pp_root pp_parts].
  assert (r = [] \/ r = [slash_] \/ r = [slash_; slash_]) as Hr'.
  { rewrite !elem_of_cons, elem_of_nil in Hr. destruct Hr as [?|[?|[?|[]]]]; auto. }
  clear Hr. unfold parsePath. pose proof (join_no_slash l) as Hns.
  destruct Hr' as [-> | [-> | ->]]; cbn [app].
  - case_bool_decide as E.
    + destruct l as [|x l]; [done|]. exfalso. inv Hp. destruct H1 as [H1 _]. destruct x; [done|]. by destruct l.
    + f_equal; [|by apply split_segments]. destruct (join_byte slash_ l) as [|c s] eqn:Ej; [done|].
      unfold HasPrefix. rewrite bool_decide_eq_false_2; [done|]. cbn. intros [= ->]. by eapply Hns.
  - rewrite bool_decide_eq_false_2 by done. rewrite split_slash. cbn [List.filter is_segment].
    rewrite split_segments by done. f_equal. unfold HasPrefix. cbn.
    destruct (join_byte slash_ l) as [|c s] eqn:Ej; [done|]. cbn. rewrite (bool_decide_eq_true_2 (_ = _)) by done.
    rewrite (bool_decide_eq_false_2 (_ = _)); [done|]. intros [= ->]. by eapply Hns.
  - rewrite bool_decide_eq_false_2 by done. rewrite !split_slash. cbn [List.filter is_segment].
    rewrite split_segments by done. f_equal. unfold HasPrefix. cbn.
    destruct (join_byte slash_ l) as [|c s] eqn:Ej; [done|]. cbn. rewrite !(bool_decide_eq_true_2 (_ = _)) by done.
    rewrite (bool_decide_eq_false_2 (_ = _)); [done|]. intros [= ->]. by eapply Hns.
Qed.

Lemma allParts_snoc p : pp_parts p <> [] -> allParts p = allParts (pp_parent p) ++ [pp_name p].
Proof.
  intros Hne. unfold allParts, pp_parent, pp_name. destruct p as [r l]. cbn in *.
  destruct l as [|x l] using rev_ind; [done|]. rewrite removelast_last, last_snoc. cbn.
  assert (match l ++ [x] with [] => PurePath r (l ++ [x]) | _ => PurePath r l end = PurePath r l) as E
    by (by destruct l). destruct (l ++ [x]) eqn:El; [by destruct l|]. rewrite <- El. cbn.
  case_bool_decide; done.
Qed.

(** Two paths are the same if their parts are. *)
Lemma allParts_inj p q : path_ok p -> path_ok q -> allParts p = allParts q -> p = q.
Proof.
  intros [Hr Hp] [Hr' Hq]. destruct p as [r l], q as [r' l']. unfold allParts. cbn in *.
  assert (forall r l, r ∈ [[]; go "/"; go "//"] -> r <> [] -> Forall (fun s => is_segment s = true /\ slash_ ∉ s) l ->
    forall l', l = r :: l' -> False) as Hno.
  { intros r0 l0 Hr0 Hn Hl l1 ->. inv Hl. destruct H1 as [_ Hs]. apply Hs.
    rewrite !elem_of_cons, elem_of_nil in Hr0. destruct Hr0 as [->|[->|[->|[]]]]; [done|by left..]. }
  case_bool_decide as E; case_bool_decide as E'; subst; intros H.
  - by subst.
  - exfalso. by eapply (Hno r' l Hr' E' Hp).
  - exfalso. symmetry in H. by eapply (Hno r l' Hr E Hq).
  - by injection H as -> ->.
Qed.
End paths.

(** ** The tree *)

Section tree.
Implicit Types o : osaccess.

(** Entry [e] of directory [d] under name [n]. *)
Definition child o (d : nat) (n : bytes) : option entry := dir_entries (dir_at d o) !! n.

(** The directory reached from [d]. *)
Fixpoint goto o (d : nat) (parts : list bytes) : option nat :=
  match parts with
  | [] => Some d
  | n :: parts => match child o d n with Some (EDir x) => goto o x parts | _ => None end
  end.

(** The store is a tree: an entry has one place, the top is below no directory
    and holds the roots only; names and entries of a directory agree, entries
    exist, and a file is stored under its own name. *)
Record fs_wf o : Prop := FsWf {
  wf_tree : is_Some (fs_dirs o !! fs_tree o);
  wf_place : forall d n d' n' e, child o d n = Some e -> child o d' n' = Some e -> d = d' /\ n = n';
  wf_top : forall d n, child o d n <> Some (EDir (fs_tree o));
  wf_roots : forall n e, child o (fs_tree o) n = Some e -> slash_ ∈ n /\ exists d, e = EDir d;
  wf_alloc : forall d n x, child o d n = Some (EDir x) -> is_Some (fs_dirs o !! x);
  wf_store : forall d n f, child o d n = Some (EFile f) -> is_Some (fs_files o !! f);
  wf_names : forall d, NoDup (dir_names (dir_at d o))
             /\ forall n, n ∈ dir_names (dir_at d o) <-> is_Some (child o d n);
  wf_own : forall d n f, child o d n = Some (EFile f) -> mf_name (file_at f o) = n }.

Lemma goto_snoc o d p n : goto o d (p ++ [n])
  = match goto o d p with
    | Some x => match child o x n with Some (EDir y) => Some y | _ => None end
    | None => None
    end.
Proof.
  revert d. induction p as [|a p IH]; intros d; cbn; [done|].
  destruct (child o d a) as [[]|]; done || apply IH.
Qed.

Lemma walk_snoc o d p n : walk o d (p ++ [n]) = match goto o d p with Some x => child o x n | None => None end.
Proof.
  revert d. induction p as [|a p IH]; intros d; [done|]. cbn [app goto].
  destruct (p ++ [n]) as [|b l] eqn:E; [by destruct p|]. change (walk o d (a :: b :: l)) with
    (match child o d a with Some (EDir next) => walk o next (b :: l) | _ => None end).
  destruct (child o d a) as [[]|]; done || apply IH.
Qed.

Lemma walk_goto o d p x : walk o d p = Some (EDir x) -> goto o d p = Some x.
Proof.
  destruct p as [|n p] using rev_ind; [done|]. rewrite walk_snoc, goto_snoc.
  destruct (goto o d p); [|done]. by intros ->.
Qed.

(** A directory is reached by one path. *)
Lemma goto_inj o p q x : fs_wf o ->
  goto o (fs_tree o) p = Some x -> goto o (fs_tree o) q = Some x -> p = q.
Proof.
  intros Hwf. revert q x. induction p as [|n p IH] using rev_ind; intros q x Hp Hq.
  - cbn in Hp. injection Hp as <-. destruct q as [|m q _] using rev_ind; [done|].
    rewrite goto_snoc in Hq. destruct (goto o (fs_tree o) q) as [y|]; [|done].
    destruct (child o y m) as [[]|] eqn:E; try done. injection Hq as ->. by apply (wf_top _ Hwf) in E.
  - rewrite goto_snoc in Hp. destruct (goto o (fs_tree o) p) as [y|] eqn:Ey; [|done].
    destruct (child o y n) as [[]|] eqn:E; try done. injection Hp as ->.
    destruct q as [|m q _] using rev_ind.
    + cbn in Hq. injection Hq as <-. by apply (wf_top _ Hwf) in E.
    + rewrite goto_snoc in Hq. destruct (goto o (fs_tree o) q) as [z|] eqn:Ez; [|done].
      destruct (child o z m) as [[]|] eqn:E'; try done. injection Hq as ->.
      destruct (wf_place _ Hwf _ _ _ _ _ E E') as [-> ->]. by rewrite (IH q z).
Qed.

(** An entry is found under one path. *)
Lemma walk_inj o p q e : fs_wf o ->
  walk o (fs_tree o) p = Some e -> walk o (fs_tree o) q = Some e -> p = q.
Proof.
  intros Hwf. destruct p as [|n p _] using rev_ind; [done|]. destruct q as [|m q _] using rev_ind; [done|].
  rewrite !walk_snoc. destruct (goto o (fs_tree o) p) as [x|] eqn:Ex; [|done].
  destruct (goto o (fs_tree o) q) as [y|] eqn:Ey; [|done]. intros Hp Hq.
  destruct (wf_place _ Hwf _ _ _ _ _ Hp Hq) as [-> ->]. by rewrite (goto_inj o p q y).
Qed.

(** ** Changing one entry *)

Definition leaf_entry o (e : option entry) : Prop :=
  match e with Some (EDir x) => forall n, child o x n = None | _ => True end.

Lemma walk_leaf o e x q : leaf_entry o e -> e = Some (EDir x) -> walk o x q = None.
Proof.
  intros Hl ->. destruct q as [|a [|b q]]; [done|apply Hl|]. cbn in *. unfold child in Hl. by rewrite Hl.
Qed.

(** [o'] is [o] with the entry [n] of directory [d] replaced by [oe]. *)
Definition one_entry o o' (d : nat) (n : bytes) (oe : option entry) : Prop :=
  fs_tree o' = fs_tree o
  /\ forall x a, child o' x a = if bool_decide (x = d /\ a = n) then oe else child o x a.

Lemma goto_app o d p q : goto o d (p ++ q) = match goto o d p with Some x => goto o x q | None => None end.
Proof.
  revert d. induction p as [|a p IH]; intros d; cbn; [done|].
  destruct (child o d a) as [[]|]; done || apply IH.
Qed.

Lemma walk_cons o d a b q : walk o d (a :: b :: q)
  = match child o d a with Some (EDir x) => walk o x (b :: q) | _ => None end.
Proof. done. Qed.

Lemma walk_one o o' d n oe p : fs_wf o -> one_entry o o' d n oe -> goto o (fs_tree o) p = Some d ->
  leaf_entry o (child o d n) -> leaf_entry o' oe ->
  forall q, walk o' (fs_tree o') q = if bool_decide (q = p ++ [n]) then oe else walk o (fs_tree o) q.
Proof.
  intros Hwf [Ht Hc] Hp Hl Hl'. rewrite Ht.
  enough (forall q a r x, goto o (fs_tree o) r = Some x ->
    walk o' x (a :: q) = if bool_decide (r ++ a :: q = p ++ [n]) then oe else walk o x (a :: q)) as H.
  { intros [|a q]; [|by apply (H q a [])]. rewrite bool_decide_eq_false_2; [done|]. by destruct p. }
  induction q as [|b q IH]; intros a r x Hr.
  - cbn [walk]. fold (child o' x a). fold (child o x a). rewrite Hc.
    assert (x = d /\ a = n <-> r ++ [a] = p ++ [n]) as Heq.
    { split; [intros [-> ->]; by rewrite (goto_inj o r p d)|]. intros [-> [= ->]]%app_inj_tail. split; congruence. }
    by rewrite (bool_decide_ext _ _ Heq).
  - rewrite !walk_cons, Hc. case_bool_decide as E.
    + destruct E as [-> ->]. rewrite bool_decide_eq_false_2.
      2: { rewrite (goto_inj o r p d Hwf Hr Hp). intros E%(f_equal length). rewrite !length_app in E. cbn in E. lia. }
      transitivity (@None entry).
      * destruct oe as [[f|y]|] eqn:Eo; try done. by eapply walk_leaf.
      * destruct (child o d n) as [[f|y]|] eqn:Ec; try done. symmetry. by eapply walk_leaf.
    + destruct (child o x a) as [[f|y]|] eqn:Ec.
      2: { rewrite (IH b (r ++ [a])) by (rewrite goto_snoc, Hr, Ec; done). by rewrite <- app_assoc. }
      all: rewrite bool_decide_eq_false_2; [done|]; intros Eq.
      all: destruct q as [|m q _] using rev_ind; [change (r ++ [a; b]) with (r ++ [a] ++ [b]) in Eq
        |replace (r ++ a :: b :: q ++ [m]) with ((r ++ a :: b :: q) ++ [m]) in Eq by (by rewrite <- app_assoc)].
      all: rewrite ?app_assoc in Eq; apply app_inj_tail in Eq as [Eq _].
      all: rewrite <- Eq, ?goto_snoc, ?goto_app, Hr in Hp; cbn in Hp; by rewrite Ec in Hp.
Qed.

Lemma dir_at_with o d X x : dir_at x (with_dir d X o) = if bool_decide (x = d) then X else dir_at x o.
Proof.
  unfold dir_at, with_dir. cbn. case_bool_decide as E; [subst; by rewrite lookup_insert_eq|].
  by rewrite lookup_insert_ne.
Qed.

Lemma child_set o d n e x a :
  child (with_dir d (dir_set n e (dir_at d o)) o) x a
  = if bool_decide (x = d /\ a = n) then Some e else child o x a.
Proof.
  unfold child. rewrite dir_at_with. case_bool_decide as E; [subst x|by rewrite bool_decide_eq_false_2 by tauto].
  cbn. destruct (decide (a = n)) as [->|Hne].
  - by rewrite lookup_insert_eq, bool_decide_eq_true_2.
  - by rewrite lookup_insert_ne, bool_decide_eq_false_2 by (tauto || congruence).
Qed.

Lemma set_one o d n e : one_entry o (with_dir d (dir_set n e (dir_at d o)) o) d n (Some e).
Proof. split; [done|]. intros. apply child_set. Qed.

Lemma child_del o d n X x a : dir_del n (dir_at d o) = Some X ->
  child (with_dir d X o) x a = if bool_decide (x = d /\ a = n) then None else child o x a.
Proof.
  unfold dir_del. destruct (dir_entries (dir_at d o) !! n) eqn:En; [|done]. intros [= <-].
  unfold child. rewrite dir_at_with. case_bool_decide as E; [subst x|by rewrite bool_decide_eq_false_2 by tauto].
  cbn. destruct (decide (a = n)) as [->|Hne].
  - by rewrite lookup_delete_eq, bool_decide_eq_true_2.
  - by rewrite lookup_delete_ne, bool_decide_eq_false_2 by (tauto || congruence).
Qed.

Lemma del_one o d n X : dir_del n (dir_at d o) = Some X -> one_entry o (with_dir d X o) d n None.
Proof. intros H. split; [done|]. intros. by apply child_del. Qed.

Lemma remove_first_elem n l : NoDup l -> NoDup (remove_first n l) /\ forall x, x ∈ remove_first n l <-> x ∈ l /\ x <> n.
Proof.
  induction 1 as [|y l Hy Hnd [IH1 IH2]]; cbn; [split; [constructor|]; set_solver|]. case_bool_decide as E.
  - subst. split; [done|]. intros x. rewrite elem_of_cons. split; [|tauto]. intros Hx. split; [auto|congruence].
  - split; [constructor; [rewrite IH2; tauto|done]|]. intros x. rewrite !elem_of_cons, IH2. split; [|tauto].
    intros [->|]; tauto.
Qed.

(** What keeps the tree well formed. *)
Lemma wf_set o d n e : fs_wf o -> d <> fs_tree o -> (forall d' n', child o d' n' <> Some e) ->
  match e with
  | EDir x => x <> fs_tree o /\ is_Some (fs_dirs o !! x)
  | EFile f => is_Some (fs_files o !! f) /\ mf_name (file_at f o) = n
  end -> fs_wf (with_dir d (dir_set n e (dir_at d o)) o).
Proof.
  intros [W0 W1 W2 W3 W4 W5 W6 W7] Hd Hnew He. constructor; cbn [fs_tree fs_dirs fs_files with_dir set_dirs].
  - apply lookup_insert_is_Some. destruct (decide (d = fs_tree o)); auto.
  - intros x a x' a' e'. rewrite !child_set. case_bool_decide as E; case_bool_decide as E'.
    + destruct E as [-> ->], E' as [-> ->]. done.
    + intros [= <-] H. by apply Hnew in H.
    + intros H [= <-]. by apply Hnew in H.
    + apply W1.
  - intros x a. rewrite child_set. case_bool_decide; [|apply W2]. intros [= ->]. tauto.
  - intros a f. rewrite child_set. case_bool_decide as E; [|apply W3]. destruct E as [E ->]. congruence.
  - intros x a y. rewrite child_set. intros H. destruct (decide (y = d)) as [->|Hne]; [by rewrite lookup_insert_eq|].
    rewrite lookup_insert_ne by done. case_bool_decide; [injection H as ->; tauto|eauto].
  - intros x a f. rewrite child_set. case_bool_decide; [intros [= ->]; tauto|eauto].
  - intros x. destruct (W6 x) as [Hnd Hin]. setoid_rewrite child_set. rewrite dir_at_with.
    case_bool_decide as E; [subst x|split; [done|]; intros a; by rewrite bool_decide_eq_false_2 by tauto].
    unfold dir_set. cbn. change (dir_entries (dir_at d o) !! n) with (child o d n).
    destruct (child o d n) as [e0|] eqn:Ec.
    + split; [done|]. intros a. rewrite Hin. case_bool_decide as E; [|done]. destruct E as [_ ->]. by rewrite Ec.
    + split.
      * apply NoDup_app. split_and!; [done| |apply NoDup_singleton]. intros a Ha Ha'%list_elem_of_singleton. subst.
        apply Hin in Ha. rewrite Ec in Ha. by destruct Ha.
      * intros a. rewrite elem_of_app, list_elem_of_singleton, Hin. case_bool_decide as E.
        -- destruct E as [_ ->]. split; [by eexists|by right].
        -- split; [intros [|]; tauto|tauto].
  - intros x a f. rewrite child_set. change (mf_name (file_at f (with_dir _ _ _))) with (mf_name (file_at f o)).
    case_bool_decide as E; [|apply W7]. destruct E as [-> ->]. intros [= ->]. tauto.
Qed.

Lemma wf_del o d n X : fs_wf o -> dir_del n (dir_at d o) = Some X -> fs_wf (with_dir d X o).
Proof.
  intros [W0 W1 W2 W3 W4 W5 W6 W7] Hd. pose proof (child_del o d n X) as Hc.
  constructor; cbn [fs_tree fs_dirs fs_files with_dir set_dirs].
  - apply lookup_insert_is_Some. destruct (decide (d = fs_tree o)); auto.
  - intros x a x' a' e'. rewrite !Hc by done. do 2 case_bool_decide; try done. apply W1.
  - intros x a. rewrite Hc by done. case_bool_decide; [done|apply W2].
  - intros a f. rewrite Hc by done. case_bool_decide; [done|apply W3].
  - intros x a y. rewrite Hc by done. destruct (decide (y = d)) as [->|Hne]; [by rewrite lookup_insert_eq|].
    rewrite lookup_insert_ne by done. case_bool_decide; [done|eauto].
  - intros x a f. rewrite Hc by done. case_bool_decide; [done|eauto].
  - intros x. destruct (W6 x) as [Hnd Hin].
    assert (forall a, child (with_dir d X o) x a = _) as Hc' by (intros a; by apply Hc). setoid_rewrite Hc'.
    rewrite dir_at_with. case_bool_decide as E; [subst x|split; [done|]; intros a; by rewrite bool_decide_eq_false_2 by tauto].
    unfold dir_del in Hd. destruct (dir_entries (dir_at d o) !! n) eqn:En; [|done]. injection Hd as <-. cbn.
    destruct (remove_first_elem n _ Hnd) as [H1 H2]. split; [done|]. intros a. rewrite H2, Hin.
    case_bool_decide as E; [destruct E as [_ ->]; split; [tauto|by intros []]|]. tauto.
  - intros x a f. rewrite Hc by done. case_bool_decide; [done|apply W7].
Qed.

Lemma wf_file o f x : fs_wf o -> mf_name x = mf_name (file_at f o) -> fs_wf (with_file f x o).
Proof.
  intros [W0 W1 W2 W3 W4 W5 W6 W7] Hn. constructor; try done.
  - intros d n g H. cbn. destruct (decide (g = f)) as [->|]; [by rewrite lookup_insert_eq|].
    rewrite lookup_insert_ne by done. eauto.
  - intros d n g H. unfold file_at in *. cbn. destruct (decide (g = f)) as [->|].
    + rewrite lookup_insert_eq. cbn. rewrite Hn. by eapply W7.
    + rewrite lookup_insert_ne by done. by eapply W7.
Qed.

Lemma wf_new_file o x : fs_wf o -> fs_wf (with_file (fresh (dom (fs_files o))) x o).
Proof.
  intros [W0 W1 W2 W3 W4 W5 W6 W7]. set (f := fresh (dom (fs_files o))).
  assert (fs_files o !! f = None) as Hf by (apply not_elem_of_dom, is_fresh).
  assert (forall d n g, child o d n = Some (EFile g) -> g <> f) as Hne.
  { intros d n g H ->. apply W5 in H as [? H]. congruence. }
  constructor; try done.
  - intros d n g H. cbn. rewrite lookup_insert_ne by (symmetry; by eapply Hne). eauto.
  - intros d n g H. unfold file_at. cbn. rewrite lookup_insert_ne by (symmetry; by eapply Hne). by eapply W7.
Qed.

Lemma fresh_file_new o d n : fs_wf o -> child o d n <> Some (EFile (fresh (dom (fs_files o)))).
Proof.
  intros Hwf H. apply (wf_store _ Hwf) in H. apply elem_of_dom in H. by apply is_fresh in H.
Qed.
Lemma fresh_dir_new o d n : fs_wf o -> child o d n <> Some (EDir (fresh (dom (fs_dirs o)))).
Proof.
  intros Hwf H. apply (wf_alloc _ Hwf) in H. apply elem_of_dom in H. by apply is_fresh in H.
Qed.

Lemma child_alloc o x a : child (with_dir (fresh (dom (fs_dirs o))) newDir o) x a = child o x a.
Proof.
  unfold child. rewrite dir_at_with. case_bool_decide as E; [|done]. unfold dir_at. subst x.
  rewrite (proj1 (not_elem_of_dom (fs_dirs o) _)) by apply is_fresh. done.
Qed.

Lemma names_alloc o x : dir_at x (with_dir (fresh (dom (fs_dirs o))) newDir o) = dir_at x o.
Proof.
  rewrite dir_at_with. case_bool_decide as E; [|done]. unfold dir_at. subst x.
  by rewrite (proj1 (not_elem_of_dom (fs_dirs o) _)) by apply is_fresh.
Qed.

Lemma wf_alloc_dir o : fs_wf o -> fs_wf (with_dir (fresh (dom (fs_dirs o))) newDir o).
Proof.
  intros [W0 W1 W2 W3 W4 W5 W6 W7]. constructor; cbn [fs_tree fs_dirs fs_files with_dir set_dirs].
  - apply lookup_insert_is_Some'. by right.
  - intros *. rewrite !child_alloc. apply W1.
  - intros *. rewrite child_alloc. apply W2.
  - intros *. rewrite child_alloc. apply W3.
  - intros d n x. rewrite child_alloc. intros H. apply lookup_insert_is_Some'. right. eauto.
  - intros *. rewrite child_alloc. apply W5.
  - intros d. rewrite names_alloc. destruct (W6 d). split; [done|]. intros n. by rewrite child_alloc.
  - intros *. rewrite child_alloc. apply W7.
Qed.

Lemma walk_ext o o' d q : (forall x a, child o' x a = child o x a) -> walk o' d q = walk o d q.
Proof.
  intros H. revert d. induction q as [|a [|b q] IH]; intros d; [done|apply H|].
  rewrite !walk_cons, H. destruct (child o d a) as [[]|]; [done| |done]. apply IH.
Qed.

(** A directory found by a path is not the top. *)
Lemma found_not_top o q d : fs_wf o -> walk o (fs_tree o) q = Some (EDir d) -> d <> fs_tree o.
Proof.
  intros Hwf. destruct q as [|n q _] using rev_ind; [done|]. rewrite walk_snoc.
  destruct (goto o (fs_tree o) q); [|done]. intros H ->. by apply (wf_top _ Hwf) in H.
Qed.
End tree.

(** ** The file system as a map *)

Inductive node := NDir | NFile (c : content).

Definition view (o : osaccess) (q : list bytes) : option node :=
  match walk o (fs_tree o) q with
  | Some (EDir _) => Some NDir
  | Some (EFile f) => Some (NFile (mf_content (file_at f o)))
  | None => None
  end.

Definition vset (p : list bytes) (x : option node) (v : list bytes -> option node) : list bytes -> option node :=
  fun q => if bool_decide (q = p) then x else v q.

(** The place of a path and of its parent. *)
Definition key (path : bytes) : list bytes := allParts (parsePath path).
Definition up (path : bytes) : list bytes := allParts (pp_parent (parsePath path)).

Inductive fs_op :=
| OWrite (path : bytes) (c : content)
| OAppend (path : bytes) (text : bool) (data : bytes)
| OMkdir (path : bytes) (existOK : bool)
| OUnlink (path : bytes)
| ORmdir (path : bytes).

Definition run_fs (IsPrint : Z -> bool) (op : fs_op) : OS () :=
  match op with
  | OWrite path c => writeFile IsPrint (parsePath path) c
  | OAppend path text data => appendData IsPrint (parsePath path) text data
  | OMkdir path existOK => PathMkdir IsPrint path false existOK
  | OUnlink path => PathUnlink IsPrint path
  | ORmdir path => PathRmdir IsPrint path
  end.

(** The content after an append, if the old one can be read that way. *)
Definition appended (c : content) (text : bool) (data : bytes) : option content :=
  if text then match contentText c with inr old => Some (CText (old ++ data)) | inl _ => None end
  else match contentBytes c with inr old => Some (CBytes (old ++ data)) | inl _ => None end.

Definition fresh_content (text : bool) (data : bytes) : content := if text then CText data else CBytes data.

(** Whether an operation succeeds on a file system, and the file system then. *)
Inductive fs_spec (v : list bytes -> option node) : fs_op -> bool -> (list bytes -> option node) -> Prop :=
| sp_overwrite path c c' : v (key path) = Some (NFile c') ->
    fs_spec v (OWrite path c) true (vset (key path) (Some (NFile c)) v)
| sp_create path c : v (key path) = None -> v (up path) = Some NDir ->
    fs_spec v (OWrite path c) true (vset (key path) (Some (NFile c)) v)
| sp_no_write path c : v (key path) = Some NDir \/ v (key path) = None /\ v (up path) <> Some NDir ->
    fs_spec v (OWrite path c) false v
| sp_append path text data c c' : v (key path) = Some (NFile c) -> appended c text data = Some c' ->
    fs_spec v (OAppend path text data) true (vset (key path) (Some (NFile c')) v)
| sp_no_append path text data c : v (key path) = Some (NFile c) -> appended c text data = None ->
    fs_spec v (OAppend path text data) false v
| sp_append_new path text data b v' : (forall c, v (key path) <> Some (NFile c)) ->
    fs_spec v (OWrite path (fresh_content text data)) b v' -> fs_spec v (OAppend path text data) b v'
| sp_mkdir path existOK : v (key path) = None -> v (up path) = Some NDir ->
    fs_spec v (OMkdir path existOK) true (vset (key path) (Some NDir) v)
| sp_mkdir_there path : v (key path) = Some NDir -> fs_spec v (OMkdir path true) true v
| sp_no_mkdir path existOK :
    match v (key path) with
    | Some NDir => existOK = false | Some (NFile _) => True | None => v (up path) <> Some NDir
    end -> fs_spec v (OMkdir path existOK) false v
| sp_unlink path c : v (key path) = Some (NFile c) ->
    fs_spec v (OUnlink path) true (vset (key path) None v)
| sp_no_unlink path : (forall c, v (key path) <> Some (NFile c)) -> fs_spec v (OUnlink path) false v
| sp_rmdir path : v (key path) = Some NDir -> pp_parts (parsePath path) <> [] ->
    (forall n, v (key path ++ [n]) = None) -> fs_spec v (ORmdir path) true (vset (key path) None v)
| sp_no_rmdir path :
    v (key path) <> Some NDir \/ (exists n, v (key path ++ [n]) <> None) \/ pp_parts (parsePath path) = [] ->
    fs_spec v (ORmdir path) false v.

Section refinement.
Variable IsPrint : Z -> bool.
Implicit Types o : osaccess.

Definition succeeded {A} (r : oserror + A) : bool := match r with inr _ => true | inl _ => false end.

(** [o'] is an allowed outcome of [op] on [o]. *)
Definition refines (op : fs_op) o (r : oserror + ()) o' : Prop :=
  fs_wf o' /\ (succeeded r = false -> o' = o)
  /\ exists v', fs_spec (view o) op (succeeded r) v' /\ forall q, view o' q = v' q.

Lemma refused op o e : fs_wf o -> fs_spec (view o) op false (view o) -> refines op o (inl e) o.
Proof. intros Hwf Hs. split; [done|]. split; [done|]. by exists (view o). Qed.

Lemma view_dir o q d : walk o (fs_tree o) q = Some (EDir d) -> view o q = Some NDir.
Proof. unfold view. by intros ->. Qed.

(** Writing a file's record where it is found. *)
Lemma view_with_file o f x q0 : fs_wf o -> walk o (fs_tree o) q0 = Some (EFile f) ->
  forall q, view (with_file f x o) q = vset q0 (Some (NFile (mf_content x))) (view o) q.
Proof.
  intros Hwf Hq0 q. unfold view, vset. change (fs_tree (with_file f x o)) with (fs_tree o).
  rewrite (walk_ext o (with_file f x o)) by done. case_bool_decide as E.
  - subst q. rewrite Hq0. unfold file_at. cbn. by rewrite lookup_insert_eq.
  - destruct (walk o (fs_tree o) q) as [[g|]|] eqn:Ew; [|done..]. unfold file_at. cbn.
    destruct (decide (g = f)) as [->|]; [|by rewrite lookup_insert_ne].
    by rewrite (walk_inj o q q0 (EFile f) Hwf Ew Hq0) in E.
Qed.

(** The parent of a path that is not there, or whose entry is below it. *)
Lemma key_snoc path : pp_parts (parsePath path) <> [] -> key path = up path ++ [pp_name (parsePath path)].
Proof. apply allParts_snoc. Qed.

Lemma key_top path : pp_parts (parsePath path) = [] -> key path = up path.
Proof. intros E. unfold key, up, pp_parent. by rewrite E. Qed.

Lemma view_one o o' d n oe q0 : fs_wf o -> one_entry o o' d n oe -> goto o (fs_tree o) q0 = Some d ->
  leaf_entry o (child o d n) -> leaf_entry o' oe ->
  (forall x a f, child o x a = Some (EFile f) -> file_at f o' = file_at f o) ->
  forall q, view o' q = vset (q0 ++ [n])
    (match oe with Some (EDir _) => Some NDir | Some (EFile f) => Some (NFile (mf_content (file_at f o'))) | None => None end)
    (view o) q.
Proof.
  intros Hwf Ho Hg Hl Hl' Hf q. unfold view, vset. rewrite (walk_one o o' d n oe q0) by done.
  case_bool_decide as E; [done|]. destruct (walk o (fs_tree o) q) as [[f|]|] eqn:Ew; [|done..].
  destruct q as [|m q _] using rev_ind; [done|]. rewrite walk_snoc in Ew.
  destruct (goto o (fs_tree o) q) as [x|]; [|done]. by rewrite (Hf x m f).
Qed.

Lemma view_set_list o l q : view (set_list l o) q = view o q.
Proof. unfold view. by rewrite (walk_ext o (set_list l o)). Qed.

Lemma write_refines path c o : fs_wf o ->
  let '(r, o') := writeFile IsPrint (parsePath path) c o in refines (OWrite path c) o r o'.
Proof.
  intros Hwf. set (p := parsePath path). unfold writeFile, mbind, OS_bind, get_os.
  unfold fs_entry. fold (key path) (up path).
  change (allParts p) with (key path). change (allParts (pp_parent p)) with (up path).
  destruct (walk o (fs_tree o) (key path)) as [[f|d]|] eqn:Ek.
  - unfold write_content. split; [by apply wf_file|]. split; [done|].
    eexists. split; [eapply sp_overwrite|].
    + unfold view. by rewrite Ek.
    + intros q. erewrite view_with_file by done. done.
  - apply refused; [done|]. apply sp_no_write. left. by eapply view_dir.
  - assert (view o (key path) = None) as Hnone by (unfold view; by rewrite Ek).
    destruct (walk o (fs_tree o) (up path)) as [[f|d]|] eqn:Eu.
    1,3: apply refused; [done|]; apply sp_no_write; right; split; [done|]; unfold view; by rewrite Eu.
    unfold put_os, set_entry. set (f := fresh (dom (fs_files o))).
    set (x := NewMemoryFile (pp_String p) c default_perm). set (o1 := with_file f x o).
    assert (pp_parts p <> []) as Hne by (intros E; rewrite (key_top path E) in Ek; congruence).
    assert (fs_wf o1) as Hwf1 by by apply wf_new_file.
    assert (file_at f o1 = x) as Hx by (unfold file_at; cbn; by rewrite lookup_insert_eq).
    assert (goto o1 (fs_tree o1) (up path) = Some d) as Hg.
    { apply walk_goto. rewrite (walk_ext o o1) by done. exact Eu. }
    assert (child o1 d (pp_name p) = None) as Hc.
    { rewrite (key_snoc path Hne), walk_snoc in Ek. apply walk_goto in Eu. by rewrite Eu in Ek. }
    set (o2 := with_dir d (dir_set (pp_name p) (EFile f) (dir_at d o1)) o1).
    assert (fs_wf o2) as Hwf2.
    { apply wf_set; [done|by eapply (found_not_top o)|intros; by apply (fresh_file_new o)|]. split_and!.
      - cbn. rewrite lookup_insert_eq. by eexists.
      - rewrite Hx. cbn. by rewrite path_print_parse by apply parsePath_ok. }
    split; [by destruct Hwf2; constructor|]. split; [done|].
    eexists. split; [by apply sp_create; [|eapply view_dir]|].
    intros q. rewrite view_set_list, (key_snoc path Hne).
    rewrite (view_one o o2 d (pp_name p) (Some (EFile f)) (up path)); [|done|exact (set_one o1 d (pp_name p) (EFile f))|..].
    + change (file_at f o2) with (file_at f o1). by rewrite Hx.
    + by apply walk_goto.
    + by change (child o d (pp_name p)) with (child o1 d (pp_name p)); rewrite Hc.
    + done.
    + intros y a g Hy. change (file_at g o2) with (file_at g o1). unfold file_at. cbn. rewrite lookup_insert_ne; [done|].
      intros E. apply (fresh_file_new o y a Hwf). by rewrite Hy, <- E.
Qed.

Lemma append_refines path text data o : fs_wf o ->
  let '(r, o') := appendData IsPrint (parsePath path) text data o in refines (OAppend path text data) o r o'.
Proof.
  intros Hwf. pose proof (write_refines path (fresh_content text data) o Hwf) as Hw.
  unfold appendData, mbind, OS_bind, get_os. unfold fs_entry. change (allParts (parsePath path)) with (key path).
  destruct (walk o (fs_tree o) (key path)) as [[f|d]|] eqn:Ek.
  - assert (view o (key path) = Some (NFile (mf_content (file_at f o)))) as Hv by (unfold view; by rewrite Ek).
    assert (forall c', appended (mf_content (file_at f o)) text data = Some c' ->
      let '(r, o') := write_content f c' o in refines (OAppend path text data) o r o') as Hok.
    { intros c' Ha. unfold write_content. split; [by apply wf_file|]. split; [done|].
      eexists. split; [by eapply sp_append|]. intros q. by erewrite view_with_file by done. }
    unfold appended in Hok. destruct text; unfold lift.
    + destruct (contentText (mf_content (file_at f o))) as [e|old] eqn:Et; [|by apply Hok].
      apply refused; [done|]. eapply sp_no_append; [done|]. unfold appended. by rewrite Et.
    + destruct (contentBytes (mf_content (file_at f o))) as [e|old] eqn:Et; [|by apply Hok].
      apply refused; [done|]. eapply sp_no_append; [done|]. unfold appended. by rewrite Et.
  - apply refused; [done|]. apply sp_append_new; [intros c; unfold view; by rewrite Ek|].
    apply sp_no_write. left. by eapply view_dir.
  - change (if text then CText data else CBytes data) with (fresh_content text data).
    destruct (writeFile IsPrint (parsePath path) (fresh_content text data) o) as [r o'].
    destruct Hw as (H1 & H2 & v' & H3 & H4). split; [done|]. split; [done|]. exists v'. split; [|done].
    apply sp_append_new; [|done]. intros c. unfold view. by rewrite Ek.
Qed.

Lemma mkdir_refines path existOK o : fs_wf o ->
  let '(r, o') := PathMkdir IsPrint path false existOK o in refines (OMkdir path existOK) o r o'.
Proof.
  intros Hwf. set (p := parsePath path). unfold PathMkdir, mbind, OS_bind, get_os. unfold fs_entry.
  change (allParts (parsePath path)) with (key path). change (allParts (pp_parent (parsePath path))) with (up path).
  assert (view o (key path) = match walk o (fs_tree o) (key path) with
    | Some (EDir _) => Some NDir | Some (EFile f) => Some (NFile (mf_content (file_at f o))) | None => None end) as Hv by done.
  destruct (walk o (fs_tree o) (key path)) as [[f|d]|] eqn:Ek.
  - apply refused; [done|]. apply sp_no_mkdir. by rewrite Hv.
  - destruct existOK; [|apply refused; [done|]; apply sp_no_mkdir; by rewrite Hv].
    split; [done|]. split; [done|]. exists (view o). split; [by apply sp_mkdir_there|done].
  - destruct (walk o (fs_tree o) (up path)) as [[f|d]|] eqn:Eu.
    1,3: cbn [negb]; apply refused; [done|]; apply sp_no_mkdir; rewrite Hv; unfold view; by rewrite Eu.
    unfold alloc_dir, put_os, set_entry. set (y := fresh (dom (fs_dirs o))). set (o1 := with_dir y newDir o).
    assert (pp_parts p <> []) as Hne by (intros E; rewrite (key_top path E) in Ek; congruence).
    assert (fs_wf o1) as Hwf1 by by apply wf_alloc_dir.
    assert (child o d (pp_name p) = None) as Hc.
    { rewrite (key_snoc path Hne), walk_snoc in Ek. apply walk_goto in Eu. by rewrite Eu in Ek. }
    set (o2 := with_dir d (dir_set (pp_name p) (EDir y) (dir_at d o1)) o1).
    assert (y <> fs_tree o) as Hyt.
    { intros E. destruct (wf_tree _ Hwf) as [t Ht]. rewrite <- E in Ht. apply elem_of_dom_2 in Ht. by apply is_fresh in Ht. }
    assert (y <> d) as Hyd.
    { intros E. destruct (up path) as [|m l _] eqn:El using rev_ind; [done|]. rewrite walk_snoc in Eu.
      destruct (goto o (fs_tree o) l); [|done]. rewrite <- E in Eu. by apply (fresh_dir_new o) in Eu. }
    assert (fs_wf o2) as Hwf2.
    { apply wf_set; [done|by eapply (found_not_top o)|intros d' n'; rewrite (child_alloc o); by apply (fresh_dir_new o)|].
      split; [done|]. cbn. by rewrite lookup_insert_eq. }
    split; [done|]. split; [done|]. eexists. split; [by apply sp_mkdir; [|eapply view_dir]|].
    intros q. rewrite (key_snoc path Hne).
    rewrite (view_one o o2 d (pp_name p) (Some (EDir y)) (up path)); [done|done|..].
    + split; [done|]. intros x a. unfold o2. rewrite child_set. by rewrite (child_alloc o).
    + by apply walk_goto.
    + by rewrite Hc.
    + intros n. unfold o2. rewrite child_set, bool_decide_eq_false_2 by naive_solver.
      unfold child, o1. rewrite dir_at_with, bool_decide_eq_true_2 by done. done.
    + done.
Qed.

(** The place of an entry: its parent directory and its name there. *)
Lemma found_at path o e : fs_wf o -> walk o (fs_tree o) (key path) = Some e -> pp_parts (parsePath path) <> [] ->
  exists d, walk o (fs_tree o) (up path) = Some (EDir d) /\ goto o (fs_tree o) (up path) = Some d
    /\ child o d (pp_name (parsePath path)) = Some e.
Proof.
  intros Hwf Hk Hne. rewrite (key_snoc path Hne), walk_snoc in Hk.
  destruct (goto o (fs_tree o) (up path)) as [d|] eqn:Eg; [|done]. exists d. split; [|done].
  destruct (up path) as [|m l _] eqn:El using rev_ind.
  - cbn in Eg. injection Eg as <-. exfalso. apply (wf_roots _ Hwf) in Hk as [Hs _].
    destruct (parsePath_ok path) as [_ Hparts]. unfold pp_name in Hs.
    destruct (pp_parts (parsePath path)) as [|x ps _] using rev_ind; [done|]. rewrite last_snoc in Hs. cbn in Hs.
    apply Forall_app in Hparts as [_ Hx]. inv Hx. tauto.
  - rewrite goto_snoc in Eg. rewrite walk_snoc. destruct (goto o (fs_tree o) l) as [y|]; [|done].
    destruct (child o y m) as [[]|]; congruence.
Qed.

Lemma unlink_refines path o : fs_wf o ->
  let '(r, o') := PathUnlink IsPrint path o in refines (OUnlink path) o r o'.
Proof.
  intros Hwf. set (p := parsePath path). unfold PathUnlink, fs_file, entryExists, parentDir, mbind, OS_bind.
  unfold fs_entry. change (allParts (parsePath path)) with (key path).
  destruct (walk o (fs_tree o) (key path)) as [[f|d]|] eqn:Ek.
  2,3: apply refused; [done|]; apply sp_no_unlink; intros c; unfold view; by rewrite Ek.
  cbn [mret OS_ret]. unfold delete_file. set (x := MemFile _ _ _ _ _). set (o1 := with_file f x o).
  assert (pp_parts p <> []) as Hne.
  { intros E. pose proof Ek as Ek'. rewrite key_top in Ek' by done. unfold up, pp_parent in Ek'. fold p in Ek'. rewrite E in Ek'.
    unfold allParts in Ek'. rewrite E in Ek'. case_bool_decide; [done|]. cbn in Ek'.
    by destruct (wf_roots _ Hwf _ _ Ek') as [_ [d' ?]]. }
  destruct (found_at path o _ Hwf Ek Hne) as (d & Hup & Hg & Hc). fold p in Hc.
  change (allParts (pp_parent (parsePath path))) with (up path).
  rewrite (walk_ext o o1) by done. change (fs_tree o1) with (fs_tree o). rewrite Hup.
  unfold get_os, del_entry. assert (fs_wf o1) as Hwf1 by by apply wf_file.
  assert (mf_name (file_at f o1) = pp_name p) as ->.
  { unfold file_at. cbn. rewrite lookup_insert_eq. cbn. by eapply (wf_own _ Hwf). }
  destruct (dir_del (pp_name p) (dir_at d o1)) as [X|] eqn:Ed.
  2: { exfalso. unfold dir_del in Ed. change (dir_entries (dir_at d o1) !! pp_name p) with (child o d (pp_name p)) in Ed.
       by rewrite Hc in Ed. }
  split; [by eapply wf_del|]. split; [done|]. eexists. split; [eapply sp_unlink; unfold view; by rewrite Ek|].
  intros q. rewrite (key_snoc path Hne). rewrite (view_one o1 _ d (pp_name p) None (up path)).
  - unfold vset. fold p. case_bool_decide as E; [done|]. rewrite (view_with_file o f x (key path)) by done.
    unfold vset. rewrite bool_decide_eq_false_2 by (by rewrite (key_snoc path Hne)). done.
  - done.
  - exact (del_one o1 d (pp_name p) X Ed).
  - rewrite <- Hg. change (fs_tree o1) with (fs_tree o). clear. generalize (fs_tree o). induction (up path) as [|a l IH]; intros t; [done|].
    cbn. change (child o1 t a) with (child o t a). destruct (child o t a) as [[]|]; done || apply IH.
  - change (child o1 d (pp_name p)) with (child o d (pp_name p)). by rewrite Hc.
  - done.
  - done.
Qed.

Lemma names_empty o d : fs_wf o -> (0 <? len (dir_names (dir_at d o))) = false <-> forall n, child o d n = None.
Proof.
  intros Hwf. destruct (wf_names _ Hwf d) as [_ Hin]. unfold len. split.
  - intros H n. destruct (dir_names (dir_at d o)) as [|x l]; [|apply Z.ltb_ge in H; cbn [length] in H; lia].
    destruct (child o d n) eqn:E; [|done]. assert (n ∈ []) as Hn by (apply Hin; by rewrite E). by apply not_elem_of_nil in Hn.
  - intros H. destruct (dir_names (dir_at d o)) as [|x l]; [done|].
    assert (is_Some (child o d x)) as [e He] by (apply Hin; by left). by rewrite H in He.
Qed.

Lemma rmdir_refines path o : fs_wf o ->
  let '(r, o') := PathRmdir IsPrint path o in refines (ORmdir path) o r o'.
Proof.
  intros Hwf. set (p := parsePath path). unfold PathRmdir, fs_dir, entryExists, parentDir, mbind, OS_bind.
  unfold fs_entry. change (allParts (parsePath path)) with (key path).
  destruct (walk o (fs_tree o) (key path)) as [[f|d]|] eqn:Ek.
  1,3: apply refused; [done|]; apply sp_no_rmdir; left; unfold view; by rewrite Ek.
  cbn [mret OS_ret]. unfold get_os. pose proof (walk_goto _ _ _ _ Ek) as Hgk.
  assert (forall n, walk o (fs_tree o) (key path ++ [n]) = child o d n) as Hbelow by (intros n; by rewrite walk_snoc, Hgk).
  destruct (0 <? len (dir_names (dir_at d o))) eqn:El.
  { apply refused; [done|]. apply sp_no_rmdir. right. left.
    destruct (wf_names _ Hwf d) as [_ Hin]. destruct (dir_names (dir_at d o)) as [|x l]; [done|].
    destruct (proj1 (Hin x)) as [e He]; [by left|]. exists x. unfold view. rewrite Hbelow, He. by destruct e. }
  pose proof (proj1 (names_empty o d Hwf) El) as Hempty. change (allParts (pp_parent (parsePath path))) with (up path).
  destruct (decide (pp_parts p = [])) as [E|Hne].
  { rewrite <- (key_top path E), Ek. unfold del_entry, dir_del. fold p.
    pose proof (Hempty (pp_name p)) as He0. unfold child in He0. rewrite He0.
    apply refused; [done|]. apply sp_no_rmdir. auto. }
  destruct (found_at path o _ Hwf Ek Hne) as (d' & Hup & Hg & Hc). fold p in Hc. rewrite Hup. unfold del_entry. fold p.
  destruct (dir_del (pp_name p) (dir_at d' o)) as [X|] eqn:Ed.
  2: { exfalso. unfold dir_del in Ed. change (dir_entries (dir_at d' o) !! pp_name p) with (child o d' (pp_name p)) in Ed.
       by rewrite Hc in Ed. }
  split; [by eapply wf_del|]. split; [done|]. eexists. split; [apply sp_rmdir|].
  - by eapply view_dir.
  - done.
  - intros n. unfold view. by rewrite Hbelow, Hempty.
  - intros q. rewrite (key_snoc path Hne). rewrite (view_one o _ d' (pp_name p) None (up path)); try done.
    + by apply del_one.
    + by rewrite Hc.
Qed.
End refinement.

(** An empty file system. *)
Definition empty_fs : osaccess :=
  (New_osaccess (fun _ => true) ∅ [] ∅ (go "/")).2.

Lemma empty_dirs d : dir_at d empty_fs
  = if bool_decide (d = 0%nat) then DirObj [go "/"] {[ go "/" := EDir 1 ]} else newDir.
Proof.
  unfold dir_at. change (fs_dirs empty_fs) with
    (<[0%nat := DirObj [go "/"] {[ go "/" := EDir 1 ]}]> ({[ 1%nat := newDir ]} : gmap nat dirobj)).
  case_bool_decide as E; [subst; by rewrite lookup_insert_eq|]. rewrite lookup_insert_ne by done.
  destruct (decide (d = 1%nat)) as [->|]; [by rewrite lookup_singleton_eq|by rewrite lookup_singleton_ne].
Qed.

Lemma empty_fs_wf : fs_wf empty_fs.
Proof.
  assert (forall d n, child empty_fs d n = if bool_decide (d = 0%nat /\ n = go "/") then Some (EDir 1) else None) as Hc.
  { intros d n. unfold child. rewrite empty_dirs. case_bool_decide as E.
    - subst d. cbn [dir_entries]. destruct (decide (n = go "/")) as [->|Hn].
      + by rewrite lookup_singleton_eq, bool_decide_eq_true_2.
      + by rewrite lookup_singleton_ne, bool_decide_eq_false_2 by (done || tauto).
    - by rewrite bool_decide_eq_false_2 by tauto. }
  constructor.
  - by eexists.
  - intros d n d' n' e. rewrite !Hc. do 2 case_bool_decide; try done. naive_solver.
  - intros d n. rewrite Hc. by case_bool_decide.
  - intros n e. rewrite Hc. case_bool_decide as E; [|done]. destruct E as [_ ->]. intros [= <-]. split; [by left|by eexists].
  - intros d n x. rewrite Hc. case_bool_decide; [|done]. intros [= <-]. by eexists.
  - intros d n x. rewrite Hc. by case_bool_decide.
  - intros d. setoid_rewrite Hc. rewrite empty_dirs. destruct (decide (d = 0%nat)) as [->|Hd].
    + rewrite bool_decide_eq_true_2 by done. cbn [dir_names]. split; [apply NoDup_singleton|].
      intros n. rewrite list_elem_of_singleton. case_bool_decide as E; split; intros H.
      * by eexists.
      * tauto.
      * tauto.
      * by destruct H.
    + rewrite bool_decide_eq_false_2 by done. cbn [dir_names newDir]. split; [constructor|]. intros n. rewrite elem_of_nil.
      case_bool_decide; [tauto|]. by split; [|intros []].
  - intros d n f. rewrite Hc. by case_bool_decide.
Qed.

(** C32. The in-memory file system refines a map from paths to nodes: on a store
    that is a tree with every file under its own name, writing, appending,
    creating a directory, unlinking and removing a directory succeed exactly when
    the map allows it, then change exactly the one path they name, and otherwise
    change nothing; and the store stays such a tree. *)
Theorem os_operations_refine (IsPrint : Z -> bool) (op : fs_op) (o : osaccess) :
  fs_wf o ->
  fs_wf (run_fs IsPrint op o).2
  /\ (succeeded (run_fs IsPrint op o).1 = false -> (run_fs IsPrint op o).2 = o)
  /\ exists v', fs_spec (view o) op (succeeded (run_fs IsPrint op o).1) v'
       /\ forall q, view (run_fs IsPrint op o).2 q = v' q.
Proof.
  intros Hwf.
  assert (let '(r, o') := run_fs IsPrint op o in refines op o r o') as H
    by (destruct op; [by apply write_refines|by apply append_refines|by apply mkdir_refines
                     |by apply unlink_refines|by apply rmdir_refines]).
  destruct (run_fs IsPrint op o) as [r o']. exact H.
Qed.

Lemma os_operations_refine_witness :
  let o := (run_fs (fun _ => true) (OWrite (go "/a") (CText (go "x"))) empty_fs).2 in
  fs_wf o /\ view o [go "/"; go "a"] = Some (NFile (CText (go "x"))).
Proof.
  cbv zeta.
  destruct (os_operations_refine (fun _ => true) (OWrite (go "/a") (CText (go "x"))) empty_fs empty_fs_wf)
    as (Hwf & _ & v' & _ & Hv).
  split; [exact Hwf|]. vm_compute. reflexivity.
Defined.

(** Where a moved file comes apart: [PathRename] keeps a file's name and path,
    and [PathUnlink] removes the directory entry of that name. After renaming
    /d/a to /d/b and writing a new /d/a, unlinking /d/b reports success but removes
    the new /d/a, whatever it holds, and /d/b is still there. *)
Theorem unlink_removes_other_file (IsPrint : Z -> bool) (c1 c2 : content) :
  let o := (New_osaccess IsPrint {[ 0%nat := NewMemoryFile (go "/d/a") c1 default_perm ]} [0%nat] ∅ (go "/")).2 in
  let o := (PathRename IsPrint (go "/d/a") (go "/d/b") o).2 in
  let o := (writeFile IsPrint (parsePath (go "/d/a")) c2 o).2 in
  let '(r, o') := PathUnlink IsPrint (go "/d/b") o in
  view o (key (go "/d/a")) = Some (NFile c2) /\ view o (key (go "/d/b")) = Some (NFile c1)
  /\ r = inr () /\ view o' (key (go "/d/a")) = None /\ view o' (key (go "/d/b")) = Some (NFile c1).
Proof. vm_compute. split_and!; reflexivity. Qed.
